(* ===== verification/_CoqProject ===== *)
-Q . S2P
Prelude.v
Packet.v
RingBuffer.v
Sys.v
Util.v
Neighbour.v
KeyTable.v
UtHash.v
UtExtra.v
UtSort.v
UtOrder.v
UtSelect.v
UtHashes.v
UtOom.v
UtBloom.v
UtKeys.v
UtMurmur.v
HashTable.v
Requests.v
Server.v
ServerRun.v
Peer.v
NodeRun.v
Lookup.v
Ring.v
Routing.v
Network.v
History.v
Setup.v
Client.v
IpStr.v
EndToEnd.v
Webserver.v
Scratch.v
