(* ===== verification/Prelude.v ===== *)
(** * A verification of the RNVS exercises: a DHT node, its client, and a web server

    ** The program

    [praxis2] is a distributed hash table over TCP.  A node ([peer.c]) keeps a
    part of the keys, those whose hash lies between its predecessor's and its
    own identifier, and knows its two neighbours in a ring.  A client
    ([client.c]) sends a GET, SET or DELETE request to any node.  A node that
    owns the key answers; if its successor owns it the request is relayed;
    otherwise the request is queued ([requests.c]) and a lookup travels round
    the ring until the node before the owner replies with the owner's address,
    whereupon the queued requests are relayed.  Below this sit the connection
    loop with its receive state machine ([server.c]), the wire format
    ([packet.c]), the key-value store ([hash_table.c]), the peers
    ([neighbour.c]), ring buffers and whole-buffer transfers ([util.c]), and
    Troy Hanson's hash table macros ([uthash.h]).  [praxis1/webserver.c] is a
    separate first exercise: a server that answers HTTP requests with a fixed
    message.

    ** The files

    - [Prelude] (this file): outcomes of C code, machine integers, memory
      blocks with uninitialised bytes, the state monad, shared lemmas and
      automation.
    - [Packet]: [packet.c], [packet.h].  [RingBuffer], [Util]: [util.c], [util.h].
    - [Sys]: the operating system as a script of answers and a trace of effects.
    - [Neighbour]: [neighbour.c].  [Ring]: its responsibility test, around a ring.
    - [KeyTable]: the interface ([KeyTable]) and contract ([KeyTableSpec]) of the
      hash macros towards their two users, [HashTable] ([hash_table.c]) and
      [Requests] ([requests.c]), which are proved against the contract alone;
      [UtHash] proves that the macros meet it.
    - [UtHash]: the macros the program expands, with pointers, chains and bucket
      expansion.  [UtExtra]: [HASH_FSCK], [HASH_REPLACE], [HASH_CLEAR], [HASH_CNT],
      [HASH_OVERHEAD].  [UtSort]: [HASH_SRT].  [UtOrder]: [HASH_ADD_INORDER],
      and programs of the operations ([HASH_SELECT] excepted).
      [UtSelect]: [HASH_SELECT].  [UtKeys]: the macros for strings, integers and
      pointers as keys, [HASH_ITER], [HASH_EMIT_KEY].  [UtHashes]: the other hash
      functions, and that four of them tell apart keys that differ in one byte.
      What [uthash.h] does under other settings than the program's:
      [UtOom] ([HASH_NONFATAL_OOM]), [UtBloom] ([HASH_BLOOM], another instance of
      [KeyTable]), [UtMurmur] (Murmur on processors other than Intel's).
    - [Server]: [server.c], over any packet callback; [ServerRun]: its loops end.
      [Peer]: the callback [handle_packet] of [peer.c] and all it calls; [NodeRun]:
      its loops end.  [Setup]: [server_setup] and [main] of [peer.c].
    - [Lookup]: what single nodes do with the bytes of a request, a lookup, a
      reply.  [Routing]: the way of a request around a ring of nodes.
    - [Network]: all nodes together as a transition system, whose steps are delivered
      packets.  [History]: the server as a machine ([server_step]: its system calls,
      bytes received on a connection, a packet made of them and handled once), whose
      steps the runs of the poll loop are.
    - [Client]: [client.c].  [IpStr]: [get_ip_str] of [util.c].  [EndToEnd]: the client
      against a node.
    - [Webserver]: [praxis1/webserver.c].
    - [Scratch]: the hand-written checks of [scratch1.c].

    ** How state and operations correspond to the code

    C functions become functions of the same name.  A computation returns [Ok],
    [Ub] (the C standard gives it no meaning), [Block] (it waits for the
    environment for ever) or [NoFuel] (the bound on a loop was too small).
    Integers are [Z], with the wrap-around of their C type written out ([u8],
    [u16], [u32], [u64], [i32]).  A memory block is a list of [cell]s, a byte or
    an indeterminate one; reading the latter as a number is [Ub], and so is
    every access outside a block.  Pointers to structures are keys ([ptr]) of a
    finite map, the heap; linked structures keep their links, so that dangling
    pointers and cycles can be expressed; the store's copies of keys and values are
    blocks of a heap too, freed one by one.  The record fields are the C ones.

    State is passed by the monad [ST].  The server's state is [Server.world]: the
    [server] structure with the heap of clients, the node's globals
    ([Peer.node]: [ht], [rt], [self], [pred], [succ]), and the operating system
    [io]: the answers still to come and the trace of what was sent, opened and
    closed.  Every theorem quantifies over the script: it holds for any
    chunking of the data by TCP, any failure, any order of readiness.

    ** The theorems

    - End to end: the client and the owning node together carry out each command
      ([client_node_exchange]); a node serves a client request cut into any
      pieces ([request_served], [own_request_semantics], [set_then_get]); the
      receive state machine delivers exactly the packets sent
      ([packet_reassembly]).
    - One map: the nodes of a ring together behave as a single finite map, of which
      each stores the shard it is responsible for: for packets delivered in any order
      ([ring_is_one_map], over the handlers of [Peer]), for one node's whole run over
      the poll loop of [Server] ([node_run_is_history]), and for the runs of all nodes
      interleaved in any way ([ring_runs_are_one_map]).
    - Routing: in a ring a request put to any node reaches the one node that owns
      the key, directly, by a relay, or by a lookup that the nodes in between pass
      on, and the client gets the owner's answer ([ring_request]); several
      requests that wait for one lookup are relayed in order ([reply_proxied]);
      some hashes are owned by no node ([lookup_never_answered],
      [peer_is_responsible_spec]).
    - Tables: the store refines a finite map ([htable_refines_map]), the open
      requests refine queues ([requests_refine_queues]); the macros add and
      delete one mapping ([uthash_add_find], [uthash_delete_find]), expansion
      changes nothing that can be seen ([expand_transparent]), sorting and
      ordered insertion sort ([hash_srt_sorts], [add_inorder_sorted]), the
      integrity check is exact and never fires ([fsck_exact],
      [fsck_after_operations]: after programs of insertions, replacements,
      deletions, sorts and clearings, but not after [HASH_SELECT], see
      [hash_select_correct]); a loop may delete as it iterates
      ([hash_iter_delete]); one changed byte changes the hash
      ([one_byte_changes_hash]).  An insertion refused for want of memory leaves the
      table as it was and the element's [hh.tbl] NULL ([add_oom_atomic]), the Bloom
      filter changes no answer ([bloom_transparent]), which bytes the portable Murmur
      hash reads is stated exactly ([mur_portable_spec]).
    - Running: no loop of a node reaches its bound, whatever the network and the
      other nodes do, and it stores only keys it is responsible for
      ([node_run_terminates]; for any callback [server_run_terminates]); the client
      list stays well formed through the poll loop ([node_keeps_clients]); shutdown
      closes everything ([server_stop_closes_all]).
    - Data: packets are well typed ([packet_type_preserved]); the wire format
      round trips, and the decoders' over-reads ([packet_roundtrip_data],
      [packet_roundtrip_ctrl], [packet_decode_body_safe_iff],
      [packet_decode_truncated]); ring buffers are bounded queues
      ([rb_refines_fifo]); transfers stay in the block and are complete, or the socket
      refused and failure is reported
      ([sendall_all_or_prefix], [recvall_collects], [recvall_error_ub]); an address
      that is printed ends with a NUL ([get_ip_str_terminated]).
    - Errors: [unreachable_peer_ub], [empty_body_ub], [client_input_ub], [peer_connect_all],
      [peer_setup_outcome], [hash_select_correct], [buf_struct_overflow],
      [split_request_hangs], [only_first_receive_answered] state, as theorems, behaviour that is not what the code means to do.

    ** Fuel

    Loops that are not structural carry fuel, computed from the state where they
    are called: a walk over linked nodes gets one more than the number of nodes
    in the heap, a copy loop the number of bytes, a receive or send loop the
    size of the script (every turn takes an answer), the poll loop one more than
    the length of the script, bucket expansion and the merge sort one more than
    the number of elements.  Where a theorem gives a result as [Ok], this fuel was
    enough.  [split_request_hangs] is the one loop that really does not end: it
    is stated for every amount of fuel.

    ** Not modelled

    Log and debug output, except where it reads memory in a way that matters; the
    functions that only free memory; failing [malloc] (the code does not test for it, except in
    [uthash.h], where it ends the process: [NodeRun] lets the node run as long as
    its tables have room, [UtOom] models the setting in which the failure is
    reported).  How much [malloc] rounds up is a parameter in [Webserver] alone, where
    a write beyond the size asked for depends on it.  Of [uthash.h] the macros that do the same as a modelled one without
    [decltype] and the debugging output are left out.
    [CMakeCCompilerId.c] and [CMakeCXXCompilerId.cpp] under the build trees are
    generated by CMake and not part of the program.  Nodes do not share a clock:
    [EndToEnd] and [Routing] join them by the bytes one writes and another reads,
    [Network] and [History] by the order in which they handle packets.  A run that
    waits for its environment for ever ([Block]) has no final state; since standard
    input may end a run at any poll, the theorems about finished runs cover what
    happened until any poll. *)

From stdpp Require Import base tactics list numbers option gmap.

#[global] Open Scope Z_scope.

(** ** Outcomes of C code

    [Ok a]    the code returned (or fell through) with [a];
    [Ub]      the code did something the C standard leaves undefined (a read or
              write outside an object, a use of an indeterminate byte as a
              number, a NULL or dangling dereference);
    [Block]   the code waits for the environment (the script of system call
              answers, see [Sys.v], has no answer for the call made);
    [NoFuel]  the fuel of a bounded loop ran out. *)
Inductive res (A : Type) : Type :=
  | Ok (a : A)
  | Ub
  | Block
  | NoFuel.
Arguments Ok {A} a.
Arguments Ub {A}.
Arguments Block {A}.
Arguments NoFuel {A}.

#[global] Instance res_ret : MRet res := fun A a => Ok a.
#[global] Instance res_bind : MBind res := fun A B f m =>
  match m with
  | Ok a => f a
  | Ub => Ub
  | Block => Block
  | NoFuel => NoFuel
  end.

#[global] Instance res_eq_dec {A} `{EqDecision A} : EqDecision (res A).
Proof. solve_decision. Defined.

(** The state monad over [res], for code that threads a mutable state. *)
Definition ST (S A : Type) : Type := S -> res (A * S).

#[global] Instance st_ret {S} : MRet (ST S) := fun A a s => Ok (a, s).
#[global] Instance st_bind {S} : MBind (ST S) := fun A B f m s =>
  match m s with
  | Ok (a, s') => f a s'
  | Ub => Ub
  | Block => Block
  | NoFuel => NoFuel
  end.

Definition st_get {S} : ST S S := fun s => Ok (s, s).
Definition st_put {S} (s : S) : ST S unit := fun _ => Ok (tt, s).
Definition st_modify {S} (f : S -> S) : ST S unit := fun s => Ok (tt, f s).
(** A stateless computation inside the state monad. *)
Definition st_lift {S A} (m : res A) : ST S A := fun s =>
  match m with
  | Ok a => Ok (a, s)
  | Ub => Ub
  | Block => Block
  | NoFuel => NoFuel
  end.

(** [*p] for a pointer that must not be NULL. *)
Definition deref {A} (o : option A) : res A :=
  match o with Some a => Ok a | None => Ub end.

Section ResLemmas.
Context {A B : Type}.

Lemma res_bind_ok (m : res A) (f : A -> res B) b :
  m ≫= f = Ok b <-> exists a, m = Ok a /\ f a = Ok b.
Proof. destruct m; cbn; naive_solver. Qed.

Lemma res_bind_Ok (a : A) (f : A -> res B) : Ok a ≫= f = f a.
Proof. reflexivity. Qed.

Lemma deref_ok (o : option A) a : deref o = Ok a <-> o = Some a.
Proof. destruct o; cbn; naive_solver. Qed.
End ResLemmas.

(** Sequencing in the state monad, one computed step at a time. *)
Lemma st_bind_Ok {S A B} (m : ST S A) (f : A -> ST S B) s a s' :
  m s = Ok (a, s') -> (m ≫= f) s = f a s'.
Proof. intros E. unfold mbind, st_bind. by rewrite E. Qed.

Lemma st_bind_inv {S A B} (m : ST S A) (f : A -> ST S B) s b s'' :
  (m ≫= f) s = Ok (b, s'') -> exists a s', m s = Ok (a, s') /\ f a s' = Ok (b, s'').
Proof.
  unfold mbind, st_bind. destruct (m s) as [[a s']| | |]; [|done..]. intros E. by exists a, s'.
Qed.

Lemma st_lift_Ok {S A} (m : res A) a (s : S) : m = Ok a -> st_lift m s = Ok (a, s).
Proof. by intros ->. Qed.

Create Rewrite HintDb res.
#[export] Hint Rewrite @res_bind_Ok : res.

(** Invert every bind of a hypothesis that says a computation returned. *)
Ltac inv_res :=
  repeat match goal with
  | H : Ok _ = Ok _ |- _ => injection H as H; subst
  | H : mret _ = Ok _ |- _ => injection H as H; subst
  | H : _ ≫= _ = Ok _ |- _ =>
      let a := fresh "r" in let Ha := fresh "Hr" in
      apply res_bind_ok in H as (a & Ha & H)
  | H : deref _ = Ok _ |- _ => apply deref_ok in H
  | H : Ub = Ok _ |- _ => discriminate H
  | H : Block = Ok _ |- _ => discriminate H
  | H : NoFuel = Ok _ |- _ => discriminate H
  end.

(** ** Machine integers

    A [w]-bit C integer is a [Z]; storing into it wraps as written here. *)
Definition u8 (z : Z) : Z := z mod 2 ^ 8.
Definition u16 (z : Z) : Z := z mod 2 ^ 16.
Definition u32 (z : Z) : Z := z mod 2 ^ 32.
(** [size_t] *)
Definition u64 (z : Z) : Z := z mod 2 ^ 64.
(** [int], two's complement *)
Definition i32 (z : Z) : Z := (z + 2 ^ 31) mod 2 ^ 32 - 2 ^ 31.

#[global] Arguments u8 : simpl never.
#[global] Arguments u16 : simpl never.
#[global] Arguments u32 : simpl never.
#[global] Arguments u64 : simpl never.
#[global] Arguments i32 : simpl never.

(** [lia] with the quotient and remainder equations. *)
Ltac zlia := Z.to_euclidean_division_equations; lia.

Lemma u8_range z : 0 <= u8 z < 2 ^ 8.
Proof. apply Z.mod_pos_bound. lia. Qed.
Lemma u16_range z : 0 <= u16 z < 2 ^ 16.
Proof. apply Z.mod_pos_bound. lia. Qed.
Lemma u32_range z : 0 <= u32 z < 2 ^ 32.
Proof. apply Z.mod_pos_bound. lia. Qed.
Lemma u64_range z : 0 <= u64 z < 2 ^ 64.
Proof. apply Z.mod_pos_bound. lia. Qed.

Lemma u8_small z : 0 <= z < 2 ^ 8 -> u8 z = z.
Proof. apply Z.mod_small. Qed.
Lemma u16_small z : 0 <= z < 2 ^ 16 -> u16 z = z.
Proof. apply Z.mod_small. Qed.
Lemma u32_small z : 0 <= z < 2 ^ 32 -> u32 z = z.
Proof. apply Z.mod_small. Qed.
Lemma u64_small z : 0 <= z < 2 ^ 64 -> u64 z = z.
Proof. apply Z.mod_small. Qed.
Lemma i32_small z : - 2 ^ 31 <= z < 2 ^ 31 -> i32 z = z.
Proof. intros. unfold i32. rewrite Z.mod_small; lia. Qed.

(** Wrapping early or late makes no difference. *)
Lemma u32_idem z : u32 (u32 z) = u32 z.
Proof. unfold u32. by rewrite Z.mod_mod. Qed.
Lemma u32_add_l a b : u32 (u32 a + b) = u32 (a + b).
Proof. apply Zplus_mod_idemp_l. Qed.
Lemma u32_add_r a b : u32 (a + u32 b) = u32 (a + b).
Proof. apply Zplus_mod_idemp_r. Qed.
Lemma u32_mul_l a b : u32 (u32 a * b) = u32 (a * b).
Proof. apply Zmult_mod_idemp_l. Qed.

Create HintDb cint.
Create Rewrite HintDb cint.
Create Rewrite HintDb zlen.
#[export] Hint Resolve u8_range u16_range u32_range u64_range : cint.
#[export] Hint Rewrite u8_small u16_small u32_small u64_small i32_small
  using lia : cint.

(** The bit operations of the byte (de)composition as arithmetic. *)
Lemma lor_shiftl_add a b k :
  0 <= k -> 0 <= b < 2 ^ k -> Z.lor (Z.shiftl a k) b = a * 2 ^ k + b.
Proof.
  intros Hk Hb. rewrite Z.shiftl_mul_pow2 by done.
  rewrite <- Z.add_lor_land.
  assert (Z.land (a * 2 ^ k) b = 0) as ->; [|lia].
  apply Z.bits_inj'. intros n Hn. rewrite Z.land_spec, Z.bits_0.
  destruct (decide (n < k)).
  - by rewrite Z.mul_pow2_bits_low.
  - rewrite <- (Z.mod_small b (2 ^ k)) by done.
    rewrite Z.mod_pow2_bits_high by lia. by rewrite andb_false_r.
Qed.

Lemma land_255 z : Z.land z 255 = z mod 2 ^ 8.
Proof. change 255 with (Z.ones 8). apply Z.land_ones. lia. Qed.

(** ** Memory cells and blocks

    A byte of memory holds a known value or is indeterminate (fresh from
    [malloc], or an uninitialised automatic array). *)
Abbreviation cell := (option Z).

Definition cells (bs : list Z) : list cell := Some <$> bs.
(** [malloc(n)]; allocation is taken to succeed. *)
Definition malloc (n : Z) : list cell := replicate (Z.to_nat n) None.

(** A byte value. *)
Definition byte_ok (b : Z) : Prop := 0 <= b < 2 ^ 8.
#[global] Instance byte_ok_dec b : Decision (byte_ok b).
Proof. unfold byte_ok. apply _. Defined.

Lemma filter_none {A} (P : A -> Prop) `{!forall x, Decision (P x)} l :
  Forall (fun x => ~ P x) l -> filter P l = [].
Proof. induction 1 as [|x l Hx Hl IH]; [done|]. by rewrite filter_cons_False. Qed.

(** The [n] bytes of [v] in memory, lowest first, and the number they make. *)
Fixpoint le_bytes (n : nat) (v : Z) : list Z :=
  match n with
  | O => []
  | S n => v mod 2 ^ 8 :: le_bytes n (v / 2 ^ 8)
  end.
Fixpoint le_val (bs : list Z) : Z :=
  match bs with
  | [] => 0
  | b :: bs => b + 2 ^ 8 * le_val bs
  end.

Lemma length_le_bytes n v : length (le_bytes n v) = n.
Proof. revert v. induction n as [|n IH]; intros v; cbn; [done|]. by rewrite IH. Qed.

Lemma le_bytes_ok n v : Forall byte_ok (le_bytes n v).
Proof.
  revert v. induction n as [|n IH]; intros v; constructor; [|apply IH].
  by apply Z.mod_pos_bound.
Qed.

Lemma le_val_bytes n v : le_val (le_bytes n v) = v mod 2 ^ (8 * Z.of_nat n).
Proof.
  revert v. induction n as [|n IH]; intros v; cbn [le_bytes le_val].
  - by rewrite Z.mod_1_r.
  - rewrite IH. replace (8 * Z.of_nat (S n)) with (8 + 8 * Z.of_nat n) by lia.
    rewrite Z.pow_add_r, Z.rem_mul_r by lia. done.
Qed.

Lemma le_bytes_inj n v w :
  0 <= v < 2 ^ (8 * Z.of_nat n) -> 0 <= w < 2 ^ (8 * Z.of_nat n) ->
  le_bytes n v = le_bytes n w -> v = w.
Proof.
  intros Hv Hw E. rewrite <- (Z.mod_small v (2 ^ (8 * Z.of_nat n))) by done.
  by rewrite <- le_val_bytes, E, le_val_bytes, Z.mod_small by done.
Qed.

Lemma le_val_range bs : Forall byte_ok bs -> 0 <= le_val bs < 2 ^ (8 * Z.of_nat (length bs)).
Proof.
  induction 1 as [|b bs Hb Hbs IH]; [done|]. cbn [le_val length]. unfold byte_ok in Hb.
  replace (8 * Z.of_nat (S (length bs))) with (8 + 8 * Z.of_nat (length bs)) by lia.
  rewrite Z.pow_add_r by lia. nia.
Qed.

(** Split [Forall] over explicit lists. *)
Ltac split_forall :=
  repeat match goal with
  | H : Forall _ (_ :: _) |- _ => apply List.Forall_cons_iff in H as [? H]
  | H : Forall _ [] |- _ => clear H
  end.

Ltac solve_forall :=
  repeat (apply List.Forall_cons; [done|]); apply List.Forall_nil.

(** The length of a block, as C sees it. *)
Definition zlen {A} (m : list A) : Z := Z.of_nat (length m).

(** [m[i]] as a number. *)
Definition load (m : list cell) (i : Z) : res Z :=
  if 0 <=? i then
    match m !! Z.to_nat i with
    | Some (Some b) => Ok b
    | _ => Ub
    end
  else Ub.

(** [m[i] = b] *)
Definition store (m : list cell) (i b : Z) : res (list cell) :=
  if (0 <=? i) && (i <? zlen m) then Ok (<[Z.to_nat i := Some b]> m) else Ub.

(** [m[i]] copied as it is, determinate or not. *)
Definition load_cell (m : list cell) (i : Z) : res cell :=
  if 0 <=? i then deref (m !! Z.to_nat i) else Ub.

Definition store_cell (m : list cell) (i : Z) (c : cell) : res (list cell) :=
  if (0 <=? i) && (i <? zlen m) then Ok (<[Z.to_nat i := c]> m) else Ub.

(** The [n] cells at [m + off], as [memcpy] reads them (indeterminate cells may
    be copied). *)
Definition load_block (m : list cell) (off n : Z) : res (list cell) :=
  if (0 <=? off) && (0 <=? n) && (off + n <=? zlen m)
  then Ok (take (Z.to_nat n) (drop (Z.to_nat off) m)) else Ub.

(** [memcpy] of the cells [bs] to [m + off]. *)
Definition store_block (m : list cell) (off : Z) (bs : list cell) : res (list cell) :=
  if (0 <=? off) && (off + zlen bs <=? zlen m)
  then Ok (take (Z.to_nat off) m ++ bs ++ drop (Z.to_nat off + length bs) m) else Ub.

(** The source of a [memcpy(_, p, n)]: a NULL source is accepted for [n = 0]
    only, which every C library treats as a no-op. *)
Definition memcpy_src (p : option (list cell)) (n : Z) : res (list cell) :=
  match p with
  | Some m => load_block m 0 n
  | None => if n =? 0 then Ok [] else Ub
  end.

(** The [n] bytes at [p] read as numbers. *)
Definition load_bytes (p : option (list cell)) (n : Z) : res (list Z) :=
  cs ← memcpy_src p n;
  match mapM id cs with Some bs => Ok bs | None => Ub end.

(** [printf("%s", m)]: reads up to the first NUL, which must be there. *)
Fixpoint print_str (m : list cell) : res unit :=
  match m with
  | Some b :: m => if b =? 0 then Ok tt else print_str m
  | _ => Ub
  end.

(** [strncpy(dst, src, n)] into a fresh block of [n] bytes: the bytes of [src]
    up to a NUL, then NULs.  The bytes are looked at, so they must be
    determinate. *)
Fixpoint strncpy (src : list cell) (n : nat) : res (list cell) :=
  match n with
  | O => Ok []
  | S n =>
      match src with
      | Some b :: src =>
          if b =? 0 then Ok (Some 0 :: replicate n (Some 0))
          else r ← strncpy src n; Ok (Some b :: r)
      | _ => Ub
      end
  end.

#[global] Arguments load : simpl never.
#[global] Arguments store : simpl never.
#[global] Arguments load_cell : simpl never.
#[global] Arguments store_cell : simpl never.
#[global] Arguments load_block : simpl never.
#[global] Arguments store_block : simpl never.

Section Memory.
Implicit Types (m a b c : list cell) (bs : list Z).

Lemma zlen_app {A} (x y : list A) : zlen (x ++ y) = zlen x + zlen y.
Proof. unfold zlen. rewrite length_app. lia. Qed.
Lemma zlen_nonneg {A} (x : list A) : 0 <= zlen x.
Proof. unfold zlen. lia. Qed.
Lemma zlen_cells bs : zlen (cells bs) = zlen bs.
Proof. unfold zlen, cells. by rewrite length_fmap. Qed.
Lemma length_cells bs : length (cells bs) = length bs.
Proof. apply length_fmap. Qed.
Lemma zlen_malloc n : 0 <= n -> zlen (malloc n) = n.
Proof. unfold zlen, malloc. rewrite length_replicate. lia. Qed.
Lemma zlen_nil_inv {A} (x : list A) : zlen x = 0 -> x = [].
Proof. destruct x; [done|]. unfold zlen. cbn. lia. Qed.

Lemma cells_app bs1 bs2 : cells (bs1 ++ bs2) = cells bs1 ++ cells bs2.
Proof. apply fmap_app. Qed.

Lemma mapM_id_cells bs : mapM id (cells bs) = Some bs.
Proof. induction bs as [|b bs IH]; [done|]. cbn. unfold cells in IH. by rewrite IH. Qed.

Lemma mapM_id_inv (cs : list cell) bs : mapM id cs = Some bs -> cs = cells bs.
Proof.
  revert bs. induction cs as [|c cs IH]; intros bs H; cbn in H.
  - by injection H as <-.
  - destruct c as [b|]; cbn in H; [|done].
    destruct (mapM id cs) as [bs'|] eqn:E; cbn in H; [|done].
    injection H as <-. cbn. by rewrite (IH bs').
Qed.

Lemma load_ok m i v : m !! Z.to_nat i = Some (Some v) -> 0 <= i -> load m i = Ok v.
Proof. intros H Hi. unfold load. rewrite (proj2 (Z.leb_le 0 i)) by done. by rewrite H. Qed.

Lemma store_ok m i v :
  0 <= i < zlen m -> store m i v = Ok (<[Z.to_nat i := Some v]> m).
Proof.
  intros [H1 H2]. unfold store.
  by rewrite (proj2 (Z.leb_le _ _) H1), (proj2 (Z.ltb_lt _ _) H2).
Qed.

Lemma load_cell_ok m i x : m !! Z.to_nat i = Some x -> 0 <= i -> load_cell m i = Ok x.
Proof.
  intros H Hi. unfold load_cell. rewrite (proj2 (Z.leb_le 0 i)) by done. by rewrite H.
Qed.

Lemma store_cell_ok m i x :
  0 <= i < zlen m -> store_cell m i x = Ok (<[Z.to_nat i := x]> m).
Proof.
  intros [H1 H2]. unfold store_cell.
  by rewrite (proj2 (Z.leb_le _ _) H1), (proj2 (Z.ltb_lt _ _) H2).
Qed.

#[export] Instance zlen_perm {A} : Proper (Permutation ==> eq) (@zlen A).
Proof. intros x y E. unfold zlen. by rewrite E. Qed.

Lemma zlen_cons {A} (x : A) l : zlen (x :: l) = 1 + zlen l.
Proof. unfold zlen. cbn [length]. lia. Qed.

Lemma zlen_insert {A} (l : list A) i x : zlen (<[i:=x]> l) = zlen l.
Proof. unfold zlen. by rewrite length_insert. Qed.

Lemma load_block_app a b c off n :
  zlen a = off -> zlen b = n -> load_block (a ++ b ++ c) off n = Ok b.
Proof.
  intros <- <-. unfold load_block. rewrite !zlen_app.
  pose proof (zlen_nonneg a). pose proof (zlen_nonneg b). pose proof (zlen_nonneg c).
  rewrite !(proj2 (Z.leb_le _ _)) by lia. cbn.
  unfold zlen. rewrite !Nat2Z.id, drop_app_length, take_app_length. done.
Qed.

Lemma load_block_prefix b c n : zlen b = n -> load_block (b ++ c) 0 n = Ok b.
Proof. intros H. by apply (load_block_app [] b c). Qed.

Lemma load_block_all b n : zlen b = n -> load_block b 0 n = Ok b.
Proof. intros H. rewrite <- (app_nil_r b) at 1. by apply load_block_prefix. Qed.

Lemma load_block_inv m off n b :
  load_block m off n = Ok b ->
  0 <= off /\ 0 <= n /\ off + n <= zlen m /\
  b = take (Z.to_nat n) (drop (Z.to_nat off) m) /\ zlen b = n.
Proof.
  unfold load_block. intros H.
  destruct ((0 <=? off) && (0 <=? n) && (off + n <=? zlen m)) eqn:E; [|done].
  injection H as <-. apply andb_prop in E as [[E1 E2]%andb_prop E3].
  apply Z.leb_le in E1, E2, E3. repeat split; try done.
  unfold zlen in *. rewrite length_take, length_drop. lia.
Qed.

Lemma store_block_app a b c bs off :
  zlen a = off -> length bs = length b ->
  store_block (a ++ b ++ c) off (cells bs) = Ok (a ++ cells bs ++ c).
Proof.
  intros <- Hb. unfold store_block. rewrite !zlen_app, zlen_cells.
  pose proof (zlen_nonneg a). pose proof (zlen_nonneg c).
  rewrite !(proj2 (Z.leb_le _ _)) by (unfold zlen in *; lia). cbn.
  unfold zlen. rewrite Nat2Z.id, take_app_length.
  unfold cells. rewrite length_fmap, Hb.
  by rewrite <- drop_drop, drop_app_length, drop_app_length.
Qed.

Lemma malloc_S n : 0 <= n -> malloc (Z.succ n) = None :: malloc n.
Proof. intros. unfold malloc. by rewrite Z2Nat.inj_succ. Qed.

(** Filling a fresh block from the front. *)
Lemma store_next pre n i v :
  0 < n -> zlen pre = i ->
  store (cells pre ++ malloc n) i v = Ok (cells (pre ++ [v]) ++ malloc (n - 1)).
Proof.
  intros Hn <-. rewrite store_ok.
  - replace n with (Z.succ (n - 1)) at 1 by lia. rewrite malloc_S by lia.
    unfold zlen. rewrite Nat2Z.id.
    replace (length pre) with (length (cells pre) + 0)%nat
      by (unfold cells; rewrite length_fmap; lia).
    rewrite insert_app_r.
    by rewrite cells_app, <- app_assoc.
  - rewrite zlen_app, zlen_cells, zlen_malloc by lia.
    pose proof (zlen_nonneg pre). lia.
Qed.

Lemma malloc_add n k : 0 <= n -> 0 <= k -> malloc (n + k) = malloc n ++ malloc k.
Proof.
  intros. unfold malloc. rewrite Z2Nat.inj_add by done. apply replicate_add.
Qed.

Lemma store_block_next pre n off bs :
  zlen bs <= n -> zlen pre = off ->
  store_block (cells pre ++ malloc n) off (cells bs)
  = Ok (cells (pre ++ bs) ++ malloc (n - zlen bs)).
Proof.
  intros Hn <-. pose proof (zlen_nonneg bs).
  replace n with (zlen bs + (n - zlen bs)) at 1 by lia.
  rewrite malloc_add by lia. rewrite store_block_app.
  - by rewrite cells_app, <- app_assoc.
  - apply zlen_cells.
  - unfold malloc, zlen. rewrite length_replicate. lia.
Qed.

(** What it means for [n] bytes [bs] to be readable at [p]. *)
Lemma load_bytes_inv p n bs :
  load_bytes p n = Ok bs ->
  memcpy_src p n = Ok (cells bs) /\ zlen bs = n /\
  (p = None -> n = 0 /\ bs = []).
Proof.
  unfold load_bytes. intros H. inv_res. rename r into cs.
  destruct (mapM id cs) as [bs'|] eqn:E; [|done]. injection H as ->.
  apply mapM_id_inv in E as ->. split; [done|].
  destruct p as [m|]; cbn in Hr.
  - apply load_block_inv in Hr as (_ & _ & _ & _ & Hl).
    rewrite zlen_cells in Hl. done.
  - destruct (Z.eqb_spec n 0); [|done]. injection Hr as Hr.
    destruct bs; done.
Qed.

Lemma load_bytes_cells bs c n :
  zlen bs = n -> load_bytes (Some (cells bs ++ c)) n = Ok bs.
Proof.
  intros H. unfold load_bytes. cbn.
  rewrite load_block_prefix by (by rewrite zlen_cells).
  cbn. by rewrite mapM_id_cells.
Qed.

Lemma load_bytes_exact bs n :
  zlen bs = n -> load_bytes (Some (cells bs)) n = Ok bs.
Proof. rewrite <- (app_nil_r (cells bs)). apply load_bytes_cells. Qed.

Lemma load_cells pre v post i :
  zlen pre = i -> load (pre ++ Some v :: post) i = Ok v.
Proof.
  intros <-. apply load_ok; [|apply zlen_nonneg].
  unfold zlen. rewrite Nat2Z.id. by apply list_lookup_middle.
Qed.
End Memory.

Lemma filter_ext_in {A} (P Q : A -> Prop) `{!forall x, Decision (P x), !forall x, Decision (Q x)}
    (l : list A) :
  (forall x, x ∈ l -> P x <-> Q x) -> filter P l = filter Q l.
Proof.
  induction l as [|x l IH]; intros Hl; [done|].
  pose proof (Hl x ltac:(apply elem_of_cons; by left)) as Hx.
  rewrite !filter_cons, IH by (intros y Hy; apply Hl; apply elem_of_cons; by right).
  destruct (decide (P x)), (decide (Q x)); tauto.
Qed.

(** Perform every [load] from a block whose first cells are explicit. *)
Ltac load_steps :=
  repeat erewrite load_ok by (reflexivity || lia); rewrite !res_bind_Ok.

#[export] Hint Rewrite @zlen_app zlen_cells : zlen.
#[export] Hint Resolve zlen_nonneg : cint.
