(* ===== verification/Packet.v ===== *)
(** * Packet: the wire format of the DHT protocol ([praxis2/src/packet.c])

    The packet record, serialisation and the two-stage decoder, byte for byte:
    pointers that may be NULL, C integer widths, and every out-of-bounds access
    as [Ub].  The theorems give the wire format, the round trips in both
    directions, and what the decoder does on short and oversized input. *)

From stdpp Require Import base tactics list numbers option.
From S2P Require Import Prelude.

Definition PKT_FLAG_CTRL : Z := Z.shiftl 1 7.
Definition PKT_FLAG_RPLY : Z := Z.shiftl 1 1.
Definition PKT_FLAG_LKUP : Z := Z.shiftl 1 0.
Definition PKT_FLAG_ACK : Z := Z.shiftl 1 3.
Definition PKT_FLAG_GET : Z := Z.shiftl 1 2.
Definition PKT_FLAG_SET : Z := Z.shiftl 1 1.
Definition PKT_FLAG_DEL : Z := Z.shiftl 1 0.
Definition PKT_HEADER_LEN : Z := 7.

(** [flags & F] as a condition. *)
Definition has_flag (fl f : Z) : bool := negb (Z.land fl f =? 0).

(** [typedef struct _packet]; a NULL [key] or [value] is [None]. *)
Record packet : Type := mkPacket {
  flags : Z;
  key_len : Z;
  value_len : Z;
  key : option (list cell);
  value : option (list cell);
  hash_id : Z;
  node_id : Z;
  node_ip : Z;
  node_port : Z;
}.

Definition packet_new : packet :=
  mkPacket 0 0 0 None None 0 0 0 0.

Definition packet_dup (p : packet) : res packet :=
  k ← memcpy_src (key p) (key_len p);
  v ← memcpy_src (value p) (value_len p);
  Ok (mkPacket (flags p) (key_len p) (value_len p) (Some k) (Some v)
        (hash_id p) (node_id p) (node_ip p) (node_port p)).

(** [key_len + value_len] is computed at 32 bits ([int] + [uint32_t]). *)
Definition packet_body_size (p : packet) : Z :=
  if negb (has_flag (flags p) PKT_FLAG_CTRL)
  then u64 (u32 (key_len p + value_len p))
  else 4.

(** ** Serialisation *)

(** [(uint8_t)(v >> s) & 0xFFu] *)
Definition byte_at (v s : Z) : Z := Z.land (u8 (Z.shiftr v s)) 255.

Definition packet_serialize_data (p : packet) : res (list cell * Z) :=
  let header_len := 7 in
  let packet_size := u64 (u64 (header_len + key_len p) + value_len p) in
  buffer ← store (malloc packet_size) 0 (flags p);
  buffer ← store buffer 1 (byte_at (key_len p) 8);
  buffer ← store buffer 2 (byte_at (key_len p) 0);
  buffer ← store buffer 3 (byte_at (value_len p) 24);
  buffer ← store buffer 4 (byte_at (value_len p) 16);
  buffer ← store buffer 5 (byte_at (value_len p) 8);
  buffer ← store buffer 6 (byte_at (value_len p) 0);
  buffer ← (match key p with
            | Some _ =>
                if negb (key_len p =? 0)
                then ks ← memcpy_src (key p) (key_len p);
                     store_block buffer 7 ks
                else Ok buffer
            | None => Ok buffer
            end);
  buffer ← (match value p with
            | Some _ =>
                if negb (value_len p =? 0)
                then vs ← memcpy_src (value p) (value_len p);
                     store_block buffer (7 + key_len p) vs
                else Ok buffer
            | None => Ok buffer
            end);
  Ok (buffer, packet_size).

Definition packet_serialize_ctrl (p : packet) : res (list cell * Z) :=
  let packet_size := 11 in
  buffer ← store (malloc packet_size) 0 (flags p);
  buffer ← store buffer 1 (byte_at (hash_id p) 8);
  buffer ← store buffer 2 (byte_at (hash_id p) 0);
  buffer ← store buffer 3 (byte_at (node_id p) 8);
  buffer ← store buffer 4 (byte_at (node_id p) 0);
  buffer ← store buffer 5 (byte_at (node_ip p) 24);
  buffer ← store buffer 6 (byte_at (node_ip p) 16);
  buffer ← store buffer 7 (byte_at (node_ip p) 8);
  buffer ← store buffer 8 (byte_at (node_ip p) 0);
  buffer ← store buffer 9 (byte_at (node_port p) 8);
  buffer ← store buffer 10 (byte_at (node_port p) 0);
  Ok (buffer, packet_size).

Definition packet_serialize (p : packet) : res (list cell * Z) :=
  if has_flag (flags p) PKT_FLAG_CTRL
  then packet_serialize_ctrl p
  else packet_serialize_data p.

(** ** Decoding *)

(** [(hi << 8u) | (lo << 0u)] stored in a [uint16_t]. *)
Definition dec_u16 (hi lo : Z) : Z := u16 (Z.lor (Z.shiftl hi 8) (Z.shiftl lo 0)).

(** [(b3 << 24u) | (b4 << 16u) | (b5 << 8u) | (b6 << 0u)] stored in a
    [uint32_t]; the bytes promote to [int], so the first shift may reach the
    sign bit, where the compilers in use wrap. *)
Definition dec_u32 (b3 b4 b5 b6 : Z) : Z :=
  u32 (Z.lor (Z.lor (Z.lor (i32 (Z.shiftl b3 24)) (Z.shiftl b4 16))
                    (Z.shiftl b5 8)) (Z.shiftl b6 0)).

Definition packet_decode_hdr (buffer : list cell) (buf_len : Z) : res (option packet) :=
  if buf_len <? PKT_HEADER_LEN then Ok None else
  fl ← load buffer 0;
  b1 ← load buffer 1;
  b2 ← load buffer 2;
  b3 ← load buffer 3;
  b4 ← load buffer 4;
  b5 ← load buffer 5;
  b6 ← load buffer 6;
  if negb (has_flag fl PKT_FLAG_CTRL)
  then Ok (Some (mkPacket fl (dec_u16 b1 b2) (dec_u32 b3 b4 b5 b6) None None 0 0 0 0))
  else Ok (Some (mkPacket fl 0 0 None None (dec_u16 b1 b2) (dec_u16 b3 b4)
                   (u32 (Z.lor (i32 (Z.shiftl b5 24)) (Z.shiftl b6 16))) 0)).

Definition packet_decode_body (p : packet) (buffer : list cell) (buf_len : Z)
    : res (option packet) :=
  if has_flag (flags p) PKT_FLAG_CTRL then
    b0 ← load buffer 0;
    b1 ← load buffer 1;
    b2 ← load buffer 2;
    b3 ← load buffer 3;
    Ok (Some (mkPacket (flags p) (key_len p) (value_len p) (key p) (value p)
                (hash_id p) (node_id p)
                (u32 (Z.lor (node_ip p) (Z.lor (Z.shiftl b0 8) (Z.shiftl b1 0))))
                (dec_u16 b2 b3)))
  else
    let pkt_size := u64 (u32 (key_len p + value_len p)) in
    if buf_len <? pkt_size then Ok None else
    k ← (if 0 <? key_len p
         then ks ← load_block buffer 0 (key_len p); Ok (Some ks)
         else Ok (key p));
    v ← (if 0 <? value_len p
         then vs ← load_block buffer (key_len p) (value_len p); Ok (Some vs)
         else Ok (value p));
    Ok (Some (mkPacket (flags p) (key_len p) (value_len p) k v
                (hash_id p) (node_id p) (node_ip p) (node_port p))).

Definition packet_decode (buffer : list cell) (buf_len : Z) : res (option packet) :=
  p ← packet_decode_hdr buffer buf_len;
  match p with
  | None => Ok None
  | Some p => packet_decode_body p (drop (Z.to_nat PKT_HEADER_LEN) buffer) buf_len
  end.

(** ** The wire format *)

(** Network byte order. *)
Definition be16 (v : Z) : list Z := [byte_at v 8; byte_at v 0].
Definition be32 (v : Z) : list Z :=
  [byte_at v 24; byte_at v 16; byte_at v 8; byte_at v 0].

Definition wire_data (fl : Z) (k v : list Z) : list Z :=
  fl :: be16 (zlen k) ++ be32 (zlen v) ++ k ++ v.

Definition wire_ctrl (p : packet) : list Z :=
  flags p :: be16 (hash_id p) ++ be16 (node_id p)
    ++ be32 (node_ip p) ++ be16 (node_port p).

Lemma byte_at_eq v s : 0 <= s -> byte_at v s = (v / 2 ^ s) mod 2 ^ 8.
Proof.
  intros. unfold byte_at, u8. rewrite land_255, Z.shiftr_div_pow2 by done.
  by rewrite Z.mod_mod.
Qed.

Lemma byte_at_range v s : byte_ok (byte_at v s).
Proof. unfold byte_ok, byte_at. rewrite land_255. by apply Z.mod_pos_bound. Qed.

Lemma dec_u16_be v : 0 <= v < 2 ^ 16 -> dec_u16 (byte_at v 8) (byte_at v 0) = v.
Proof.
  intros. unfold dec_u16. rewrite Z.shiftl_0_r.
  rewrite lor_shiftl_add by (try apply byte_at_range; lia).
  rewrite !byte_at_eq by lia. unfold u16. zlia.
Qed.

Lemma be16_dec b1 b2 :
  byte_ok b1 -> byte_ok b2 -> be16 (dec_u16 b1 b2) = [b1; b2].
Proof.
  unfold byte_ok. intros. unfold dec_u16, be16. rewrite Z.shiftl_0_r.
  rewrite lor_shiftl_add, !byte_at_eq by lia. unfold u16.
  f_equal; [|f_equal]; zlia.
Qed.

(** The [int] shift by 24, arithmetically: a multiple of [2^24] that is the
    unsigned shift modulo [2^32]. *)
Lemma i32_shiftl_24 b :
  byte_ok b ->
  exists c, i32 (Z.shiftl b 24) = Z.shiftl c 24 /\ (c = b \/ c = b - 2 ^ 8).
Proof.
  unfold byte_ok. intros H. unfold i32. rewrite Z.shiftl_mul_pow2 by lia.
  destruct (decide (b < 2 ^ 7)).
  - exists b. rewrite Z.shiftl_mul_pow2 by lia. split; [zlia|by left].
  - exists (b - 2 ^ 8). rewrite Z.shiftl_mul_pow2 by lia. split; [zlia|by right].
Qed.

Lemma dec_u32_eq b3 b4 b5 b6 :
  byte_ok b3 -> byte_ok b4 -> byte_ok b5 -> byte_ok b6 ->
  dec_u32 b3 b4 b5 b6 = b3 * 2 ^ 24 + b4 * 2 ^ 16 + b5 * 2 ^ 8 + b6.
Proof.
  intros H3 H4 H5 H6. unfold dec_u32.
  destruct (i32_shiftl_24 b3 H3) as (c & -> & Hc). unfold byte_ok in *.
  rewrite <- !Z.lor_assoc, Z.shiftl_0_r.
  rewrite (lor_shiftl_add b5) by lia.
  rewrite (lor_shiftl_add b4) by lia.
  rewrite (lor_shiftl_add c) by lia.
  unfold u32. destruct Hc as [-> | ->]; zlia.
Qed.

Lemma dec_u32_be v :
  0 <= v < 2 ^ 32 ->
  dec_u32 (byte_at v 24) (byte_at v 16) (byte_at v 8) (byte_at v 0) = v.
Proof.
  intros. rewrite dec_u32_eq by apply byte_at_range.
  rewrite !byte_at_eq by lia. zlia.
Qed.

Lemma be32_dec b3 b4 b5 b6 :
  byte_ok b3 -> byte_ok b4 -> byte_ok b5 -> byte_ok b6 ->
  be32 (dec_u32 b3 b4 b5 b6) = [b3; b4; b5; b6].
Proof.
  intros. rewrite dec_u32_eq by done. unfold byte_ok, be32 in *.
  rewrite !byte_at_eq by lia. repeat f_equal; zlia.
Qed.

Lemma dec_u16_range b1 b2 : 0 <= dec_u16 b1 b2 < 2 ^ 16.
Proof. apply u16_range. Qed.

(** The address is assembled from the two halves of a control packet. *)
Lemma dec_ip_halves b5 b6 b7 b8 :
  byte_ok b5 -> byte_ok b6 -> byte_ok b7 -> byte_ok b8 ->
  u32 (Z.lor (u32 (Z.lor (i32 (Z.shiftl b5 24)) (Z.shiftl b6 16)))
             (Z.lor (Z.shiftl b7 8) (Z.shiftl b8 0)))
  = dec_u32 b5 b6 b7 b8.
Proof.
  intros H5 H6 H7 H8. rewrite dec_u32_eq by done.
  destruct (i32_shiftl_24 b5 H5) as (c & -> & Hc). unfold byte_ok in *.
  rewrite <- (Z.add_0_r (Z.shiftl b6 16)).
  assert (Z.lor (Z.shiftl c 24) (Z.shiftl b6 16 + 0) = c * 2 ^ 24 + b6 * 2 ^ 16) as ->.
  { rewrite Z.add_0_r, (lor_shiftl_add c) by (rewrite ?Z.shiftl_mul_pow2; lia).
    rewrite Z.shiftl_mul_pow2; lia. }
  assert (u32 (c * 2 ^ 24 + b6 * 2 ^ 16) = Z.shiftl (b5 * 2 ^ 8 + b6) 16) as ->.
  { rewrite Z.shiftl_mul_pow2 by lia. unfold u32. destruct Hc as [-> | ->]; zlia. }
  rewrite Z.shiftl_0_r, (lor_shiftl_add b7), lor_shiftl_add by lia.
  unfold u32. zlia.
Qed.

(** ** Serialisation: functional behaviour *)

(** Step through the stores that fill a fresh block from the front. *)
Ltac store_step :=
  rewrite store_next by (first [ reflexivity | lia ]);
  rewrite res_bind_Ok; cbn [app].

(** Copying [bs] next, whether or not the C code skips the [memcpy] of an
    empty source. *)
Lemma serialize_copy p n bs pre off m :
  load_bytes p n = Ok bs -> zlen pre = off -> n <= m ->
  match p with
  | Some _ =>
      if negb (n =? 0)
      then c ← memcpy_src p n; store_block (cells pre ++ malloc m) off c
      else Ok (cells pre ++ malloc m)
  | None => Ok (cells pre ++ malloc m)
  end = Ok (cells (pre ++ bs) ++ malloc (m - n)).
Proof.
  intros H Hoff Hm. apply load_bytes_inv in H as (Hc & <- & Hnull).
  assert (zlen bs = 0 -> Ok (cells pre ++ malloc m)
            = Ok (cells (pre ++ bs) ++ malloc (m - zlen bs))) as Hnil.
  { intros H0. rewrite H0. apply zlen_nil_inv in H0 as ->.
    by rewrite app_nil_r, Z.sub_0_r. }
  destruct p as [q|].
  - destruct (Z.eqb_spec (zlen bs) 0) as [H0|Hn]; cbn [negb]; [by apply Hnil|].
    rewrite Hc. by apply store_block_next.
  - destruct Hnull as [-> ->]; [done|]. by apply Hnil.
Qed.

Lemma packet_serialize_data_wire p k v :
  load_bytes (key p) (key_len p) = Ok k ->
  load_bytes (value p) (value_len p) = Ok v ->
  key_len p < 2 ^ 16 -> value_len p < 2 ^ 32 ->
  packet_serialize_data p =
  Ok (cells (wire_data (flags p) k v), 7 + key_len p + value_len p).
Proof.
  intros Hk Hv Hkl Hvl.
  pose proof (load_bytes_inv _ _ _ Hk) as (_ & Hk' & _).
  pose proof (load_bytes_inv _ _ _ Hv) as (_ & Hv' & _).
  pose proof (zlen_nonneg k). pose proof (zlen_nonneg v).
  unfold packet_serialize_data. cbv zeta.
  rewrite (u64_small (7 + _)), u64_small by lia.
  change (malloc (7 + key_len p + value_len p))
    with (cells [] ++ malloc (7 + key_len p + value_len p)).
  do 7 store_step.
  rewrite (serialize_copy _ _ k) by (done || lia). rewrite res_bind_Ok.
  rewrite (serialize_copy _ _ v);
    [|done|rewrite zlen_app, Hk'; reflexivity|lia].
  rewrite res_bind_Ok. unfold wire_data, be16, be32. rewrite Hk', Hv'.
  match goal with |- context [malloc ?n] => replace n with 0 by lia end.
  by rewrite app_nil_r, <- app_assoc.
Qed.

Lemma packet_serialize_ctrl_wire p :
  packet_serialize_ctrl p = Ok (cells (wire_ctrl p), 11).
Proof.
  unfold packet_serialize_ctrl. cbv zeta.
  change (malloc 11) with (cells [] ++ malloc 11).
  do 11 store_step. reflexivity.
Qed.

(** ** Decoding: functional behaviour *)

(** The pointer the decoder leaves for a buffer of bytes: NULL when empty. *)
Definition nullable (bs : list Z) : option (list cell) :=
  match bs with [] => None | _ => Some (cells bs) end.

(** The packets as the decoder builds them. *)
Definition data_packet (fl : Z) (k v : list Z) : packet :=
  mkPacket fl (zlen k) (zlen v) (nullable k) (nullable v) 0 0 0 0.

Definition ctrl_packet (fl hid nid ip port : Z) : packet :=
  mkPacket fl 0 0 None None hid nid ip port.

Definition is_ctrl (fl : Z) : bool := has_flag fl PKT_FLAG_CTRL.

Lemma take_cells_nullable k v :
  (if 0 <? zlen k then Some (take (Z.to_nat (zlen k)) (cells (k ++ v))) else None)
  = nullable k.
Proof.
  destruct k as [|x k]; [done|]. rewrite (proj2 (Z.ltb_lt _ _)) by (unfold zlen; cbn; lia).
  unfold zlen. by rewrite Nat2Z.id, cells_app, <- (length_cells (x :: k)), take_app_length.
Qed.

Lemma take_drop_cells_nullable k v :
  (if 0 <? zlen v
   then Some (take (Z.to_nat (zlen v)) (drop (Z.to_nat (zlen k)) (cells (k ++ v))))
   else None)
  = nullable v.
Proof.
  unfold zlen at 3. rewrite Nat2Z.id, cells_app, <- (length_cells k), drop_app_length.
  rewrite <- (app_nil_r v) at 3. apply take_cells_nullable.
Qed.

(** A copied slice is read back as the slice of the original. *)
Lemma memcpy_slice (m : list cell) off n :
  0 <= off -> 0 <= n -> off + n <= zlen m ->
  memcpy_src (if 0 <? n then Some (take (Z.to_nat n) (drop (Z.to_nat off) m)) else None) n
  = load_block m off n.
Proof.
  intros. pose proof (zlen_nonneg m). unfold load_block at 1.
  rewrite !(proj2 (Z.leb_le _ _)) by lia. cbn [andb].
  destruct (Z.ltb_spec 0 n).
  - cbn. apply load_block_all. unfold zlen in *. rewrite length_take, length_drop. lia.
  - assert (n = 0) as -> by lia. done.
Qed.

Lemma load_nullable bs : load_bytes (nullable bs) (zlen bs) = Ok bs.
Proof. destruct bs; [done|]. by apply load_bytes_exact. Qed.

Lemma packet_decode_hdr_short buf n : n < 7 -> packet_decode_hdr buf n = Ok None.
Proof.
  intros. unfold packet_decode_hdr, PKT_HEADER_LEN.
  by rewrite (proj2 (Z.ltb_lt _ _)).
Qed.

Lemma packet_decode_hdr_bytes f b1 b2 b3 b4 b5 b6 rest n :
  7 <= n ->
  packet_decode_hdr (cells [f; b1; b2; b3; b4; b5; b6] ++ rest) n =
  Ok (Some (if is_ctrl f
            then ctrl_packet f (dec_u16 b1 b2) (dec_u16 b3 b4)
                   (u32 (Z.lor (i32 (Z.shiftl b5 24)) (Z.shiftl b6 16))) 0
            else mkPacket f (dec_u16 b1 b2) (dec_u32 b3 b4 b5 b6)
                   None None 0 0 0 0)).
Proof.
  intros. unfold packet_decode_hdr, PKT_HEADER_LEN.
  rewrite (proj2 (Z.ltb_ge _ _)) by done.
  load_steps. unfold is_ctrl, ctrl_packet. by destruct (has_flag _ _).
Qed.

Lemma packet_decode_body_ctrl p b0 b1 b2 b3 rest n :
  is_ctrl (flags p) = true ->
  packet_decode_body p (cells [b0; b1; b2; b3] ++ rest) n =
  Ok (Some (mkPacket (flags p) (key_len p) (value_len p) (key p) (value p)
              (hash_id p) (node_id p)
              (u32 (Z.lor (node_ip p) (Z.lor (Z.shiftl b0 8) (Z.shiftl b1 0))))
              (dec_u16 b2 b3))).
Proof.
  unfold is_ctrl, packet_decode_body. intros ->. by load_steps.
Qed.

(** The decoder does not look at [buf_len] for a control packet. *)
Lemma packet_decode_body_ctrl_short p (bs : list Z) n :
  is_ctrl (flags p) = true -> zlen bs < 4 ->
  packet_decode_body p (cells bs) n = Ub.
Proof.
  unfold is_ctrl, packet_decode_body. intros -> Hl.
  by destruct bs as [|? [|? [|? [|? bs]]]]; [..|unfold zlen in Hl; cbn in Hl; lia].
Qed.

(** Reading a block that is there gives the nullable copy. *)
Lemma decode_copy (pre : list Z) (bs : list Z) (rest : list cell) :
  (if 0 <? zlen bs
   then ks ← load_block (cells pre ++ cells bs ++ rest) (zlen pre) (zlen bs); Ok (Some ks)
   else Ok None)
  = Ok (nullable bs).
Proof.
  destruct bs as [|b bs]; [done|].
  rewrite (proj2 (Z.ltb_lt _ _)) by (unfold zlen; cbn; lia).
  by rewrite load_block_app by (by rewrite zlen_cells).
Qed.

Lemma packet_decode_body_data p k v rest n :
  is_ctrl (flags p) = false ->
  key p = None -> value p = None -> key_len p = zlen k -> value_len p = zlen v ->
  zlen k + zlen v < 2 ^ 32 -> zlen k + zlen v <= n ->
  packet_decode_body p (cells k ++ cells v ++ rest) n =
  Ok (Some (mkPacket (flags p) (zlen k) (zlen v) (nullable k) (nullable v)
              (hash_id p) (node_id p) (node_ip p) (node_port p))).
Proof.
  unfold is_ctrl, packet_decode_body. intros -> -> -> -> -> Hov Hn.
  pose proof (zlen_nonneg k). pose proof (zlen_nonneg v).
  rewrite u32_small, u64_small, (proj2 (Z.ltb_ge _ _)) by lia.
  pose proof (decode_copy [] k (cells v ++ rest)) as Hdk.
  change (zlen []) with 0 in Hdk. cbn [cells fmap list_fmap app] in Hdk.
  rewrite Hdk, res_bind_Ok. by rewrite decode_copy.
Qed.

(** The server's decoder: a header from exactly 7 bytes, then a body. *)
Definition decode_staged (hdr body : list cell) (n : Z) : res (option packet) :=
  p ← packet_decode_hdr hdr PKT_HEADER_LEN;
  match p with None => Ok None | Some p => packet_decode_body p body n end.

Lemma packet_decode_split hdr body n m :
  zlen hdr = 7 -> 7 <= n -> m = n ->
  packet_decode (hdr ++ body) n = decode_staged hdr body m.
Proof.
  intros Hl Hn ->. destruct hdr as [|c0 [|c1 [|c2 [|c3 [|c4 [|c5 [|c6 [|]]]]]]]];
    try (unfold zlen in Hl; cbn in Hl; lia).
  unfold packet_decode, decode_staged, packet_decode_hdr, PKT_HEADER_LEN.
  rewrite (proj2 (Z.ltb_ge n 7)) by done. done.
Qed.

Lemma wire_data_cells fl k v :
  cells (wire_data fl k v) =
  cells [fl; byte_at (zlen k) 8; byte_at (zlen k) 0; byte_at (zlen v) 24;
         byte_at (zlen v) 16; byte_at (zlen v) 8; byte_at (zlen v) 0]
  ++ cells k ++ cells v.
Proof. unfold wire_data. by rewrite <- !cells_app. Qed.

Lemma wire_ctrl_cells p :
  cells (wire_ctrl p) =
  cells [flags p; byte_at (hash_id p) 8; byte_at (hash_id p) 0;
         byte_at (node_id p) 8; byte_at (node_id p) 0;
         byte_at (node_ip p) 24; byte_at (node_ip p) 16]
  ++ cells [byte_at (node_ip p) 8; byte_at (node_ip p) 0;
            byte_at (node_port p) 8; byte_at (node_port p) 0].
Proof. done. Qed.

Lemma decode_wire_data fl k v rest n :
  is_ctrl fl = false -> zlen k < 2 ^ 16 -> zlen k + zlen v < 2 ^ 32 ->
  7 + zlen k + zlen v <= n ->
  packet_decode (cells (wire_data fl k v) ++ rest) n = Ok (Some (data_packet fl k v)).
Proof.
  intros Hfl Hk Hkv Hn. pose proof (zlen_nonneg k). pose proof (zlen_nonneg v).
  rewrite wire_data_cells, <- app_assoc. unfold packet_decode.
  rewrite packet_decode_hdr_bytes, Hfl by lia.
  rewrite dec_u16_be, dec_u32_be by lia. rewrite res_bind_Ok.
  change (drop _ (cells _ ++ ?r)) with r. rewrite <- app_assoc.
  by rewrite (packet_decode_body_data _ k v) by (done || lia).
Qed.

Lemma decode_wire_ctrl p rest n :
  is_ctrl (flags p) = true ->
  0 <= hash_id p < 2 ^ 16 -> 0 <= node_id p < 2 ^ 16 ->
  0 <= node_ip p < 2 ^ 32 -> 0 <= node_port p < 2 ^ 16 -> 7 <= n ->
  packet_decode (cells (wire_ctrl p) ++ rest) n =
  Ok (Some (ctrl_packet (flags p) (hash_id p) (node_id p) (node_ip p) (node_port p))).
Proof.
  intros Hfl Hh Hi Hip Hpt Hn. rewrite wire_ctrl_cells, <- app_assoc.
  unfold packet_decode. rewrite packet_decode_hdr_bytes, Hfl by lia.
  rewrite res_bind_Ok. change (drop _ (cells _ ++ ?r)) with r.
  rewrite packet_decode_body_ctrl by done. unfold ctrl_packet.
  cbn [flags key_len value_len key value hash_id node_id node_ip].
  rewrite dec_ip_halves, dec_u32_be, !dec_u16_be by (apply byte_at_range || done).
  done.
Qed.

(** C29. Round trip of data packets: a packet whose key and value buffers hold
    the bytes [k] and [v] serialises to a buffer which, followed by anything,
    decodes to a packet with the same flags, lengths, key and value.  The two
    lengths together must stay below [2^32]. *)
Theorem packet_roundtrip_data p k v rest :
  load_bytes (key p) (key_len p) = Ok k ->
  load_bytes (value p) (value_len p) = Ok v ->
  is_ctrl (flags p) = false ->
  key_len p < 2 ^ 16 -> key_len p + value_len p < 2 ^ 32 ->
  exists buf n,
    packet_serialize p = Ok (buf, n) /\ zlen buf = n /\
    packet_decode (buf ++ rest) n = Ok (Some (data_packet (flags p) k v)).
Proof.
  intros Hk Hv Hfl Hkl Hsum.
  pose proof (load_bytes_inv _ _ _ Hk) as (_ & Hk' & _).
  pose proof (load_bytes_inv _ _ _ Hv) as (_ & Hv' & _).
  pose proof (zlen_nonneg k). pose proof (zlen_nonneg v).
  eexists _, _. unfold packet_serialize. unfold is_ctrl in Hfl. rewrite Hfl.
  rewrite (packet_serialize_data_wire p k v) by (done || lia).
  split; [reflexivity|]. split.
  - rewrite zlen_cells. unfold wire_data, be16, be32, zlen in *.
    rewrite <- Hk', <- Hv'. cbn [length app]. rewrite length_app. lia.
  - apply decode_wire_data; [done|lia..].
Qed.

Lemma packet_roundtrip_data_witness :
  let p := mkPacket 2 2 3 (Some (cells [104; 105; 7])) (Some (cells [1; 0; 255])) 9 9 9 9 in
  exists buf n,
    packet_serialize p = Ok (buf, n) /\ zlen buf = n /\
    packet_decode (buf ++ [None; Some 1]) n =
      Ok (Some (data_packet 2 [104; 105] [1; 0; 255])).
Proof.
  apply (packet_roundtrip_data
           (mkPacket 2 2 3 (Some (cells [104; 105; 7])) (Some (cells [1; 0; 255])) 9 9 9 9)
           [104; 105] [1; 0; 255]); reflexivity.
Defined.

(** C30. Round trip of control packets: eleven bytes, from which hash id, node
    id, address (split over header and body) and port are recovered. *)
Theorem packet_roundtrip_ctrl p rest :
  is_ctrl (flags p) = true ->
  0 <= hash_id p < 2 ^ 16 -> 0 <= node_id p < 2 ^ 16 ->
  0 <= node_ip p < 2 ^ 32 -> 0 <= node_port p < 2 ^ 16 ->
  exists buf,
    packet_serialize p = Ok (buf, 11) /\ zlen buf = 11 /\
    packet_decode (buf ++ rest) 11 =
      Ok (Some (ctrl_packet (flags p) (hash_id p) (node_id p) (node_ip p) (node_port p))).
Proof.
  intros Hfl ? ? ? ?. eexists. unfold packet_serialize.
  unfold is_ctrl in Hfl. rewrite Hfl, packet_serialize_ctrl_wire.
  split; [reflexivity|]. split; [reflexivity|]. by apply decode_wire_ctrl.
Qed.

Lemma packet_roundtrip_ctrl_witness :
  let p := mkPacket 129 0 0 None None 513 7 3232235777 65535 in
  exists buf,
    packet_serialize p = Ok (buf, 11) /\ zlen buf = 11 /\
    packet_decode (buf ++ []) 11 =
      Ok (Some (ctrl_packet 129 513 7 3232235777 65535)).
Proof.
  apply (packet_roundtrip_ctrl (mkPacket 129 0 0 None None 513 7 3232235777 65535) []);
    [reflexivity | cbn; lia ..].
Defined.

(** ** What the decoder does on every input *)

(** The number of body bytes a decoded header announces, without wrap. *)
Definition announced_body (p : packet) : Z :=
  if is_ctrl (flags p) then 4 else key_len p + value_len p.

Lemma be16_app a b (l : list Z) : be16 a ++ be16 b ++ l = be16 a ++ (be16 b ++ l).
Proof. done. Qed.

Lemma decode_serialize_ctrl f b1 b2 b3 b4 b5 b6 b7 b8 b9 b10 :
  Forall byte_ok [f; b1; b2; b3; b4; b5; b6; b7; b8; b9; b10] ->
  is_ctrl f = true ->
  packet_serialize
    (ctrl_packet f (dec_u16 b1 b2) (dec_u16 b3 b4) (dec_u32 b5 b6 b7 b8) (dec_u16 b9 b10))
  = Ok (cells [f; b1; b2; b3; b4; b5; b6; b7; b8; b9; b10], 11).
Proof.
  intros Hb Hf. split_forall.
  unfold packet_serialize. unfold is_ctrl in Hf. cbn [flags ctrl_packet]. rewrite Hf.
  rewrite packet_serialize_ctrl_wire. unfold wire_ctrl.
  cbn [ctrl_packet flags hash_id node_id node_ip node_port].
  by rewrite !be16_dec, be32_dec.
Qed.

Lemma decode_serialize_data f b1 b2 b3 b4 b5 b6 (k v : list Z) :
  Forall byte_ok [f; b1; b2; b3; b4; b5; b6] -> is_ctrl f = false ->
  zlen k = dec_u16 b1 b2 -> zlen v = dec_u32 b3 b4 b5 b6 ->
  packet_serialize (data_packet f k v)
  = Ok (cells ([f; b1; b2; b3; b4; b5; b6] ++ k ++ v), 7 + zlen k + zlen v).
Proof.
  intros Hb Hf Hk Hv. split_forall.
  unfold packet_serialize. unfold is_ctrl in Hf. cbn [flags data_packet]. rewrite Hf.
  rewrite (packet_serialize_data_wire _ k v);
    cbn [data_packet flags key key_len value value_len]; try apply load_nullable.
  - unfold wire_data. by rewrite Hk, Hv, be16_dec, be32_dec.
  - rewrite Hk. apply u16_range.
  - rewrite Hv. apply u32_range.
Qed.

(** The outcome of decoding a data body, from a block of [zlen buffer] bytes
    of which the caller says [buf_len] are valid. *)
Lemma packet_decode_body_data_cases p buffer n :
  is_ctrl (flags p) = false -> key p = None -> value p = None ->
  0 <= key_len p -> 0 <= value_len p ->
  packet_decode_body p buffer n =
    if n <? u32 (key_len p + value_len p) then Ok None
    else if key_len p + value_len p <=? zlen buffer
    then
      let k := take (Z.to_nat (key_len p)) buffer in
      let v := take (Z.to_nat (value_len p)) (drop (Z.to_nat (key_len p)) buffer) in
      Ok (Some (mkPacket (flags p) (key_len p) (value_len p)
                  (if 0 <? key_len p then Some k else None)
                  (if 0 <? value_len p then Some v else None)
                  (hash_id p) (node_id p) (node_ip p) (node_port p)))
    else Ub.
Proof.
  unfold is_ctrl, packet_decode_body. intros -> -> -> Hk Hv.
  rewrite u64_small by (pose proof (u32_range (key_len p + value_len p)); lia).
  destruct (Z.ltb_spec n (u32 (key_len p + value_len p))); [done|].
  unfold load_block. pose proof (zlen_nonneg buffer).
  destruct (Z.leb_spec (key_len p + value_len p) (zlen buffer)).
  - rewrite !(proj2 (Z.leb_le _ _)) by lia.
    destruct (0 <? key_len p); destruct (0 <? value_len p); done.
  - destruct (Z.ltb_spec 0 (key_len p)) as [Hk0|Hk0].
    + rewrite (proj2 (Z.leb_le 0 (key_len p))) by lia. cbn [andb Z.leb].
      destruct (Z.leb_spec (0 + key_len p) (zlen buffer)); [|done].
      destruct (Z.ltb_spec 0 (value_len p)); [|lia].
      by rewrite andb_false_r.
    + destruct (Z.ltb_spec 0 (value_len p)); [|lia].
      by rewrite andb_false_r.
Qed.

(** Re-encoding what was decoded gives back the input: for a complete
    packet (header plus exactly the announced body) of byte values,
    serialisation after decoding is the identity on the wire. *)
Theorem packet_reserialize bs p :
  Forall byte_ok bs ->
  packet_decode (cells bs) (zlen bs) = Ok (Some p) ->
  zlen bs = 7 + announced_body p ->
  packet_serialize p = Ok (cells bs, zlen bs).
Proof.
  intros Hb Hd Hl.
  destruct bs as [|f [|b1 [|b2 [|b3 [|b4 [|b5 [|b6 body]]]]]]]; try discriminate Hd.
  change (f :: _) with ([f; b1; b2; b3; b4; b5; b6] ++ body) in *.
  apply Forall_app in Hb as [Hb Hbody].
  unfold packet_decode in Hd. rewrite cells_app in Hd.
  rewrite packet_decode_hdr_bytes, res_bind_Ok in Hd
    by (rewrite zlen_app; unfold zlen; cbn; lia).
  change (drop _ (cells _ ++ ?r)) with r in Hd.
  rewrite zlen_app in Hl, Hd. change (zlen [f; b1; b2; b3; b4; b5; b6]) with 7 in *.
  destruct (is_ctrl f) eqn:Hf.
  - destruct (decide (zlen body < 4)) as [Hs|Hs].
    { by rewrite packet_decode_body_ctrl_short in Hd. }
    destruct body as [|b7 [|b8 [|b9 [|b10 body]]]];
      try (unfold zlen in Hs; cbn in Hs; lia).
    change (cells (b7 :: _)) with (cells [b7; b8; b9; b10] ++ cells body) in Hd.
    rewrite packet_decode_body_ctrl in Hd by done. injection Hd as <-.
    unfold announced_body in Hl. cbn [flags ctrl_packet] in Hl. rewrite Hf in Hl.
    assert (body = []) as -> by (apply zlen_nil_inv; unfold zlen in *; cbn in Hl; lia).
    split_forall.
    unfold ctrl_packet.
    cbn [flags key_len value_len key value hash_id node_id node_ip].
    rewrite dec_ip_halves by done.
    apply (decode_serialize_ctrl f b1 b2 b3 b4 b5 b6 b7 b8 b9 b10); [|done].
    solve_forall.
  - pose proof (dec_u16_range b1 b2) as Hkr.
    assert (0 <= dec_u32 b3 b4 b5 b6) as Hvr by apply u32_range.
    rewrite packet_decode_body_data_cases in Hd by (done || cbn; lia).
    cbn [flags key_len value_len hash_id node_id node_ip node_port] in Hd.
    case_match; [done|]. case_match eqn:Hle; [|done]. injection Hd as <-.
    unfold announced_body in Hl. cbn [flags key_len value_len] in Hl. rewrite Hf in Hl.
    assert (exists k v, body = k ++ v /\ zlen k = dec_u16 b1 b2
                        /\ zlen v = dec_u32 b3 b4 b5 b6) as (k & v & -> & Hk & Hv).
    { exists (take (Z.to_nat (dec_u16 b1 b2)) body), (drop (Z.to_nat (dec_u16 b1 b2)) body).
      rewrite take_drop. split; [done|].
      unfold zlen in *. rewrite length_take, length_drop. lia. }
    rewrite <- Hk, <- Hv, take_cells_nullable, take_drop_cells_nullable.
    rewrite !zlen_app. change (zlen [f; b1; b2; b3; b4; b5; b6]) with 7.
    rewrite Z.add_assoc. by apply (decode_serialize_data f b1 b2 b3 b4 b5 b6 k v).
Qed.

Lemma packet_reserialize_witness :
  packet_serialize (data_packet 2 [1] [200; 0])
  = Ok (cells [2; 0; 1; 0; 0; 0; 2; 1; 200; 0], 10).
Proof.
  apply (packet_reserialize [2; 0; 1; 0; 0; 0; 2; 1; 200; 0]); [|reflexivity..].
  repeat (apply List.Forall_cons; [split; [discriminate|reflexivity]|]).
  apply List.Forall_nil.
Defined.

(** The decoder on an arbitrary data body: too few announced-valid bytes
    give NULL, otherwise the key and value are the announced slices of the
    block, and the decoder leaves the block exactly when the block is shorter
    than the two lengths together.  The comparison is made with the wrapped
    32-bit sum, the copies with the lengths themselves. *)
Theorem packet_decode_body_outcome p buffer n :
  is_ctrl (flags p) = false -> key p = None -> value p = None ->
  0 <= key_len p -> 0 <= value_len p ->
  let total := key_len p + value_len p in
  (n < u32 total -> packet_decode_body p buffer n = Ok None) /\
  (u32 total <= n -> total <= zlen buffer ->
     exists q, packet_decode_body p buffer n = Ok (Some q) /\
       key_len q = key_len p /\ value_len q = value_len p /\
       memcpy_src (key q) (key_len q) = load_block buffer 0 (key_len p) /\
       memcpy_src (value q) (value_len q) = load_block buffer (key_len p) (value_len p)) /\
  (u32 total <= n -> zlen buffer < total -> packet_decode_body p buffer n = Ub).
Proof.
  intros Hf Hkn Hvn Hk Hv total.
  pose proof (packet_decode_body_data_cases p buffer n Hf Hkn Hvn Hk Hv) as E.
  fold total in E. split; [|split].
  - intros H. by rewrite E, (proj2 (Z.ltb_lt _ _)).
  - intros H1 H2. rewrite (proj2 (Z.ltb_ge _ _)), (proj2 (Z.leb_le _ _)) in E by done.
    eexists. split; [exact E|]. cbn [key_len value_len key value].
    split; [done|]. split; [done|].
    split.
    + apply (memcpy_slice buffer 0); lia.
    + apply memcpy_slice; lia.
  - intros H1 H2. by rewrite E, (proj2 (Z.ltb_ge _ _)), (proj2 (Z.leb_gt _ _)).
Qed.

Lemma packet_decode_body_outcome_witness :
  let p := mkPacket 1 1 2 None None 0 0 0 0 in
  let m := cells [1; 2; 3; 4] in
  (2 < u32 3 -> packet_decode_body p m 2 = Ok None) /\
  (u32 3 <= 2 -> 3 <= zlen m ->
     exists q, packet_decode_body p m 2 = Ok (Some q) /\
       key_len q = 1 /\ value_len q = 2 /\
       memcpy_src (key q) (key_len q) = load_block m 0 1 /\
       memcpy_src (value q) (value_len q) = load_block m 1 2) /\
  (u32 3 <= 2 -> zlen m < 3 -> packet_decode_body p m 2 = Ub).
Proof.
  apply (packet_decode_body_outcome (mkPacket 1 1 2 None None 0 0 0 0)
           (cells [1; 2; 3; 4]) 2); [reflexivity..|discriminate|discriminate].
Defined.

(** C31. The server's use of the decoder (a block of exactly
    [packet_body_size] bytes) stays inside the block if and only if key and
    value length do not wrap [uint32_t] together. *)
Theorem packet_decode_body_safe_iff p buffer :
  is_ctrl (flags p) = false -> key p = None -> value p = None ->
  0 <= key_len p -> 0 <= value_len p -> zlen buffer = packet_body_size p ->
  packet_decode_body p buffer (packet_body_size p) <> Ub
  <-> key_len p + value_len p < 2 ^ 32.
Proof.
  intros Hf Hkn Hvn Hk Hv Hl.
  assert (packet_body_size p = u32 (key_len p + value_len p)) as Hs.
  { unfold packet_body_size. unfold is_ctrl in Hf. rewrite Hf. cbn.
    apply u64_small. pose proof (u32_range (key_len p + value_len p)). lia. }
  rewrite packet_decode_body_data_cases, Hl, Hs by done. rewrite Z.ltb_irrefl.
  destruct (Z.leb_spec (key_len p + value_len p) (u32 (key_len p + value_len p))) as [H|H].
  - split; [|done]. intros _. pose proof (u32_range (key_len p + value_len p)). lia.
  - split; [done|]. intros H'. rewrite u32_small in H by lia. lia.
Qed.

Lemma packet_decode_body_safe_iff_witness :
  let p := mkPacket 1 2 4294967295 None None 0 0 0 0 in
  packet_decode_body p (cells [65]) (packet_body_size p) <> Ub
  <-> 2 + 4294967295 < 2 ^ 32.
Proof.
  apply (packet_decode_body_safe_iff (mkPacket 1 2 4294967295 None None 0 0 0 0)
           (cells [65])); first [reflexivity | discriminate].
Defined.

(** C32. Truncated input.  [packet_decode] hands the body decoder the length of
    the whole buffer, header included.  A data packet of whose value the
    last [d] bytes are missing is rejected only when more than seven are missing;
    otherwise the decoder reads past the valid bytes: out of the block when
    the block ends there, or into whatever indeterminate bytes follow. *)
Theorem packet_decode_truncated fl k v d :
  is_ctrl fl = false -> zlen k < 2 ^ 16 -> zlen k + zlen v < 2 ^ 32 ->
  1 <= d <= zlen v ->
  let bytes := cells (fl :: be16 (zlen k) ++ be32 (zlen v) ++ k
                        ++ take (Z.to_nat (zlen v - d)) v) in
  let n := zlen bytes in
  (7 < d -> packet_decode bytes n = Ok None) /\
  (d <= 7 -> packet_decode bytes n = Ub) /\
  (d <= 7 -> packet_decode (bytes ++ malloc d) n =
     Ok (Some (mkPacket fl (zlen k) (zlen v) (nullable k)
                 (Some (cells (take (Z.to_nat (zlen v - d)) v) ++ malloc d)) 0 0 0 0))).
Proof.
  intros Hfl Hk Hkv Hd bytes n.
  pose proof (zlen_nonneg k) as Hk0.
  set (w := take (Z.to_nat (zlen v - d)) v) in *.
  assert (zlen w = zlen v - d) as Hw
    by (unfold w, zlen in *; rewrite length_take; lia).
  assert (n = 7 + zlen k + zlen v - d) as Hn.
  { unfold n, bytes. rewrite zlen_cells.
    change (fl :: be16 (zlen k) ++ be32 (zlen v) ++ k ++ w)
      with ((fl :: be16 (zlen k) ++ be32 (zlen v)) ++ k ++ w).
    rewrite !zlen_app, Hw. change (zlen (fl :: _)) with 7. lia. }
  assert (forall rest, packet_decode (bytes ++ rest) n =
    packet_decode_body (mkPacket fl (zlen k) (zlen v) None None 0 0 0 0)
      (cells k ++ cells w ++ rest) n) as Hdec.
  { intros rest. unfold packet_decode, bytes.
    change (fl :: be16 (zlen k) ++ be32 (zlen v) ++ k ++ w)
      with ([fl; byte_at (zlen k) 8; byte_at (zlen k) 0; byte_at (zlen v) 24;
             byte_at (zlen v) 16; byte_at (zlen v) 8; byte_at (zlen v) 0] ++ k ++ w).
    rewrite !cells_app, <- !app_assoc, packet_decode_hdr_bytes, Hfl by lia.
    by rewrite dec_u16_be, dec_u32_be by lia. }
  pose proof (Hdec []) as Hdec0. rewrite !app_nil_r in Hdec0. rewrite Hdec, Hdec0.
  rewrite !packet_decode_body_data_cases by (done || cbn; lia).
  cbn [flags key_len value_len hash_id node_id node_ip node_port].
  rewrite u32_small, !zlen_app, zlen_malloc, !zlen_cells, Hw, Hn by lia.
  split; [|split]; intros Hd7.
  - by rewrite (proj2 (Z.ltb_lt _ _)) by lia.
  - by rewrite (proj2 (Z.ltb_ge _ _)), (proj2 (Z.leb_gt _ _)) by lia.
  - rewrite (proj2 (Z.ltb_ge _ _)), (proj2 (Z.leb_le _ _)) by lia. cbv zeta.
    do 3 f_equal.
    + destruct k as [|x k]; [done|]. rewrite (proj2 (Z.ltb_lt _ _)) by (unfold zlen; cbn; lia).
      unfold zlen. by rewrite Nat2Z.id, <- (length_cells (x :: k)), take_app_length.
    + rewrite (proj2 (Z.ltb_lt _ _)) by lia. f_equal.
      unfold zlen at 2. rewrite Nat2Z.id, <- (length_cells k), drop_app_length.
      apply take_ge. rewrite length_app, length_cells. unfold malloc.
      rewrite length_replicate. unfold zlen in *. lia.
Qed.

Lemma packet_decode_truncated_witness :
  let bytes := cells [8; 0; 1; 0; 0; 0; 2; 65; 66] in
  (7 < 1 -> packet_decode bytes 9 = Ok None) /\
  (1 <= 7 -> packet_decode bytes 9 = Ub) /\
  (1 <= 7 -> packet_decode (bytes ++ malloc 1) 9 =
     Ok (Some (mkPacket 8 1 2 (Some (cells [65])) (Some (cells [66] ++ malloc 1)) 0 0 0 0))).
Proof.
  apply (packet_decode_truncated 8 [65] [66; 67] 1);
    [reflexivity|reflexivity|reflexivity|split; discriminate].
Defined.

(** Duplication: the copy of a packet owns fresh key and value blocks and
    serialises to the same bytes; a NULL key or value becomes an empty block. *)
Theorem packet_dup_serialize p k v :
  load_bytes (key p) (key_len p) = Ok k ->
  load_bytes (value p) (value_len p) = Ok v ->
  key_len p < 2 ^ 16 -> value_len p < 2 ^ 32 ->
  exists q, packet_dup p = Ok q /\
    key q = Some (cells k) /\ value q = Some (cells v) /\
    key_len q = key_len p /\ value_len q = value_len p /\ flags q = flags p /\
    packet_serialize q = packet_serialize p.
Proof.
  intros Hk Hv Hkl Hvl.
  pose proof (load_bytes_inv _ _ _ Hk) as (Ek & Lk & _).
  pose proof (load_bytes_inv _ _ _ Hv) as (Ev & Lv & _).
  unfold packet_dup. rewrite Ek, res_bind_Ok, Ev, res_bind_Ok.
  eexists. split; [reflexivity|]. do 5 (split; [done|]).
  unfold packet_serialize. cbn [flags].
  destruct (has_flag (flags p) PKT_FLAG_CTRL).
  - by rewrite !packet_serialize_ctrl_wire.
  - rewrite (packet_serialize_data_wire p k v) by done.
    rewrite (packet_serialize_data_wire _ k v); try done; by apply load_bytes_exact.
Qed.

Lemma packet_dup_serialize_witness :
  exists q, packet_dup (mkPacket 4 1 0 (Some (cells [65; 66])) None 0 0 0 0) = Ok q /\
    key q = Some (cells [65]) /\ value q = Some (cells []) /\
    key_len q = 1 /\ value_len q = 0 /\ flags q = 4 /\
    packet_serialize q =
      packet_serialize (mkPacket 4 1 0 (Some (cells [65; 66])) None 0 0 0 0).
Proof.
  apply (packet_dup_serialize (mkPacket 4 1 0 (Some (cells [65; 66])) None 0 0 0 0)
           [65] []); reflexivity.
Defined.

(** ** The type of a packet *)

(** A block of the announced length, or NULL. *)
Definition block_wf (p : option (list cell)) (n : Z) : Prop :=
  match p with Some b => zlen b = n | None => True end.

(** Every field fits its C type, and the buffers are as long as announced. *)
Record packet_wf (p : packet) : Prop := {
  wf_flags : byte_ok (flags p);
  wf_key_len : 0 <= key_len p < 2 ^ 16;
  wf_value_len : 0 <= value_len p < 2 ^ 32;
  wf_key : block_wf (key p) (key_len p);
  wf_value : block_wf (value p) (value_len p);
  wf_hash_id : 0 <= hash_id p < 2 ^ 16;
  wf_node_id : 0 <= node_id p < 2 ^ 16;
  wf_node_ip : 0 <= node_ip p < 2 ^ 32;
  wf_node_port : 0 <= node_port p < 2 ^ 16;
}.

(** No announced buffer is missing. *)
Definition packet_complete (p : packet) : Prop :=
  is_ctrl (flags p) = false ->
  (key p = None -> key_len p = 0) /\ (value p = None -> value_len p = 0).

Definition cell_ok (c : cell) : Prop := match c with Some b => byte_ok b | None => True end.

Lemma load_byte_ok m i b : Forall cell_ok m -> load m i = Ok b -> byte_ok b.
Proof.
  unfold load. intros Hm. destruct (0 <=? i); [|done].
  destruct (m !! Z.to_nat i) as [[x|]|] eqn:E; [|done..]. intros [= <-].
  exact (proj1 (Forall_lookup cell_ok m) Hm _ _ E).
Qed.

Lemma decode_hdr_wf buffer n q :
  Forall cell_ok buffer -> packet_decode_hdr buffer n = Ok (Some q) -> packet_wf q.
Proof.
  intros Hb E. unfold packet_decode_hdr in E. destruct (n <? _); [done|]. inv_res.
  pose proof (load_byte_ok _ _ _ Hb Hr) as Hf.
  destruct (has_flag _ _); cbn [negb] in E; injection E as <-;
    (split; cbn; try done; try lia; first [apply u16_range|apply u32_range]).
Qed.

Lemma decode_copy_wf buffer off len old k :
  block_wf old len -> 0 <= len ->
  (if 0 <? len then b ← load_block buffer off len; Ok (Some b) else Ok old) = Ok k ->
  block_wf k len /\ (k = None -> len = 0).
Proof.
  intros Ho Hl E. destruct (Z.ltb_spec 0 len); inv_res.
  - apply load_block_inv in Hr as (_ & _ & _ & _ & Hz). done.
  - split; [done|lia].
Qed.

Lemma decode_body_wf p buffer n q :
  packet_wf p -> packet_decode_body p buffer n = Ok (Some q) -> packet_wf q /\ packet_complete q.
Proof.
  intros Hp E. destruct Hp. unfold packet_decode_body in E.
  destruct (has_flag (flags p) PKT_FLAG_CTRL) eqn:Ef.
  - inv_res. split; [split; cbn; try done; first [apply u32_range|apply u16_range]|].
    intros Hc. unfold is_ctrl in Hc. cbn in Hc. congruence.
  - cbv zeta in E. destruct (n <? _); [done|].
    apply res_bind_ok in E as (k & Hk & E). apply res_bind_ok in E as (v & Hv & E).
    injection E as <-.
    apply decode_copy_wf in Hk as [Hk1 Hk2]; [|done|lia].
    apply decode_copy_wf in Hv as [Hv1 Hv2]; [|done|lia].
    by split; [split|].
Qed.

Lemma memcpy_src_wf p n b : memcpy_src p n = Ok b -> zlen b = n.
Proof.
  unfold memcpy_src. destruct p as [m|].
  - by intros (_ & _ & _ & _ & ?)%load_block_inv.
  - destruct (Z.eqb_spec n 0) as [->|]; [by intros [= <-]|done].
Qed.

(** C34. Packets are well typed throughout: a new packet, whatever the header
    decoder makes of any bytes, whatever the body decoder makes of that, and
    every duplicate has all its fields within their C types and buffers of
    exactly the announced lengths; after the body no announced buffer is
    missing. *)
Theorem packet_type_preserved p buffer n :
  packet_wf p -> Forall cell_ok buffer ->
  packet_wf packet_new /\
  (forall q, packet_decode_hdr buffer n = Ok (Some q) -> packet_wf q) /\
  (forall q, packet_decode_body p buffer n = Ok (Some q) -> packet_wf q /\ packet_complete q) /\
  (forall q, packet_decode buffer n = Ok (Some q) -> packet_wf q /\ packet_complete q) /\
  (forall q, packet_dup p = Ok q -> packet_wf q /\ packet_complete q).
Proof.
  intros Hp Hb. split; [split; cbn; try done; lia|].
  split; [intros q; by apply decode_hdr_wf|]. split; [intros q; by apply decode_body_wf|]. split.
  - intros q E. unfold packet_decode in E. apply res_bind_ok in E as (o & Eh & E).
    destruct o as [p1|]; [|done]. eapply decode_body_wf; [|exact E]. by eapply decode_hdr_wf.
  - intros q E. destruct Hp. unfold packet_dup in E. inv_res.
    apply memcpy_src_wf in Hr, Hr0. by split; [split|].
Qed.

Lemma packet_type_preserved_witness :
  let p := mkPacket 4 1 2 None None 0 0 0 0 in
  let q := mkPacket 4 1 2 (Some (cells [65])) (Some (cells [66; 67])) 0 0 0 0 in
  packet_decode_body p (cells [65; 66; 67]) 3 = Ok (Some q) /\ packet_wf q /\ packet_complete q.
Proof.
  intros p q. assert (packet_decode_body p (cells [65; 66; 67]) 3 = Ok (Some q)) as E by reflexivity.
  split; [exact E|].
  destruct (packet_type_preserved p (cells [65; 66; 67]) 3) as (_ & _ & H & _).
  - split; cbn; try exact I; (split; [discriminate|reflexivity]).
  - repeat (apply List.Forall_cons; [split; [discriminate|reflexivity]|]). apply List.Forall_nil.
  - exact (H q E).
Defined.
