(* ===== verification/RingBuffer.v ===== *)
(** * RingBuffer: the byte queue of a connection ([praxis2/src/util.c])

    [rb_new], [rb_can_read], [rb_can_write], [rb_write] and [rb_read] with their
    [size_t] arithmetic, and the refinement of the ring buffer by a bounded
    first-in first-out queue. *)

From stdpp Require Import base tactics list numbers option.
From S2P Require Import Prelude.

(** [typedef struct _ring_buffer] *)
Record ring_buffer : Type := mkRb {
  rb_buffer : list cell;
  bufsize : Z;
  wpos : Z;
  rpos : Z;
}.

Definition rb_new (size : Z) : ring_buffer :=
  mkRb (malloc (u64 (size + 1))) (u64 (size + 1)) 0 0.

Definition rb_can_read (rb : ring_buffer) : Z :=
  if rpos rb <=? wpos rb
  then u64 (wpos rb - rpos rb)
  else u64 (u64 (bufsize rb - rpos rb) + wpos rb).

Definition rb_can_write (rb : ring_buffer) : Z :=
  if wpos rb <? rpos rb
  then u64 (u64 (rpos rb - wpos rb) - 1)
  else u64 (u64 (bufsize rb - wpos rb) + u64 (rpos rb - 1)).

(** [(pos + 1) % rb->bufsize] *)
Definition rb_next (rb : ring_buffer) (pos : Z) : res Z :=
  if bufsize rb =? 0 then Ub else Ok (u64 (pos + 1) mod bufsize rb).

(** The loop of [rb_write]: [for (i = 0; i < avail && i < n; i++)]. *)
Fixpoint rb_write_loop (fuel : nat) (avail n i : Z) (src : list cell) (rb : ring_buffer)
    : res ring_buffer :=
  if (i <? avail) && (i <? n) then
    match fuel with
    | O => NoFuel
    | S fuel =>
        c ← load_cell src i;
        buf ← store_cell (rb_buffer rb) (wpos rb) c;
        w ← rb_next rb (wpos rb);
        rb_write_loop fuel avail n (u64 (i + 1)) src
          (mkRb buf (bufsize rb) w (rpos rb))
    end
  else Ok rb.

Definition rb_write (rb : ring_buffer) (src : list cell) (n : Z) : res (Z * ring_buffer) :=
  let avail := rb_can_write rb in
  rb' ← rb_write_loop (Z.to_nat n) avail n 0 src rb;
  Ok (avail, rb').

(** The loop of [rb_read], filling the destination block [dst]. *)
Fixpoint rb_read_loop (fuel : nat) (avail n i : Z) (dst : list cell) (rb : ring_buffer)
    : res (list cell * ring_buffer) :=
  if (i <? avail) && (i <? n) then
    match fuel with
    | O => NoFuel
    | S fuel =>
        c ← load_cell (rb_buffer rb) (rpos rb);
        dst ← store_cell dst i c;
        r ← rb_next rb (rpos rb);
        rb_read_loop fuel avail n (u64 (i + 1)) dst
          (mkRb (rb_buffer rb) (bufsize rb) (wpos rb) r)
    end
  else Ok (dst, rb).

Definition rb_read (rb : ring_buffer) (dst : list cell) (n : Z)
    : res (Z * list cell * ring_buffer) :=
  let avail := rb_can_read rb in
  '(dst', rb') ← rb_read_loop (Z.to_nat n) avail n 0 dst rb;
  Ok (avail, dst', rb').

(** ** Invariant and abstraction *)

Record rb_ok (rb : ring_buffer) : Prop := {
  rb_ok_size : 0 < bufsize rb < 2 ^ 64;
  rb_ok_w : 0 <= wpos rb < bufsize rb;
  rb_ok_r : 0 <= rpos rb < bufsize rb;
  rb_ok_len : zlen (rb_buffer rb) = bufsize rb;
}.

(** [n] cells of a circular block of [size] cells, from [pos] on. *)
Fixpoint ring_slice (buf : list cell) (size pos : Z) (n : nat) : list cell :=
  match n with
  | O => []
  | S n => default None (buf !! Z.to_nat pos) :: ring_slice buf size ((pos + 1) mod size) n
  end.

(** The queue a ring buffer stands for, oldest byte first. *)
Definition rb_contents (rb : ring_buffer) : list cell :=
  ring_slice (rb_buffer rb) (bufsize rb) (rpos rb) (Z.to_nat (rb_can_read rb)).

(** The number of bytes it can hold. *)
Definition rb_capacity (rb : ring_buffer) : Z := bufsize rb - 1.

Section Counters.
Context (rb : ring_buffer) (Hok : rb_ok rb).

Lemma rb_can_read_eq :
  rb_can_read rb =
  if rpos rb <=? wpos rb then wpos rb - rpos rb else bufsize rb - rpos rb + wpos rb.
Proof.
  destruct Hok. unfold rb_can_read. destruct (Z.leb_spec (rpos rb) (wpos rb)).
  - apply u64_small. lia.
  - rewrite (u64_small (_ - _)) by lia. apply u64_small. lia.
Qed.

(** The [- 1] may wrap; the sum wraps back. *)
Lemma rb_can_write_eq : rb_can_write rb = rb_capacity rb - rb_can_read rb.
Proof.
  rewrite rb_can_read_eq. destruct Hok. unfold rb_can_write, rb_capacity.
  destruct (Z.ltb_spec (wpos rb) (rpos rb)); destruct (Z.leb_spec (rpos rb) (wpos rb));
    try lia.
  - rewrite (u64_small (rpos rb - wpos rb)) by lia. rewrite u64_small; lia.
  - rewrite (u64_small (bufsize rb - wpos rb)) by lia.
    unfold u64. rewrite Zplus_mod_idemp_r, Z.mod_small; lia.
Qed.

Lemma rb_can_read_range : 0 <= rb_can_read rb <= rb_capacity rb.
Proof.
  rewrite rb_can_read_eq. destruct Hok. unfold rb_capacity.
  destruct (Z.leb_spec (rpos rb) (wpos rb)); lia.
Qed.
End Counters.

Lemma length_ring_slice buf size pos n : length (ring_slice buf size pos n) = n.
Proof. revert pos. induction n; intros; cbn; [done|]. by rewrite IHn. Qed.

Lemma zlen_rb_contents rb : rb_ok rb -> zlen (rb_contents rb) = rb_can_read rb.
Proof.
  intros Hok. unfold zlen, rb_contents. rewrite length_ring_slice.
  pose proof (rb_can_read_range rb Hok). lia.
Qed.

Lemma ring_slice_snoc buf size pos n :
  0 < size -> 0 <= pos < size ->
  ring_slice buf size pos (S n) =
  ring_slice buf size pos n ++ [default None (buf !! Z.to_nat ((pos + Z.of_nat n) mod size))].
Proof.
  intros Hs. revert pos. induction n as [|n IH]; intros pos Hp.
  - cbn. rewrite Z.add_0_r, Z.mod_small by lia. done.
  - change (ring_slice buf size pos (S (S n))) with
      (default None (buf !! Z.to_nat pos) :: ring_slice buf size ((pos + 1) mod size) (S n)).
    rewrite IH by (apply Z.mod_pos_bound; lia).
    cbn [ring_slice app]. rewrite Zplus_mod_idemp_l.
    by replace (pos + 1 + Z.of_nat n) with (pos + Z.of_nat (S n)) by lia.
Qed.

(** A cell outside the slice does not matter. *)
Lemma ring_slice_insert buf size pos n q c :
  0 < size -> 0 <= pos < size -> 0 <= q < size ->
  (forall j, 0 <= j < Z.of_nat n -> (pos + j) mod size <> q) ->
  ring_slice (<[Z.to_nat q := c]> buf) size pos n = ring_slice buf size pos n.
Proof.
  intros Hs. revert pos. induction n as [|n IH]; intros pos Hp Hq Hne; [done|]. cbn.
  rewrite list_lookup_insert_ne.
  - f_equal. apply IH; [apply Z.mod_pos_bound; lia|done|].
    intros j Hj. rewrite Zplus_mod_idemp_l. replace (pos + 1 + j) with (pos + (j + 1)) by lia.
    apply Hne. lia.
  - intros E. apply (Hne 0); [lia|]. rewrite Z.add_0_r, Z.mod_small by lia. lia.
Qed.

(** ** One byte in, one byte out *)

Section Steps.
Context (rb : ring_buffer) (Hok : rb_ok rb).

Lemma rb_next_eq pos : 0 <= pos < bufsize rb -> rb_next rb pos = Ok ((pos + 1) mod bufsize rb).
Proof.
  intros. destruct Hok. unfold rb_next. rewrite (proj2 (Z.eqb_neq _ _)) by lia.
  by rewrite u64_small by lia.
Qed.

(** Where the write position stands in the circle. *)
Lemma wpos_eq : (rpos rb + rb_can_read rb) mod bufsize rb = wpos rb.
Proof.
  rewrite rb_can_read_eq by done. destruct Hok. destruct (Z.leb_spec (rpos rb) (wpos rb)).
  - rewrite Z.mod_small; lia.
  - replace (rpos rb + (bufsize rb - rpos rb + wpos rb))
      with (wpos rb + 1 * bufsize rb) by lia.
    rewrite Z.mod_add, Z.mod_small; lia.
Qed.

Definition rb_put (c : cell) : ring_buffer :=
  mkRb (<[Z.to_nat (wpos rb) := c]> (rb_buffer rb)) (bufsize rb)
    ((wpos rb + 1) mod bufsize rb) (rpos rb).

Lemma rb_put_spec c :
  0 < rb_can_write rb ->
  rb_ok (rb_put c) /\ rb_capacity (rb_put c) = rb_capacity rb /\
  rb_can_read (rb_put c) = rb_can_read rb + 1 /\
  rb_contents (rb_put c) = rb_contents rb ++ [c].
Proof.
  intros Hw. rewrite rb_can_write_eq in Hw by done.
  assert (rb_ok (rb_put c)) as Hok'.
  { destruct Hok. split; cbn; [done|apply Z.mod_pos_bound; lia|done|by rewrite zlen_insert]. }
  assert (rb_can_read (rb_put c) = rb_can_read rb + 1) as Hr.
  { rewrite !rb_can_read_eq in * by done. destruct Hok. unfold rb_capacity in *. cbn in *.
    assert ((wpos rb + 1) mod bufsize rb =
            if wpos rb + 1 =? bufsize rb then 0 else wpos rb + 1) as ->.
    { destruct (Z.eqb_spec (wpos rb + 1) (bufsize rb)) as [->|].
      - by rewrite Z.mod_same by lia.
      - apply Z.mod_small. lia. }
    destruct (Z.eqb_spec (wpos rb + 1) (bufsize rb));
      destruct (Z.leb_spec (rpos rb) (wpos rb)); repeat case_match; lia. }
  split; [done|]. split; [done|]. split; [done|].
  pose proof (rb_can_read_range rb Hok) as Hrange. pose proof wpos_eq as Hwp.
  unfold rb_contents. rewrite Hr, Z2Nat.inj_add, Nat.add_1_r by lia.
  destruct Hok. cbn [rb_put rb_buffer bufsize rpos].
  rewrite ring_slice_snoc by lia. rewrite Z2Nat.id by lia. rewrite Hwp. f_equal.
  - apply ring_slice_insert; try lia. intros j Hj Heq. rewrite <- Hwp in Heq.
    unfold rb_capacity in *.
    rewrite !Zmod_eq_full in Heq by lia.
    generalize dependent ((rpos rb + j) / bufsize rb). intros q1 Heq.
    generalize dependent ((rpos rb + rb_can_read rb) / bufsize rb). intros q2 Heq.
    destruct (Z.le_gt_cases (q2 - q1) 0); nia.
  - rewrite list_lookup_insert_eq; [done|]. unfold zlen in *. lia.
Qed.

Definition rb_get : ring_buffer :=
  mkRb (rb_buffer rb) (bufsize rb) (wpos rb) ((rpos rb + 1) mod bufsize rb).

Lemma rb_get_spec :
  0 < rb_can_read rb ->
  rb_ok rb_get /\ rb_capacity rb_get = rb_capacity rb /\
  rb_can_read rb_get = rb_can_read rb - 1 /\
  exists c, rb_buffer rb !! Z.to_nat (rpos rb) = Some c /\
    rb_contents rb = c :: rb_contents rb_get.
Proof.
  intros Hr.
  assert (rb_ok rb_get) as Hok'.
  { destruct Hok. split; cbn; [done|done|apply Z.mod_pos_bound; lia|done]. }
  assert (rb_can_read rb_get = rb_can_read rb - 1) as Hr'.
  { rewrite !rb_can_read_eq in * by done. destruct Hok. cbn in *.
    assert ((rpos rb + 1) mod bufsize rb =
            if rpos rb + 1 =? bufsize rb then 0 else rpos rb + 1) as ->.
    { destruct (Z.eqb_spec (rpos rb + 1) (bufsize rb)) as [->|].
      - by rewrite Z.mod_same by lia.
      - apply Z.mod_small. lia. }
    destruct (Z.eqb_spec (rpos rb + 1) (bufsize rb));
      destruct (Z.leb_spec (rpos rb) (wpos rb)); repeat case_match; lia. }
  split; [done|]. split; [done|]. split; [done|].
  destruct (rb_buffer rb !! Z.to_nat (rpos rb)) as [c|] eqn:Hc.
  - exists c. split; [done|]. unfold rb_contents. rewrite Hr'.
    replace (Z.to_nat (rb_can_read rb)) with (S (Z.to_nat (rb_can_read rb - 1))) by lia.
    cbn [ring_slice]. by rewrite Hc.
  - apply lookup_ge_None in Hc. destruct Hok. unfold zlen in *. lia.
Qed.
End Steps.

(** ** The loops *)

Lemma rb_write_loop_spec fuel avail n i src rb :
  rb_ok rb -> 0 <= i -> n < 2 ^ 64 -> n <= zlen src ->
  avail - i <= rb_can_write rb -> (Z.to_nat (n - i) <= fuel)%nat ->
  exists rb', rb_write_loop fuel avail n i src rb = Ok rb' /\
    rb_ok rb' /\ rb_capacity rb' = rb_capacity rb /\
    rb_contents rb' =
      rb_contents rb ++ take (Z.to_nat (Z.min avail n - i)) (drop (Z.to_nat i) src).
Proof.
  revert i rb. induction fuel as [|fuel IH]; intros i rb Hok Hi Hn Hs Ha Hf; cbn [rb_write_loop].
  all: destruct (Z.ltb_spec i avail) as [H1|H1]; destruct (Z.ltb_spec i n) as [H2|H2];
    cbn [andb];
    try (exists rb; replace (Z.to_nat (Z.min avail n - i)) with 0%nat by lia;
         by rewrite take_0, app_nil_r).
  { lia. }
  destruct (lookup_lt_is_Some_2 src (Z.to_nat i)) as [c Hc]; [unfold zlen in *; lia|].
  rewrite (load_cell_ok _ _ c), res_bind_Ok by done.
  assert (0 <= wpos rb < bufsize rb) as Hw by apply Hok.
  rewrite store_cell_ok, res_bind_Ok by (destruct Hok; lia).
  rewrite rb_next_eq, res_bind_Ok, u64_small by (done || lia).
  fold (rb_put rb c).
  destruct (rb_put_spec rb Hok c) as (Hok' & Hcap & Hr & Hc'); [lia|].
  destruct (IH (i + 1) (rb_put rb c)) as (rb' & E & Hok'' & Hcap' & Hc''); try lia; [done| |].
  { rewrite rb_can_write_eq by done. rewrite rb_can_write_eq in Ha by done. lia. }
  exists rb'. split; [done|]. split; [done|]. split; [congruence|].
  rewrite Hc'', Hc', <- app_assoc. f_equal. cbn [app].
  replace (Z.to_nat (Z.min avail n - i)) with (S (Z.to_nat (Z.min avail n - (i + 1)))) by lia.
  rewrite (drop_S src c (Z.to_nat i)) by done.
  by replace (Z.to_nat (i + 1)) with (S (Z.to_nat i)) by lia.
Qed.

Lemma rb_read_loop_spec fuel avail n i dst rb :
  rb_ok rb -> 0 <= i -> n < 2 ^ 64 -> n <= zlen dst ->
  avail - i <= rb_can_read rb -> (Z.to_nat (n - i) <= fuel)%nat ->
  let m := Z.to_nat (Z.min avail n - i) in
  exists rb', rb_read_loop fuel avail n i dst rb =
      Ok (take (Z.to_nat i) dst ++ take m (rb_contents rb) ++ drop (Z.to_nat i + m) dst, rb') /\
    rb_ok rb' /\ rb_capacity rb' = rb_capacity rb /\
    rb_contents rb' = drop m (rb_contents rb).
Proof.
  revert i dst rb.
  induction fuel as [|fuel IH]; intros i dst rb Hok Hi Hn Hs Ha Hf m; cbn [rb_read_loop].
  all: destruct (Z.ltb_spec i avail) as [H1|H1]; destruct (Z.ltb_spec i n) as [H2|H2];
    cbn [andb];
    try (exists rb; replace m with 0%nat by lia;
         by rewrite take_0, Nat.add_0_r, drop_0, app_nil_l, take_drop).
  { lia. }
  destruct (rb_get_spec rb Hok) as (Hok' & Hcap & Hr & c & Hc & Hcc); [lia|].
  assert (0 <= rpos rb < bufsize rb) as Hw by apply Hok.
  rewrite (load_cell_ok _ _ c), res_bind_Ok by (done || lia).
  rewrite store_cell_ok, res_bind_Ok by lia.
  rewrite rb_next_eq, res_bind_Ok, u64_small by (done || lia).
  fold (rb_get rb).
  destruct (IH (i + 1) (<[Z.to_nat i := c]> dst) (rb_get rb))
    as (rb' & E & Hok'' & Hcap' & Hc'); try lia; [done|by rewrite zlen_insert|].
  exists rb'. replace m with (S (Z.to_nat (Z.min avail n - (i + 1)))) by lia.
  set (m' := Z.to_nat (Z.min avail n - (i + 1))) in *.
  replace (Z.to_nat (i + 1)) with (S (Z.to_nat i)) in E by lia.
  split; [|split; [done|split; [congruence|by rewrite Hcc]]].
  rewrite E, Hcc. do 2 f_equal. cbn [take app].
  assert (Z.to_nat i < length dst)%nat by (unfold zlen in *; lia).
  rewrite drop_insert_lt by lia.
  rewrite (take_S_r _ _ c) by (by apply list_lookup_insert_eq).
  rewrite take_insert_ge by lia. rewrite <- app_assoc. cbn [app].
  by rewrite Nat.add_succ_r.
Qed.

Lemma rb_write_spec rb src n :
  rb_ok rb -> 0 <= n < 2 ^ 64 -> n <= zlen src ->
  exists rb', rb_write rb src n = Ok (rb_can_write rb, rb') /\ rb_ok rb' /\
    rb_capacity rb' = rb_capacity rb /\
    rb_contents rb' =
      rb_contents rb ++ take (Z.to_nat (Z.min (rb_can_write rb) n)) src.
Proof.
  intros Hok Hn Hs. unfold rb_write.
  destruct (rb_write_loop_spec (Z.to_nat n) (rb_can_write rb) n 0 src rb)
    as (rb' & -> & H); try lia; [done|].
  exists rb'. by rewrite Z.sub_0_r in H.
Qed.

Lemma rb_read_spec rb dst n :
  rb_ok rb -> 0 <= n < 2 ^ 64 -> n <= zlen dst ->
  let m := Z.to_nat (Z.min (rb_can_read rb) n) in
  exists rb', rb_read rb dst n =
      Ok (rb_can_read rb, take m (rb_contents rb) ++ drop m dst, rb') /\
    rb_ok rb' /\ rb_capacity rb' = rb_capacity rb /\
    rb_contents rb' = drop m (rb_contents rb).
Proof.
  intros Hok Hn Hs m. unfold rb_read.
  destruct (rb_read_loop_spec (Z.to_nat n) (rb_can_read rb) n 0 dst rb)
    as (rb' & -> & H); try lia; [done|].
  exists rb'. by rewrite Z.sub_0_r in H |- *.
Qed.

Lemma rb_new_ok size :
  0 <= size < 2 ^ 64 - 1 ->
  rb_ok (rb_new size) /\ rb_capacity (rb_new size) = size /\ rb_contents (rb_new size) = [].
Proof.
  intros. unfold rb_new. rewrite u64_small by lia. split; [|split].
  - split; cbn; try lia. apply zlen_malloc. lia.
  - unfold rb_capacity. cbn. lia.
  - unfold rb_contents, rb_can_read. cbn. done.
Qed.

(** ** Specification: a bounded queue, and refinement *)

Record fifo : Type := mkFifo {
  fifo_capacity : Z;
  fifo_items : list cell;
}.

Definition fifo_free (q : fifo) : Z := fifo_capacity q - zlen (fifo_items q).

(** Both operations report the space (the bytes) there was, as the code does,
    not the number of bytes moved. *)
Definition fifo_write (q : fifo) (bs : list cell) : Z * fifo :=
  (fifo_free q,
   mkFifo (fifo_capacity q)
     (fifo_items q ++ take (Z.to_nat (Z.min (fifo_free q) (zlen bs))) bs)).

Definition fifo_read (q : fifo) (n : Z) : Z * list cell * fifo :=
  let m := Z.to_nat (Z.min (zlen (fifo_items q)) n) in
  (zlen (fifo_items q), take m (fifo_items q),
   mkFifo (fifo_capacity q) (drop m (fifo_items q))).

Inductive queue_op : Type :=
  | QWrite (bs : list cell)
  | QRead (n : Z).

Inductive queue_out : Type :=
  | OWritten (avail : Z)
  | ORead (avail : Z) (bs : list cell).

Definition fifo_step (q : fifo) (op : queue_op) : queue_out * fifo :=
  match op with
  | QWrite bs => let '(a, q) := fifo_write q bs in (OWritten a, q)
  | QRead n => let '(a, bs, q) := fifo_read q n in (ORead a bs, q)
  end.

(** The same operation on the ring buffer; a read goes to a fresh block of [n]
    bytes, of which the part that was filled is reported. *)
Definition rb_step (rb : ring_buffer) (op : queue_op) : res (queue_out * ring_buffer) :=
  match op with
  | QWrite bs =>
      '(a, rb) ← rb_write rb bs (zlen bs); Ok (OWritten a, rb)
  | QRead n =>
      '(a, dst, rb) ← rb_read rb (malloc n) n;
      Ok (ORead a (take (Z.to_nat (Z.min a n)) dst), rb)
  end.

Fixpoint fifo_run (q : fifo) (ops : list queue_op) : list queue_out * fifo :=
  match ops with
  | [] => ([], q)
  | op :: ops =>
      let '(o, q) := fifo_step q op in
      let '(os, q) := fifo_run q ops in (o :: os, q)
  end.

Fixpoint rb_run (rb : ring_buffer) (ops : list queue_op)
    : res (list queue_out * ring_buffer) :=
  match ops with
  | [] => Ok ([], rb)
  | op :: ops =>
      '(o, rb) ← rb_step rb op;
      '(os, rb) ← rb_run rb ops;
      Ok (o :: os, rb)
  end.

Definition op_ok (op : queue_op) : Prop :=
  match op with
  | QWrite bs => zlen bs < 2 ^ 64
  | QRead n => 0 <= n < 2 ^ 64
  end.

Definition rb_abs (rb : ring_buffer) : fifo := mkFifo (rb_capacity rb) (rb_contents rb).

Lemma rb_step_refines rb op :
  rb_ok rb -> op_ok op ->
  exists rb', rb_step rb op = Ok (fst (fifo_step (rb_abs rb) op), rb') /\
    rb_ok rb' /\ rb_abs rb' = snd (fifo_step (rb_abs rb) op).
Proof.
  intros Hok Hop. pose proof (zlen_rb_contents rb Hok) as Hz.
  destruct op as [bs|n]; cbn in Hop.
  - destruct (rb_write_spec rb bs (zlen bs) Hok) as (rb' & E & Hok' & Hcap & Hc);
      [pose proof (zlen_nonneg bs); lia|lia|].
    exists rb'. cbn. rewrite E. unfold rb_abs, fifo_free. cbn.
    rewrite Hz, Hcap, Hc, rb_can_write_eq by done. done.
  - destruct (rb_read_spec rb (malloc n) n Hok) as (rb' & E & Hok' & Hcap & Hc);
      [lia|rewrite zlen_malloc; lia|].
    exists rb'. cbn. rewrite E. unfold rb_abs. cbn.
    rewrite Hz, Hcap, Hc. split; [|done]. do 3 f_equal.
    set (m := Z.to_nat (Z.min (rb_can_read rb) n)).
    apply take_app_length'. rewrite length_take. unfold zlen in Hz. lia.
Qed.

(** C35. The ring buffer refines the bounded queue: any sequence of writes and
    reads on a well-formed ring buffer returns what the queue returns, byte for
    byte and count for count, never leaves its block, and ends in a well-formed
    ring buffer that stands for the queue's final state. *)
Theorem rb_refines_fifo rb ops :
  rb_ok rb -> Forall op_ok ops ->
  exists rb', rb_run rb ops = Ok (fst (fifo_run (rb_abs rb) ops), rb') /\
    rb_ok rb' /\ rb_abs rb' = snd (fifo_run (rb_abs rb) ops).
Proof.
  intros Hok Hops. revert rb Hok.
  induction Hops as [|op ops Hop _ IH]; intros rb Hok; cbn.
  - by exists rb.
  - destruct (rb_step_refines rb op Hok Hop) as (rb1 & E1 & Hok1 & Ha1).
    rewrite E1, res_bind_Ok. destruct (fifo_step (rb_abs rb) op) as [o q].
    cbn in Ha1 |- *. subst q.
    destruct (IH rb1 Hok1) as (rb2 & E2 & Hok2 & Ha2).
    rewrite E2, res_bind_Ok. destruct (fifo_run (rb_abs rb1) ops) as [os q].
    by exists rb2.
Qed.

Lemma rb_refines_fifo_witness :
  let ops := [QWrite (cells [1; 2; 3]); QRead 2; QWrite (cells [4; 5; 6; 7]); QRead 9] in
  exists rb', rb_run (rb_new 4) ops = Ok (fst (fifo_run (rb_abs (rb_new 4)) ops), rb') /\
    rb_ok rb' /\ rb_abs rb' = snd (fifo_run (rb_abs (rb_new 4)) ops).
Proof.
  apply rb_refines_fifo.
  - apply (rb_new_ok 4). split; [discriminate|reflexivity].
  - repeat (apply List.Forall_cons; [first [exact eq_refl | split; [discriminate|exact eq_refl]]|]).
    apply List.Forall_nil.
Defined.

Example rb_wraps_around :
  rb_run (rb_new 4) [QWrite (cells [1; 2; 3]); QRead 2; QWrite (cells [4; 5; 6; 7]); QRead 9]
  = Ok ([OWritten 4; ORead 3 (cells [1; 2]); OWritten 3; ORead 4 (cells [3; 4; 5; 6])],
        mkRb (cells [6; 2; 3; 4; 5]) 5 1 1).
Proof. reflexivity. Qed.

(** Space accounting: readable and writable bytes always add up to the size
    the buffer was created with, one cell staying unused, and the [size_t]
    expressions that compute them do not wrap in their result. *)
Theorem rb_space rb :
  rb_ok rb ->
  rb_can_read rb + rb_can_write rb = bufsize rb - 1 /\
  0 <= rb_can_read rb /\ 0 <= rb_can_write rb /\
  rb_can_read rb = zlen (rb_contents rb).
Proof.
  intros Hok. rewrite zlen_rb_contents, rb_can_write_eq by done.
  pose proof (rb_can_read_range rb Hok). unfold rb_capacity in *. lia.
Qed.

Lemma rb_space_witness :
  let rb := mkRb (cells [6; 2; 3; 4; 5]) 5 1 3 in
  rb_can_read rb + rb_can_write rb = 4 /\
  0 <= rb_can_read rb /\ 0 <= rb_can_write rb /\
  rb_can_read rb = zlen (rb_contents rb).
Proof.
  apply (rb_space (mkRb (cells [6; 2; 3; 4; 5]) 5 1 3)).
  split; first [reflexivity | split; first [discriminate | reflexivity]].
Defined.
