(* ===== verification/Sys.v ===== *)
(** * Sys: the operating system as a script of answers

    The program talks to the world through system calls.  The model runs
    against a script: the answers the environment gives, in the order of the
    calls.  What the program does to the world is appended to a trace.  A call
    whose answer is not next in the script blocks.  Theorems quantify over the
    script, so they hold for every behaviour of the environment. *)

From stdpp Require Import base tactics list numbers option strings.
From S2P Require Import Prelude.

(** The part of [struct addrinfo] the program uses: an IPv4 address and a port,
    in host order. *)
Record sockaddr : Type := mkAddr {
  sin_addr : Z;
  sin_port : Z;
}.

Inductive answer : Type :=
  | ASend (n : Z)                          (* bytes accepted, or negative *)
  | ARecv (r : option (list Z))            (* bytes that arrived ([[]]: end of
                                              stream), or an error *)
  | AAddrinfo (r : option (list sockaddr)) (* getaddrinfo: a list, or failure *)
  | ASocket (fd : Z)
  | AConnect (status : Z)
  | APoll (ready : Z) (revents : list bool)
  | AAccept (fd : Z)
  | ABind (status : Z)
  | AListen (status : Z).

Inductive event : Type :=
  | EResolve (host : string) (port : Z)    (* getaddrinfo(host, port) *)
  | ESocket (fd : Z)                       (* a socket was opened *)
  | ESend (fd : Z) (bs : list cell)
  | EConnect (fd : Z) (addr : sockaddr)
  | EClose (fd : Z)
  | EListen (fd : Z)
  | EResolveName (host service : string)   (* the same with a service name *)
  | EResolvePassive (service : string)     (* the same without a host *)
  | EBind (fd : Z) (addr : sockaddr).

Record io : Type := mkIo {
  script : list answer;
  trace : list event;
}.

Definition emit (e : event) (s : io) : io := mkIo (script s) (trace s ++ [e]).
Definition consume (s : io) : io := mkIo (tail (script s)) (trace s).

(** Linux transfers at most [0x7ffff000] bytes per call. *)
Definition MAX_RW_COUNT : Z := 2147479552.

(** [send(fd, buf, len, 0)] where [buf] holds the [len] bytes. *)
Definition sys_send (fd : Z) (buf : list cell) : ST io Z := fun s =>
  match script s with
  | ASend n :: _ =>
      if n <? 0 then Ok (-1, consume s)
      else
        let k := Z.min n (Z.min (zlen buf) MAX_RW_COUNT) in
        Ok (k, emit (ESend fd (take (Z.to_nat k) buf)) (consume s))
  | _ => Block
  end.

(** [recv(fd, buf, len, 0)]: the bytes stored and the value returned.  Bytes
    that do not fit stay in the socket; a request for no bytes returns 0 at
    once. *)
Definition sys_recv (fd len : Z) : ST io (Z * list Z) := fun s =>
  if len <=? 0 then Ok ((0, []), s) else
  let len := Z.min len MAX_RW_COUNT in
  match script s with
  | ARecv None :: _ => Ok ((-1, []), consume s)
  | ARecv (Some bs) :: sc =>
      if zlen bs <=? len then Ok ((zlen bs, bs), consume s)
      else Ok ((len, take (Z.to_nat len) bs),
               mkIo (ARecv (Some (drop (Z.to_nat len) bs)) :: sc) (trace s))
  | _ => Block
  end.

Definition sys_close (fd : Z) : ST io unit := fun s => Ok (tt, emit (EClose fd) s).

Definition sys_getaddrinfo (host : string) (port : Z)
    : ST io (option (list sockaddr)) := fun s =>
  match script s with
  | AAddrinfo r :: _ => Ok (r, emit (EResolve host port) (consume s))
  | _ => Block
  end.

Definition sys_getaddrinfo_name (host service : string)
    : ST io (option (list sockaddr)) := fun s =>
  match script s with
  | AAddrinfo r :: _ => Ok (r, emit (EResolveName host service) (consume s))
  | _ => Block
  end.

(** [getaddrinfo(NULL, service)] for a listening socket. *)
Definition sys_getaddrinfo_passive (service : string)
    : ST io (option (list sockaddr)) := fun s =>
  match script s with
  | AAddrinfo r :: _ => Ok (r, emit (EResolvePassive service) (consume s))
  | _ => Block
  end.

Definition sys_bind (fd : Z) (addr : sockaddr) : ST io Z := fun s =>
  match script s with
  | ABind st :: _ => Ok (st, emit (EBind fd addr) (consume s))
  | _ => Block
  end.

Definition sys_socket : ST io Z := fun s =>
  match script s with
  | ASocket fd :: _ =>
      Ok (fd, if fd <? 0 then consume s else emit (ESocket fd) (consume s))
  | _ => Block
  end.

Definition sys_connect (fd : Z) (addr : sockaddr) : ST io Z := fun s =>
  match script s with
  | AConnect st :: _ => Ok (st, emit (EConnect fd addr) (consume s))
  | _ => Block
  end.

(** [poll]: the value returned and, per entry of the array, whether its
    [revents] equals [POLLIN]. *)
Definition sys_poll : ST io (Z * list bool) := fun s =>
  match script s with
  | APoll ready revents :: _ => Ok ((ready, revents), consume s)
  | _ => Block
  end.

Definition sys_accept (fd : Z) : ST io Z := fun s =>
  match script s with
  | AAccept c :: _ => Ok (c, consume s)
  | _ => Block
  end.

Definition sys_listen (fd : Z) : ST io Z := fun s =>
  match script s with
  | AListen st :: _ => Ok (st, emit (EListen fd) (consume s))
  | _ => Block
  end.

(** A measure of what is left in the script: every call that waits for the
    environment makes it smaller. *)
Definition answer_size (a : answer) : nat :=
  match a with
  | ARecv (Some bs) => S (length bs)
  | _ => 1%nat
  end.
Definition script_size (s : io) : nat := sum_list_with answer_size (script s).

(** ** What the trace says *)

(** The bytes written to [fd], in order. *)
Definition sent_to (fd : Z) (tr : list event) : list cell :=
  tr ≫= (fun e => match e with
                  | ESend fd' bs => if fd =? fd' then bs else []
                  | _ => []
                  end).

Lemma sent_to_app fd tr1 tr2 : sent_to fd (tr1 ++ tr2) = sent_to fd tr1 ++ sent_to fd tr2.
Proof. apply bind_app. Qed.

Lemma sent_to_send fd bs : sent_to fd [ESend fd bs] = bs.
Proof. unfold sent_to. cbn. by rewrite Z.eqb_refl, app_nil_r. Qed.

Lemma sent_to_send_ne fd fd' bs : fd <> fd' -> sent_to fd [ESend fd' bs] = [].
Proof. intros. unfold sent_to. cbn. by rewrite (proj2 (Z.eqb_neq _ _)). Qed.

Create Rewrite HintDb trace.
#[export] Hint Rewrite sent_to_app sent_to_send : trace.
