(* ===== verification/Util.v ===== *)
(** * Util: hashing and whole-buffer socket transfers ([praxis2/src/util.c])

    [pseudo_hash], [sendall] and [recvall].  The ring buffer of the same source
    file is in [RingBuffer.v]. *)

From stdpp Require Import base tactics list numbers option.
From S2P Require Import Prelude Sys.

Definition pseudo_hash (buffer : option (list cell)) (buf_len : Z) : res Z :=
  if 2 <=? buf_len then
    m ← deref buffer;
    b0 ← load m 0;
    b1 ← load m 1;
    Ok (u16 (Z.lor (Z.shiftl b0 8) (Z.shiftl b1 0)))
  else if buf_len =? 1 then
    m ← deref buffer;
    b0 ← load m 0;
    Ok (u16 b0)
  else Ok 0.

(** The loop of [sendall]; every round consumes an answer of the script, so
    the script's length is fuel enough. *)
Fixpoint sendall_loop (fuel : nat) (s : Z) (buffer : list cell) (buf_size sent : Z)
    : ST io Z :=
  if sent <? buf_size then
    match fuel with
    | O => fun _ => NoFuel
    | S fuel =>
        chunk ← st_lift (load_block buffer sent (buf_size - sent));
        r ← sys_send s chunk;
        let n := i32 r in
        if n <? 1 then mret (-1)
        else sendall_loop fuel s buffer buf_size (u64 (sent + n))
    end
  else mret 0.

Definition sendall (s : Z) (buffer : list cell) (buf_size : Z) : ST io Z := fun w =>
  sendall_loop (S (length (script w))) s buffer buf_size 0 w.

(** The loop of [recvall]: the block, its size and the write position.
    [write_ptr += bytes] outside the block is undefined; an error of [recv] is
    stored in a [size_t] and gets there. *)
Fixpoint recvall_loop (fuel : nat) (s : Z) (buffer : list cell) (buf_size pos : Z)
    : ST io (list cell * Z) :=
  match fuel with
  | O => fun _ => NoFuel
  | S fuel =>
      let '(buffer, buf_size) :=
        if buf_size - pos <? 1
        then (buffer ++ malloc (u64 (buf_size * 2) - buf_size), u64 (buf_size * 2))
        else (buffer, buf_size) in
      '(r, data) ← sys_recv s (buf_size - pos);
      let bytes := u64 r in
      buffer ← st_lift (store_block buffer pos (cells data));
      if bytes <? 1 then mret (buffer, pos)
      else if buf_size <? pos + bytes then fun _ => Ub
      else recvall_loop fuel s buffer buf_size (pos + bytes)
  end.

Definition recvall (s : Z) : ST io (list cell * Z) := fun w =>
  (r ← recvall_loop (S (script_size w)) s (malloc 1024) 1024 0;
   sys_close s;;
   mret r) w.

(** ** [pseudo_hash] *)

(** The first two bytes, big endian; a one-byte key hashes to itself and the
    empty key to 0. *)
Definition hash_spec (k : list Z) : Z :=
  match k with
  | [] => 0
  | [b0] => b0
  | b0 :: b1 :: _ => b0 * 2 ^ 8 + b1
  end.

Lemma pseudo_hash_bytes p n k :
  load_bytes p n = Ok k -> Forall byte_ok k -> pseudo_hash p n = Ok (hash_spec k).
Proof.
  intros H Hb. apply load_bytes_inv in H as (Hm & <- & Hnull).
  unfold pseudo_hash. destruct k as [|b0 [|b1 k]]; [done| |].
  - change (2 <=? zlen [b0]) with false. change (zlen [b0] =? 1) with true.
    destruct p as [m|]; [|by destruct Hnull]. cbn in Hm |- *.
    apply load_block_inv in Hm as (_ & _ & Hl & Hc & _). cbn in Hc.
    destruct m as [|c m]; [done|]. injection Hc as <-. load_steps.
    split_forall. unfold byte_ok in *. rewrite u16_small; [done|lia].
  - rewrite (proj2 (Z.leb_le _ _)) by (unfold zlen; cbn; lia).
    destruct p as [m|]; [|by destruct Hnull]. cbn in Hm |- *.
    apply load_block_inv in Hm as (_ & _ & Hl & Hc & _).
    rewrite drop_0 in Hc.
    replace (Z.to_nat (zlen (b0 :: b1 :: k))) with (S (S (length k))) in Hc
      by (unfold zlen; cbn; lia).
    destruct m as [|c0 [|c1 m]]; try discriminate Hc. injection Hc as <- <- _. load_steps.
    split_forall. unfold byte_ok in *.
    rewrite Z.shiftl_0_r, lor_shiftl_add by lia. rewrite u16_small; [done|lia].
Qed.

Lemma hash_spec_range k : Forall byte_ok k -> 0 <= hash_spec k < 2 ^ 16.
Proof.
  intros Hb. destruct k as [|b0 [|b1 k]]; cbn; [lia|..]; split_forall; unfold byte_ok in *; lia.
Qed.

(** ** [sendall] *)

Lemma tail_drop {A} (l : list A) : tail l = drop 1 l.
Proof. by destruct l. Qed.

Definition is_send_to (fd : Z) (e : event) : Prop :=
  match e with ESend fd' _ => fd' = fd | _ => False end.

Lemma sys_send_cases fd buf w :
  match sys_send fd buf w with
  | Ok (r, w') =>
      script w' = tail (script w) /\ script w <> [] /\
      ((r = -1 /\ trace w' = trace w) \/
       (0 <= r <= zlen buf /\ r <= MAX_RW_COUNT /\
        trace w' = trace w ++ [ESend fd (take (Z.to_nat r) buf)]))
  | Block => True
  | _ => False
  end.
Proof.
  unfold sys_send. destruct (script w) as [|[] sc] eqn:E; try done.
  destruct (Z.ltb_spec n 0).
  - cbn. rewrite E. split; [done|]. split; [done|]. by left.
  - cbn. rewrite E. split; [done|]. split; [done|]. right.
    pose proof (zlen_nonneg buf). unfold MAX_RW_COUNT. split; [lia|]. split; [lia|done].
Qed.

(** The socket takes something, or refuses. *)
Definition accepts (a : answer) : bool := match a with ASend n => 1 <=? n | _ => false end.
Definition refuses (a : answer) : bool := match a with ASend n => n <? 1 | _ => false end.

(** All of the answers took something; the last one refused. *)
Definition all_accepted (used : list answer) : Prop := Forall (fun a => accepts a = true) used.
Definition gave_up (used : list answer) : Prop :=
  exists us a, used = us ++ [a] /\ all_accepted us /\ refuses a = true.

(** After answers that took something, the socket has not decided yet. *)
Definition keeps_waiting (sc : list answer) : Prop :=
  exists used rest, sc = used ++ rest /\ all_accepted used /\
    match rest with ASend _ :: _ => False | _ => True end.

Lemma sys_send_block fd buf w : sys_send fd buf w = Block -> keeps_waiting (script w).
Proof.
  unfold sys_send. intros E. exists [], (script w). split; [done|]. split; [constructor|].
  destruct (script w) as [|[] sc]; try done. by case_match.
Qed.

Lemma keeps_waiting_cons a sc : accepts a = true -> keeps_waiting sc -> keeps_waiting (a :: sc).
Proof.
  intros Ha (used & rest & -> & Hu & Hr). exists (a :: used), rest.
  split; [done|]. split; [by constructor|done].
Qed.

Lemma sys_send_accepts fd buf w r w' :
  sys_send fd buf w = Ok (r, w') ->
  exists a, script w = a :: script w' /\
    (if r <? 1 then buf <> [] -> refuses a = true else accepts a = true).
Proof.
  unfold sys_send. destruct (script w) as [|[n| | | | | | | |] sc] eqn:E; try done.
  destruct (Z.ltb_spec n 0); intros [= <- <-]; cbn; rewrite E; exists (ASend n); split; try done.
  - intros _. apply Z.ltb_lt. lia.
  - pose proof (zlen_nonneg buf). destruct (Z.ltb_spec (Z.min n (Z.min (zlen buf) MAX_RW_COUNT)) 1) as [H1|H1].
    + intros Hb. apply Z.ltb_lt. cbn. destruct buf; [done|]. unfold zlen, MAX_RW_COUNT in *. cbn in *. lia.
    + apply Z.leb_le. cbn. lia.
Qed.

(** What a call of [sendall] may do, from position [sent] on. *)
Definition sendall_post (fd : Z) (buffer : list cell) (sent : Z) (w : io)
    (out : res (Z * io)) : Prop :=
  match out with
  | Ok (r, w') =>
      exists evs used k,
        trace w' = trace w ++ evs /\ Forall (is_send_to fd) evs /\
        sent_to fd evs = take k (drop (Z.to_nat sent) buffer) /\
        script w = used ++ script w' /\
        ((r = 0 /\ (length buffer <= Z.to_nat sent + k)%nat /\ all_accepted used) \/
         (r = -1 /\ (Z.to_nat sent + k < length buffer)%nat /\ gave_up used))
  | Block => keeps_waiting (script w)
  | _ => False
  end.

Lemma sendall_post_stop fd buffer sent w w' evs a :
  trace w' = trace w ++ evs -> Forall (is_send_to fd) evs -> sent_to fd evs = [] ->
  script w = a :: script w' -> refuses a = true -> (Z.to_nat sent < length buffer)%nat ->
  sendall_post fd buffer sent w (Ok (-1, w')).
Proof.
  intros Ht He Hs Hj Ha Hr. exists evs, [a], 0%nat. rewrite take_0, Nat.add_0_r.
  do 4 (split; [done|]). right. split; [done|]. split; [done|]. exists [], a. by split; [|split; [constructor|]].
Qed.

Lemma gave_up_cons a used : accepts a = true -> gave_up used -> gave_up (a :: used).
Proof. intros Ha (us & b & -> & Hus & Hb). exists (a :: us), b. split; [done|]. by split; [constructor|]. Qed.

Lemma sendall_loop_post fuel fd buffer sent w :
  0 <= sent <= zlen buffer -> zlen buffer < 2 ^ 63 -> (length (script w) < fuel)%nat ->
  sendall_post fd buffer sent w
    (sendall_loop fuel fd buffer (zlen buffer) sent w).
Proof.
  revert sent w. induction fuel as [|fuel IH]; intros sent w Hs Hb Hf; [lia|].
  cbn [sendall_loop]. destruct (Z.ltb_spec sent (zlen buffer)) as [Hlt|Hge].
  2: { exists [], [], 0%nat. rewrite app_nil_r, take_0. split; [done|]. split; [constructor|]. split; [done|]. split; [done|]. left.
       split; [done|]. split; [unfold zlen in *; lia|constructor]. }
  set (chunk := drop (Z.to_nat sent) buffer).
  assert (load_block buffer sent (zlen buffer - sent) = Ok chunk) as Hl.
  { unfold load_block. rewrite !(proj2 (Z.leb_le _ _)) by lia. cbn [andb]. f_equal.
    apply take_ge. unfold zlen, chunk. rewrite length_drop. lia. }
  assert (zlen chunk = zlen buffer - sent) as Hc.
  { unfold zlen in *. unfold chunk. rewrite length_drop. lia. }
  assert (chunk <> []) as Hne by (intros E; rewrite E in Hc; change (zlen []) with 0 in Hc; lia).
  assert (Z.to_nat sent < length buffer)%nat as Hlt' by (unfold zlen in *; lia).
  unfold mbind, st_bind, st_lift at 1. rewrite Hl. pose proof (sys_send_cases fd chunk w) as Hsend.
  destruct (sys_send fd chunk w) as [[r w1]| | |] eqn:Es; try done.
  2: { cbn. by apply sys_send_block in Es. }
  destruct (sys_send_accepts _ _ _ _ _ Es) as (a & Hsc & Ha). destruct Hsend as (_ & _ & Hr).
  destruct Hr as [[-> Ht]|(Hr & Hr' & Ht)].
  { change (i32 (-1) <? 1) with true. cbv iota. cbn [mret st_ret].
    apply (sendall_post_stop _ _ _ _ _ [] a); auto. by rewrite app_nil_r. }
  assert (i32 r = r) as -> by (apply i32_small; unfold MAX_RW_COUNT in *; lia).
  destruct (Z.ltb_spec r 1) as [H1|H1].
  { cbn [mret st_ret]. replace (Z.to_nat r) with 0%nat in * by lia. rewrite take_0 in *.
    apply (sendall_post_stop _ _ _ _ _ [ESend fd []] a); auto; [by repeat constructor|by apply sent_to_send]. }
  rewrite u64_small by lia.
  assert (length (script w1) < fuel)%nat as Hf1 by (rewrite Hsc in Hf; cbn in Hf; lia).
  specialize (IH (sent + r) w1 ltac:(lia) Hb Hf1).
  destruct (sendall_loop fuel fd buffer (zlen buffer) (sent + r) w1) as [[r' w']| | |]; try done.
  2: { cbn in IH |- *. rewrite Hsc. by apply keeps_waiting_cons. }
  destruct IH as (evs & used & k & Ht' & Hev & Hsnt & Hj & Hend).
  exists (ESend fd (take (Z.to_nat r) chunk) :: evs), (a :: used), (Z.to_nat r + k)%nat.
  split; [by rewrite Ht', Ht, <- app_assoc|]. split; [by constructor|]. split; [|split].
  - change (ESend fd _ :: evs) with ([ESend fd (take (Z.to_nat r) chunk)] ++ evs).
    rewrite sent_to_app, sent_to_send, Hsnt. unfold chunk.
    replace (Z.to_nat (sent + r)) with (Z.to_nat sent + Z.to_nat r)%nat by lia.
    rewrite <- drop_drop. apply take_take_drop.
  - by rewrite Hsc, Hj.
  - rewrite Z2Nat.inj_add in Hend by lia. destruct Hend as [(-> & Hk & Hu)|(-> & Hk & Hu)].
    + left. split; [done|]. split; [lia|by constructor].
    + right. split; [done|]. split; [lia|by apply gave_up_cons].
Qed.

Lemma sendall_outcome fd buffer w :
  zlen buffer < 2 ^ 63 -> sendall_post fd buffer 0 w (sendall fd buffer (zlen buffer) w).
Proof.
  intros. apply sendall_loop_post; [pose proof (zlen_nonneg buffer); lia|done|lia].
Qed.

(** What became of a message: [used] are the answers of the socket, [evs] the bytes
    it took.  Either it took everything, or the last answer refused and it has a
    proper beginning. *)
Definition transferred (fd : Z) (buffer : list cell) (used : list answer) (evs : list event) : Prop :=
  Forall (is_send_to fd) evs /\
  ((all_accepted used /\ sent_to fd evs = buffer) \/
   (gave_up used /\ exists k, (k < length buffer)%nat /\ sent_to fd evs = take k buffer)).

Lemma sendall_transfers fd buffer w :
  zlen buffer < 2 ^ 63 ->
  match sendall fd buffer (zlen buffer) w with
  | Ok (r, w') =>
      exists evs used, trace w' = trace w ++ evs /\ script w = used ++ script w' /\
        transferred fd buffer used evs /\ (r = 0 <-> all_accepted used) /\ (r = -1 <-> gave_up used)
  | Block => keeps_waiting (script w)
  | _ => False
  end.
Proof.
  intros Hb. pose proof (sendall_outcome fd buffer w Hb) as H. unfold sendall_post in H.
  destruct (sendall fd buffer (zlen buffer) w) as [[r w']| | |]; try done.
  assert (forall used, all_accepted used -> gave_up used -> False) as Hno.
  { intros used Hall (us & a & -> & _ & Ha). apply Forall_app in Hall as [_ [Hx _]%List.Forall_cons_iff].
    destruct a; try done. cbn in *. apply Z.leb_le in Hx. apply Z.ltb_lt in Ha. lia. }
  destruct H as (evs & used & k & Ht & He & Hs & Hu & Hend). exists evs, used.
  split; [done|]. split; [done|]. rewrite drop_0 in Hs. unfold transferred.
  destruct Hend as [(-> & Hk & Ha)|(-> & Hk & Ha)]; (split; [split; [done|]|split; (split; [done|])]).
  - left. rewrite Hs. split; [done|]. apply take_ge. lia.
  - done.
  - intros Hg. by destruct (Hno used).
  - right. split; [done|]. exists k. split; [lia|done].
  - intros Hall. by destruct (Hno used).
  - done.
Qed.

(** The receiver has all of the message, unless the socket refused: then a proper
    beginning. *)
Definition conveyed (refused : bool) (sent message : list cell) : Prop :=
  if refused then exists j, (j < length message)%nat /\ sent = take j message
  else sent = message.

Lemma transferred_conveyed fd buffer used evs :
  transferred fd buffer used evs -> conveyed (existsb refuses used) (sent_to fd evs) buffer.
Proof.
  assert (forall us, all_accepted us -> existsb refuses us = false) as Hall.
  { intros us. induction 1 as [|a us Ha _ IH]; [done|]. cbn. rewrite IH, orb_false_r.
    destruct a; try done. cbn in *. apply Z.leb_le in Ha. by apply Z.ltb_ge. }
  intros (_ & [[Hu Hs]|[(us & a & -> & Hu & Ha) (k & Hk & Hs)]]).
  - by rewrite (Hall _ Hu).
  - rewrite existsb_app, (Hall _ Hu). cbn. rewrite Ha. by exists k.
Qed.

(** C36. [sendall] on a whole block, whatever the socket does: it never reads outside
    the block and never runs for ever: it returns, or waits for the socket after
    [send]s that all took something.  It
    returns 0 exactly when every [send] took something, and then exactly the block
    went to the socket, in order and without gaps or repetition; it returns -1
    exactly when the last [send] failed or took nothing, and then a proper prefix
    went. *)
Theorem sendall_all_or_prefix fd buffer w :
  zlen buffer < 2 ^ 63 ->
  match sendall fd buffer (zlen buffer) w with
  | Ok (r, w') =>
      exists evs used, trace w' = trace w ++ evs /\ script w = used ++ script w' /\
        Forall (is_send_to fd) evs /\
        ((r = 0 /\ all_accepted used /\ sent_to fd evs = buffer) \/
         (r = -1 /\ gave_up used /\
          exists k, (k < length buffer)%nat /\ sent_to fd evs = take k buffer))
  | Block => keeps_waiting (script w)
  | _ => False
  end.
Proof.
  intros Hb. pose proof (sendall_transfers fd buffer w Hb) as H.
  destruct (sendall fd buffer (zlen buffer) w) as [[r w']| | |]; try done.
  destruct H as (evs & used & Ht & Hu & (He & Hend) & H0 & H1). exists evs, used. naive_solver.
Qed.

Lemma sendall_all_or_prefix_witness :
  match sendall 5 (cells [1; 2; 3]) 3 (mkIo [ASend 2; ASend 0; ASend 7] []) with
  | Ok (r, w') =>
      exists evs used, trace w' = [] ++ evs /\ [ASend 2; ASend 0; ASend 7] = used ++ script w' /\
        Forall (is_send_to 5) evs /\
        ((r = 0 /\ all_accepted used /\ sent_to 5 evs = cells [1; 2; 3]) \/
         (r = -1 /\ gave_up used /\
          exists k, (k < 3)%nat /\ sent_to 5 evs = take k (cells [1; 2; 3])))
  | Block => keeps_waiting [ASend 2; ASend 0; ASend 7]
  | _ => False
  end.
Proof.
  apply (sendall_all_or_prefix 5 (cells [1; 2; 3]) (mkIo [ASend 2; ASend 0; ASend 7] [])). reflexivity.
Defined.

Lemma sendall_loop_completes fuel fd buffer sent w (ns : list Z) rest :
  0 <= sent <= zlen buffer -> zlen buffer < 2 ^ 63 ->
  script w = (ASend <$> ns) ++ rest -> Forall (fun n => 1 <= n) ns ->
  zlen buffer - sent <= zlen ns -> (length (script w) < fuel)%nat ->
  exists w', sendall_loop fuel fd buffer (zlen buffer) sent w = Ok (0, w').
Proof.
  revert sent w ns. induction fuel as [|fuel IH]; intros sent w ns Hs Hb Hw Hn Hl Hf; [lia|].
  cbn [sendall_loop]. destruct (Z.ltb_spec sent (zlen buffer)) as [Hlt|Hge]; [|by exists w].
  destruct ns as [|n ns]; [change (zlen []) with 0 in Hl; lia|].
  apply List.Forall_cons_iff in Hn as [Hn1 Hn].
  unfold mbind, st_bind, st_lift at 1, load_block.
  rewrite !(proj2 (Z.leb_le _ _)) by lia. cbn [andb].
  set (chunk := take _ _).
  assert (zlen chunk = zlen buffer - sent) as Hc.
  { unfold zlen in *. unfold chunk. rewrite length_take, length_drop. lia. }
  unfold sys_send. rewrite Hw. cbn [fmap list_fmap app].
  rewrite (proj2 (Z.ltb_ge n 0)) by lia. rewrite Hc.
  set (r := Z.min n (Z.min (zlen buffer - sent) MAX_RW_COUNT)).
  assert (1 <= r <= zlen buffer - sent /\ r <= MAX_RW_COUNT) as Hr
    by (unfold r, MAX_RW_COUNT; lia).
  assert (i32 r = r) as -> by (apply i32_small; unfold MAX_RW_COUNT in *; lia).
  rewrite (proj2 (Z.ltb_ge r 1)), u64_small by lia.
  apply (IH _ _ ns); cbn [script emit consume]; try rewrite Hw; try done; try lia.
  - unfold zlen in *. cbn [length] in Hl. lia.
  - rewrite Hw in Hf. cbn in *. lia.
Qed.

(** [sendall] terminates successfully as long as the socket keeps accepting
    at least one byte per call, whatever the sizes of the partial sends. *)
Theorem sendall_completes fd buffer w ns rest :
  zlen buffer < 2 ^ 63 ->
  script w = (ASend <$> ns) ++ rest -> Forall (fun n => 1 <= n) ns ->
  zlen buffer <= zlen ns ->
  exists w', sendall fd buffer (zlen buffer) w = Ok (0, w').
Proof.
  intros. apply (sendall_loop_completes _ _ _ _ _ ns rest); try done; try lia.
  pose proof (zlen_nonneg buffer). lia.
Qed.

Lemma sendall_completes_witness :
  exists w', sendall 5 (cells [1; 2; 3]) (zlen (cells [1; 2; 3]))
    (mkIo [ASend 2; ASend 100; ASend 1] []) = Ok (0, w').
Proof.
  apply (sendall_completes 5 (cells [1; 2; 3]) _ [2; 100; 1] []); try reflexivity.
  repeat (apply List.Forall_cons; [discriminate|]). apply List.Forall_nil.
Defined.

(** ** The usual case: one [send] takes everything *)

Lemma i32_len n : 0 <= n <= MAX_RW_COUNT -> i32 n = n.
Proof. intros. apply i32_small. unfold MAX_RW_COUNT in *. lia. Qed.

(** The first [zlen buf] bytes of a block are accepted by one [send]. *)
Lemma sendall_prefix fd block buf n w rest :
  load_block block 0 (zlen buf) = Ok buf ->
  script w = ASend n :: rest -> 0 < zlen buf <= MAX_RW_COUNT -> zlen buf <= n ->
  sendall fd block (zlen buf) w = Ok (0, mkIo rest (trace w ++ [ESend fd buf])).
Proof.
  intros Hl Hw Hb Hn. unfold sendall. rewrite Hw. cbn [length sendall_loop].
  rewrite (proj2 (Z.ltb_lt 0 _)) by lia. rewrite Z.sub_0_r.
  erewrite st_bind_Ok by (apply st_lift_Ok; exact Hl).
  unfold mbind, st_bind at 1, sys_send. rewrite Hw, (proj2 (Z.ltb_ge n 0)) by lia.
  replace (Z.min n (Z.min (zlen buf) MAX_RW_COUNT)) with (zlen buf) by lia.
  rewrite i32_len, (proj2 (Z.ltb_ge _ 1)) by lia. cbn [sendall_loop].
  rewrite u64_small by (unfold MAX_RW_COUNT in *; lia). rewrite Z.add_0_l, Z.ltb_irrefl.
  unfold zlen. rewrite Nat2Z.id, firstn_all. unfold emit, consume. cbn [script trace].
  by rewrite Hw.
Qed.

Lemma sendall_once fd buf n w rest :
  script w = ASend n :: rest -> 0 < zlen buf <= MAX_RW_COUNT -> zlen buf <= n ->
  sendall fd buf (zlen buf) w = Ok (0, mkIo rest (trace w ++ [ESend fd buf])).
Proof. apply sendall_prefix. by apply load_block_all. Qed.

(** ** [recvall] *)

(** The state of the receive loop: the block holds the bytes [d] so far. *)
Record recv_inv (buffer : list cell) (buf_size pos : Z) (d : list Z) : Prop := {
  recv_size : zlen buffer = buf_size;
  recv_pos : pos = zlen d;
  recv_room : pos <= buf_size;
  recv_min : 1024 <= buf_size <= 2 ^ 63;
  recv_data : take (length d) buffer = cells d;
}.

Lemma recv_inv_grow buffer bs pos d :
  recv_inv buffer bs pos d -> pos < 2 ^ 62 ->
  let '(buffer', bs') :=
    if bs - pos <? 1 then (buffer ++ malloc (u64 (bs * 2) - bs), u64 (bs * 2))
    else (buffer, bs) in
  recv_inv buffer' bs' pos d /\ pos < bs'.
Proof.
  intros [Hs Hp Hr Hm Hd] Hb. destruct (Z.ltb_spec (bs - pos) 1); [|split; [done|lia]].
  rewrite u64_small by lia. split; [|lia]. split; try done; try lia.
  - rewrite zlen_app, zlen_malloc; lia.
  - rewrite take_app_le; [done|]. unfold zlen in *. lia.
Qed.

Lemma recv_inv_store buffer bs pos d data :
  recv_inv buffer bs pos d -> pos + zlen data <= bs ->
  exists buffer', store_block buffer pos (cells data) = Ok buffer' /\
    recv_inv buffer' bs (pos + zlen data) (d ++ data).
Proof.
  intros [Hs Hp Hr Hm Hd] Hb.
  rewrite <- (take_drop (length d) buffer), Hd in Hs |- *.
  rewrite <- (take_drop (length data) (drop (length d) buffer)) in Hs |- *.
  assert (length data = length (take (length data) (drop (length d) buffer))) as Hl.
  { rewrite zlen_app, zlen_cells in Hs. rewrite length_take, length_drop.
    rewrite zlen_app in Hs. unfold zlen in *. rewrite length_take, !length_drop in Hs. lia. }
  rewrite store_block_app by (rewrite ?zlen_cells; done).
  eexists. split; [reflexivity|]. split; try lia.
  - rewrite <- Hs, !zlen_app, zlen_cells. unfold zlen. rewrite <- Hl, length_cells. done.
  - by rewrite zlen_app, Hp.
  - rewrite app_assoc, <- cells_app, <- (length_cells (d ++ data)). apply take_app_length.
Qed.

(** The chunks of a stream, as they arrive. *)
Definition chunks (cs : list (list Z)) : list answer := (fun c => ARecv (Some c)) <$> cs.
Definition chunks_size (cs : list (list Z)) : nat :=
  sum_list_with (fun c => S (length c)) cs.

(** [recv] never returns more than the system transfers per call. *)
Lemma sys_recv_bound s len w :
  match sys_recv s len w with Ok ((r, _), _) => r <= MAX_RW_COUNT | _ => True end.
Proof.
  unfold sys_recv. destruct (Z.leb_spec len 0); [unfold MAX_RW_COUNT; lia|].
  destruct (script w) as [|[| [bs|]| | | | | | |] sc]; try done.
  destruct (Z.leb_spec (zlen bs) (Z.min len MAX_RW_COUNT)); unfold MAX_RW_COUNT in *; lia.
Qed.

(** One [recv] into a room of [len] bytes, when a non-empty chunk is waiting. *)
Lemma sys_recv_chunk s len w c cs rest :
  0 < len -> c <> [] -> Forall (fun c => c <> []) cs ->
  script w = chunks (c :: cs) ++ rest ->
  exists data cs', sys_recv s len w = Ok ((zlen data, data), mkIo (chunks cs' ++ rest) (trace w)) /\
    0 < zlen data <= len /\ Forall (fun c => c <> []) cs' /\
    data ++ concat cs' = c ++ concat cs /\ (chunks_size cs' < chunks_size (c :: cs))%nat.
Proof.
  intros Hl Hc Hcs Hw. unfold sys_recv. rewrite (proj2 (Z.leb_gt _ _)) by lia. rewrite Hw.
  cbn [chunks fmap list_fmap app].
  assert (0 < zlen c) by (destruct c; [done|unfold zlen; cbn; lia]).
  set (n := Z.min len MAX_RW_COUNT).
  assert (0 < n <= len) by (unfold n, MAX_RW_COUNT; lia).
  destruct (Z.leb_spec (zlen c) n).
  - exists c, cs. unfold consume. rewrite Hw. split; [done|]. split; [lia|]. split; [done|].
    split; [done|]. unfold chunks_size. cbn. lia.
  - assert (zlen (take (Z.to_nat n) c) = n) as Hn
      by (unfold zlen in *; rewrite length_take; lia).
    exists (take (Z.to_nat n) c), (drop (Z.to_nat n) c :: cs). rewrite Hn.
    split; [done|]. split; [lia|]. split; [|split].
    + constructor; [|done]. intros E%(f_equal length). rewrite length_drop in E.
      unfold zlen in *. cbn in E. lia.
    + cbn [concat]. by rewrite app_assoc, take_drop.
    + unfold chunks_size. cbn. rewrite length_drop. unfold zlen in *. lia.
Qed.

Lemma recvall_loop_chunks fuel s buffer bs pos d w cs rest :
  recv_inv buffer bs pos d -> pos + zlen (concat cs) < 2 ^ 62 ->
  script w = chunks cs ++ rest -> Forall (fun c => c <> []) cs ->
  (chunks_size cs < fuel)%nat ->
  exists buffer' bs' pos' fuel',
    recvall_loop fuel s buffer bs pos w =
      recvall_loop (S fuel') s buffer' bs' pos' (mkIo rest (trace w)) /\
    recv_inv buffer' bs' pos' (d ++ concat cs) /\ pos' < 2 ^ 62.
Proof.
  revert buffer bs pos d w cs.
  induction fuel as [|fuel IH]; intros buffer bs pos d w cs Hinv Hb Hw Hne Hf; [lia|].
  destruct cs as [|c cs].
  { exists buffer, bs, pos, fuel. cbn in Hw, Hb. rewrite app_nil_r. destruct w; cbn in *.
    subst. split; [done|]. split; [done|]. unfold zlen in Hb. cbn in Hb. lia. }
  apply List.Forall_cons_iff in Hne as [Hc Hne].
  pose proof (zlen_nonneg (concat (c :: cs))).
  pose proof (recv_inv_grow _ _ _ _ Hinv ltac:(lia)) as Hg.
  cbn [recvall_loop].
  destruct (if bs - pos <? 1 then _ else _) as [b1 bs1]. destruct Hg as [Hinv1 Hroom].
  destruct (sys_recv_chunk s (bs1 - pos) w c cs rest ltac:(lia) Hc Hne Hw)
    as (data & cs' & E & Hdata & Hne' & Hcat & Hsize).
  unfold mbind, st_bind at 1. rewrite E.
  destruct (recv_inv_store b1 bs1 pos d data Hinv1 ltac:(lia)) as (b2 & E2 & Hinv2).
  unfold st_bind, st_lift. rewrite E2.
  assert (zlen (concat (c :: cs)) = zlen data + zlen (concat cs')) as Htot.
  { rewrite <- zlen_app, Hcat. done. }
  pose proof (zlen_nonneg (concat cs')).
  assert (0 <= pos) by (rewrite (recv_pos _ _ _ _ Hinv); apply zlen_nonneg).
  rewrite u64_small by lia.
  rewrite (proj2 (Z.ltb_ge (zlen data) 1)), (proj2 (Z.ltb_ge bs1 _)) by lia.
  destruct (IH b2 bs1 (pos + zlen data) (d ++ data) (mkIo (chunks cs' ++ rest) (trace w)) cs')
    as (b' & bs' & pos' & fuel' & -> & Hinv' & Hpos'); try done; try lia.
  exists b', bs', pos', fuel'. split; [done|]. split; [|done].
  by rewrite <- app_assoc, Hcat in Hinv'.
Qed.

Lemma script_size_chunks w cs rest :
  script w = chunks cs ++ rest -> (chunks_size cs <= script_size w)%nat.
Proof.
  unfold script_size. intros ->. induction cs as [|c cs IH]; [cbn; lia|].
  unfold chunks_size, chunks in *. cbn in *. lia.
Qed.

Lemma recv_inv_start : recv_inv (malloc 1024) 1024 0 [].
Proof. by split. Qed.

Lemma recvall_chunks s w cs rest :
  script w = chunks cs ++ rest -> Forall (fun c => c <> []) cs ->
  zlen (concat cs) < 2 ^ 62 ->
  exists buffer bs pos fuel,
    recvall s w = (r ← recvall_loop (S fuel) s buffer bs pos; sys_close s;; mret r)
                    (mkIo rest (trace w)) /\
    recv_inv buffer bs pos (concat cs) /\ pos < 2 ^ 62.
Proof.
  intros Hw Hne Hb. pose proof (script_size_chunks w cs rest Hw).
  destruct (recvall_loop_chunks (S (script_size w)) s (malloc 1024) 1024 0 [] w cs rest)
    as (buffer & bs & pos & fuel & E & Hinv & Hp);
    [apply recv_inv_start|lia|done|done|lia|].
  exists buffer, bs, pos, fuel. split; [|done].
  unfold recvall, mbind, st_bind. by rewrite E.
Qed.

Lemma recvall_stream s w cs rest :
  script w = chunks cs ++ ARecv (Some []) :: rest ->
  Forall (fun c => c <> []) cs -> zlen (concat cs) < 2 ^ 62 ->
  exists buffer w', recvall s w = Ok ((buffer, zlen (concat cs)), w') /\
    load_bytes (Some buffer) (zlen (concat cs)) = Ok (concat cs) /\ 1024 <= zlen buffer /\
    script w' = rest /\ trace w' = trace w ++ [EClose s].
Proof.
  intros Hw Hne Hb.
  destruct (recvall_chunks s w cs _ Hw Hne Hb) as (b & bs & pos & fuel & -> & Hinv & Hp).
  pose proof (recv_inv_grow _ _ _ _ Hinv Hp) as Hg. cbn [recvall_loop].
  unfold mbind, st_bind at 1.
  destruct (if bs - pos <? 1 then _ else _) as [b1 bs1]. destruct Hg as [Hinv1 Hroom].
  unfold st_bind, sys_recv at 1. rewrite (proj2 (Z.leb_gt _ _)) by lia. cbn [script].
  change (zlen []) with 0.
  rewrite (proj2 (Z.leb_le 0 (Z.min _ _))) by (unfold MAX_RW_COUNT; lia).
  destruct (recv_inv_store b1 bs1 pos (concat cs) [] Hinv1) as (b2 & E2 & Hinv2);
    [change (zlen []) with 0; lia|].
  unfold st_lift. rewrite E2. change (u64 0 <? 1) with true. cbv iota.
  rewrite app_nil_r in Hinv2. change (zlen []) with 0 in Hinv2. rewrite Z.add_0_r in Hinv2.
  destruct Hinv2 as [Hs2 Hp2 Hr2 Hm2 Hd2].
  eexists b2, _. split; [by rewrite <- Hp2|].
  split; [|split; [lia|split; [done|done]]].
  rewrite <- (take_drop (length (concat cs)) b2), Hd2. by apply load_bytes_cells.
Qed.

(** C37. [recvall] collects a stream: however the bytes are cut into non-empty
    chunks, up to the end of the stream, it returns a block that starts with
    exactly those bytes and their number, and closes the socket. *)
Theorem recvall_collects s w cs rest :
  script w = chunks cs ++ ARecv (Some []) :: rest ->
  Forall (fun c => c <> []) cs -> zlen (concat cs) < 2 ^ 62 ->
  exists buffer w', recvall s w = Ok ((buffer, zlen (concat cs)), w') /\
    load_bytes (Some buffer) (zlen (concat cs)) = Ok (concat cs) /\ 1024 <= zlen buffer /\
    script w' = rest /\ trace w' = trace w ++ [EClose s].
Proof. apply recvall_stream. Qed.

Lemma recvall_collects_witness :
  exists buffer w',
    recvall 7 (mkIo (chunks [[1; 2]; [3]] ++ [ARecv (Some []); ASend 1]) [])
      = Ok ((buffer, zlen (concat [[1; 2]; [3]])), w') /\
    load_bytes (Some buffer) (zlen (concat [[1; 2]; [3]])) = Ok (concat [[1; 2]; [3]]) /\
    1024 <= zlen buffer /\ script w' = [ASend 1] /\ trace w' = [] ++ [EClose 7].
Proof.
  apply (recvall_collects 7
           (mkIo (chunks [[1; 2]; [3]] ++ [ARecv (Some []); ASend 1]) [])
           [[1; 2]; [3]] [ASend 1]); try reflexivity.
  repeat (apply List.Forall_cons; [discriminate|]). apply List.Forall_nil.
Defined.

(** A [recv] error inside [recvall] is undefined behaviour: the [-1] is
    stored in a [size_t], passes the [bytes < 1] test and is added to the write
    pointer, at whatever point of the stream the error occurs. *)
Theorem recvall_error_ub s w cs rest :
  script w = chunks cs ++ ARecv None :: rest ->
  Forall (fun c => c <> []) cs -> zlen (concat cs) < 2 ^ 62 ->
  recvall s w = Ub.
Proof.
  intros Hw Hne Hb.
  destruct (recvall_chunks s w cs _ Hw Hne Hb) as (b & bs & pos & fuel & -> & Hinv & Hp).
  pose proof (recv_inv_grow _ _ _ _ Hinv Hp) as Hg. cbn [recvall_loop].
  unfold mbind, st_bind at 1.
  destruct (if bs - pos <? 1 then _ else _) as [b1 bs1] eqn:E.
  destruct Hg as [Hinv1 Hroom].
  unfold st_bind, sys_recv at 1. rewrite (proj2 (Z.leb_gt _ _)) by lia. cbn [script].
  destruct (recv_inv_store b1 bs1 pos (concat cs) [] Hinv1) as (b2 & E2 & Hinv2);
    [change (zlen []) with 0; lia|].
  unfold st_lift. rewrite E2. change (u64 (-1)) with (2 ^ 64 - 1).
  rewrite (proj2 (Z.ltb_ge _ _)) by lia.
  rewrite (proj2 (Z.ltb_lt _ _)); [done|].
  pose proof (recv_min _ _ _ _ Hinv1). pose proof (zlen_nonneg (concat cs)).
  rewrite (recv_pos _ _ _ _ Hinv). lia.
Qed.

Lemma recvall_error_ub_witness :
  recvall 7 (mkIo (chunks [[1; 2]; [3]] ++ [ARecv None]) []) = Ub.
Proof.
  apply (recvall_error_ub 7 _ [[1; 2]; [3]] []); try reflexivity.
  repeat (apply List.Forall_cons; [discriminate|]). apply List.Forall_nil.
Defined.
