(* ===== verification/Neighbour.v ===== *)
(** * Neighbour: the peers of a node ([praxis2/src/neighbour.c])

    The peer record, its construction from the command line and from a control
    packet, name resolution and connections over the scripted operating system,
    and the responsibility test of the ring. *)

From Stdlib Require Import Strings.Ascii.
From stdpp Require Import base tactics list numbers option strings pretty.
From S2P Require Import Prelude Sys Packet.

(** [typedef struct _peer]; [addr] is the part of the [sockaddr_storage] the
    code touches. *)
Record peer : Type := mkPeer {
  peer_node_id : Z;
  hostname : string;
  port : Z;
  socket : Z;
  addr : sockaddr;
  addr_len : Z;
}.

Definition no_addr : sockaddr := mkAddr 0 0.

(** ** [strtol(s, NULL, 10)] of the C library, for a 64-bit [long] *)

Definition LONG_MAX : Z := 2 ^ 63 - 1.
Definition LONG_MIN : Z := - 2 ^ 63.

Definition is_space (a : Ascii.ascii) : bool :=
  let n := Ascii.N_of_ascii a in ((n =? 32) || ((9 <=? n) && (n <=? 13)))%N.

Definition digit_of (a : Ascii.ascii) : option Z :=
  let n := Ascii.N_of_ascii a in
  if ((48 <=? n) && (n <=? 57))%N then Some (Z.of_N n - 48) else None.

Fixpoint skip_space (s : string) : string :=
  match s with
  | String.String a s' => if is_space a then skip_space s' else s
  | String.EmptyString => s
  end.

Fixpoint digits_value (acc : Z) (s : string) : Z :=
  match s with
  | String.String a s' =>
      match digit_of a with
      | Some d => digits_value (acc * 10 + d) s'
      | None => acc
      end
  | String.EmptyString => acc
  end.

(** The value, and whether [errno] is set to [ERANGE]. *)
Definition strtol (s : string) : Z * bool :=
  let v :=
    match skip_space s with
    | String.String "-"%char s' => - digits_value 0 s'
    | String.String "+"%char s' => digits_value 0 s'
    | s' => digits_value 0 s'
    end in
  if v <? LONG_MIN then (LONG_MIN, true)
  else if LONG_MAX <? v then (LONG_MAX, true)
  else (v, false).

Definition ERANGE : Z := 34.
Definition UINT16_MAX : Z := 65535.

(** [errno] is read without having been cleared, so its value before the call
    is an argument; the value after it is returned. *)
Definition peer_init (errno : Z) (id : Z) (host : string) (portstr : string)
    : option peer * Z :=
  let '(tmp, erange) := strtol portstr in
  let errno := if erange then ERANGE else errno in
  if negb (errno =? 0) || (UINT16_MAX <? tmp)
  then (None, errno)
  else (Some (mkPeer (u16 id) host (u16 tmp) (-1) no_addr 0), errno).

(** [inet_ntop(AF_INET, ...)] of an address in host order: dotted decimal. *)
Definition dotted (ip : Z) : string :=
  let part s := pretty (Z.to_N (byte_at ip s)) in
  (part 24 +:+ "." +:+ part 16 +:+ "." +:+ part 8 +:+ "." +:+ part 0)%string.

Definition peer_from_packet (pack : packet) : peer :=
  mkPeer 0 (dotted (node_ip pack)) (node_port pack) 0 no_addr 0.

(** [getaddrinfo] on the peer's host name and port; an empty list is NULL. *)
Definition peer_lookup (p : peer) : ST io (option (list sockaddr)) :=
  r ← sys_getaddrinfo (hostname p) (port p);
  mret (match r with Some [] => None | _ => r end).

(** The loop of [peer_connect] over the address list.  Each round uses the
    entry at the head of the list ([res->...]), whatever [pa] is, and a
    successful [connect] overwrites that entry with the address stored in the
    peer. *)
Fixpoint peer_connect_loop (pas : list sockaddr) (head : sockaddr) (p : peer)
    (connected : bool) : ST io (bool * peer) :=
  match pas with
  | [] => mret (connected, p)
  | _ :: pas =>
      fd ← sys_socket;
      let p := mkPeer (peer_node_id p) (hostname p) (port p) fd (addr p) (addr_len p) in
      if fd <? 0 then peer_connect_loop pas head p connected
      else
        status ← sys_connect fd head;
        if status <? 0 then peer_connect_loop pas head p connected
        else
          let p := mkPeer (peer_node_id p) (hostname p) (port p) fd (addr p) 16 in
          peer_connect_loop pas (addr p) p true
  end.

Definition peer_connect (p : peer) : ST io (Z * peer) :=
  res ← peer_lookup p;
  match res with
  | Some (a :: l) =>
      '(connected, p) ← peer_connect_loop (a :: l) a p false;
      if negb connected then mret (-1, p) else mret (0, p)
  | _ => mret (-1, p)
  end.

Definition peer_get_ip (p : peer) : ST io Z :=
  res ← peer_lookup p;
  match res with
  | Some (a :: _) => mret (sin_addr a)
  | _ => mret 0
  end.

Definition peer_is_responsible (pred_id peer_id hash_id : Z) : Z :=
  if (peer_id <? pred_id) && (pred_id <? hash_id) then 1
  else if (hash_id <=? peer_id) && (pred_id <? hash_id) then 1
  else 0.

Definition peer_disconnect (p : peer) : ST io peer :=
  sys_close (socket p);;
  mret (mkPeer (peer_node_id p) (hostname p) (port p) (-1)
          (if 0 <? addr_len p then no_addr else addr p) 0).

(** ** Responsibility *)

(** The arc of the ring between a predecessor (excluded) and a node
    (included); a node that is its own predecessor owns the whole ring. *)
Definition on_arc (pred_id peer_id hash_id : Z) : Prop :=
  if pred_id <? peer_id then pred_id < hash_id <= peer_id
  else pred_id < hash_id \/ hash_id <= peer_id.

Lemma peer_is_responsible_cases pred id h :
  peer_is_responsible pred id h =
  if pred <? id then (if (pred <? h) && (h <=? id) then 1 else 0)
  else if id <? pred then (if pred <? h then 1 else 0)
  else 0.
Proof.
  unfold peer_is_responsible.
  destruct (Z.ltb_spec pred id), (Z.ltb_spec id pred), (Z.ltb_spec pred h),
    (Z.leb_spec h id); cbn; lia.
Qed.

Lemma responsible_01 p s h : peer_is_responsible p s h = 0 \/ peer_is_responsible p s h = 1.
Proof. rewrite peer_is_responsible_cases. repeat case_match; auto. Qed.

Lemma test_01 p s h b :
  negb (peer_is_responsible p s h =? 0) = b -> peer_is_responsible p s h = if b then 1 else 0.
Proof. destruct (responsible_01 p s h) as [-> | ->]; by intros <-. Qed.

(** What the responsibility test computes.  Without wrap-around
    ([pred < id]) it is membership in the arc.  Across the wrap ([id < pred])
    it accepts only the part of the arc above the predecessor: the hashes from
    0 up to the node's own id are refused.  A node that is its own predecessor
    is responsible for nothing. *)
Theorem peer_is_responsible_spec pred id h :
  (pred < id -> peer_is_responsible pred id h = 1 <-> on_arc pred id h) /\
  (id < pred -> peer_is_responsible pred id h = 1 <-> on_arc pred id h /\ id < h) /\
  (pred = id -> peer_is_responsible pred id h = 0) /\
  (peer_is_responsible pred id h = 0 \/ peer_is_responsible pred id h = 1).
Proof.
  rewrite peer_is_responsible_cases. unfold on_arc.
  destruct (Z.ltb_spec pred id), (Z.ltb_spec id pred), (Z.ltb_spec pred h),
    (Z.leb_spec h id); cbn [andb]; repeat split; intros; try lia; auto.
Qed.

(** ** Construction and connection *)

Lemma digits_value_nonneg acc s : 0 <= acc -> 0 <= digits_value acc s.
Proof.
  revert acc. induction s as [|a s IH]; intros acc H; cbn; [done|].
  unfold digit_of. destruct (_ && _)%N eqn:E; [|done]. apply IH.
  apply andb_prop in E as [E%N.leb_le _]. lia.
Qed.

(** Building a peer from the command line: whatever the port string, the
    call succeeds exactly when [errno] was clear, the number fits a [long] and
    is at most 65535; the port stored is then the number modulo [2^16] (so a
    negative number passes and wraps), and any [errno] left over from an
    earlier failure makes it fail. *)
Theorem peer_init_outcome errno id host s :
  let v := fst (strtol s) in
  match peer_init errno id host s with
  | (Some p, errno') =>
      errno = 0 /\ errno' = 0 /\ snd (strtol s) = false /\ v <= UINT16_MAX /\
      peer_node_id p = id mod 2 ^ 16 /\ hostname p = host /\ socket p = -1 /\
      port p = v mod 2 ^ 16 /\ (0 <= v -> port p = v)
  | (None, errno') =>
      errno <> 0 \/ (errno' = ERANGE /\ snd (strtol s) = true) \/ UINT16_MAX < v
  end.
Proof.
  unfold peer_init. destruct (strtol s) as [v erange] eqn:Hs. cbn [fst snd].
  destruct erange.
  - change (negb (ERANGE =? 0)) with true. cbn [orb]. auto.
  - destruct (Z.eqb_spec errno 0) as [->|He]; cbn [negb orb]; [|auto].
    destruct (Z.ltb_spec UINT16_MAX v); [auto|]. cbn.
    unfold UINT16_MAX in *. split; [done|]. split; [done|]. split; [done|]. split; [done|].
    split; [done|]. split; [done|]. split; [done|]. split; [done|].
    intros. apply u16_small. lia.
Qed.

Example peer_init_negative_port :
  peer_init 0 7 "localhost" "-1" = (Some (mkPeer 7 "localhost" 65535 (-1) no_addr 0), 0).
Proof. reflexivity. Qed.

Example strtol_4711 : strtol " 4711x" = (4711, false).
Proof. reflexivity. Qed.

Example dotted_localhost : dotted 2130706433 = "127.0.0.1"%string.
Proof. reflexivity. Qed.

(** The system calls of the connection loop when every [socket] and [connect]
    succeeds. *)
Definition connect_answers (fds : list Z) : list answer :=
  fds ≫= (fun fd => [ASocket fd; AConnect 0]).

Fixpoint connect_events (head next : sockaddr) (fds : list Z) : list event :=
  match fds with
  | [] => []
  | fd :: fds => ESocket fd :: EConnect fd head :: connect_events next next fds
  end.

Definition set_socket (p : peer) (fd : Z) : peer :=
  mkPeer (peer_node_id p) (hostname p) (port p) fd (addr p) 16.

Lemma peer_connect_round pa pas head p fd connected w rest :
  0 <= fd -> script w = ASocket fd :: AConnect 0 :: rest ->
  peer_connect_loop (pa :: pas) head p connected w =
  peer_connect_loop pas (addr p) (set_socket p fd) true
    (mkIo rest (trace w ++ [ESocket fd; EConnect fd head])).
Proof.
  intros Hfd Hw. destruct w as [sc tr]. cbn in Hw |- *. subst sc.
  unfold mbind, st_bind, sys_socket. cbn [script].
  rewrite (proj2 (Z.ltb_ge fd 0)) by done. unfold st_bind, sys_connect. cbn.
  change (0 <? 0) with false. cbv iota. unfold emit, consume. cbn [script trace tail].
  by rewrite <- app_assoc.
Qed.

Lemma peer_connect_loop_all pas head p fds connected w rest :
  length fds = length pas -> Forall (fun fd => 0 <= fd) fds ->
  script w = connect_answers fds ++ rest ->
  peer_connect_loop pas head p connected w =
  Ok ((connected || negb (bool_decide (fds = [])),
       match last fds with Some fd => set_socket p fd | None => p end),
      mkIo rest (trace w ++ connect_events head (addr p) fds)).
Proof.
  revert head p connected w pas.
  induction fds as [|fd fds IH]; intros head p connected w pas Hl Hfd Hw;
    destruct pas as [|pa pas]; try done.
  - cbn in Hw |- *. rewrite orb_false_r, app_nil_r. destruct w. cbn in Hw. by subst.
  - apply List.Forall_cons_iff in Hfd as [Hfd Hfds].
    rewrite (peer_connect_round _ _ _ _ fd _ _ (connect_answers fds ++ rest)) by done.
    rewrite IH by (done || (cbn in Hl; lia)). rewrite orb_true_r. cbn [orb script trace].
    rewrite <- app_assoc. do 3 f_equal. f_equal. destruct fds as [|fd2 fds]; [done|].
    rewrite !last_cons. by destruct (last fds).
Qed.

(** Connecting to a peer whose name resolves to the addresses [a :: l],
    when every socket and connection succeeds: 0 is returned, but one socket is
    opened per address, none is closed, and only the first connection goes to a
    resolved address; the others go to the address stored in the peer, which
    the loop copies over the resolved one. *)
Theorem peer_connect_all p w a l fds rest :
  script w = AAddrinfo (Some (a :: l)) :: connect_answers fds ++ rest ->
  length fds = length (a :: l) -> Forall (fun fd => 0 <= fd) fds ->
  exists fd, last fds = Some fd /\
    peer_connect p w =
    Ok ((0, set_socket p fd),
        mkIo rest (trace w ++ EResolve (hostname p) (port p)
                             :: connect_events a (addr p) fds)).
Proof.
  intros Hw Hl Hfd. unfold peer_connect, peer_lookup, mbind, st_bind, sys_getaddrinfo.
  rewrite Hw. cbn [mret st_ret]. unfold emit, consume. cbn [script trace]. rewrite Hw.
  rewrite (peer_connect_loop_all _ _ _ fds _ _ rest) by done.
  destruct (last fds) as [fd|] eqn:E.
  - exists fd. split; [done|]. destruct fds; [done|]. cbn. by rewrite <- app_assoc.
  - apply last_None in E as ->. done.
Qed.

Lemma peer_connect_all_witness :
  let p := mkPeer 7 "peer" 4711 (-1) no_addr 0 in
  exists fd, last [5; 6] = Some fd /\
    peer_connect p
      (mkIo [AAddrinfo (Some [mkAddr 1 4711; mkAddr 2 4711]);
             ASocket 5; AConnect 0; ASocket 6; AConnect 0] []) =
    Ok ((0, set_socket p fd),
        mkIo [] [EResolve "peer" 4711; ESocket 5; EConnect 5 (mkAddr 1 4711);
                 ESocket 6; EConnect 6 no_addr]).
Proof.
  apply (peer_connect_all (mkPeer 7 "peer" 4711 (-1) no_addr 0)
           (mkIo [AAddrinfo (Some [mkAddr 1 4711; mkAddr 2 4711]);
                  ASocket 5; AConnect 0; ASocket 6; AConnect 0] [])
           (mkAddr 1 4711) [mkAddr 2 4711] [5; 6] []); [reflexivity..|].
  repeat (apply List.Forall_cons; [discriminate|]). apply List.Forall_nil.
Defined.

(** The usual case: one address, one connection. *)
Lemma peer_connect_one p w a fd rest :
  script w = AAddrinfo (Some [a]) :: ASocket fd :: AConnect 0 :: rest -> 0 <= fd ->
  peer_connect p w =
  Ok ((0, set_socket p fd),
      mkIo rest (trace w ++ [EResolve (hostname p) (port p); ESocket fd; EConnect fd a])).
Proof.
  intros Hw Hfd. unfold peer_connect, peer_lookup, mbind, st_bind, sys_getaddrinfo.
  rewrite Hw. cbn [mret st_ret]. unfold emit, consume. cbn [script trace]. rewrite Hw.
  rewrite (peer_connect_round _ _ _ _ fd _ _ rest) by done.
  cbn. by rewrite <- app_assoc.
Qed.

Lemma peer_get_ip_one p w a rest :
  script w = AAddrinfo (Some [a]) :: rest ->
  peer_get_ip p w =
  Ok (sin_addr a, mkIo rest (trace w ++ [EResolve (hostname p) (port p)])).
Proof.
  intros Hw. unfold peer_get_ip, peer_lookup, mbind, st_bind, sys_getaddrinfo.
  rewrite Hw. cbn. unfold emit, consume. cbn. by rewrite Hw.
Qed.
