(* ===== verification/KeyTable.v ===== *)
(** * KeyTable: what the hash table macros promise to their users

    The program keeps two tables with the [HASH_*] macros of [uthash.h]: the
    stored entries ([hash_table.c]) and the open requests ([requests.c]).  Both
    use the macros through a head pointer, element addresses and byte-string
    keys only.  [KeyTable] is that interface and [KeyTableSpec] its contract:
    the table stands for a finite map from keys to element addresses.
    [UtHash.v] proves the contract for the macros themselves. *)

From stdpp Require Import base tactics list numbers option gmap.
From S2P Require Import Prelude.

(** The address of an element. *)
Abbreviation ptr := positive.

Class KeyTable (T : Type) : Type := {
  kt_empty : T;                              (* [head = NULL] *)
  kt_find : T -> list Z -> res (option ptr); (* [HASH_FIND] *)
  kt_add : T -> ptr -> list Z -> res T;      (* [HASH_ADD], [HASH_ADD_KEYPTR] *)
  kt_del : T -> ptr -> res T;                (* [HASH_DEL] *)
}.

(** Key lengths are stored in an [unsigned]. *)
Definition key_fits (k : list Z) : Prop := zlen k < 2 ^ 32.

Class KeyTableSpec (T : Type) `{KeyTable T} : Type := {
  (** [kt_rep t m]: [t] is well formed and holds exactly the map [m]. *)
  kt_rep : T -> gmap (list Z) ptr -> Prop;
  (** The counters of the table are far enough from their limits. *)
  kt_room : T -> bool;
  kt_rep_empty : kt_rep kt_empty ∅;
  kt_room_empty : kt_room kt_empty = true;
  kt_find_spec t m k :
    kt_rep t m -> key_fits k -> kt_find t k = Ok (m !! k);
  kt_add_spec t m p k :
    kt_rep t m -> key_fits k -> kt_room t = true ->
    m !! k = None -> (forall k', m !! k' <> Some p) ->
    exists t', kt_add t p k = Ok t' /\ kt_rep t' (<[k := p]> m);
  kt_del_spec t m p k :
    kt_rep t m -> m !! k = Some p ->
    exists t', kt_del t p = Ok t' /\ kt_rep t' (delete k m) /\
      (kt_room t = true -> kt_room t' = true);
}.
