(* ===== verification/UtHash.v ===== *)
(** * UtHash: the hash table macros ([praxis2/include/uthash.h])

    The macros the program expands, at the level of pointers: handles with
    their application-order and bucket-order links, buckets, bucket expansion,
    and the Jenkins hash.  Addresses of elements and of their embedded handles
    differ by a constant and are identified.  Allocation succeeds
    ([HASH_NONFATAL_OOM] is 0: otherwise the process exits).  The table record
    is reached through the head element; it is kept next to the head pointer.
    The file ends with the instance of [KeyTableSpec]. *)

From stdpp Require Import base tactics list numbers option gmap.
From S2P Require Import Prelude KeyTable.

(** [typedef struct UT_hash_handle]; the key pointer is represented by the
    bytes it points to, which nobody changes while the element is in a table. *)
Record UT_hash_handle : Type := mkHandle {
  prev : option ptr;
  next : option ptr;
  hh_prev : option ptr;
  hh_next : option ptr;
  hh_key : list Z;
  keylen : Z;
  hashv : Z;
}.

Record UT_hash_bucket : Type := mkBucket {
  hh_head : option ptr;
  count : Z;
  expand_mult : Z;
}.

Record UT_hash_table : Type := mkTable {
  buckets : list UT_hash_bucket;
  num_buckets : Z;
  log2_num_buckets : Z;
  num_items : Z;
  tail : ptr;
  ideal_chain_maxlen : Z;
  nonideal_items : Z;
  ineff_expands : Z;
  noexpand : Z;
}.

Abbreviation handles := (gmap ptr UT_hash_handle).

(** The head pointer of the user, the table it leads to, and the handles. *)
Record uthash : Type := mkUt {
  head : option ptr;
  tbl : option UT_hash_table;
  hhs : handles;
}.

Definition HASH_INITIAL_NUM_BUCKETS : Z := 32.
Definition HASH_INITIAL_NUM_BUCKETS_LOG2 : Z := 5.
Definition HASH_BKT_CAPACITY_THRESH : Z := 10.

(** ** The hash function *)

(** [HASH_JEN_MIX(a, b, c)] on [unsigned] values. *)
Definition HASH_JEN_MIX (a b c : Z) : Z * Z * Z :=
  let a := u32 (a - b) in
  let a := u32 (a - c) in
  let a := Z.lxor a (Z.shiftr c 13) in
  let b := u32 (b - c) in
  let b := u32 (b - a) in
  let b := Z.lxor b (u32 (Z.shiftl a 8)) in
  let c := u32 (c - a) in
  let c := u32 (c - b) in
  let c := Z.lxor c (Z.shiftr b 13) in
  let a := u32 (a - b) in
  let a := u32 (a - c) in
  let a := Z.lxor a (Z.shiftr c 12) in
  let b := u32 (b - c) in
  let b := u32 (b - a) in
  let b := Z.lxor b (u32 (Z.shiftl a 16)) in
  let c := u32 (c - a) in
  let c := u32 (c - b) in
  let c := Z.lxor c (Z.shiftr b 5) in
  let a := u32 (a - b) in
  let a := u32 (a - c) in
  let a := Z.lxor a (Z.shiftr c 3) in
  let b := u32 (b - c) in
  let b := u32 (b - a) in
  let b := Z.lxor b (u32 (Z.shiftl a 10)) in
  let c := u32 (c - a) in
  let c := u32 (c - b) in
  let c := Z.lxor c (Z.shiftr b 15) in
  (a, b, c).

(** Four key bytes, little endian. *)
Definition jen_word (k0 k1 k2 k3 : Z) : Z :=
  u32 (k0 + u32 (Z.shiftl k1 8) + u32 (Z.shiftl k2 16) + u32 (Z.shiftl k3 24)).

(** The loop over blocks of twelve bytes; the remaining bytes are returned. *)
Fixpoint jen_blocks (key : list Z) (i j hv : Z) : list Z * Z * Z * Z :=
  match key with
  | k0 :: k1 :: k2 :: k3 :: k4 :: k5 :: k6 :: k7 :: k8 :: k9 :: k10 :: k11 :: rest =>
      let i := u32 (i + jen_word k0 k1 k2 k3) in
      let j := u32 (j + jen_word k4 k5 k6 k7) in
      let hv := u32 (hv + jen_word k8 k9 k10 k11) in
      let '(i, j, hv) := HASH_JEN_MIX i j hv in
      jen_blocks rest i j hv
  | _ => (key, i, j, hv)
  end.

(** The [switch] over the remaining length, with its fall-through: every byte
    that is there is added to its accumulator. *)
Definition jen_tail (key : list Z) (i j hv : Z) : Z * Z * Z :=
  let add acc n s :=
    match key !! n with Some b => u32 (acc + u32 (Z.shiftl b s)) | None => acc end in
  let hv := add hv 10%nat 24 in
  let hv := add hv 9%nat 16 in
  let hv := add hv 8%nat 8 in
  let j := add j 7%nat 24 in
  let j := add j 6%nat 16 in
  let j := add j 5%nat 8 in
  let j := add j 4%nat 0 in
  let i := add i 3%nat 24 in
  let i := add i 2%nat 16 in
  let i := add i 1%nat 8 in
  let i := add i 0%nat 0 in
  (i, j, hv).

Definition HASH_JEN (key : list Z) : Z :=
  let '(rest, i, j, hv) := jen_blocks key 2654435769 2654435769 4276993775 in
  let hv := u32 (hv + u32 (zlen key)) in
  let '(i, j, hv) := jen_tail rest i j hv in
  let '(i, j, hv) := HASH_JEN_MIX i j hv in
  hv.

Definition HASH_TO_BKT (hv num_bkts : Z) : Z := Z.land hv (u32 (num_bkts - 1)).

(** ** Memory access *)

Definition get_hh (H : handles) (p : ptr) : res UT_hash_handle := deref (H !! p).

Definition upd_hh (H : handles) (p : ptr) (f : UT_hash_handle -> UT_hash_handle)
    : res handles :=
  h ← get_hh H p; Ok (<[p := f h]> H).

(** [if (p != NULL) update *p]. *)
Definition upd_hh_opt (H : handles) (p : option ptr) (f : UT_hash_handle -> UT_hash_handle)
    : res handles :=
  match p with Some p => upd_hh H p f | None => Ok H end.

Definition set_prev (v : option ptr) (h : UT_hash_handle) : UT_hash_handle :=
  mkHandle v (next h) (hh_prev h) (hh_next h) (hh_key h) (keylen h) (hashv h).
Definition set_next (v : option ptr) (h : UT_hash_handle) : UT_hash_handle :=
  mkHandle (prev h) v (hh_prev h) (hh_next h) (hh_key h) (keylen h) (hashv h).
Definition set_hh_prev (v : option ptr) (h : UT_hash_handle) : UT_hash_handle :=
  mkHandle (prev h) (next h) v (hh_next h) (hh_key h) (keylen h) (hashv h).
Definition set_hh_next (v : option ptr) (h : UT_hash_handle) : UT_hash_handle :=
  mkHandle (prev h) (next h) (hh_prev h) v (hh_key h) (keylen h) (hashv h).

Definition get_bucket (bs : list UT_hash_bucket) (i : Z) : res UT_hash_bucket :=
  if 0 <=? i then deref (bs !! Z.to_nat i) else Ub.

(** ** [HASH_FIND] *)

Fixpoint find_loop (fuel : nat) (H : handles) (out : option ptr) (key : list Z) (hv : Z)
    : res (option ptr) :=
  match out with
  | None => Ok None
  | Some p =>
      match fuel with
      | O => NoFuel
      | S fuel =>
          h ← get_hh H p;
          if (hashv h =? hv) && (keylen h =? zlen key) && bool_decide (hh_key h = key)
          then Ok (Some p)
          else find_loop fuel H (hh_next h) key hv
      end
  end.

(** A chain is no longer than the number of handles. *)
Definition HASH_FIND_IN_BKT (H : handles) (b : UT_hash_bucket) (key : list Z) (hv : Z)
    : res (option ptr) :=
  find_loop (S (size H)) H (hh_head b) key hv.

Definition HASH_FIND (u : uthash) (key : list Z) : res (option ptr) :=
  match head u with
  | None => Ok None
  | Some _ =>
      t ← deref (tbl u);
      let hv := HASH_JEN key in
      b ← get_bucket (buckets t) (HASH_TO_BKT hv (num_buckets t));
      HASH_FIND_IN_BKT (hhs u) b key hv
  end.

(** ** [HASH_ADD] *)

Definition new_bucket : UT_hash_bucket := mkBucket None 0 0.

Definition HASH_MAKE_TABLE (p : ptr) : UT_hash_table :=
  mkTable (replicate (Z.to_nat HASH_INITIAL_NUM_BUCKETS) new_bucket)
    HASH_INITIAL_NUM_BUCKETS HASH_INITIAL_NUM_BUCKETS_LOG2 0 p 0 0 0 0.

(** One item of an old chain moves to the front of its new bucket. *)
Definition expand_item (nbkts ideal : Z) (thh : ptr)
    (st : handles * list UT_hash_bucket * Z) : res (handles * list UT_hash_bucket * Z) :=
  let '(H, nb, nonideal) := st in
  h ← get_hh H thh;
  let i := HASH_TO_BKT (hashv h) (u32 (nbkts * 2)) in
  b ← get_bucket nb i;
  let cnt := u32 (count b + 1) in
  let nonideal := if ideal <? cnt then u32 (nonideal + 1) else nonideal in
  let em := if (ideal <? cnt) && (u32 (expand_mult b * ideal) <? cnt)
            then u32 (expand_mult b + 1) else expand_mult b in
  H ← upd_hh H thh (fun h => set_hh_next (hh_head b) (set_hh_prev None h));
  H ← upd_hh_opt H (hh_head b) (set_hh_prev (Some thh));
  Ok (H, <[Z.to_nat i := mkBucket (Some thh) cnt em]> nb, nonideal).

(** [while (_he_thh != NULL)]: the next pointer is read before the item moves. *)
Fixpoint expand_chain (fuel : nat) (nbkts ideal : Z) (thh : option ptr)
    (st : handles * list UT_hash_bucket * Z) : res (handles * list UT_hash_bucket * Z) :=
  match thh with
  | None => Ok st
  | Some p =>
      match fuel with
      | O => NoFuel
      | S fuel =>
          h ← get_hh st.1.1 p;
          st ← expand_item nbkts ideal p st;
          expand_chain fuel nbkts ideal (hh_next h) st
      end
  end.

Fixpoint expand_buckets_loop (fuel : nat) (nbkts ideal : Z) (old : list UT_hash_bucket)
    (st : handles * list UT_hash_bucket * Z) : res (handles * list UT_hash_bucket * Z) :=
  match old with
  | [] => Ok st
  | b :: old =>
      st ← expand_chain fuel nbkts ideal (hh_head b) st;
      expand_buckets_loop fuel nbkts ideal old st
  end.

Definition HASH_EXPAND_BUCKETS (H : handles) (t : UT_hash_table)
    : res (handles * UT_hash_table) :=
  let nb2 := u32 (num_buckets t * 2) in
  let ideal :=
    u32 (Z.shiftr (num_items t) (log2_num_buckets t + 1)
         + (if negb (Z.land (num_items t) (u32 (nb2 - 1)) =? 0) then 1 else 0)) in
  '(H, nb, nonideal) ← expand_buckets_loop (S (size H)) (num_buckets t) ideal (buckets t)
                         (H, replicate (Z.to_nat (2 * num_buckets t)) new_bucket, 0);
  let ineff := if Z.shiftr (num_items t) 1 <? nonideal
               then u32 (ineff_expands t + 1) else 0 in
  Ok (H, mkTable nb nb2 (u32 (log2_num_buckets t + 1)) (num_items t) (tail t) ideal nonideal
           ineff (if 1 <? ineff then 1 else noexpand t)).

(** [HASH_ADD_TO_BKT] of bucket [i]. *)
Definition HASH_ADD_TO_BKT (H : handles) (t : UT_hash_table) (i : Z) (p : ptr)
    : res (handles * UT_hash_table) :=
  b ← get_bucket (buckets t) i;
  let cnt := u32 (count b + 1) in
  H ← upd_hh H p (fun h => set_hh_prev None (set_hh_next (hh_head b) h));
  H ← upd_hh_opt H (hh_head b) (set_hh_prev (Some p));
  let t := mkTable (<[Z.to_nat i := mkBucket (Some p) cnt (expand_mult b)]> (buckets t))
             (num_buckets t) (log2_num_buckets t) (num_items t) (tail t)
             (ideal_chain_maxlen t) (nonideal_items t) (ineff_expands t) (noexpand t) in
  if (u32 (u32 (expand_mult b + 1) * HASH_BKT_CAPACITY_THRESH) <=? cnt)
       && (noexpand t =? 0)
  then HASH_EXPAND_BUCKETS H t
  else Ok (H, t).

Definition HASH_ADD_TO_TABLE (H : handles) (t : UT_hash_table) (hv : Z) (p : ptr)
    : res (handles * UT_hash_table) :=
  let t := mkTable (buckets t) (num_buckets t) (log2_num_buckets t) (u32 (num_items t + 1))
             (tail t) (ideal_chain_maxlen t) (nonideal_items t) (ineff_expands t)
             (noexpand t) in
  HASH_ADD_TO_BKT H t (HASH_TO_BKT hv (num_buckets t)) p.

Definition HASH_APPEND_LIST (H : handles) (t : UT_hash_table) (p : ptr)
    : res (handles * UT_hash_table) :=
  H ← upd_hh H p (fun h => set_prev (Some (tail t)) (set_next None h));
  H ← upd_hh H (tail t) (set_next (Some p));
  Ok (H, mkTable (buckets t) (num_buckets t) (log2_num_buckets t) (num_items t) p
           (ideal_chain_maxlen t) (nonideal_items t) (ineff_expands t) (noexpand t)).

(** The handle of a new element starts out with arbitrary links; they are
    NULL here and all overwritten. *)
Definition HASH_ADD_KEYPTR (u : uthash) (p : ptr) (key : list Z) : res uthash :=
  let hv := HASH_JEN key in
  let H := <[p := mkHandle None None None None key (u32 (zlen key)) hv]> (hhs u) in
  match head u with
  | None =>
      '(H, t) ← HASH_ADD_TO_TABLE H (HASH_MAKE_TABLE p) hv p;
      Ok (mkUt (Some p) (Some t) H)
  | Some hd =>
      t ← deref (tbl u);
      '(H, t) ← HASH_APPEND_LIST H t p;
      '(H, t) ← HASH_ADD_TO_TABLE H t hv p;
      Ok (mkUt (Some hd) (Some t) H)
  end.

(** ** [HASH_DEL] *)

Definition HASH_DEL_IN_BKT (H : handles) (bs : list UT_hash_bucket) (i : Z) (p : ptr)
    : res (handles * list UT_hash_bucket) :=
  b ← get_bucket bs i;
  h ← get_hh H p;
  let hd := if bool_decide (hh_head b = Some p) then hh_next h else hh_head b in
  H ← upd_hh_opt H (hh_prev h) (set_hh_next (hh_next h));
  H ← upd_hh_opt H (hh_next h) (set_hh_prev (hh_prev h));
  Ok (H, <[Z.to_nat i := mkBucket hd (u32 (count b - 1)) (expand_mult b)]> bs).

Definition HASH_DELETE (u : uthash) (p : ptr) : res uthash :=
  h ← get_hh (hhs u) p;
  t ← deref (tbl u);
  match prev h, next h with
  | None, None => Ok (mkUt None None (hhs u))
  | _, _ =>
      tl ← (if bool_decide (p = tail t) then deref (prev h) else Ok (tail t));
      H ← upd_hh_opt (hhs u) (prev h) (set_next (next h));
      let hd := match prev h with Some _ => head u | None => next h end in
      H ← upd_hh_opt H (next h) (set_prev (prev h));
      '(H, bs) ← HASH_DEL_IN_BKT H (buckets t) (HASH_TO_BKT (hashv h) (num_buckets t)) p;
      Ok (mkUt hd
            (Some (mkTable bs (num_buckets t) (log2_num_buckets t) (u32 (num_items t - 1))
                     tl (ideal_chain_maxlen t) (nonideal_items t) (ineff_expands t)
                     (noexpand t))) H)
  end.

#[export] Instance uthash_key_table : KeyTable uthash := {|
  kt_empty := mkUt None None ∅;
  kt_find := HASH_FIND;
  kt_add := HASH_ADD_KEYPTR;
  kt_del := HASH_DELETE;
|}.

(** ** Doubly linked lists in the handle store *)

Section Segments.
(** A pair of link fields: application order or bucket order. *)
Context (nx pv : UT_hash_handle -> option ptr).

(** [dseg H p from xs l to]: following [nx] from [from] visits [xs] and arrives
    at [to]; the [pv] links go back, the first one to [p]; [l] is the element
    before [to]. *)
Fixpoint dseg (H : handles) (p from : option ptr) (xs : list ptr) (l to : option ptr) : Prop :=
  match xs with
  | [] => from = to /\ p = l
  | x :: xs =>
      from = Some x /\
      exists h, H !! x = Some h /\ pv h = p /\ dseg H (Some x) (nx h) xs l to
  end.

Lemma dseg_app H p from xs ys l to :
  dseg H p from (xs ++ ys) l to <->
  exists m n, dseg H p from xs m n /\ dseg H m n ys l to.
Proof.
  revert p from. induction xs as [|x xs IH]; intros p from; cbn.
  - split; [intros H1; by exists p, from|]. intros (m & n & [-> ->] & H1). done.
  - setoid_rewrite IH. naive_solver.
Qed.

(** Only the two link fields of the elements visited matter. *)
Definition same_links (H H' : handles) (x : ptr) : Prop :=
  forall h, H !! x = Some h -> exists h', H' !! x = Some h' /\ nx h' = nx h /\ pv h' = pv h.

Lemma dseg_frame H H' p from xs l to :
  (forall x, x ∈ xs -> same_links H H' x) ->
  dseg H p from xs l to -> dseg H' p from xs l to.
Proof.
  revert p from. induction xs as [|x xs IH]; intros p from Hs; cbn; [done|].
  intros (-> & h & Hh & Hp & Hd). split; [done|].
  destruct (Hs x ltac:(set_solver) h Hh) as (h' & Hh' & Hn' & Hp').
  exists h'. split; [done|]. split; [by rewrite Hp'|]. rewrite Hn'.
  apply IH; [|done]. intros y Hy. apply Hs. set_solver.
Qed.

Lemma dseg_lookup H p from xs l to x :
  dseg H p from xs l to -> x ∈ xs -> is_Some (H !! x).
Proof.
  revert p from. induction xs as [|y xs IH]; intros p from Hd Hx; [set_solver|].
  destruct Hd as (_ & h & Hh & _ & Hd). apply elem_of_cons in Hx as [->|Hx]; eauto.
Qed.

Lemma dseg_last H p from xs l to :
  dseg H p from xs l to -> l = match last xs with Some y => Some y | None => p end.
Proof.
  revert p from. induction xs as [|y xs IH]; intros p from Hd; [by destruct Hd|].
  destruct Hd as (_ & h & _ & _ & Hd). rewrite (IH _ _ Hd), last_cons.
  by destruct (last xs).
Qed.

(** The visited elements are determined by the store. *)
Lemma dseg_fun H p p' from xs ys l l' :
  dseg H p from xs l None -> dseg H p' from ys l' None -> xs = ys.
Proof.
  revert p p' from ys. induction xs as [|x xs IH]; intros p p' from ys Hd Hd';
    destruct ys as [|y ys]; try done.
  - destruct Hd as [-> _], Hd' as [? _]. done.
  - destruct Hd as [-> _], Hd' as [? _]. done.
  - destruct Hd as (-> & h & Hh & _ & Hd), Hd' as ([= ->] & h' & Hh' & _ & Hd').
    simplify_eq. f_equal. by eapply IH.
Qed.

(** Change where a segment leads: the [nx] of its last element. *)
Lemma dseg_set_end H p from xs a to h h' to' :
  NoDup xs -> dseg H p from xs (Some a) to -> a ∈ xs ->
  H !! a = Some h -> nx h' = to' -> pv h' = pv h ->
  dseg (<[a := h']> H) p from xs (Some a) to'.
Proof.
  intros Hnd Hd Ha Hh Hn Hp. revert p from Hd.
  induction xs as [|x xs IH]; intros p from Hd; [set_solver|].
  apply NoDup_cons in Hnd as [Hx Hnd].
  destruct Hd as (-> & hx & Hhx & Hpx & Hd). split; [done|].
  destruct (decide (x = a)) as [->|Hne].
  - assert (xs = []) as ->.
    { apply dseg_last in Hd. destruct xs as [|y xs]; [done|].
      destruct (last_is_Some (y :: xs)) as [_ [z Hz]]; [done|]. rewrite Hz in Hd.
      injection Hd as <-. apply last_Some_elem_of in Hz. done. }
    exists h'. rewrite lookup_insert_eq. destruct Hd as [_ _].
    rewrite Hh in Hhx. injection Hhx as <-. cbn. by rewrite Hp.
  - exists hx. rewrite lookup_insert_ne by done. split; [done|]. split; [done|].
    apply IH; [done| |done]. set_solver.
Qed.

(** Change where a segment comes from: the [pv] of its first element. *)
Lemma dseg_set_start H p x xs l to h h' p' :
  dseg H p (Some x) (x :: xs) l to -> x ∉ xs ->
  H !! x = Some h -> pv h' = p' -> nx h' = nx h ->
  dseg (<[x := h']> H) p' (Some x) (x :: xs) l to.
Proof.
  intros (_ & hx & Hhx & _ & Hd) Hx Hh Hp Hn. rewrite Hh in Hhx. injection Hhx as <-.
  split; [done|]. exists h'. rewrite lookup_insert_eq. split; [done|]. split; [done|].
  rewrite Hn. eapply dseg_frame; [|exact Hd]. intros y Hy g Hg. exists g.
  by rewrite lookup_insert_ne by set_solver.
Qed.

(** An update elsewhere, or one that leaves the two links alone. *)
Lemma dseg_insert_other H p from xs l to x h' :
  x ∉ xs -> dseg H p from xs l to -> dseg (<[x := h']> H) p from xs l to.
Proof.
  intros Hx. apply dseg_frame. intros y Hy h Hh. exists h.
  by rewrite lookup_insert_ne by set_solver.
Qed.

Lemma dseg_insert_same H p from xs l to x h h' :
  H !! x = Some h -> nx h' = nx h -> pv h' = pv h ->
  dseg H p from xs l to -> dseg (<[x := h']> H) p from xs l to.
Proof.
  intros Hh Hn Hp. apply dseg_frame. intros y Hy g Hg.
  destruct (decide (x = y)) as [->|Hne].
  - exists h'. rewrite lookup_insert_eq. rewrite Hh in Hg. by injection Hg as <-.
  - exists g. by rewrite lookup_insert_ne.
Qed.
End Segments.

Lemma upd_hh_ok H p f h : H !! p = Some h -> upd_hh H p f = Ok (<[p := f h]> H).
Proof. intros Hh. unfold upd_hh, get_hh. by rewrite Hh. Qed.

Section Remove.
(** Unlinking, for either pair of links; [keep] is what the updates preserve. *)
Context (nx pv : UT_hash_handle -> option ptr).
Context (snx spv : option ptr -> UT_hash_handle -> UT_hash_handle).
Context {B : Type} (keep : UT_hash_handle -> B).
Hypothesis nx_snx : forall v h, nx (snx v h) = v.
Hypothesis pv_snx : forall v h, pv (snx v h) = pv h.
Hypothesis nx_spv : forall v h, nx (spv v h) = nx h.
Hypothesis pv_spv : forall v h, pv (spv v h) = v.
Hypothesis keep_snx : forall v h, keep (snx v h) = keep h.
Hypothesis keep_spv : forall v h, keep (spv v h) = keep h.

Definition keep_eq (H H' : handles) : Prop := forall x, keep <$> H !! x = keep <$> H' !! x.

Lemma keep_eq_insert H x h h' :
  H !! x = Some h -> keep h' = keep h -> keep_eq H (<[x := h']> H).
Proof.
  intros Hh E y. destruct (decide (x = y)) as [->|].
  - rewrite lookup_insert_eq, Hh. cbn. by rewrite E.
  - by rewrite lookup_insert_ne.
Qed.

(** [h->prev->next = h->next]. *)
Lemma unlink_prev H from a x h b :
  NoDup (a ++ x :: b) -> dseg nx pv H None from a (pv h) (Some x) ->
  exists H1, upd_hh_opt H (pv h) (snx (nx h)) = Ok H1 /\
    dseg nx pv H1 None (match a with [] => nx h | _ => from end) a (pv h) (nx h) /\
    keep_eq H H1 /\ (forall y, y ∉ a -> H1 !! y = H !! y).
Proof.
  intros Hnd Hd. pose proof (dseg_last _ _ _ _ _ _ _ _ Hd) as Hl.
  destruct a as [|a0 a].
  - exists H. cbn in Hl. rewrite Hl. cbn. repeat split; done.
  - destruct (last_is_Some (a0 :: a)) as [_ [y Hy]]; [done|]. rewrite Hy in Hl.
    apply last_Some_elem_of in Hy. rewrite Hl in *.
    apply NoDup_app in Hnd as (Hnda & _ & _).
    destruct (dseg_lookup _ _ _ _ _ _ _ _ y Hd Hy) as [hy Hhy].
    exists (<[y := snx (nx h) hy]> H). cbn [upd_hh_opt].
    split; [by apply upd_hh_ok|]. split.
    + eapply dseg_set_end; eauto.
    + split; [by eapply keep_eq_insert|]. intros z Hz. apply lookup_insert_ne. set_solver.
Qed.

(** [h->next->prev = h->prev]. *)
Lemma unlink_next H x h b l :
  NoDup b -> dseg nx pv H (Some x) (nx h) b l None ->
  exists H1, upd_hh_opt H (nx h) (spv (pv h)) = Ok H1 /\
    dseg nx pv H1 (pv h) (nx h) b (match last b with Some y => Some y | None => pv h end) None /\
    keep_eq H H1 /\ (forall y, y ∉ b -> H1 !! y = H !! y).
Proof.
  intros Hnd Hd. destruct b as [|y b].
  - destruct Hd as [E _]. exists H. rewrite E. cbn. repeat split; done.
  - pose proof Hd as (E & hy & Hhy & _). pose proof (dseg_last _ _ _ _ _ _ _ _ Hd) as Hl.
    exists (<[y := spv (pv h) hy]> H). rewrite E. cbn [upd_hh_opt].
    apply NoDup_cons in Hnd as [Hy Hnd]. rewrite E in Hd.
    split; [by apply upd_hh_ok|]. split.
    + destruct (last_is_Some (y :: b)) as [_ [z Hz]]; [done|]. rewrite Hz in *. subst l.
      eapply dseg_set_start; eauto.
    + split; [by eapply keep_eq_insert|]. intros z Hz. apply lookup_insert_ne. set_solver.
Qed.

Lemma dseg_remove H from a x b l h :
  NoDup (a ++ x :: b) -> dseg nx pv H None from (a ++ x :: b) l None -> H !! x = Some h ->
  exists H1 H2,
    upd_hh_opt H (pv h) (snx (nx h)) = Ok H1 /\
    upd_hh_opt H1 (nx h) (spv (pv h)) = Ok H2 /\
    dseg nx pv H2 None (match a with [] => nx h | _ => from end) (a ++ b) (last (a ++ b)) None /\
    pv h = last a /\ nx h = list.head b /\
    keep_eq H H2 /\ (forall y, y ∉ a ++ b -> H2 !! y = H !! y).
Proof.
  intros Hnd Hd Hh. pose proof Hnd as Hnd'.
  apply NoDup_app in Hnd' as (Hnda & Hdis & Hndb). apply NoDup_cons in Hndb as [Hxb Hndb].
  apply dseg_app in Hd as (m & n & Hda & (-> & h' & Hh' & <- & Hdb)).
  rewrite Hh in Hh'. injection Hh' as <-.
  destruct (unlink_prev _ _ _ _ _ _ Hnd Hda) as (H1 & E1 & D1 & K1 & F1).
  assert (dseg nx pv H1 (Some x) (nx h) b l None) as Hdb1.
  { eapply dseg_frame; [|exact Hdb]. intros y Hy g Hg. exists g. split; [|done].
    rewrite F1; [done|]. intros Hya. apply (Hdis y Hya). set_solver. }
  destruct (unlink_next _ _ _ _ _ Hndb Hdb1) as (H2 & E2 & D2 & K2 & F2).
  exists H1, H2. split; [done|]. split; [done|]. split_and!.
  - apply dseg_app. exists (pv h), (nx h). split.
    + eapply dseg_frame; [|exact D1]. intros y Hy g Hg. exists g. split; [|done].
      rewrite F2; [done|]. intros Hyb. apply (Hdis y Hy). set_solver.
    + rewrite last_app. apply dseg_last in Hda. rewrite Hda in *.
      destruct (last b), (last a); done.
  - apply dseg_last in Hda. rewrite Hda. by destruct (last a).
  - destruct b; [by destruct Hdb|]. by destruct Hdb as [-> _].
  - intros y. by rewrite (K1 y).
  - intros y Hy. rewrite F2, F1; set_solver.
Qed.
End Remove.

(** ** Bucket chains *)

Abbreviation bseg := (dseg hh_next hh_prev).
Abbreviation aseg := (dseg next prev).

(** A handle without its bucket links, and without its application links. *)
Definition core (h : UT_hash_handle) : UT_hash_handle :=
  set_hh_prev None (set_hh_next None h).
Definition bcore (h : UT_hash_handle) : UT_hash_handle :=
  set_prev None (set_next None h).

(** Two stores that differ in bucket links (application links) only. *)
Definition core_eq (H H' : handles) : Prop := forall x, core <$> H !! x = core <$> H' !! x.
Definition bcore_eq (H H' : handles) : Prop := forall x, bcore <$> H !! x = bcore <$> H' !! x.

#[export] Instance core_eq_equiv : Equivalence core_eq.
Proof.
  split; [by intros H x|by intros H H' E x; rewrite E|].
  intros H1 H2 H3 E1 E2 x. by rewrite E1, E2.
Qed.

#[export] Instance bcore_eq_equiv : Equivalence bcore_eq.
Proof.
  split; [by intros H x|by intros H H' E x; rewrite E|].
  intros H1 H2 H3 E1 E2 x. by rewrite E1, E2.
Qed.

Lemma core_eq_lookup H H' x h :
  core_eq H H' -> H !! x = Some h ->
  exists h', H' !! x = Some h' /\ prev h' = prev h /\ next h' = next h /\
    hh_key h' = hh_key h /\ keylen h' = keylen h /\ hashv h' = hashv h.
Proof.
  intros E Hh. specialize (E x). rewrite Hh in E. destruct (H' !! x) as [h'|]; [|done].
  cbn in E. injection E as ? ? ? ? ?. exists h'. repeat split; congruence.
Qed.

Lemma bcore_eq_lookup H H' x h :
  bcore_eq H H' -> H !! x = Some h ->
  exists h', H' !! x = Some h' /\ hh_prev h' = hh_prev h /\ hh_next h' = hh_next h /\
    hh_key h' = hh_key h /\ keylen h' = keylen h /\ hashv h' = hashv h.
Proof.
  intros E Hh. specialize (E x). rewrite Hh in E. destruct (H' !! x) as [h'|]; [|done].
  cbn in E. injection E as ? ? ? ? ?. exists h'. repeat split; congruence.
Qed.

Lemma core_eq_insert H x h h' :
  H !! x = Some h -> core h' = core h -> core_eq H (<[x := h']> H).
Proof.
  intros Hh E y. destruct (decide (x = y)) as [->|].
  - rewrite lookup_insert_eq, Hh. cbn. by rewrite E.
  - by rewrite lookup_insert_ne.
Qed.

Lemma bcore_eq_insert H x h h' :
  H !! x = Some h -> bcore h' = bcore h -> bcore_eq H (<[x := h']> H).
Proof.
  intros Hh E y. destruct (decide (x = y)) as [->|].
  - rewrite lookup_insert_eq, Hh. cbn. by rewrite E.
  - by rewrite lookup_insert_ne.
Qed.

Lemma aseg_core_eq H H' p from xs l to :
  core_eq H H' -> aseg H p from xs l to -> aseg H' p from xs l to.
Proof.
  intros E. apply dseg_frame. intros x _ h Hh.
  destruct (core_eq_lookup _ _ _ _ E Hh) as (h' & ? & ? & ? & _). by exists h'.
Qed.

Lemma bseg_bcore_eq H H' p from xs l to :
  bcore_eq H H' -> bseg H p from xs l to -> bseg H' p from xs l to.
Proof.
  intros E. apply dseg_frame. intros x _ h Hh.
  destruct (bcore_eq_lookup _ _ _ _ E Hh) as (h' & ? & ? & ? & _). by exists h'.
Qed.

(** A bucket and the chain it heads. *)
Definition chain_ok (H : handles) (b : UT_hash_bucket) (c : list ptr) : Prop :=
  bseg H None (hh_head b) c (last c) None /\ count b = zlen c.

Lemma chain_ok_frame H H' b c :
  (forall x, x ∈ c -> H' !! x = H !! x) -> chain_ok H b c -> chain_ok H' b c.
Proof.
  intros E [Hd Hc]. split; [|done]. eapply dseg_frame; [|exact Hd].
  intros x Hx h Hh. exists h. by rewrite E.
Qed.

Lemma concat_insert_perm {A} (cs : list (list A)) i c c' (x : A) :
  cs !! i = Some c -> c' ≡ₚ x :: c -> concat (<[i := c']> cs) ≡ₚ x :: concat cs.
Proof.
  intros Hi Hc. rewrite <- (take_drop_middle cs i c Hi) at 2.
  rewrite insert_take_drop by (by eapply lookup_lt_Some).
  rewrite !concat_app. cbn. rewrite Hc. solve_Permutation.
Qed.

Lemma in_concat_lookup {A} (cs : list (list A)) i c (x : A) :
  cs !! i = Some c -> x ∈ c -> x ∈ concat cs.
Proof.
  intros Hi Hx. rewrite <- (take_drop_middle cs i c Hi), concat_app. cbn. set_solver.
Qed.

Lemma elem_of_concat_lookup {A} (cs : list (list A)) (x : A) :
  x ∈ concat cs -> exists i c, cs !! i = Some c /\ x ∈ c.
Proof.
  induction cs as [|c cs IH]; cbn; [set_solver|]. intros [Hx|Hx]%elem_of_app.
  - by exists 0%nat, c.
  - destruct (IH Hx) as (i & d & Hd & Hxd). by exists (S i), d.
Qed.

Lemma nodup_concat_ne {A} (cs : list (list A)) i j c d (x : A) :
  NoDup (concat cs) -> cs !! i = Some c -> cs !! j = Some d -> x ∈ c -> x ∈ d -> i = j.
Proof.
  revert i j. induction cs as [|e cs IH]; intros i j Hnd Hi Hj Hc Hd; [done|].
  cbn in Hnd. apply NoDup_app in Hnd as (_ & Hdis & Hnd).
  destruct i as [|i], j as [|j]; cbn in Hi, Hj; [done|..].
  - injection Hi as ->. destruct (Hdis x Hc). by eapply in_concat_lookup.
  - injection Hj as ->. destruct (Hdis x Hd). by eapply in_concat_lookup.
  - f_equal. by eapply IH.
Qed.

Lemma chains_frame H H' bs cs :
  (forall x, x ∈ concat cs -> H' !! x = H !! x) ->
  Forall2 (chain_ok H) bs cs -> Forall2 (chain_ok H') bs cs.
Proof.
  intros E Hf. induction Hf as [|b c bs cs Hbc Hf IH]; constructor.
  - eapply chain_ok_frame; [|done]. intros x Hx. apply E. cbn. set_solver.
  - apply IH. intros x Hx. apply E. cbn. set_solver.
Qed.

(** Replace one chain when every other chain is left alone. *)
Lemma chains_insert H H' bs cs i b c b' c' :
  Forall2 (chain_ok H) bs cs -> bs !! i = Some b -> cs !! i = Some c ->
  NoDup (concat cs) -> (forall y, y ∉ c -> y ∈ concat cs -> H' !! y = H !! y) ->
  chain_ok H' b' c' ->
  Forall2 (chain_ok H') (<[i := b']> bs) (<[i := c']> cs).
Proof.
  intros Hf Hb Hc Hnd He Hok. apply Forall2_same_length_lookup_2.
  - rewrite !length_insert. by eapply Forall2_length.
  - intros j bj cj Hbj Hcj. destruct (decide (i = j)) as [<-|Hij].
    + rewrite list_lookup_insert_eq in Hbj by (by eapply lookup_lt_Some).
      rewrite list_lookup_insert_eq in Hcj by (by eapply lookup_lt_Some). by simplify_eq.
    + rewrite list_lookup_insert_ne in Hbj by done.
      rewrite list_lookup_insert_ne in Hcj by done.
      eapply chain_ok_frame; [|by eapply Forall2_lookup_lr]. intros y Hy. apply He.
      * intros Hyc. apply Hij. by eapply nodup_concat_ne.
      * by eapply in_concat_lookup.
Qed.

(** Push [p] on the chain of bucket [i]: the link updates shared by
    [HASH_ADD_TO_BKT] and [HASH_EXPAND_BUCKETS]. *)
Lemma chain_push H bs cs i b c p h em :
  Forall2 (chain_ok H) bs cs -> bs !! i = Some b -> cs !! i = Some c ->
  NoDup (p :: concat cs) -> H !! p = Some h -> zlen c + 1 < 2 ^ 32 ->
  exists H1 H2,
    upd_hh H p (fun h => set_hh_prev None (set_hh_next (hh_head b) h)) = Ok H1 /\
    upd_hh_opt H1 (hh_head b) (set_hh_prev (Some p)) = Ok H2 /\
    core_eq H H2 /\ (forall y, y ∉ p :: c -> H2 !! y = H !! y) /\
    Forall2 (chain_ok H2) (<[i := mkBucket (Some p) (u32 (count b + 1)) em]> bs)
      (<[i := p :: c]> cs).
Proof.
  intros Hf Hb Hc Hnd Hh Hlen. apply NoDup_cons in Hnd as [Hp Hnd].
  assert (chain_ok H b c) as [Hd Hcnt] by (by eapply Forall2_lookup_lr).
  assert (p ∉ c) as Hpc by (intros ?; apply Hp; by eapply in_concat_lookup).
  set (h1 := set_hh_prev None (set_hh_next (hh_head b) h)).
  assert (zlen (p :: c) = u32 (count b + 1)) as Hz.
  { pose proof (zlen_nonneg c). rewrite Hcnt, u32_small by lia. unfold zlen. cbn. lia. }
  assert (core_eq H (<[p := h1]> H)) as Ecore by (by eapply core_eq_insert).
  pose proof (upd_hh_ok H p (fun h => set_hh_prev None (set_hh_next (hh_head b) h)) h Hh)
    as Hupd.
  exists (<[p := h1]> H). destruct c as [|q c].
  - destruct Hd as [Hhd _]. exists (<[p := h1]> H).
    split; [exact Hupd|]. split; [by rewrite Hhd|]. split; [done|]. split.
    + intros y Hy. rewrite lookup_insert_ne by set_solver. done.
    + eapply chains_insert; [done..| |].
      * intros y _ Hy. rewrite lookup_insert_ne by set_solver. done.
      * split; [|done]. split; [done|]. exists h1. rewrite lookup_insert_eq.
        split; [done|]. split; [done|]. by rewrite <- Hhd.
  - assert (p <> q) as Hpq by set_solver.
    assert (NoDup (q :: c)) as Hndc.
    { rewrite <- (take_drop_middle cs i _ Hc), concat_app in Hnd.
      apply NoDup_app in Hnd as (_ & _ & Hnd). cbn in Hnd.
      change (NoDup ((q :: c) ++ concat (drop (S i) cs))) in Hnd.
      by apply NoDup_app in Hnd as (? & _). }
    pose proof (dseg_lookup _ _ _ _ _ _ _ _ q Hd ltac:(set_solver)) as [hq Hq].
    assert (hh_head b = Some q) as Hhd by apply Hd.
    exists (<[q := set_hh_prev (Some p) hq]> (<[p := h1]> H)).
    split; [exact Hupd|].
    assert (<[p := h1]> H !! q = Some hq) as Hq' by (by rewrite lookup_insert_ne).
    split; [rewrite Hhd; by apply upd_hh_ok|].
    split; [etransitivity; [exact Ecore|]; by eapply core_eq_insert|]. split.
    + intros y Hy. rewrite !lookup_insert_ne by set_solver. done.
    + eapply chains_insert; [done..| |].
      * intros y Hy1 Hy2. rewrite !lookup_insert_ne by set_solver. done.
      * split; [|done]. rewrite Hhd in Hd.
        split; [done|]. exists h1. rewrite lookup_insert_ne, lookup_insert_eq by done.
        split; [done|]. split; [done|].
        replace (hh_next h1) with (Some q) by (cbn; by rewrite Hhd).
        apply (dseg_insert_other hh_next hh_prev _ _ _ _ _ _ p h1) in Hd; [|done].
        rewrite last_cons_cons.
        eapply dseg_set_start; [exact Hd| |exact Hq'|done|done].
        by apply NoDup_cons in Hndc as [? _].
Qed.

(** ** Bucket indices and expansion *)

(** Every element of chain [i] hashes to bucket [i] of [n]. *)
Definition idx_ok (n : Z) (H : handles) (cs : list (list ptr)) : Prop :=
  forall i c x h, cs !! i = Some c -> x ∈ c -> H !! x = Some h ->
    HASH_TO_BKT (hashv h) n = Z.of_nat i.

Lemma idx_ok_core_eq n H H' cs : core_eq H H' -> idx_ok n H cs -> idx_ok n H' cs.
Proof.
  intros E Hi i c x h Hc Hx Hh. symmetry in E.
  destruct (core_eq_lookup _ _ _ _ E Hh) as (h' & Hh' & _ & _ & _ & _ & <-). eauto.
Qed.

Lemma idx_ok_push n H cs i c p h :
  idx_ok n H cs -> cs !! i = Some c -> H !! p = Some h ->
  HASH_TO_BKT (hashv h) n = Z.of_nat i -> idx_ok n H (<[i := p :: c]> cs).
Proof.
  intros Hi Hc Hh Hb j d x g Hd Hx Hg.
  destruct (decide (i = j)) as [<-|Hij].
  - rewrite list_lookup_insert_eq in Hd by (by eapply lookup_lt_Some).
    injection Hd as <-. apply elem_of_cons in Hx as [->|Hx]; [|by eapply Hi].
    rewrite Hh in Hg. by injection Hg as <-.
  - rewrite list_lookup_insert_ne in Hd by done. by eapply Hi.
Qed.

Lemma HASH_TO_BKT_range hv k : 0 <= k < 32 -> 0 <= HASH_TO_BKT hv (2 ^ k) < 2 ^ k.
Proof.
  intros Hk. unfold HASH_TO_BKT.
  pose proof (Z.pow_pos_nonneg 2 k ltac:(lia) ltac:(lia)).
  assert (2 ^ k <= 2 ^ 31) by (apply Z.pow_le_mono_r; lia).
  rewrite u32_small by lia. rewrite Z.sub_1_r, <- Z.ones_equiv, Z.land_ones by lia.
  apply Z.mod_pos_bound. lia.
Qed.

(** A list of distinct elements of the store is no longer than the store. *)
Lemma nodup_size (H : handles) (xs : list ptr) :
  NoDup xs -> (forall x, x ∈ xs -> is_Some (H !! x)) -> (length xs <= size H)%nat.
Proof.
  intros Hnd Hd. rewrite <- (size_list_to_set (C := gset ptr)) by done.
  rewrite <- (size_dom (D := gset ptr)). apply subseteq_size. intros x Hx.
  apply elem_of_dom, Hd. set_solver.
Qed.

Lemma get_bucket_ok (bs : list UT_hash_bucket) (i : Z) :
  0 <= i < zlen bs -> exists b, bs !! Z.to_nat i = Some b /\ get_bucket bs i = Ok b.
Proof.
  intros Hi. destruct (lookup_lt_is_Some_2 bs (Z.to_nat i)) as [b Hb];
    [unfold zlen in Hi; lia|].
  exists b. split; [done|]. unfold get_bucket. rewrite Hb.
  by destruct (Z.leb_spec 0 i); [|lia].
Qed.

Lemma zlen_concat_lookup {A} (cs : list (list A)) i c :
  cs !! i = Some c -> zlen c <= zlen (concat cs).
Proof.
  intros Hi. rewrite <- (take_drop_middle cs i c Hi), concat_app. cbn.
  unfold zlen. rewrite !length_app. lia.
Qed.

(** What a step of the expansion does to the new buckets: the elements [r]
    move into them. *)
Definition moved (n2 : Z) (H : handles) (nc : list (list ptr)) (nb : list UT_hash_bucket)
    (r : list ptr) (H' : handles) (nb' : list UT_hash_bucket) (nc' : list (list ptr)) : Prop :=
  core_eq H H' /\ (forall y, y ∉ r ++ concat nc -> H' !! y = H !! y) /\
  Forall2 (chain_ok H') nb' nc' /\ concat nc' ≡ₚ r ++ concat nc /\ idx_ok n2 H' nc' /\
  zlen nb' = zlen nb.

Section Expand.
(** [2^k] buckets become [2^(k+1)]. *)
Context (k ideal : Z) (Hk : 0 <= k < 31).

Let n2 : Z := 2 ^ (k + 1).

Lemma n2_u32 : u32 (2 ^ k * 2) = n2.
Proof using Hk.
  unfold n2. rewrite Z.pow_add_r by lia. apply u32_small.
  assert (2 ^ k <= 2 ^ 30) by (apply Z.pow_le_mono_r; lia).
  pose proof (Z.pow_pos_nonneg 2 k ltac:(lia) ltac:(lia)). lia.
Qed.

Lemma expand_item_spec H nb nc non p h :
  Forall2 (chain_ok H) nb nc -> NoDup (p :: concat nc) -> H !! p = Some h ->
  idx_ok n2 H nc -> zlen nb = n2 -> zlen (p :: concat nc) < 2 ^ 32 ->
  exists H' nb' non' nc',
    expand_item (2 ^ k) ideal p (H, nb, non) = Ok (H', nb', non') /\
    moved n2 H nc nb [p] H' nb' nc'.
Proof using Hk.
  intros Hf Hnd Hh Hi Hlen Hsz.
  pose proof (HASH_TO_BKT_range (hashv h) (k + 1) ltac:(lia)) as Hr. fold n2 in Hr.
  destruct (get_bucket_ok nb (HASH_TO_BKT (hashv h) n2) ltac:(lia)) as (b & Hb & Eb).
  destruct (Forall2_lookup_l _ _ _ _ _ Hf Hb) as (c & Hc & _).
  set (i := Z.to_nat (HASH_TO_BKT (hashv h) n2)) in *.
  assert (zlen c + 1 < 2 ^ 32) as Hcl.
  { pose proof (zlen_concat_lookup _ _ _ Hc). unfold zlen in *. cbn in Hsz. lia. }
  unfold expand_item, get_hh. rewrite Hh. cbn [deref mbind res_bind].
  rewrite n2_u32, Eb. cbn [mbind res_bind].
  match goal with |- context [mkBucket (Some p) _ ?e] => set (em := e) end.
  destruct (chain_push H nb nc i b c p h em Hf Hb Hc Hnd Hh Hcl)
    as (H1 & H2 & E1 & E2 & Ecore & Eframe & Hf2).
  change (upd_hh H p (fun h0 => set_hh_next (hh_head b) (set_hh_prev None h0)))
    with (upd_hh H p (fun h0 => set_hh_prev None (set_hh_next (hh_head b) h0))).
  rewrite E1. cbn [mbind res_bind]. rewrite E2. cbn [mbind res_bind].
  do 3 eexists. exists (<[i := p :: c]> nc). split; [reflexivity|].
  split; [done|]. split.
  { intros y Hy. apply Eframe. cbn in Hy. intros [->|Hyc]%elem_of_cons; [set_solver|].
    apply Hy. apply elem_of_cons. right. by eapply in_concat_lookup. }
  split; [done|]. split; [by eapply concat_insert_perm|]. split.
  - eapply idx_ok_core_eq; [exact Ecore|]. eapply idx_ok_push; [done..|]. unfold i. lia.
  - unfold zlen. by rewrite length_insert.
Qed.

Lemma moved_trans H nc nb r H1 nb1 nc1 r' H2 nb2 nc2 :
  moved n2 H nc nb r H1 nb1 nc1 -> moved n2 H1 nc1 nb1 r' H2 nb2 nc2 ->
  moved n2 H nc nb (r ++ r') H2 nb2 nc2.
Proof.
  intros (C1 & F1 & A1 & P1 & I1 & L1) (C2 & F2 & A2 & P2 & I2 & L2).
  split; [by etransitivity|]. split.
  { intros y Hy. rewrite F2, F1; [done|set_solver|]. rewrite P1. set_solver. }
  split; [done|]. split; [|split; [done|by rewrite L2]].
  rewrite P2, P1. solve_Permutation.
Qed.

Lemma expand_chain_spec r fuel H pv cur l nb nc non :
  bseg H pv cur r l None -> (length r < fuel)%nat ->
  Forall2 (chain_ok H) nb nc -> NoDup (r ++ concat nc) ->
  idx_ok n2 H nc -> zlen nb = n2 -> zlen (r ++ concat nc) < 2 ^ 32 ->
  exists H' nb' non' nc',
    expand_chain fuel (2 ^ k) ideal cur (H, nb, non) = Ok (H', nb', non') /\
    moved n2 H nc nb r H' nb' nc'.
Proof using Hk.
  revert fuel H pv cur nb nc non.
  induction r as [|p r IH]; intros fuel H pv cur nb nc non Hd Hfu Hf Hnd Hi Hlen Hsz.
  - destruct Hd as [-> _]. destruct fuel; [lia|]. do 3 eexists. exists nc.
    split; [reflexivity|]. split_and!; done.
  - destruct Hd as (-> & h & Hh & _ & Hd). destruct fuel as [|fuel]; [cbn in Hfu; lia|].
    cbn [expand_chain fst]. unfold get_hh. rewrite Hh. cbn [deref mbind res_bind].
    assert (NoDup (p :: concat nc)) as Hnd1.
    { apply NoDup_cons in Hnd as [Hp Hnd]. apply NoDup_app in Hnd as (_ & _ & ?).
      apply NoDup_cons. split; [|done]. intros ?. apply Hp. set_solver. }
    assert (zlen (p :: concat nc) < 2 ^ 32) as Hsz1.
    { unfold zlen in *. cbn in *. rewrite length_app in Hsz. lia. }
    destruct (expand_item_spec H nb nc non p h Hf Hnd1 Hh Hi Hlen Hsz1)
      as (H1 & nb1 & non1 & nc1 & E1 & M1). rewrite E1. cbn [mbind res_bind].
    pose proof M1 as (C1 & F1 & A1 & P1 & I1 & L1).
    edestruct (IH fuel H1) as (H2 & nb2 & non2 & nc2 & E2 & M2).
    + eapply dseg_frame; [|exact Hd]. intros y Hy g Hg. exists g. split; [|done].
      rewrite F1; [done|]. cbn. apply NoDup_app in Hnd as (Hnd & Hdis & _).
      apply NoDup_cons in Hnd as [Hp _]. intros [->|Hyc]%elem_of_cons; [done|].
      apply (Hdis y); [set_solver|done].
    + cbn in Hfu. lia.
    + exact A1.
    + rewrite P1. cbn. by rewrite <- Permutation_middle.
    + exact I1.
    + by rewrite L1.
    + unfold zlen in *. rewrite length_app, P1. cbn in *. rewrite length_app in Hsz. lia.
    + exists H2, nb2, non2, nc2. split; [exact E2|]. by eapply (moved_trans _ _ _ [p]).
Qed.

Lemma expand_buckets_loop_spec old os fuel H nb nc non :
  Forall2 (chain_ok H) old os -> (length (concat os) < fuel)%nat ->
  Forall2 (chain_ok H) nb nc -> NoDup (concat os ++ concat nc) ->
  idx_ok n2 H nc -> zlen nb = n2 -> zlen (concat os ++ concat nc) < 2 ^ 32 ->
  exists H' nb' non' nc',
    expand_buckets_loop fuel (2 ^ k) ideal old (H, nb, non) = Ok (H', nb', non') /\
    moved n2 H nc nb (concat os) H' nb' nc'.
Proof using Hk.
  intros Ho. revert H nb nc non Ho.
  induction old as [|b old IH] in os |- *;
    intros H nb nc non Ho Hfu Hf Hnd Hi Hlen Hsz; inversion Ho as [|? c ? os' Hb Ho']; subst.
  - do 3 eexists. exists nc. split; [reflexivity|]. split_and!; done.
  - cbn in Hfu, Hnd, Hsz. rewrite length_app in Hfu. rewrite <- app_assoc in Hnd, Hsz.
    apply NoDup_app in Hnd as (Hndc & Hdis & Hnd). pose proof Hnd as Hnd'.
    apply NoDup_app in Hnd' as (_ & Hdis' & Hndn).
    unfold zlen in Hsz. rewrite !length_app in Hsz. destruct Hb as [Hd _].
    edestruct (expand_chain_spec c fuel H) as (H1 & nb1 & non1 & nc1 & E1 & M1);
      [exact Hd|lia|exact Hf| |exact Hi|exact Hlen| |].
    { apply NoDup_app. split_and!; [done| |done]. set_solver. }
    { unfold zlen. rewrite length_app. lia. }
    pose proof M1 as (C1 & F1 & A1 & P1 & I1 & L1). cbn [expand_buckets_loop].
    rewrite E1. cbn [mbind res_bind].
    edestruct (IH os' H1) as (H2 & nb2 & non2 & nc2 & E2 & M2);
      [|lia|exact A1| |exact I1|by rewrite L1| |].
    + eapply chains_frame; [|exact Ho']. intros x Hx. apply F1.
      intros [?|?]%elem_of_app; set_solver.
    + rewrite P1. apply NoDup_app. split_and!.
      * by apply NoDup_app in Hnd as (? & _).
      * intros x Hx [?|?]%elem_of_app; set_solver.
      * apply NoDup_app. split_and!; [done| |done]. set_solver.
    + unfold zlen. rewrite length_app, P1, length_app. lia.
    + exists H2, nb2, non2, nc2. split; [exact E2|]. by eapply moved_trans.
Qed.
End Expand.

(** ** The bucket part of a table *)

Definition table_ok (H : handles) (t : UT_hash_table) (cs : list (list ptr)) : Prop :=
  Forall2 (chain_ok H) (buckets t) cs /\ NoDup (concat cs) /\
  idx_ok (num_buckets t) H cs /\
  0 <= log2_num_buckets t < 32 /\ num_buckets t = 2 ^ log2_num_buckets t /\
  zlen (buckets t) = num_buckets t.

Lemma concat_replicate_nil {A} n : concat (replicate n (@nil A)) = [].
Proof. by induction n. Qed.

Lemma new_buckets_ok H n : Forall2 (chain_ok H) (replicate n new_bucket) (replicate n []).
Proof. apply Forall2_replicate. by split. Qed.

Lemma idx_ok_new n H m : idx_ok n H (replicate m []).
Proof. intros i c x h [-> _]%lookup_replicate Hx. set_solver. Qed.

Lemma table_ok_new H p : table_ok H (HASH_MAKE_TABLE p) (replicate 32 []).
Proof.
  split; [apply new_buckets_ok|]. rewrite concat_replicate_nil.
  split; [by apply NoDup_nil|]. split; [apply idx_ok_new|]. done.
Qed.

Lemma in_chains_lookup H bs cs x :
  Forall2 (chain_ok H) bs cs -> x ∈ concat cs -> is_Some (H !! x).
Proof.
  intros Hf (i & c & Hi & Hx)%elem_of_concat_lookup.
  destruct (Forall2_lookup_r _ _ _ _ _ Hf Hi) as (b & _ & Hd & _).
  eapply dseg_lookup; [exact Hd|done].
Qed.

Lemma HASH_EXPAND_BUCKETS_spec H t cs :
  table_ok H t cs -> num_buckets t <= 2 ^ 30 -> zlen (concat cs) < 2 ^ 32 ->
  exists H' t' cs',
    HASH_EXPAND_BUCKETS H t = Ok (H', t') /\ table_ok H' t' cs' /\
    concat cs' ≡ₚ concat cs /\ core_eq H H' /\
    num_items t' = num_items t /\ tail t' = tail t.
Proof.
  intros (Hf & Hnd & Hi & Hl & Hn & Hlen) Hroom Hsz.
  set (k := log2_num_buckets t) in *.
  assert (0 <= k < 31) as Hk.
  { split; [lia|]. destruct (Z.lt_ge_cases k 31) as [|Hge]; [done|].
    apply (Z.pow_le_mono_r 2) in Hge; lia. }
  assert (2 * 2 ^ k = 2 ^ (k + 1)) as Hk2 by (rewrite Z.pow_add_r; lia).
  pose proof (Z.pow_pos_nonneg 2 k ltac:(lia) ltac:(lia)).
  unfold HASH_EXPAND_BUCKETS. rewrite Hn.
  match goal with |- context [expand_buckets_loop _ _ ?e] => set (ideal := e) end.
  destruct (expand_buckets_loop_spec k ideal Hk (buckets t) cs (S (size H)) H
    (replicate (Z.to_nat (2 * 2 ^ k)) new_bucket) (replicate (Z.to_nat (2 * 2 ^ k)) []) 0)
    as (H' & nb' & non' & nc' & E & C & _ & A & P & I & L).
  - done.
  - apply Nat.lt_succ_r, nodup_size; [done|]. intros x. by eapply in_chains_lookup.
  - apply new_buckets_ok.
  - by rewrite concat_replicate_nil, app_nil_r.
  - apply idx_ok_new.
  - unfold zlen. rewrite length_replicate. lia.
  - by rewrite concat_replicate_nil, app_nil_r.
  - rewrite E. cbn [mbind res_bind].
    rewrite concat_replicate_nil, app_nil_r in P.
    assert (zlen nb' = 2 ^ (k + 1)) as L'.
    { rewrite L. unfold zlen. rewrite length_replicate. lia. }
    do 2 eexists. exists nc'. split; [reflexivity|]. split; [|done].
    unfold table_ok. cbn. rewrite (n2_u32 k Hk). fold k. rewrite u32_small by lia.
    split_and!; [done|by rewrite P|done|lia|lia|done|done].
Qed.

Lemma HASH_ADD_TO_BKT_spec H t cs p h :
  table_ok H t cs -> NoDup (p :: concat cs) -> H !! p = Some h ->
  num_buckets t <= 2 ^ 30 -> zlen (concat cs) < 2 ^ 31 ->
  exists H' t' cs',
    HASH_ADD_TO_BKT H t (HASH_TO_BKT (hashv h) (num_buckets t)) p = Ok (H', t') /\
    table_ok H' t' cs' /\ concat cs' ≡ₚ p :: concat cs /\ core_eq H H' /\
    num_items t' = num_items t /\ tail t' = tail t.
Proof.
  intros (Hf & Hnd & Hi & Hl & Hn & Hlen) Hndp Hh Hroom Hsz.
  pose proof (HASH_TO_BKT_range (hashv h) _ Hl) as Hr. rewrite <- Hn in Hr.
  assert (0 <= HASH_TO_BKT (hashv h) (num_buckets t) < zlen (buckets t)) as Hr'
    by (by rewrite Hlen).
  destruct (get_bucket_ok _ _ Hr') as (b & Hb & Eb).
  destruct (Forall2_lookup_l _ _ _ _ _ Hf Hb) as (c & Hc & _).
  pose proof (zlen_concat_lookup _ _ _ Hc) as Hcl.
  unfold HASH_ADD_TO_BKT. rewrite Eb. cbn [mbind res_bind].
  destruct (chain_push H _ _ _ b c p h (expand_mult b) Hf Hb Hc Hndp Hh ltac:(lia))
    as (H1 & H2 & E1 & E2 & Ecore & _ & Hf2).
  rewrite E1. cbn [mbind res_bind]. rewrite E2. cbn [mbind res_bind].
  pose proof (concat_insert_perm cs _ c (p :: c) p Hc (Permutation_refl _)) as Hp.
  match goal with |- context [HASH_EXPAND_BUCKETS H2 ?t] => set (t1 := t) end.
  assert (table_ok H2 t1 (<[Z.to_nat (HASH_TO_BKT (hashv h) (num_buckets t)) := p :: c]> cs))
    as Hok.
  { unfold table_ok, t1. cbn. split_and!; [done|by rewrite Hp| |lia|lia|done|].
    - eapply idx_ok_core_eq; [exact Ecore|]. eapply idx_ok_push; [done..|].
      lia.
    - unfold zlen. by rewrite length_insert. }
  destruct (_ && _).
  - destruct (HASH_EXPAND_BUCKETS_spec H2 t1 _ Hok) as (H3 & t3 & cs3 & E & O & P & C & N & T).
    + done.
    + rewrite Hp. unfold zlen in *. cbn. lia.
    + exists H3, t3, cs3. rewrite P. split_and!; try done. by etransitivity.
  - do 3 eexists. split_and!; [reflexivity|exact Hok|done..].
Qed.

Lemma HASH_ADD_TO_TABLE_spec H t cs p h :
  table_ok H t cs -> NoDup (p :: concat cs) -> H !! p = Some h ->
  num_buckets t <= 2 ^ 30 -> zlen (concat cs) < 2 ^ 31 ->
  exists H' t' cs',
    HASH_ADD_TO_TABLE H t (hashv h) p = Ok (H', t') /\ table_ok H' t' cs' /\
    concat cs' ≡ₚ p :: concat cs /\ core_eq H H' /\
    num_items t' = u32 (num_items t + 1) /\ tail t' = tail t.
Proof.
  intros Hok Hnd Hh Hroom Hsz. unfold HASH_ADD_TO_TABLE. cbv zeta.
  match goal with |- context [HASH_ADD_TO_BKT H ?t _ _] => set (t1 := t) end.
  by apply (HASH_ADD_TO_BKT_spec H t1 cs p h).
Qed.

(** ** The invariant of a table and its abstraction *)

(** The stored hash and key length of an element agree with its key. *)
Definition hashed (H : handles) (p : ptr) : Prop :=
  exists h, H !! p = Some h /\ hashv h = HASH_JEN (hh_key h) /\
    keylen h = zlen (hh_key h) /\ key_fits (hh_key h).

(** [xs]: the elements in application order. *)
Definition ut_inv (u : uthash) (xs : list ptr) : Prop :=
  match head u with
  | None => xs = []
  | Some hd => exists t cs,
      tbl u = Some t /\ aseg (hhs u) None (Some hd) xs (Some (tail t)) None /\
      table_ok (hhs u) t cs /\ concat cs ≡ₚ xs /\ num_items t = zlen xs /\
      zlen xs <= 2 ^ 31 /\ Forall (hashed (hhs u)) xs
  end.

Definition key_of (u : uthash) (p : ptr) : option (list Z) := hh_key <$> hhs u !! p.

Definition ut_rep (u : uthash) (m : gmap (list Z) ptr) : Prop :=
  exists xs, ut_inv u xs /\ forall k p, m !! k = Some p <-> p ∈ xs /\ key_of u p = Some k.

(** One more element fits: the counters are 32-bit, and the bucket array can
    still be doubled. *)
Definition ut_room (u : uthash) : bool :=
  match head u, tbl u with
  | Some _, Some t => (num_buckets t <=? 2 ^ 30) && (num_items t <? 2 ^ 31)
  | _, _ => true
  end.

Lemma hashed_keep H H' p :
  (forall h, H !! p = Some h -> exists h', H' !! p = Some h' /\
    hh_key h' = hh_key h /\ keylen h' = keylen h /\ hashv h' = hashv h) ->
  hashed H p -> hashed H' p.
Proof.
  intros E (h & Hh & E1 & E2 & E3). destruct (E h Hh) as (h' & Hh' & Ek & El & Ev).
  exists h'. rewrite Ek, El, Ev. done.
Qed.

Lemma hashed_core_eq H H' p : core_eq H H' -> hashed H p -> hashed H' p.
Proof.
  intros E. apply hashed_keep. intros h Hh.
  destruct (core_eq_lookup _ _ _ _ E Hh) as (h' & ? & _ & _ & ? & ? & ?). by exists h'.
Qed.

Lemma hashed_bcore_eq H H' p : bcore_eq H H' -> hashed H p -> hashed H' p.
Proof.
  intros E. apply hashed_keep. intros h Hh.
  destruct (bcore_eq_lookup _ _ _ _ E Hh) as (h' & ? & _ & _ & ? & ? & ?). by exists h'.
Qed.

Lemma core_eq_key H H' p : core_eq H H' -> hh_key <$> H' !! p = hh_key <$> H !! p.
Proof.
  intros E. specialize (E p). destruct (H !! p), (H' !! p); cbn in *; try done.
  injection E as ? ? ? ? ?. congruence.
Qed.

Lemma bcore_eq_key H H' p : bcore_eq H H' -> hh_key <$> H' !! p = hh_key <$> H !! p.
Proof.
  intros E. specialize (E p). destruct (H !! p), (H' !! p); cbn in *; try done.
  injection E as ? ? ? ? ?. congruence.
Qed.

Lemma table_ok_bcore_eq H H' t cs : bcore_eq H H' -> table_ok H t cs -> table_ok H' t cs.
Proof.
  intros E (Hf & Hnd & Hi & Hrest). split; [|split; [done|split; [|done]]].
  - eapply Forall2_impl; [exact Hf|]. intros b c [Hd Hc]. split; [|done].
    by eapply bseg_bcore_eq.
  - intros i c x h Hc Hx Hh. symmetry in E.
    destruct (bcore_eq_lookup _ _ _ _ E Hh) as (h' & Hh' & _ & _ & _ & _ & <-). eauto.
Qed.

(** ** [HASH_FIND] *)

Lemma find_loop_spec c fuel H pv cur l k :
  bseg H pv cur c l None -> (length c < fuel)%nat -> Forall (hashed H) c ->
  exists o, find_loop fuel H cur k (HASH_JEN k) = Ok o /\
    match o with
    | Some p => p ∈ c /\ hh_key <$> H !! p = Some k
    | None => forall p, p ∈ c -> hh_key <$> H !! p <> Some k
    end.
Proof.
  revert fuel pv cur. induction c as [|p c IH]; intros fuel pv cur Hd Hfu Hh.
  - destruct Hd as [-> _]. exists None. destruct fuel; (split; [done|set_solver]).
  - apply Forall_cons_iff in Hh as [(h' & Hp' & Ev & El & _) Hh].
    destruct Hd as (-> & h & Hp & _ & Hd). rewrite Hp in Hp'. injection Hp' as <-.
    destruct fuel as [|fuel]; [lia|]. cbn [find_loop]. unfold get_hh. rewrite Hp.
    cbn [deref mbind res_bind]. rewrite Ev, El.
    destruct (decide (hh_key h = k)) as [<-|Hne].
    + rewrite !Z.eqb_refl, bool_decide_true by done. exists (Some p). cbn.
      split; [done|]. split; [set_solver|]. by rewrite Hp.
    + rewrite (bool_decide_false (hh_key h = k)), andb_false_r by done.
      destruct (IH fuel _ _ Hd ltac:(cbn in Hfu; lia) Hh) as (o & Eo & Ho).
      exists o. split; [exact Eo|]. destruct o as [q|]; [set_solver|].
      intros q [->|Hq]%elem_of_cons; [rewrite Hp; cbn; congruence|by apply Ho].
Qed.

Lemma ut_find_spec u m k : ut_rep u m -> HASH_FIND u k = Ok (m !! k).
Proof.
  intros (xs & Hinv & Hm). unfold HASH_FIND. unfold ut_inv in Hinv.
  destruct (head u) as [hd|].
  - destruct Hinv as (t & cs & -> & _ & (Hf & Hnd & Hi & Hl & Hn & Hlen) & Hp & _ & _ & Hh).
    cbn [deref mbind res_bind].
    pose proof (HASH_TO_BKT_range (HASH_JEN k) _ Hl) as Hr. rewrite <- Hn in Hr.
    destruct (get_bucket_ok (buckets t) (HASH_TO_BKT (HASH_JEN k) (num_buckets t)))
      as (b & Hb & Eb); [by rewrite Hlen|]. rewrite Eb. cbn [mbind res_bind].
    destruct (Forall2_lookup_l _ _ _ _ _ Hf Hb) as (c & Hc & Hd & _).
    assert (forall p, p ∈ c -> p ∈ xs) as Hcx.
    { intros p Hpc. rewrite <- Hp. by eapply in_concat_lookup. }
    destruct (find_loop_spec c (S (size (hhs u))) (hhs u) None (hh_head b) (last c) k Hd)
      as (o & Eo & Ho).
    + apply Nat.lt_succ_r, nodup_size; [|intros x; by eapply dseg_lookup].
      rewrite <- (take_drop_middle cs _ _ Hc), concat_app in Hnd. cbn in Hnd.
      apply NoDup_app in Hnd as (_ & _ & Hnd). by apply NoDup_app in Hnd as (? & _).
    + rewrite Forall_forall in Hh |- *. auto.
    + unfold HASH_FIND_IN_BKT. rewrite Eo. f_equal. symmetry. destruct o as [p|].
      * apply Hm. destruct Ho as [Hpc Hk]. auto.
      * destruct (m !! k) as [p|] eqn:Hmk; [|done]. apply Hm in Hmk as [Hpx Hk].
        destruct (Ho p); [|exact Hk]. rewrite <- Hp in Hpx.
        apply elem_of_concat_lookup in Hpx as (j & d & Hj & Hpd).
        rewrite Forall_forall in Hh.
        destruct (Hh p) as (h & Hph & Ev & _); [rewrite <- Hp; by eapply in_concat_lookup|].
        pose proof (Hi j d p h Hj Hpd Hph) as Hij. rewrite Ev in Hij.
        unfold key_of in Hk. rewrite Hph in Hk. cbn in Hk. injection Hk as Hk.
        rewrite Hk in Hij. rewrite Hij, Nat2Z.id in Hc. congruence.
  - subst xs. f_equal. destruct (m !! k) as [p|] eqn:Hmk; [|done].
    apply Hm in Hmk as [? _]. set_solver.
Qed.

(** ** [HASH_ADD] *)

(** The abstraction, of any assignment of keys to the elements [xs]. *)
Definition maps (key : ptr -> option (list Z)) (xs : list ptr) (m : gmap (list Z) ptr) : Prop :=
  forall k p, m !! k = Some p <-> p ∈ xs /\ key p = Some k.

Lemma maps_insert key key' xs xs' m p k :
  maps key xs m -> p ∉ xs -> m !! k = None -> key' p = Some k ->
  (forall q, q ∈ xs -> key' q = key q) -> xs' ≡ₚ p :: xs ->
  maps key' xs' (<[k := p]> m).
Proof.
  intros Hm Hp Hk Hkp Hkey Hxs k' q. rewrite Hxs, elem_of_cons.
  destruct (decide (k = k')) as [<-|Hne].
  - rewrite lookup_insert_eq. split; [intros [= <-]; auto|].
    intros [[->|Hq] Hkq]; [done|]. rewrite Hkey in Hkq by done.
    assert (m !! k = Some q) by (by apply Hm). congruence.
  - rewrite lookup_insert_ne by done. split.
    + intros [Hq Hkq]%Hm. rewrite Hkey by done. auto.
    + intros [[->|Hq] Hkq]; [congruence|]. apply Hm. rewrite Hkey in Hkq by done. auto.
Qed.

Lemma maps_delete key key' xs xs' m p k :
  maps key xs m -> NoDup xs -> m !! k = Some p -> (forall q, q ∈ xs' -> key' q = key q) ->
  xs ≡ₚ p :: xs' -> maps key' xs' (delete k m).
Proof.
  intros Hm Hnd Hk Hkey Hxs k' q. rewrite Hxs in Hnd. apply NoDup_cons in Hnd as [Hp Hnd].
  apply Hm in Hk as [_ Hkp]. destruct (decide (k = k')) as [<-|Hne].
  - rewrite lookup_delete_eq. split; [done|]. intros [Hq Hkq]. rewrite Hkey in Hkq by done.
    assert (m !! k = Some q /\ m !! k = Some p) as [? ?]; [|congruence].
    split; apply Hm; rewrite Hxs; set_solver.
  - rewrite lookup_delete_ne by done. rewrite (Hm k' q), Hxs, elem_of_cons. split.
    + intros [[->|Hq] Hkq]; [congruence|]. rewrite Hkey by done. auto.
    + intros [Hq Hkq]. rewrite Hkey in Hkq by done. auto.
Qed.

Lemma table_ok_frame H H' t cs :
  (forall x, x ∈ concat cs -> H' !! x = H !! x) -> table_ok H t cs -> table_ok H' t cs.
Proof.
  intros E (Hf & Hnd & Hi & Hrest). split; [by eapply chains_frame|].
  split; [done|]. split; [|done]. intros i c x h Hc Hx Hh.
  rewrite E in Hh by (by eapply in_concat_lookup). by eapply Hi.
Qed.

Lemma Forall_hashed_frame H H' xs :
  (forall x, x ∈ xs -> H' !! x = H !! x) -> Forall (hashed H) xs -> Forall (hashed H') xs.
Proof.
  rewrite !Forall_forall. intros E Hh x Hx. eapply hashed_keep; [|by apply Hh].
  intros h Hxh. exists h. by rewrite E.
Qed.

Lemma HASH_APPEND_LIST_spec H t from xs p h :
  aseg H None from xs (Some (tail t)) None -> NoDup xs -> xs <> [] -> p ∉ xs ->
  H !! p = Some h ->
  exists H', HASH_APPEND_LIST H t p = Ok (H',
      mkTable (buckets t) (num_buckets t) (log2_num_buckets t) (num_items t) p
        (ideal_chain_maxlen t) (nonideal_items t) (ineff_expands t) (noexpand t)) /\
    bcore_eq H H' /\ aseg H' None from (xs ++ [p]) (Some p) None.
Proof.
  intros Hd Hnd Hne Hp Hh.
  assert (tail t ∈ xs) as Ht.
  { apply dseg_last in Hd. destruct (last_is_Some xs) as [_ [z Hz]]; [done|].
    rewrite Hz in Hd. injection Hd as ->. by apply last_Some_elem_of. }
  destruct (dseg_lookup _ _ _ _ _ _ _ _ _ Hd Ht) as [ht Hht].
  assert (p <> tail t) as Hpt by set_solver.
  set (h1 := set_prev (Some (tail t)) (set_next None h)).
  assert (<[p := h1]> H !! tail t = Some ht) as Hht1 by (by rewrite lookup_insert_ne).
  exists (<[tail t := set_next (Some p) ht]> (<[p := h1]> H)). split.
  - unfold HASH_APPEND_LIST. rewrite (upd_hh_ok _ _ _ _ Hh). cbn [mbind res_bind].
    by rewrite (upd_hh_ok _ _ _ _ Hht1).
  - split; [etransitivity; [by apply (bcore_eq_insert H p h h1)|];
            by eapply bcore_eq_insert|].
    apply dseg_app. exists (Some (tail t)), (Some p). split.
    + eapply dseg_set_end; [done| |done|exact Hht1|done|done].
      apply dseg_insert_other; [done|exact Hd].
    + split; [done|]. exists h1. rewrite lookup_insert_ne, lookup_insert_eq by done. done.
Qed.

Definition new_handle (k : list Z) : UT_hash_handle :=
  mkHandle None None None None k (u32 (zlen k)) (HASH_JEN k).

(** The bucket half of an insertion, for a new or a grown table; [ys] is the
    application order once [p] is linked in. *)
Lemma add_finish H t cs xs ys p k hd :
  table_ok H t cs -> concat cs ≡ₚ xs -> p ∉ xs -> num_items t = zlen xs ->
  num_buckets t <= 2 ^ 30 -> zlen xs < 2 ^ 31 -> key_fits k ->
  aseg H None (Some hd) ys (Some (tail t)) None -> ys ≡ₚ p :: xs ->
  bcore <$> H !! p = Some (bcore (new_handle k)) -> Forall (hashed H) xs ->
  exists H' t', HASH_ADD_TO_TABLE H t (HASH_JEN k) p = Ok (H', t') /\
    ut_inv (mkUt (Some hd) (Some t') H') ys /\ core_eq H H'.
Proof.
  intros Hok Hcs Hp Hn Hb Hsz Hk Hd Hys Hnew Hh.
  destruct (H !! p) as [h|] eqn:Hhp; [|done]. cbn in Hnew.
  injection Hnew as _ _ Ek El Ev. rewrite u32_small in El by (unfold key_fits, zlen in *; lia).
  destruct (HASH_ADD_TO_TABLE_spec H t cs p h Hok) as (H' & t' & cs' & E & O & P & C & N & T).
  - rewrite Hcs. apply NoDup_cons. split; [done|]. rewrite <- Hcs. apply Hok.
  - done.
  - done.
  - by rewrite Hcs.
  - exists H', t'. rewrite <- Ev. split; [exact E|]. split; [|done].
    exists t', cs'. split; [done|]. split_and!.
    + rewrite T. by eapply aseg_core_eq.
    + done.
    + by rewrite P, Hcs, Hys.
    + rewrite N, Hn, Hys, zlen_cons. pose proof (zlen_nonneg xs). rewrite u32_small; lia.
    + rewrite Hys, zlen_cons. lia.
    + rewrite Hys. apply List.Forall_cons.
      * eapply hashed_core_eq; [exact C|]. exists h. rewrite Ek, El, Ev. done.
      * rewrite Forall_forall in Hh |- *. intros x Hx. eapply hashed_core_eq; eauto.
Qed.

(** An element with the key of no other one is not in the table. *)
Lemma fresh_not_in u xs m p :
  maps (key_of u) xs m -> Forall (hashed (hhs u)) xs -> (forall k', m !! k' <> Some p) -> p ∉ xs.
Proof.
  intros Hm Hh Hfresh Hp. rewrite Forall_forall in Hh. destruct (Hh p Hp) as (h & Hph & _).
  apply (Hfresh (hh_key h)), Hm. unfold key_of. by rewrite Hph.
Qed.

(** What is left of an insertion once the new element is linked into the
    application order as [ys]. *)
Lemma add_linked H0 H1 key t cs xs ys p k m hd :
  table_ok H0 t cs -> concat cs ≡ₚ xs -> p ∉ xs -> num_items t = zlen xs ->
  num_buckets t <= 2 ^ 30 -> zlen xs < 2 ^ 31 -> key_fits k ->
  H0 !! p = Some (new_handle k) -> bcore_eq H0 H1 -> Forall (hashed H0) xs ->
  aseg H1 None (Some hd) ys (Some (tail t)) None -> ys ≡ₚ p :: xs ->
  maps key xs m -> m !! k = None -> (forall q, q ∈ xs -> hh_key <$> H0 !! q = key q) ->
  exists H2 t2, HASH_ADD_TO_TABLE H1 t (HASH_JEN k) p = Ok (H2, t2) /\
    ut_inv (mkUt (Some hd) (Some t2) H2) ys /\
    ut_rep (mkUt (Some hd) (Some t2) H2) (<[k := p]> m).
Proof.
  intros Hok Hcs Hp Hn Hb Hsz Hk Hp0 B1 Hh Hd Hys Hm Hnone Hkey.
  destruct (add_finish H1 t cs xs ys p k hd) as (H2 & t2 & E2 & I2 & C2); try done.
  - by apply (table_ok_bcore_eq H0).
  - by rewrite <- (B1 p), Hp0.
  - rewrite Forall_forall in Hh |- *. intros x Hx. eapply hashed_bcore_eq; eauto.
  - exists H2, t2. split; [done|]. split; [done|]. exists ys. split; [done|].
    eapply (maps_insert key); [exact Hm|done|done| | |done].
    + unfold key_of. cbn [hhs]. by rewrite (core_eq_key _ _ _ C2), (bcore_eq_key _ _ _ B1), Hp0.
    + intros q Hq. unfold key_of. cbn [hhs].
      rewrite (core_eq_key _ _ _ C2), (bcore_eq_key _ _ _ B1). auto.
Qed.

(** The first element makes a table. *)
Lemma add_first H p k :
  key_fits k -> H !! p = Some (new_handle k) ->
  exists H2 t2, HASH_ADD_TO_TABLE H (HASH_MAKE_TABLE p) (HASH_JEN k) p = Ok (H2, t2) /\
    ut_inv (mkUt (Some p) (Some t2) H2) [p] /\
    ut_rep (mkUt (Some p) (Some t2) H2) {[ k := p ]}.
Proof.
  intros Hk Hp. rewrite <- insert_empty.
  eapply (add_linked H H (fun _ => None) _ (replicate 32 []) []); try done.
  - apply table_ok_new.
  - set_solver.
  - split; [done|]. by exists (new_handle k).
  - intros k' q. rewrite lookup_empty. set_solver.
  - set_solver.
Qed.

Lemma ut_inv_nodup u xs : ut_inv u xs -> NoDup xs.
Proof.
  unfold ut_inv. destruct (head u) as [hd|]; [|intros ->; by apply NoDup_nil].
  intros (t & cs & _ & _ & Hok & Hcs & _). rewrite <- Hcs. apply Hok.
Qed.

(** The application order is determined by the table. *)
Lemma ut_inv_fun u xs ys : ut_inv u xs -> ut_inv u ys -> xs = ys.
Proof.
  unfold ut_inv. destruct (head u) as [hd|]; [|congruence].
  intros (t & cs & Et & Hd & _) (t' & cs' & Et' & Hd' & _). simplify_eq. by eapply dseg_fun.
Qed.

Lemma ut_inv_empty u m : ut_rep u m -> head u = None -> m = ∅.
Proof.
  intros (xs & Hinv & Hm) Eh. unfold ut_inv in Hinv. rewrite Eh in Hinv. subst xs.
  apply map_empty. intros k. destruct (m !! k) as [p|] eqn:E; [|done].
  apply Hm in E as [? _]. set_solver.
Qed.

Lemma ut_add_spec u m p k :
  ut_rep u m -> key_fits k -> ut_room u = true -> m !! k = None ->
  (forall k', m !! k' <> Some p) ->
  exists u', HASH_ADD_KEYPTR u p k = Ok u' /\ ut_rep u' (<[k := p]> m).
Proof.
  intros Hr Hk Hroom Hnone Hfresh. pose proof (ut_inv_empty u m Hr) as Hemp.
  destruct Hr as (xs & Hinv & Hm). unfold HASH_ADD_KEYPTR, ut_inv, ut_room in *.
  fold (new_handle k). set (H0 := <[p := new_handle k]> (hhs u)) in *.
  assert (H0 !! p = Some (new_handle k)) as Hp0 by apply lookup_insert_eq.
  destruct (head u) as [hd|].
  - destruct Hinv as (t & cs & Et & Hd & Hok & Hcs & Hn & Hsz & Hh). rewrite Et in *.
    apply andb_true_iff in Hroom as [Hb%Z.leb_le Hi%Z.ltb_lt].
    pose proof (fresh_not_in u xs m p Hm Hh Hfresh) as Hp.
    assert (NoDup xs) as Hnd by (rewrite <- Hcs; apply Hok).
    assert (xs <> []) as Hne by (intros ->; by destruct Hd).
    assert (forall x, x ∈ xs -> H0 !! x = hhs u !! x) as F0.
    { intros x Hx. apply lookup_insert_ne. set_solver. }
    assert (aseg H0 None (Some hd) xs (Some (tail t)) None) as Hd0
      by (by apply dseg_insert_other).
    destruct (HASH_APPEND_LIST_spec H0 t (Some hd) xs p _ Hd0 Hnd Hne Hp Hp0)
      as (H1 & E1 & B1 & D1).
    cbn [deref mbind res_bind]. rewrite E1. cbn [mbind res_bind].
    match goal with |- context [HASH_ADD_TO_TABLE _ ?t _ _] => set (t1 := t) end.
    destruct (add_linked H0 H1 (key_of u) t1 cs xs (xs ++ [p]) p k m hd)
      as (H2 & t2 & E2 & _ & R2); try done.
    + apply (table_ok_frame (hhs u)); [|exact Hok]. intros x Hx. rewrite Hcs in Hx. auto.
    + cbn. lia.
    + by apply (Forall_hashed_frame (hhs u)).
    + by rewrite <- Permutation_cons_append.
    + intros q Hq. unfold key_of. by rewrite F0.
    + rewrite E2. eauto.
  - rewrite (Hemp eq_refl), insert_empty.
    destruct (add_first H0 p k Hk Hp0) as (H2 & t2 & E2 & _ & R2). rewrite E2. eauto.
Qed.

(** ** [HASH_DEL] *)

Lemma concat_delete_perm {A} (cs : list (list A)) i c c' (x : A) :
  cs !! i = Some c -> c ≡ₚ x :: c' -> concat cs ≡ₚ x :: concat (<[i := c']> cs).
Proof.
  intros Hi Hc. rewrite <- (take_drop_middle cs i c Hi) at 1.
  rewrite insert_take_drop by (by eapply lookup_lt_Some).
  rewrite !concat_app. cbn. rewrite Hc. solve_Permutation.
Qed.

Lemma idx_ok_shrink n H cs i c c' :
  idx_ok n H cs -> cs !! i = Some c -> (forall x, x ∈ c' -> x ∈ c) ->
  idx_ok n H (<[i := c']> cs).
Proof.
  intros Hi Hc Hs j d x h Hd Hx Hh. destruct (decide (i = j)) as [<-|Hij].
  - rewrite list_lookup_insert_eq in Hd by (by eapply lookup_lt_Some).
    injection Hd as <-. eapply Hi; eauto.
  - rewrite list_lookup_insert_ne in Hd by done. by eapply Hi.
Qed.

Lemma HASH_DEL_IN_BKT_spec H t cs p h :
  table_ok H t cs -> p ∈ concat cs -> H !! p = Some h -> zlen (concat cs) < 2 ^ 32 ->
  exists H' bs' cs',
    HASH_DEL_IN_BKT H (buckets t) (HASH_TO_BKT (hashv h) (num_buckets t)) p = Ok (H', bs') /\
    (forall t', buckets t' = bs' -> num_buckets t' = num_buckets t ->
       log2_num_buckets t' = log2_num_buckets t -> table_ok H' t' cs') /\
    concat cs ≡ₚ p :: concat cs' /\ core_eq H H'.
Proof.
  intros (Hf & Hnd & Hi & Hl & Hn & Hlen) Hp Hh Hsz.
  destruct (elem_of_concat_lookup _ _ Hp) as (i & c & Hc & Hpc).
  rewrite (Hi i c p h Hc Hpc Hh).
  destruct (Forall2_lookup_r _ _ _ _ _ Hf Hc) as (b & Hb & Hd & Hcnt).
  pose proof (zlen_concat_lookup _ _ _ Hc) as Hcl.
  assert (NoDup c) as Hndc.
  { pose proof Hnd as Hnd'. rewrite <- (take_drop_middle cs _ _ Hc), concat_app in Hnd'.
    cbn in Hnd'. apply NoDup_app in Hnd' as (_ & _ & Hnd'). by apply NoDup_app in Hnd' as (? & _). }
  destruct (list_elem_of_split _ _ Hpc) as (a & d & ->).
  assert (p ∉ a ++ d) as Hpad 
    by (rewrite <- Permutation_middle in Hndc; by apply NoDup_cons in Hndc as [? _]).
  destruct (dseg_remove hh_next hh_prev set_hh_next set_hh_prev core ltac:(done) ltac:(done)
    ltac:(done) ltac:(done) ltac:(done) ltac:(done) H _ a p d _ h Hndc Hd Hh)
    as (H1 & H2 & E1 & E2 & D2 & _ & _ & K2 & F2).
  assert (a ++ p :: d ≡ₚ p :: (a ++ d)) as Hperm by (by rewrite Permutation_middle).
  pose proof (concat_delete_perm cs i _ _ p Hc Hperm) as Hcp.
  unfold HASH_DEL_IN_BKT, get_bucket, get_hh.
  destruct (Z.leb_spec 0 (Z.of_nat i)); [|lia]. rewrite Nat2Z.id, Hb, Hh.
  cbn [deref mbind res_bind]. rewrite E1. cbn [mbind res_bind]. rewrite E2.
  cbn [mbind res_bind]. do 2 eexists. exists (<[i := a ++ d]> cs).
  split; [reflexivity|]. split; [|split; [exact Hcp|exact K2]].
  intros t' Eb En El. unfold table_ok. rewrite Eb, En, El. split_and!; try done.
  - eapply chains_insert; [done..| |].
    + intros y Hy _. apply F2. set_solver.
    + split.
      * cbn [hh_head]. destruct a as [|a0 a].
        -- destruct Hd as (Ehd & _). by rewrite bool_decide_true.
        -- destruct Hd as (Ehd & _). rewrite bool_decide_false; [exact D2|].
           rewrite Ehd. set_solver.
      * cbn [count]. rewrite Hcnt, Hperm in *. unfold zlen in *. cbn [length] in *.
        rewrite u32_small by lia. lia.
  - rewrite Hcp in Hnd. by apply NoDup_cons in Hnd as [_ ?].
  - eapply idx_ok_core_eq; [exact K2|]. eapply idx_ok_shrink; [done..|]. set_solver.
  - lia.
  - lia.
  - by rewrite zlen_insert.
Qed.

(** The new tail: the element before, when the last one goes. *)
Lemma del_tail a p b t h :
  NoDup (a ++ p :: b) -> Some (tail t) = last (a ++ p :: b) -> a ++ b <> [] ->
  prev h = last a ->
  exists tl, (if bool_decide (p = tail t) then deref (prev h) else Ok (tail t)) = Ok tl /\
    last (a ++ b) = Some tl.
Proof.
  intros Hnd Hl Hne Hprev. rewrite last_app_cons in Hl.
  destruct b as [|b0 b].
  - injection Hl as ->. rewrite bool_decide_true by done. rewrite app_nil_r in *.
    destruct (last_is_Some a) as [_ [z Hz]]; [done|]. exists z. by rewrite Hprev, Hz.
  - rewrite last_cons_cons in Hl. rewrite last_app_cons, <- Hl.
    apply NoDup_app in Hnd as (_ & _ & [Hpb _]%NoDup_cons).
    rewrite bool_decide_false; [by exists (tail t)|]. intros ->.
    symmetry in Hl. by apply last_Some_elem_of in Hl.
Qed.

(** The handles and counters of a table after a deletion. *)
Lemma ut_inv_removed u a p b t cs hd H3 bs cs' tl hd' :
  head u = Some hd -> concat cs ≡ₚ a ++ p :: b -> num_items t = zlen (a ++ p :: b) ->
  zlen (a ++ p :: b) <= 2 ^ 31 -> Forall (hashed (hhs u)) (a ++ p :: b) ->
  aseg H3 None (Some hd') (a ++ b) (Some tl) None ->
  (forall q, hashed (hhs u) q -> hashed H3 q) ->
  concat cs ≡ₚ p :: concat cs' ->
  let t' := mkTable bs (num_buckets t) (log2_num_buckets t) (u32 (num_items t - 1)) tl
              (ideal_chain_maxlen t) (nonideal_items t) (ineff_expands t) (noexpand t) in
  table_ok H3 t' cs' -> ut_inv (mkUt (Some hd') (Some t') H3) (a ++ b).
Proof.
  intros Ehd Hcs Hn Hsz Hh Hd Hkeep P t' O.
  assert (a ++ p :: b ≡ₚ p :: (a ++ b)) as Hperm by (by rewrite Permutation_middle).
  exists t', cs'. split; [done|]. cbn [hhs tail num_items t']. split_and!; try done.
  - rewrite Hcs, Hperm in P. by apply Permutation_cons_inv in P.
  - rewrite Hn, Hperm in *. unfold zlen in *. cbn [length] in *. rewrite u32_small by lia. lia.
  - rewrite Hperm in Hsz. unfold zlen in *. cbn in Hsz. lia.
  - rewrite Hperm in Hh. apply List.Forall_cons_iff in Hh as [_ Hh].
    rewrite Forall_forall in Hh |- *. auto.
Qed.

(** Deletion, in terms of the application order. *)
Lemma del_list_spec u a p b :
  ut_inv u (a ++ p :: b) ->
  exists u', HASH_DELETE u p = Ok u' /\ ut_inv u' (a ++ b) /\
    (forall q, hh_key <$> hhs u' !! q = hh_key <$> hhs u !! q) /\
    (ut_room u = true -> ut_room u' = true).
Proof.
  intros Hinv. assert (p ∈ a ++ p :: b) as Hp by set_solver. pose proof Hinv as Hinv0.
  unfold ut_inv in Hinv.
  destruct (head u) as [hd|] eqn:Ehd; [|by destruct a].
  destruct Hinv as (t & cs & Et & Hd & Hok & Hcs & Hn & Hsz & Hh).
  assert (NoDup (a ++ p :: b)) as Hnd by (rewrite <- Hcs; apply Hok).
  destruct (dseg_lookup _ _ _ _ _ _ _ _ _ Hd Hp) as [h Hph].
  assert (a ++ p :: b ≡ₚ p :: (a ++ b)) as Hperm by (by rewrite Permutation_middle).
  destruct (dseg_remove next prev set_next set_prev bcore ltac:(done) ltac:(done) ltac:(done)
    ltac:(done) ltac:(done) ltac:(done) (hhs u) _ a p b _ h Hnd Hd Hph)
    as (H1 & H2 & E1 & E2 & D2 & Epv & Enx & K2 & F2).
  assert (Some (tail t) = last (a ++ p :: b)) as Htl.
  { rewrite (dseg_last _ _ _ _ _ _ _ _ Hd). by destruct (last (a ++ p :: b)). }
  unfold HASH_DELETE, get_hh. rewrite Hph, Et. cbn [deref mbind res_bind].
  destruct (decide (a ++ b = [])) as [E|Hne].
  { apply app_eq_nil in E as [-> ->]. cbn in Epv, Enx. rewrite Epv, Enx. by eexists. }
  destruct (del_tail a p b t h Hnd Htl Hne Epv) as (tl & Etl & Hlast).
  rewrite Etl, E1. cbn [mbind res_bind]. rewrite E2. cbn [mbind res_bind].
  destruct (HASH_DEL_IN_BKT_spec H2 t cs p h) as (H3 & bs & cs' & E3 & O3 & P3 & C3);
    [by eapply table_ok_bcore_eq|by rewrite Hcs| |rewrite Hcs; lia|].
  { rewrite F2; [done|]. rewrite Hperm in Hnd. by apply NoDup_cons in Hnd as [? _]. }
  rewrite E3. cbn [mbind res_bind]. set (u' := mkUt _ _ _).
  assert (exists hd', head u' = Some hd' /\
    head u' = match a with [] => next h | _ => Some hd end) as (hd' & Ehd' & Eh).
  { cbn. rewrite Ehd, Epv. destruct a as [|a0 a].
    - rewrite Enx. destruct b as [|b0 b]; [done|]. by exists b0.
    - destruct (last_is_Some (a0 :: a)) as [_ [z ->]]; [done|]. by exists hd. }
  exists u'. split; [|split; [|split]].
  - destruct (prev h) eqn:E4, (next h) eqn:E5; try reflexivity.
    symmetry in Epv, Enx. apply last_None in Epv. apply head_None in Enx. by subst.
  - change u' with (mkUt (head u') (tbl u') (hhs u')). rewrite Ehd'. cbn [u' tbl hhs].
    eapply (ut_inv_removed u a p b t cs hd); try done.
    + rewrite <- Hlast, <- Ehd', Eh. by eapply aseg_core_eq.
    + intros q Hq. eapply hashed_core_eq; [exact C3|]. by eapply hashed_bcore_eq.
    + by apply O3.
  - intros q. cbn [hhs u']. by rewrite (core_eq_key _ _ _ C3), (bcore_eq_key _ _ _ K2).
  - unfold ut_room. rewrite Ehd, Et, Ehd'. cbn [u' tbl num_buckets num_items].
    rewrite !andb_true_iff, !Z.ltb_lt. rewrite Hperm in Hn, Hsz. unfold zlen in Hn, Hsz.
    cbn in Hn, Hsz. rewrite u32_small by lia. lia.
Qed.

Lemma ut_del_spec u m p k :
  ut_rep u m -> m !! k = Some p ->
  exists u', HASH_DELETE u p = Ok u' /\ ut_rep u' (delete k m) /\
    (ut_room u = true -> ut_room u' = true).
Proof.
  intros (xs & Hinv & Hm) Hk. pose proof (proj1 (Hm _ _) Hk) as [Hp _].
  destruct (list_elem_of_split _ _ Hp) as (a & b & ->).
  destruct (del_list_spec u a p b Hinv) as (u' & E & I & Hkey & Hroom).
  exists u'. split; [done|]. split; [|done]. exists (a ++ b). split; [done|].
  eapply (maps_delete (key_of u) _ (a ++ p :: b)); [done|by eapply ut_inv_nodup|done|..].
  - intros q _. apply Hkey.
  - by rewrite Permutation_middle.
Qed.

Lemma ut_rep_empty : ut_rep (mkUt None None ∅) ∅.
Proof. exists []. split; [done|]. intros k p. rewrite lookup_empty. set_solver. Qed.

(** The macros keep the contract of their interface. *)
#[export] Instance uthash_key_table_spec : KeyTableSpec uthash.
Proof.
  refine {| kt_rep := ut_rep; kt_room := ut_room |}.
  - exact ut_rep_empty.
  - done.
  - intros t m k Hr _. by apply ut_find_spec.
  - intros t m p k. apply ut_add_spec.
  - intros t m p k. apply ut_del_spec.
Defined.

(** ** Properties *)

(** C10. Insertion: adding an element with a new key (in any state the macros
    can reach, bucket expansion included) succeeds, and from then on a search
    finds exactly what it found before and the new element under its key. *)
Theorem uthash_add_find u m p k :
  ut_rep u m -> key_fits k -> ut_room u = true -> m !! k = None ->
  (forall k', m !! k' <> Some p) ->
  exists u', HASH_ADD_KEYPTR u p k = Ok u' /\ ut_rep u' (<[k := p]> m) /\
    HASH_FIND u' k = Ok (Some p) /\
    forall k', k' <> k -> HASH_FIND u' k' = HASH_FIND u k'.
Proof.
  intros Hr Hk Hroom Hn Hf. destruct (ut_add_spec u m p k Hr Hk Hroom Hn Hf) as (u' & E & Hr').
  exists u'. rewrite (ut_find_spec u' _ k Hr'), lookup_insert_eq. split_and!; [done..|].
  intros k' Hne. rewrite (ut_find_spec u' _ k' Hr'), (ut_find_spec u m k' Hr).
  by rewrite lookup_insert_ne.
Qed.

Lemma uthash_add_find_witness :
  exists u', HASH_ADD_KEYPTR (mkUt None None ∅) 1%positive [104; 105] = Ok u' /\
    ut_rep u' {[ [104; 105] := 1%positive ]} /\
    HASH_FIND u' [104; 105] = Ok (Some 1%positive) /\
    forall k', k' <> [104; 105] -> HASH_FIND u' k' = HASH_FIND (mkUt None None ∅) k'.
Proof.
  apply (uthash_add_find (mkUt None None ∅) ∅ 1%positive [104; 105]).
  - exact ut_rep_empty.
  - vm_compute. reflexivity.
  - reflexivity.
  - reflexivity.
  - intros k'. rewrite lookup_empty. discriminate.
Defined.

(** C11. Deletion: removing an element that is in the table succeeds whatever its
    place in the application order and in its chain; afterwards its key is not
    found and every other search answers as before. *)
Theorem uthash_delete_find u m p k :
  ut_rep u m -> m !! k = Some p ->
  exists u', HASH_DELETE u p = Ok u' /\ ut_rep u' (delete k m) /\
    HASH_FIND u' k = Ok None /\
    forall k', k' <> k -> HASH_FIND u' k' = HASH_FIND u k'.
Proof.
  intros Hr Hk. destruct (ut_del_spec u m p k Hr Hk) as (u' & E & Hr' & _).
  exists u'. rewrite (ut_find_spec u' _ k Hr'), lookup_delete_eq. split_and!; [done..|].
  intros k' Hne. rewrite (ut_find_spec u' _ k' Hr'), (ut_find_spec u m k' Hr).
  by rewrite lookup_delete_ne.
Qed.

(** Two elements, in the table the macros build. *)
Definition two_elements : res uthash :=
  u ← HASH_ADD_KEYPTR (mkUt None None ∅) 1%positive [104; 105];
  HASH_ADD_KEYPTR u 2%positive [7].

Lemma two_elements_rep :
  exists u, two_elements = Ok u /\ ut_rep u (<[ [7] := 2%positive ]> {[ [104; 105] := 1%positive ]}).
Proof.
  destruct (ut_add_spec (mkUt None None ∅) ∅ 1%positive [104; 105] ut_rep_empty)
    as (u1 & E1 & R1); [by vm_compute|done|done|by intros; rewrite lookup_empty|].
  destruct (ut_add_spec u1 _ 2%positive [7] R1) as (u2 & E2 & R2).
  - by vm_compute.
  - vm_compute in E1. injection E1 as <-. by vm_compute.
  - by vm_compute.
  - intros k' [[_ ?]|[_ ?]]%lookup_insert_Some; [done|by rewrite lookup_empty in *].
  - exists u2. split; [|done]. unfold two_elements. rewrite E1. exact E2.
Qed.

Lemma uthash_delete_find_witness :
  exists u u', two_elements = Ok u /\ HASH_DELETE u 1%positive = Ok u' /\
    HASH_FIND u' [104; 105] = Ok None /\ HASH_FIND u' [7] = HASH_FIND u [7].
Proof.
  destruct two_elements_rep as (u & E & R).
  destruct (uthash_delete_find u _ 1%positive [104; 105] R) as (u' & E' & _ & F & G).
  - vm_compute. reflexivity.
  - exists u, u'. split; [exact E|]. split; [exact E'|]. split; [exact F|].
    apply G. discriminate.
Defined.

(** C12. Bucket expansion is transparent: it terminates without an error, doubles
    the number of buckets, keeps the elements and their order, and no search
    can tell that it happened. *)
Theorem expand_transparent u xs t hd :
  ut_inv u xs -> head u = Some hd -> tbl u = Some t -> num_buckets t <= 2 ^ 30 ->
  exists H' t', HASH_EXPAND_BUCKETS (hhs u) t = Ok (H', t') /\
    num_buckets t' = 2 * num_buckets t /\
    ut_inv (mkUt (head u) (Some t') H') xs /\
    forall m k, ut_rep u m -> HASH_FIND (mkUt (head u) (Some t') H') k = HASH_FIND u k.
Proof.
  intros Hinv Eh Et Hb. pose proof Hinv as Hinv'. unfold ut_inv in Hinv. rewrite Eh in Hinv.
  destruct Hinv as (t0 & cs & Et' & Hd & Hok & Hcs & Hn & Hsz & Hh).
  rewrite Et in Et'. injection Et' as <-.
  destruct (HASH_EXPAND_BUCKETS_spec (hhs u) t cs Hok Hb) as (H' & t' & cs' & E & O & P & C & N & T);
    [rewrite Hcs; lia|].
  assert (num_buckets t' = 2 * num_buckets t) as Hdbl.
  { unfold HASH_EXPAND_BUCKETS in E. apply res_bind_ok in E as ([[? ?] ?] & _ & [= _ <-]).
    cbn. destruct Hok as (_ & _ & _ & Hl & Hnb & _).
    pose proof (Z.pow_pos_nonneg 2 (log2_num_buckets t) ltac:(lia) ltac:(lia)).
    rewrite u32_small; lia. }
  assert (ut_inv (mkUt (head u) (Some t') H') xs) as I.
  { unfold ut_inv. cbn [head]. rewrite Eh. exists t', cs'. split; [done|]. cbn [hhs].
    split_and!; [rewrite T; by eapply aseg_core_eq|done|by rewrite P|by rewrite N|done|].
    rewrite Forall_forall in Hh |- *. intros x Hx. eapply hashed_core_eq; eauto. }
  exists H', t'. split_and!; [done..|]. intros m k (ys & Iy & Hm).
  rewrite (ut_find_spec u m) by (by exists ys). apply ut_find_spec. exists xs. split; [done|].
  intros k' p. rewrite (Hm k' p). unfold ut_inv in Iy. rewrite Eh in Iy.
  destruct Iy as (t1 & cs1 & Et1 & Hd1 & _). rewrite Et in Et1. injection Et1 as <-.
  unfold key_of. cbn [hhs]. rewrite (core_eq_key _ _ _ C).
  by rewrite (dseg_fun _ _ _ _ _ _ _ _ _ _ Hd1 Hd).
Qed.

Lemma expand_transparent_witness :
  exists u t H' t', two_elements = Ok u /\ tbl u = Some t /\
    HASH_EXPAND_BUCKETS (hhs u) t = Ok (H', t') /\ num_buckets t' = 64 /\
    HASH_FIND (mkUt (head u) (Some t') H') [7] = HASH_FIND u [7].
Proof.
  destruct two_elements_rep as (u & E & R). pose proof R as (xs & I & _).
  assert (head u = Some 1%positive /\ exists t, tbl u = Some t /\ num_buckets t = 32)
    as (Eh & t & Et & En).
  { vm_compute in E. injection E as <-. split; [reflexivity|].
    eexists. split; reflexivity. }
  destruct (expand_transparent u xs t 1%positive I Eh Et) as (H' & t' & E' & En' & _ & F).
  - rewrite En. discriminate.
  - exists u, t, H', t'. rewrite En', En. split; [exact E|]. split; [exact Et|].
    split; [exact E'|]. split; [reflexivity|]. eapply F. exact R.
Defined.
