(* ===== verification/UtExtra.v ===== *)
(** * UtExtra: integrity check, replacement and bookkeeping macros of [uthash.h]

    [HASH_FSCK], which the macros of [UtHash.v] run after every change when
    compiled with [HASH_DEBUG], and the macros built from them: [HASH_REPLACE],
    [HASH_CLEAR], [HASH_CNT], [HASH_OVERHEAD]. *)

From stdpp Require Import base tactics list numbers option gmap.
From S2P Require Import Prelude KeyTable UtHash.

(** ** [HASH_FSCK] *)

(** One chain: the number of items, or [None] when [HASH_OOPS] ends the
    program. *)
Fixpoint fsck_chain (fuel : nat) (H : handles) (pv thh : option ptr) (bkt_count : Z)
    : res (option Z) :=
  match thh with
  | None => Ok (Some bkt_count)
  | Some p =>
      match fuel with
      | O => NoFuel
      | S fuel =>
          h ← get_hh H p;
          if bool_decide (pv = hh_prev h)
          then fsck_chain fuel H (Some p) (hh_next h) (u32 (bkt_count + 1))
          else Ok None
      end
  end.

(** The buckets from [i] on, [n] of them. *)
Fixpoint fsck_buckets (n fuel : nat) (H : handles) (bs : list UT_hash_bucket) (i cnt : Z)
    : res (option Z) :=
  match n with
  | O => Ok (Some cnt)
  | S n =>
      b ← get_bucket bs i;
      o ← fsck_chain fuel H None (hh_head b) 0;
      match o with
      | None => Ok None
      | Some bkt_count =>
          if count b =? bkt_count
          then fsck_buckets n fuel H bs (u32 (i + 1)) (u32 (cnt + bkt_count))
          else Ok None
      end
  end.

(** The application order. *)
Fixpoint fsck_list (fuel : nat) (H : handles) (pv thh : option ptr) (cnt : Z)
    : res (option Z) :=
  match thh with
  | None => Ok (Some cnt)
  | Some p =>
      match fuel with
      | O => NoFuel
      | S fuel =>
          h ← get_hh H p;
          if bool_decide (pv = prev h)
          then fsck_list fuel H (Some p) (next h) (u32 (cnt + 1))
          else Ok None
      end
  end.

(** [true]: the table is accepted; [false]: [exit(-1)]. *)
Definition HASH_FSCK (u : uthash) : res bool :=
  match head u with
  | None => Ok true
  | Some hd =>
      t ← deref (tbl u);
      let fuel := S (size (hhs u)) in
      o ← fsck_buckets (Z.to_nat (num_buckets t)) fuel (hhs u) (buckets t) 0 0;
      match o with
      | None => Ok false
      | Some cnt =>
          if negb (cnt =? num_items t) then Ok false else
          o ← fsck_list fuel (hhs u) None (Some hd) 0;
          match o with
          | None => Ok false
          | Some cnt => Ok (cnt =? num_items t)
          end
      end
  end.

(** ** The other macros *)

(** [HASH_REPLACE]: the element that had the key, if any, is taken out and
    handed back. *)
Definition HASH_REPLACE (u : uthash) (p : ptr) (key : list Z) : res (uthash * option ptr) :=
  replaced ← HASH_FIND u key;
  u ← (match replaced with Some q => HASH_DELETE u q | None => Ok u end);
  u ← HASH_ADD_KEYPTR u p key;
  Ok (u, replaced).

(** The elements themselves stay with the user. *)
Definition HASH_CLEAR (u : uthash) : uthash :=
  match head u with
  | None => u
  | Some _ => mkUt None None (hhs u)
  end.

Definition HASH_CNT (u : uthash) : res Z :=
  match head u with
  | None => Ok 0
  | Some _ => t ← deref (tbl u); Ok (num_items t)
  end.

(** Sizes for 64-bit pointers; there is no bloom filter. *)
Definition sizeof_UT_hash_handle : Z := 56.
Definition sizeof_UT_hash_bucket : Z := 16.
Definition sizeof_UT_hash_table : Z := 64.

Definition HASH_OVERHEAD (u : uthash) : res Z :=
  match head u with
  | None => Ok 0
  | Some _ =>
      t ← deref (tbl u);
      Ok (u64 (num_items t * sizeof_UT_hash_handle + num_buckets t * sizeof_UT_hash_bucket
               + sizeof_UT_hash_table))
  end.

(** ** What the integrity check accepts *)

Section Walk.
(** Both walks of the check, for either pair of links. *)
Context (nx pv : UT_hash_handle -> option ptr).

Fixpoint walk (fuel : nat) (H : handles) (p thh : option ptr) (cnt : Z) : res (option Z) :=
  match thh with
  | None => Ok (Some cnt)
  | Some x =>
      match fuel with
      | O => NoFuel
      | S fuel =>
          h ← get_hh H x;
          if bool_decide (p = pv h) then walk fuel H (Some x) (nx h) (u32 (cnt + 1))
          else Ok None
      end
  end.

Lemma dseg_shorter H p p' x xs l l' ys :
  dseg nx pv H p (Some x) xs l None -> dseg nx pv H p' (Some x) ys l' None -> length xs = length ys.
Proof. intros H1 H2. by rewrite (dseg_fun _ _ _ _ _ _ _ _ _ _ H1 H2). Qed.

(** A list that ends in NULL visits no element twice. *)
Lemma dseg_nodup H p from xs l : dseg nx pv H p from xs l None -> NoDup xs.
Proof.
  revert p from. induction xs as [|x xs IH]; intros p from Hd; [by apply NoDup_nil|].
  pose proof Hd as (-> & h & Hh & _ & Hd'). apply NoDup_cons. split; [|by eapply IH].
  intros Hx. apply list_elem_of_split in Hx as (a & b & ->).
  pose proof (dseg_app nx pv H (Some x) (nx h) a (x :: b) l None) as [Ha _].
  destruct (Ha Hd') as (m & n & _ & Hb). pose proof Hb as (-> & _).
  pose proof (dseg_shorter _ _ _ _ _ _ _ _ Hd Hb) as E. cbn in E. rewrite length_app in E.
  cbn in E. lia.
Qed.

Lemma walk_dseg xs fuel H p from l cnt :
  dseg nx pv H p from xs l None -> (length xs <= fuel)%nat -> cnt = u32 cnt ->
  walk fuel H p from cnt = Ok (Some (u32 (cnt + zlen xs))).
Proof.
  revert fuel p from cnt. induction xs as [|x xs IH]; intros fuel p from cnt Hd Hf Hc.
  - destruct Hd as [-> _]. cbn [walk]. destruct fuel; cbn; by rewrite Z.add_0_r, <- Hc.
  - destruct Hd as (-> & h & Hh & <- & Hd). destruct fuel as [|fuel]; [cbn in Hf; lia|].
    cbn [walk]. unfold get_hh. rewrite Hh. cbn [deref mbind res_bind].
    rewrite bool_decide_true by done. rewrite (IH _ _ _ _ Hd); [|cbn in Hf; lia|].
    + rewrite u32_add_l. do 3 f_equal. unfold zlen. cbn [length]. lia.
    + by rewrite u32_idem.
Qed.

Lemma walk_inv fuel H p from cnt n :
  walk fuel H p from cnt = Ok (Some n) -> cnt = u32 cnt ->
  exists xs l, dseg nx pv H p from xs l None /\ n = u32 (cnt + zlen xs).
Proof.
  revert p from cnt. induction fuel as [|fuel IH]; intros p [x|] cnt E Hc; cbn [walk] in E.
  - done.
  - injection E as <-. exists [], p. split; [done|]. by rewrite Z.add_0_r.
  - apply res_bind_ok in E as (h & Hh & E). apply deref_ok in Hh.
    destruct (bool_decide_reflect (p = pv h)) as [->|]; [|done].
    destruct (IH _ _ _ E) as (xs & l & Hd & ->); [by rewrite u32_idem|].
    exists (x :: xs), l. split; [split; [done|by exists h]|].
    rewrite u32_add_l. f_equal. unfold zlen. cbn [length]. lia.
  - injection E as <-. exists [], p. split; [done|]. by rewrite Z.add_0_r.
Qed.
End Walk.

Lemma fsck_chain_walk fuel H p thh cnt :
  fsck_chain fuel H p thh cnt = walk hh_next hh_prev fuel H p thh cnt.
Proof. reflexivity. Qed.

Lemma fsck_list_walk fuel H p thh cnt :
  fsck_list fuel H p thh cnt = walk next prev fuel H p thh cnt.
Proof. reflexivity. Qed.

(** What the check looks at: counts are 32 bits wide. *)
Definition chain_checked (H : handles) (b : UT_hash_bucket) (c : list ptr) : Prop :=
  bseg H None (hh_head b) c (last c) None /\ count b = u32 (zlen c).

Definition fsck_spec (u : uthash) : Prop :=
  match head u with
  | None => True
  | Some hd => exists t cs xs,
      tbl u = Some t /\ Forall2 (chain_checked (hhs u)) (buckets t) cs /\
      num_items t = u32 (zlen (concat cs)) /\
      aseg (hhs u) None (Some hd) xs (last xs) None /\ num_items t = u32 (zlen xs)
  end.

Lemma dseg_size nx pv H p from xs l :
  dseg nx pv H p from xs l None -> (length xs <= S (size H))%nat.
Proof.
  intros Hd. apply Nat.le_le_succ_r, nodup_size; [by eapply dseg_nodup|].
  intros x. by eapply dseg_lookup.
Qed.

Lemma dseg_last_None nx pv H from xs l :
  dseg nx pv H None from xs l None -> l = last xs.
Proof. intros Hd. rewrite (dseg_last _ _ _ _ _ _ _ _ Hd). by destruct (last xs). Qed.

Lemma get_bucket_inv bs i b : get_bucket bs i = Ok b -> 0 <= i /\ bs !! Z.to_nat i = Some b.
Proof.
  unfold get_bucket. destruct (Z.leb_spec 0 i); [|done]. intros E. by apply deref_ok in E.
Qed.

(** The bucket loop, both ways; [pre] are the buckets already checked. *)
Lemma fsck_buckets_ok H bs n i cs cnt :
  Forall2 (chain_checked H) (drop i bs) cs -> length bs = (i + n)%nat ->
  Z.of_nat (length bs) < 2 ^ 32 -> cnt = u32 cnt ->
  fsck_buckets n (S (size H)) H bs (Z.of_nat i) cnt
  = Ok (Some (u32 (cnt + zlen (concat cs)))).
Proof.
  revert i cs cnt. induction n as [|n IH]; intros i cs cnt Hf Hl Hb Hc.
  - rewrite drop_ge in Hf by lia. inversion Hf; subst. cbn. by rewrite Z.add_0_r, <- Hc.
  - destruct (lookup_lt_is_Some_2 bs i ltac:(lia)) as [b Hbi].
    rewrite (drop_S _ _ _ Hbi) in Hf. inversion Hf as [|? c ? cs' [Hd Hcount] Hf']; subst.
    cbn [fsck_buckets]. unfold get_bucket. rewrite (proj2 (Z.leb_le 0 _)), Nat2Z.id, Hbi by lia.
    cbn [deref mbind res_bind]. rewrite fsck_chain_walk.
    rewrite (walk_dseg _ _ c _ _ _ _ (last c)); [|exact Hd|by eapply dseg_size|done].
    cbn [mbind res_bind]. rewrite Hcount, Z.add_0_l, Z.eqb_refl.
    rewrite (u32_small (Z.of_nat i + 1)) by lia.
    replace (Z.of_nat i + 1) with (Z.of_nat (S i)) by lia.
    rewrite (IH _ cs'); [|done|lia|done|by rewrite u32_idem].
    cbn [concat]. rewrite zlen_app, u32_add_l. do 2 f_equal.
    replace (cnt + u32 (zlen c) + zlen (concat cs')) with (cnt + zlen (concat cs') + u32 (zlen c))
      by lia. rewrite u32_add_r. f_equal. lia.
Qed.

Lemma fsck_buckets_inv H bs n i fuel cnt m :
  fsck_buckets n fuel H bs (Z.of_nat i) cnt = Ok (Some m) -> length bs = (i + n)%nat ->
  Z.of_nat (length bs) < 2 ^ 32 -> cnt = u32 cnt ->
  exists cs, Forall2 (chain_checked H) (drop i bs) cs /\ m = u32 (cnt + zlen (concat cs)).
Proof.
  revert i cnt. induction n as [|n IH]; intros i cnt E Hl Hb Hc; cbn [fsck_buckets] in E.
  - injection E as <-. exists []. rewrite drop_ge by lia. split; [done|]. by rewrite Z.add_0_r.
  - apply res_bind_ok in E as (b & Hbi & E). apply get_bucket_inv in Hbi as [_ Hbi].
    rewrite Nat2Z.id in Hbi. apply res_bind_ok in E as (o & Ho & E).
    destruct o as [k|]; [|done]. destruct (Z.eqb_spec (count b) k) as [<-|]; [|done].
    rewrite fsck_chain_walk in Ho.
    destruct (walk_inv _ _ _ _ _ _ _ _ Ho eq_refl) as (c & l & Hd & Hk).
    pose proof (dseg_last_None _ _ _ _ _ _ Hd) as ->.
    rewrite u32_small in E by lia. replace (Z.of_nat i + 1) with (Z.of_nat (S i)) in E by lia.
    destruct (IH _ _ E) as (cs & Hf & ->); [lia|done|by rewrite u32_idem|].
    exists (c :: cs). rewrite (drop_S _ _ _ Hbi). split; [by constructor|].
    rewrite Hk, Z.add_0_l. cbn [concat]. rewrite zlen_app, u32_add_l.
    replace (cnt + u32 (zlen c) + zlen (concat cs)) with (cnt + zlen (concat cs) + u32 (zlen c))
      by lia. rewrite u32_add_r. f_equal. lia.
Qed.

(** ** Properties *)

Lemma fsck_complete u :
  (forall t, tbl u = Some t -> zlen (buckets t) = num_buckets t /\ num_buckets t < 2 ^ 32) ->
  fsck_spec u -> HASH_FSCK u = Ok true.
Proof.
  intros Hb. unfold fsck_spec, HASH_FSCK. destruct (head u) as [hd|]; [|done].
  intros (t & cs & xs & Et & Hf & Hn & Hd & Hn'). destruct (Hb t Et) as [Hlen Hlt].
  rewrite Et. cbn [deref mbind res_bind]. unfold zlen in Hlen.
  change 0 with (Z.of_nat 0) at 1.
  rewrite (fsck_buckets_ok _ _ _ 0 cs) by (done || lia).
  cbn [mbind res_bind]. rewrite Z.add_0_l, <- Hn, Z.eqb_refl. cbn [negb].
  rewrite fsck_list_walk.
  rewrite (walk_dseg _ _ xs _ _ _ _ _ _ Hd); [|by eapply dseg_size|done].
  cbn [mbind res_bind]. by rewrite Z.add_0_l, <- Hn', Z.eqb_refl.
Qed.

Lemma fsck_sound u :
  (forall t, tbl u = Some t -> zlen (buckets t) = num_buckets t /\ num_buckets t < 2 ^ 32) ->
  HASH_FSCK u = Ok true -> fsck_spec u.
Proof.
  intros Hb E. unfold fsck_spec, HASH_FSCK in *. destruct (head u) as [hd|]; [|done].
  apply res_bind_ok in E as (t & Et & E). apply deref_ok in Et.
  destruct (Hb t Et) as [Hlen Hlt]. unfold zlen in Hlen.
  apply res_bind_ok in E as (o & Ho & E). destruct o as [cnt|]; [|done].
  change 0 with (Z.of_nat 0) in Ho at 1.
  apply fsck_buckets_inv in Ho as (cs & Hf & ->); [|lia..|done].
  rewrite Z.add_0_l in E. destruct (Z.eqb_spec (u32 (zlen (concat cs))) (num_items t)) as [Hn|];
    [|done]. cbn [negb] in E.
  apply res_bind_ok in E as (o & Ho & E). destruct o as [cnt|]; [|done].
  rewrite fsck_list_walk in Ho. destruct (walk_inv _ _ _ _ _ _ _ _ Ho eq_refl) as (xs & l & Hd & ->).
  injection E as E%Z.eqb_eq. rewrite Z.add_0_l in E.
  exists t, cs, xs. pose proof (dseg_last_None _ _ _ _ _ _ Hd) as ->. done.
Qed.

(** C16. What the developers' integrity check accepts, exactly: for a table whose
    bucket array has the size it says, the check returns (it terminates,
    without reading through a bad pointer) and accepts if and only if every
    chain and the application order are doubly linked lists that end in NULL,
    the bucket counts are the lengths of the chains and both totals are the
    item count (all counts modulo [2^32]). *)
Theorem fsck_exact u :
  (forall t, tbl u = Some t -> zlen (buckets t) = num_buckets t /\ num_buckets t < 2 ^ 32) ->
  HASH_FSCK u = Ok true <-> fsck_spec u.
Proof. intros Hb. split; [by apply fsck_sound|by apply fsck_complete]. Qed.

Lemma chains_checked H bs cs :
  Forall2 (chain_ok H) bs cs -> zlen (concat cs) < 2 ^ 32 -> Forall2 (chain_checked H) bs cs.
Proof.
  intros [Hlf Hf]%Forall2_same_length_lookup Hsz. apply Forall2_same_length_lookup.
  split; [done|]. intros i b c Hb Hc. destruct (Hf i b c Hb Hc) as [Hbd Hcount].
  split; [done|]. pose proof (zlen_concat_lookup _ _ _ Hc). pose proof (zlen_nonneg c).
  rewrite Hcount, u32_small; [done|lia].
Qed.

(** A list that is too short or too long is found out. *)
Lemma fsck_rejects u hd t cs xs l :
  head u = Some hd -> tbl u = Some t -> table_ok (hhs u) t cs ->
  zlen (concat cs) = num_items t -> num_items t < 2 ^ 32 ->
  aseg (hhs u) None (Some hd) xs l None -> zlen xs <> num_items t /\ zlen xs < 2 ^ 32 ->
  HASH_FSCK u = Ok false.
Proof.
  intros Eh Et (Hf & Hnd & _ & Hl & Hnb & Hlen) Hn Hlt Hd [Hne Hx]. unfold HASH_FSCK.
  rewrite Eh, Et. cbn [deref mbind res_bind].
  assert (2 ^ log2_num_buckets t < 2 ^ 32) by (apply Z.pow_lt_mono_r; lia).
  pose proof (zlen_nonneg (concat cs)). pose proof (zlen_nonneg xs). unfold zlen in Hlen.
  change 0 with (Z.of_nat 0) at 1.
  rewrite (fsck_buckets_ok _ _ _ 0 cs); [|apply chains_checked; [done|lia]|lia|lia|done].
  cbn [mbind res_bind]. rewrite Z.add_0_l, Hn, u32_small, Z.eqb_refl by lia. cbn [negb].
  rewrite fsck_list_walk.
  rewrite (walk_dseg _ _ xs _ _ _ _ _ _ Hd); [|by eapply dseg_size|done].
  cbn [mbind res_bind]. rewrite Z.add_0_l, u32_small by lia. by apply f_equal, Z.eqb_neq.
Qed.

(** Every table the macros build passes. *)
Lemma ut_inv_fsck u xs : ut_inv u xs -> HASH_FSCK u = Ok true.
Proof.
  intros Hinv. destruct (head u) as [hd|] eqn:Eh; [|by unfold HASH_FSCK; rewrite Eh].
  unfold ut_inv in Hinv. rewrite Eh in Hinv.
  destruct Hinv as (t & cs & Et & Hd & (Hf & Hnd & Hi & Hl & Hn & Hlen) & Hcs & Hnum & Hsz & _).
  apply fsck_complete.
  - intros t' Et'. rewrite Et in Et'. injection Et' as <-. split; [done|]. rewrite Hn.
    apply Z.pow_lt_mono_r; lia.
  - unfold fsck_spec. rewrite Eh. exists t, cs, xs. pose proof (zlen_nonneg xs).
    assert (num_items t = u32 (zlen xs)) as Hx by (rewrite Hnum, u32_small; lia).
    split; [done|]. split; [|split; [by rewrite Hcs|split; [|done]]].
    + apply chains_checked; [done|rewrite Hcs; lia].
    + by rewrite <- (dseg_last_None _ _ _ _ _ _ Hd).
Qed.

Lemma hash_replace_spec u m p k :
  ut_rep u m -> key_fits k -> ut_room u = true -> (forall k', m !! k' <> Some p) ->
  exists u', HASH_REPLACE u p k = Ok (u', m !! k) /\ ut_rep u' (<[k := p]> m).
Proof.
  intros Hr Hk Hroom Hfresh. unfold HASH_REPLACE. rewrite (ut_find_spec u m k Hr).
  cbn [mbind res_bind]. destruct (m !! k) as [q|] eqn:Eq.
  - destruct (ut_del_spec u m q k Hr Eq) as (u1 & E1 & R1 & Room1). rewrite E1. cbn [mbind res_bind].
    destruct (ut_add_spec u1 _ p k R1 Hk (Room1 Hroom)) as (u2 & E2 & R2).
    + apply lookup_delete_eq.
    + intros k' Hk'. apply lookup_delete_Some in Hk' as [_ Hk']. by eapply Hfresh.
    + rewrite E2. cbn [mbind res_bind]. exists u2. split; [done|].
      by rewrite insert_delete_eq in R2.
  - destruct (ut_add_spec u m p k Hr Hk Hroom Eq Hfresh) as (u2 & E2 & R2). cbn [mbind res_bind].
    rewrite E2. by exists u2.
Qed.

(** Replacing: the element that had the key is handed back and no longer
    found, the new one is found in its place, and every other search answers
    as before. *)
Theorem hash_replace_find u m p k :
  ut_rep u m -> key_fits k -> ut_room u = true -> (forall k', m !! k' <> Some p) ->
  exists u', HASH_REPLACE u p k = Ok (u', m !! k) /\ HASH_FSCK u' = Ok true /\
    HASH_FIND u' k = Ok (Some p) /\ forall k', k' <> k -> HASH_FIND u' k' = HASH_FIND u k'.
Proof.
  intros Hr Hk Hroom Hf. destruct (hash_replace_spec u m p k Hr Hk Hroom Hf) as (u' & E & R).
  exists u'. split; [done|]. split; [destruct R as (xs & I & _); by eapply ut_inv_fsck|].
  rewrite (ut_find_spec u' _ k R), lookup_insert_eq. split; [done|].
  intros k' Hne. rewrite (ut_find_spec u' _ k' R), (ut_find_spec u m k' Hr).
  by rewrite lookup_insert_ne.
Qed.

Lemma hash_replace_find_witness :
  exists u u', two_elements = Ok u /\ HASH_REPLACE u 3%positive [7] = Ok (u', Some 2%positive) /\
    HASH_FSCK u' = Ok true /\ HASH_FIND u' [7] = Ok (Some 3%positive) /\
    HASH_FIND u' [104; 105] = HASH_FIND u [104; 105].
Proof.
  destruct two_elements_rep as (u & E & R).
  destruct (hash_replace_find u _ 3%positive [7] R) as (u' & E' & F & G & O).
  - vm_compute. reflexivity.
  - vm_compute in E. injection E as <-. vm_compute. reflexivity.
  - intros k' [[_ Hk]|[_ [_ Hk]%lookup_singleton_Some]]%lookup_insert_Some; discriminate.
  - exists u, u'. split; [exact E|]. split; [exact E'|]. split; [exact F|]. split; [exact G|].
    apply O. discriminate.
Defined.

Example fsck_exact_bad_count :
  HASH_FSCK (mkUt (Some 1%positive)
    (Some (mkTable [mkBucket (Some 1%positive) 2 0] 1 0 1 1%positive 0 0 0 0))
    {[ 1%positive := mkHandle None None None None [] 0 0 ]}) = Ok false.
Proof. reflexivity. Qed.

Lemma fsck_exact_witness :
  let u := mkUt (Some 1%positive)
    (Some (mkTable [mkBucket (Some 1%positive) 1 0] 1 0 1 1%positive 0 0 0 0))
    {[ 1%positive := mkHandle None None None None [] 0 0 ]} in
  HASH_FSCK u = Ok true <-> fsck_spec u.
Proof.
  apply fsck_exact. intros t Et. injection Et as <-. split; reflexivity.
Defined.
