(* ===== verification/UtSort.v ===== *)
(** * UtSort: [HASH_SRT] of [uthash.h], a bottom-up merge sort of the application
    order

    The sort relinks the [next] and [prev] fields of the elements in place.
    The comparison is the user's function; it is an argument of the model. *)

From stdpp Require Import base tactics list numbers option gmap sorting.
From S2P Require Import Prelude KeyTable UtHash.

Section Sort.
(** [cmpfcn(a, b)] on elements. *)
Context (cmpfcn : ptr -> ptr -> Z).

(** Counting the first run: [n] is what is left of [_hs_insize]. *)
Fixpoint srt_count (n : nat) (H : handles) (q : ptr) (psize : Z) : res (option ptr * Z) :=
  match n with
  | O => Ok (Some q, psize)
  | S n =>
      let psize := u32 (psize + 1) in
      h ← get_hh H q;
      match next h with
      | None => Ok (None, psize)
      | Some q => srt_count n H q psize
      end
  end.

(** The registers of the merge. *)
Record merge_state : Type := mkMerge {
  m_hh : handles;
  m_p : option ptr;
  m_psize : Z;
  m_q : option ptr;
  m_qsize : Z;
  m_list : option ptr;
  m_tail : option ptr;
}.

(** Appending [e] to the list under construction. *)
Definition srt_emit (s : merge_state) (e : option ptr) : res merge_state :=
  '(H, l) ←
    (match m_tail s with
     | Some t => H ← upd_hh (m_hh s) t (set_next e); Ok (H, m_list s)
     | None => Ok (m_hh s, e)
     end);
  H ← upd_hh_opt H e (set_prev (m_tail s));
  Ok (mkMerge H (m_p s) (m_psize s) (m_q s) (m_qsize s) l e).

(** [e = q; q = q->next; qsize--]: the pointer is dereferenced as it is. *)
Definition srt_take_q (s : merge_state) : res merge_state :=
  q ← deref (m_q s);
  h ← get_hh (m_hh s) q;
  srt_emit (mkMerge (m_hh s) (m_p s) (m_psize s) (next h) (u32 (m_qsize s - 1))
              (m_list s) (m_tail s)) (Some q).

(** [e = p; if (p != NULL) p = p->next; psize--]. *)
Definition srt_take_p (s : merge_state) : res merge_state :=
  p' ← (match m_p s with
        | Some p => h ← get_hh (m_hh s) p; Ok (next h)
        | None => Ok None
        end);
  srt_emit (mkMerge (m_hh s) p' (u32 (m_psize s - 1)) (m_q s) (m_qsize s)
              (m_list s) (m_tail s)) (m_p s).

Fixpoint srt_merge (fuel : nat) (s : merge_state) : res merge_state :=
  let q_done := (m_qsize s =? 0) || bool_decide (m_q s = None) in
  if negb (m_psize s =? 0) || negb q_done then
    match fuel with
    | O => NoFuel
    | S fuel =>
        s ← (if m_psize s =? 0 then srt_take_q s
             else if q_done then srt_take_p s
             else
               p ← deref (m_p s);
               q ← deref (m_q s);
               if cmpfcn p q <=? 0 then srt_take_p s else srt_take_q s);
        srt_merge fuel s
    end
  else Ok s.

(** One pass over the list: the handles, the new list, its last element, and the
    number of merges. *)
Fixpoint srt_pass (fuel : nat) (insize : Z) (H : handles) (p l tl : option ptr) (nmerges : Z)
    : res (handles * option ptr * option ptr * Z) :=
  match p with
  | None => Ok (H, l, tl, nmerges)
  | Some p0 =>
      match fuel with
      | O => NoFuel
      | S fuel =>
          let nmerges := u32 (nmerges + 1) in
          '(q, psize) ← srt_count (Z.to_nat insize) H p0 0;
          s ← srt_merge (S (size H)) (mkMerge H p psize q insize l tl);
          srt_pass fuel insize (m_hh s) (m_q s) (m_list s) (m_tail s) nmerges
      end
  end.

(** [while (_hs_looping)]. *)
Fixpoint srt_loop (fuel : nat) (insize : Z) (H : handles) (l : option ptr)
    : res (handles * option ptr * option ptr) :=
  match fuel with
  | O => NoFuel
  | S fuel =>
      '(H, l, tl, nmerges) ← srt_pass (S (size H)) insize H l None None 0;
      H ← upd_hh_opt H tl (set_next None);
      if nmerges <=? 1 then Ok (H, l, tl)
      else srt_loop fuel (u32 (insize * 2)) H l
  end.

Definition HASH_SRT (u : uthash) : res uthash :=
  match head u with
  | None => Ok u
  | Some hd =>
      t ← deref (tbl u);
      '(H, l, tl) ← srt_loop (S (size (hhs u))) 1 (hhs u) (Some hd);
      tl ← deref tl;
      Ok (mkUt l
            (Some (mkTable (buckets t) (num_buckets t) (log2_num_buckets t) (num_items t) tl
                     (ideal_chain_maxlen t) (nonideal_items t) (ineff_expands t) (noexpand t))) H)
  end.
End Sort.

(** ** The specification: merging runs *)

Section Spec.
Context (R : relation ptr) `{!forall x y, Decision (R x y)}.

(** Merging consecutive runs of length [n] two by two. *)
Fixpoint merge_runs (fuel n : nat) (xs : list ptr) : list ptr :=
  match fuel, xs with
  | _, [] => []
  | O, _ => xs
  | S fuel, _ =>
      list_merge R (take n xs) (take n (drop n xs)) ++ merge_runs fuel n (drop (n + n) xs)
  end.

(** How many merges that makes. *)
Fixpoint count_runs (fuel n : nat) (xs : list ptr) : nat :=
  match fuel, xs with
  | _, [] => 0
  | O, _ => 0
  | S fuel, _ => S (count_runs fuel n (drop (n + n) xs))
  end.

Lemma merge_runs_perm fuel n xs : merge_runs fuel n xs ≡ₚ xs.
Proof.
  revert xs. induction fuel as [|fuel IH]; intros xs; destruct xs as [|x xs]; try done.
  cbn [merge_runs]. rewrite IH, merge_Permutation, <- app_assoc.
  rewrite <- drop_drop, take_drop. by rewrite take_drop.
Qed.

(** Every run of length [n] is sorted. *)
Definition runs_sorted (n : nat) (xs : list ptr) : Prop :=
  forall i, Sorted R (take n (drop (i * n) xs)).

Lemma runs_sorted_one xs : runs_sorted 1 xs.
Proof. intros i. destruct (drop (i * 1) xs); cbn; repeat constructor. Qed.

Lemma runs_sorted_all n xs : (length xs <= n)%nat -> runs_sorted n xs -> Sorted R xs.
Proof. intros Hl Hs. specialize (Hs 0%nat). by rewrite drop_0, take_ge in Hs by done. Qed.

(** The merge of the first two runs, and what follows it. *)
Lemma merge_head_length n xs :
  let m := list_merge R (take n xs) (take n (drop n xs)) in
  length m = Nat.min (n + n) (length xs).
Proof.
  cbn. rewrite merge_Permutation, length_app, !length_take, length_drop. lia.
Qed.

Lemma merge_runs_chunk i fuel n xs :
  (0 < n)%nat -> (length xs <= fuel)%nat ->
  take (n + n) (drop (i * (n + n)) (merge_runs fuel n xs))
  = list_merge R (take n (drop (i * (n + n)) xs)) (take n (drop n (drop (i * (n + n)) xs))).
Proof.
  intros Hn. revert fuel xs. induction i as [|i IH]; intros fuel xs Hf;
    (destruct xs as [|x xs];
      [destruct fuel; cbn [merge_runs]; by rewrite !drop_nil, !take_nil|]);
    (destruct fuel as [|fuel]; [cbn in Hf; lia|]); cbn [merge_runs];
    set (l := x :: xs) in *; pose proof (merge_head_length n l) as Hm; cbn zeta in Hm.
  - cbn [Nat.mul]. rewrite !drop_0.
    destruct (Nat.le_gt_cases (length l) (n + n)) as [Hle|Hgt].
    + rewrite (drop_ge l (n + n)) by done.
      assert (merge_runs fuel n [] = []) as -> by (by destruct fuel).
      rewrite app_nil_r. apply take_ge. lia.
    + rewrite take_app_le by lia. apply take_ge. lia.
  - replace (S i * (n + n))%nat with ((n + n) + i * (n + n))%nat by lia.
    rewrite <- (drop_drop l (i * (n + n)) (n + n)), <- (drop_drop (_ ++ _) (i * (n + n)) (n + n)).
    destruct (Nat.le_gt_cases (length l) (n + n)) as [Hle|Hgt].
    + rewrite (drop_ge l (n + n)) by done.
      assert (merge_runs fuel n [] = []) as -> by (by destruct fuel).
      rewrite app_nil_r, (drop_ge _ (n + n)) by lia. by rewrite !drop_nil, !take_nil.
    + rewrite drop_app_length' by lia. apply IH. rewrite length_drop. lia.
Qed.

(** One pass doubles the length of the sorted runs. *)
Lemma runs_sorted_double `{!Total R} fuel n xs :
  (0 < n)%nat -> (length xs <= fuel)%nat -> runs_sorted n xs ->
  runs_sorted (n + n) (merge_runs fuel n xs).
Proof.
  intros Hn Hf Hs i. rewrite merge_runs_chunk by done. apply Sorted_list_merge; [done|..].
  - replace (i * (n + n))%nat with ((i + i) * n)%nat by lia. apply Hs.
  - rewrite drop_drop. replace (i * (n + n) + n)%nat with (S (i + i) * n)%nat by lia. apply Hs.
Qed.

(** Elements the order does not tell apart keep their order. *)
Definition stable (xs ys : list ptr) : Prop :=
  forall z, filter (fun x => R z x /\ R x z) ys = filter (fun x => R z x /\ R x z) xs.

Lemma merge_stable `{!Transitive R} l1 l2 :
  StronglySorted R l1 -> stable (l1 ++ l2) (list_merge R l1 l2).
Proof.
  intros H1 z. revert l2. induction H1 as [|p l1 Hs IH1 Hp]; intros l2; [by destruct l2|].
  induction l2 as [|q l2 IH2]; [by rewrite app_nil_r|].
  rewrite list_merge_cons. destruct (decide (R p q)) as [Hpq|Hpq].
  - rewrite <- app_comm_cons, !(filter_cons _ p), IH1. done.
  - rewrite (filter_cons _ q), IH2, (filter_app _ (p :: l1) (q :: l2)), (filter_cons _ q).
    destruct (decide (R z q /\ R q z)) as [[Hzq Hqz]|]; [|by rewrite filter_app].
    rewrite filter_app.
    assert (filter (fun x => R z x /\ R x z) (p :: l1) = []) as ->; [|done].
    apply filter_none. constructor.
    + intros [_ Hpz]. apply Hpq. by transitivity z.
    + eapply Forall_impl; [exact Hp|]. intros x Hpx [_ Hxz]. apply Hpq.
      transitivity x; [done|]. by transitivity z.
Qed.

Lemma merge_runs_stable `{!Transitive R} fuel n xs : runs_sorted n xs -> stable xs (merge_runs fuel n xs).
Proof.
  intros Hs z. revert xs Hs. induction fuel as [|fuel IH]; intros xs Hs; destruct xs as [|x xs]; try done.
  cbn [merge_runs]. set (l := x :: xs) in *. rewrite filter_app, IH.
  - rewrite (merge_stable _ _); [|apply Sorted_StronglySorted; [done|]; by specialize (Hs 0%nat)].
    rewrite <- (filter_app _ _ (drop (n + n) l)), <- app_assoc, <- drop_drop.
    by rewrite take_drop, take_drop.
  - intros i. rewrite drop_drop. specialize (Hs (2 + i)%nat).
    by replace (n + n + i * n)%nat with ((2 + i) * n)%nat by lia.
Qed.

(** A pass that merges at most once has reached the end. *)
Lemma count_runs_one fuel n xs :
  (length xs <= fuel)%nat -> (0 < n)%nat -> (count_runs fuel n xs <= 1)%nat ->
  (length xs <= n + n)%nat.
Proof.
  intros Hf Hn. destruct xs as [|x xs]; [cbn; lia|]. destruct fuel as [|fuel]; [cbn in Hf; lia|].
  cbn [count_runs]. set (l := x :: xs) in *.
  destruct (Nat.le_gt_cases (length l) (n + n)) as [|Hgt]; [done|].
  assert (length (drop (n + n) l) <> 0)%nat as Hd by (rewrite length_drop; lia).
  assert (length (drop (n + n) l) <= fuel)%nat by (rewrite length_drop; lia).
  destruct (drop (n + n) l); [done|]. destruct fuel; cbn in *; lia.
Qed.

(** A short list is one merge. *)
Lemma count_runs_short fuel n xs : (length xs <= n + n)%nat -> (count_runs fuel n xs <= 1)%nat.
Proof.
  intros Hl. destruct fuel as [|fuel], xs as [|x xs]; cbn [count_runs]; try lia.
  rewrite drop_ge by done. destruct fuel; cbn; lia.
Qed.

Lemma count_runs_length fuel n xs : (0 < n)%nat -> (count_runs fuel n xs <= length xs)%nat.
Proof.
  intros Hn. revert xs. induction fuel as [|fuel IH]; intros [|x xs]; cbn [count_runs]; try lia.
  specialize (IH (drop (n + n) (x :: xs))). rewrite length_drop in IH. cbn [length] in *. lia.
Qed.
End Spec.

(** ** The pointers *)

(** Following [next] only. *)
Fixpoint sseg (H : handles) (from : option ptr) (xs : list ptr) (to : option ptr) : Prop :=
  match xs with
  | [] => from = to
  | x :: xs => from = Some x /\ exists h, H !! x = Some h /\ sseg H (next h) xs to
  end.

Lemma sseg_app H from xs ys to :
  sseg H from (xs ++ ys) to <-> exists m, sseg H from xs m /\ sseg H m ys to.
Proof.
  revert from. induction xs as [|x xs IH]; intros from; cbn.
  - naive_solver.
  - setoid_rewrite IH. naive_solver.
Qed.

Lemma sseg_frame H H' from xs to :
  (forall x, x ∈ xs -> H' !! x = H !! x) -> sseg H from xs to -> sseg H' from xs to.
Proof.
  revert from. induction xs as [|x xs IH]; intros from Hx; cbn; [done|].
  intros (-> & h & Hh & Hs). split; [done|]. exists h. rewrite Hx by set_solver.
  split; [done|]. apply IH; [|done]. set_solver.
Qed.

Lemma aseg_sseg H p from xs l to : aseg H p from xs l to -> sseg H from xs to.
Proof.
  revert p from. induction xs as [|x xs IH]; intros p from; cbn; [by intros [-> _]|].
  intros (-> & h & Hh & _ & Hd). split; [done|]. eauto.
Qed.

Lemma sseg_head H from xs : sseg H from xs None -> from = list.head xs.
Proof. destruct xs; cbn; [done|]. by intros [-> _]. Qed.

Lemma sseg_lookup H from xs to x : sseg H from xs to -> x ∈ xs -> is_Some (H !! x).
Proof.
  revert from. induction xs as [|y xs IH]; intros from Hs Hx; [set_solver|].
  destruct Hs as (_ & h & Hh & Hs). apply elem_of_cons in Hx as [->|Hx]; eauto.
Qed.

(** Counting the first run. *)
Lemma srt_count_spec n H q ps xs :
  sseg H (Some q) xs None -> 0 <= ps -> ps + Z.of_nat (Nat.min n (length xs)) < 2 ^ 32 ->
  srt_count n H q ps
  = Ok (list.head (drop n xs), ps + Z.of_nat (Nat.min n (length xs))).
Proof.
  revert q ps xs. induction n as [|n IH]; intros q ps xs Hs Hp Hb.
  - cbn. rewrite Z.add_0_r, drop_0. by rewrite (sseg_head _ _ _ Hs).
  - destruct xs as [|x xs]; [done|]. destruct Hs as ([= ->] & h & Hh & Hs). cbn in Hb.
    cbn [srt_count]. unfold get_hh. rewrite Hh. cbn [deref mbind res_bind]. rewrite u32_small by lia.
    destruct (next h) as [q'|] eqn:En.
    + rewrite (IH q' (ps + 1) xs Hs) by lia. cbn [drop length]. do 2 f_equal. lia.
    + apply sseg_head in Hs. destruct xs; [|done]. cbn [drop length]. rewrite drop_nil. cbn.
      do 2 f_equal. lia.
Qed.

(** The list under construction; the [next] of its last element is not set. *)
Definition emitted (H : handles) (l tl : option ptr) (out : list ptr) : Prop :=
  exists to, aseg H None l out tl to.

Lemma srt_emit_spec s e he out :
  emitted (m_hh s) (m_list s) (m_tail s) out -> NoDup (out ++ [e]) -> m_hh s !! e = Some he ->
  exists H' l', srt_emit s (Some e)
      = Ok (mkMerge H' (m_p s) (m_psize s) (m_q s) (m_qsize s) l' (Some e)) /\
    emitted H' l' (Some e) (out ++ [e]) /\ bcore_eq (m_hh s) H' /\
    forall x, x ∉ out ++ [e] -> H' !! x = m_hh s !! x.
Proof.
  intros [to Hd] Hnd He. unfold srt_emit. pose proof (dseg_last _ _ _ _ _ _ _ _ Hd) as Hl.
  apply NoDup_app in Hnd as (Hnd & Hdis & _).
  destruct out as [|o out].
  - cbn in Hl. rewrite Hl. cbn [mbind res_bind upd_hh_opt]. rewrite (upd_hh_ok _ _ _ _ He).
    cbn [mbind res_bind]. do 2 eexists. split; [reflexivity|].
    split_and!; [|by eapply bcore_eq_insert|intros x Hx; apply lookup_insert_ne; set_solver].
    exists (next he). split; [done|]. eexists. by rewrite lookup_insert_eq.
  - destruct (last_is_Some (o :: out)) as [_ [t Ht]]; [done|]. rewrite Ht in Hl. rewrite Hl in *.
    apply last_Some_elem_of in Ht. destruct (dseg_lookup _ _ _ _ _ _ _ _ t Hd Ht) as [ht Hht].
    assert (t <> e) as Hne by (intros ->; apply (Hdis e Ht); set_solver).
    rewrite (upd_hh_ok _ _ _ _ Hht). cbn [mbind res_bind upd_hh_opt].
    assert (<[t := set_next (Some e) ht]> (m_hh s) !! e = Some he) as He1
      by (by rewrite lookup_insert_ne).
    rewrite (upd_hh_ok _ _ _ _ He1). cbn [mbind res_bind].
    do 2 eexists. split; [reflexivity|]. split_and!.
    + exists (next he). apply dseg_app. exists (Some t), (Some e). split.
      * apply dseg_insert_other; [intros H; apply (Hdis e H); set_solver|].
        by eapply dseg_set_end.
      * split; [done|]. eexists. rewrite lookup_insert_eq. done.
    + etransitivity; by eapply bcore_eq_insert.
    + intros x Hx. rewrite !lookup_insert_ne by set_solver. done.
Qed.

(** ** One merge *)

(** The order the comparison stands for. *)
Definition cmp_le (cmpfcn : ptr -> ptr -> Z) : relation ptr := fun x y => cmpfcn x y <= 0.
#[export] Instance cmp_le_dec cmpfcn x y : Decision (cmp_le cmpfcn x y).
Proof. unfold cmp_le. apply _. Defined.

Section Refine.
Context (cmpfcn : ptr -> ptr -> Z).
Notation R := (cmp_le cmpfcn).

(** [ps] and [qs]: what is left of the first run, and of the second and all that
    follows it. *)
Record merge_inv (s : merge_state) (out ps qs : list ptr) : Prop := {
  mi_nodup : NoDup (out ++ ps ++ qs);
  mi_out : emitted (m_hh s) (m_list s) (m_tail s) out;
  mi_p : exists to, sseg (m_hh s) (m_p s) ps to;
  mi_psize : m_psize s = zlen ps /\ zlen ps < 2 ^ 32;
  mi_q : sseg (m_hh s) (m_q s) qs None;
  mi_qsize : 0 <= m_qsize s < 2 ^ 32;
}.

Lemma srt_take_q_spec s out ps q qs :
  merge_inv s out ps (q :: qs) -> 0 < m_qsize s ->
  exists s', srt_take_q s = Ok s' /\ merge_inv s' (out ++ [q]) ps qs /\
    m_qsize s' = m_qsize s - 1 /\ bcore_eq (m_hh s) (m_hh s').
Proof.
  intros [Hnd Hout [to Hp] [Hps Hps'] (Hq & hq & Hhq & Hqs) Hqsz] Hpos.
  assert (NoDup ((out ++ [q]) ++ ps ++ qs)) as Hnd2.
  { assert (out ++ ps ++ q :: qs ≡ₚ (out ++ [q]) ++ ps ++ qs) as Hperm
      by (rewrite <- app_assoc; cbn; by rewrite Permutation_middle). by rewrite <- Hperm. }
  unfold srt_take_q. rewrite Hq. cbn [deref mbind res_bind]. unfold get_hh. rewrite Hhq.
  cbn [deref mbind res_bind]. rewrite u32_small by lia.
  pose proof Hnd2 as (Hnd3 & Hdis & _)%NoDup_app.
  match goal with |- context [srt_emit ?s1 _] =>
    destruct (srt_emit_spec s1 q hq out) as (H' & l' & E & Hout' & HB & HF); try done end.
  rewrite E. eexists. split; [reflexivity|]. split; [|done]. cbn in HF.
  split; cbn [m_hh m_p m_psize m_q m_qsize m_list m_tail]; try done; try lia.
  - exists to. eapply sseg_frame; [|exact Hp]. intros x Hx. apply HF. intros Hx'.
    apply (Hdis x Hx'). set_solver.
  - eapply sseg_frame; [|exact Hqs]. intros x Hx. apply HF. intros Hx'.
    apply (Hdis x Hx'). set_solver.
Qed.

Lemma srt_take_p_spec s out p ps qs :
  merge_inv s out (p :: ps) qs ->
  exists s', srt_take_p s = Ok s' /\ merge_inv s' (out ++ [p]) ps qs /\
    m_qsize s' = m_qsize s /\ bcore_eq (m_hh s) (m_hh s').
Proof.
  intros [Hnd Hout [to (Hp & hp & Hhp & Hps)] [Hsz Hsz'] Hq Hqsz].
  assert (NoDup ((out ++ [p]) ++ ps ++ qs)) as Hnd2 by (by rewrite <- app_assoc).
  assert (zlen (p :: ps) = zlen ps + 1) as Hz by (unfold zlen; cbn; lia).
  pose proof (zlen_nonneg ps).
  unfold srt_take_p. rewrite Hp. unfold get_hh. rewrite Hhp. cbn [deref mbind res_bind].
  rewrite Hsz, Hz, u32_small by lia. replace (zlen ps + 1 - 1) with (zlen ps) by lia.
  pose proof Hnd2 as (Hnd3 & Hdis & _)%NoDup_app.
  match goal with |- context [srt_emit ?s1 _] =>
    destruct (srt_emit_spec s1 p hp out) as (H' & l' & E & Hout' & HB & HF); try done end.
  rewrite E. eexists. split; [reflexivity|]. split; [|done]. cbn in HF.
  split; cbn [m_hh m_p m_psize m_q m_qsize m_list m_tail]; try done; try lia.
  - exists to. eapply sseg_frame; [|exact Hps]. intros x Hx. apply HF. intros Hx'.
    apply (Hdis x Hx'). set_solver.
  - eapply sseg_frame; [|exact Hq]. intros x Hx. apply HF. intros Hx'.
    apply (Hdis x Hx'). set_solver.
Qed.

Lemma list_merge_nil_l l : list_merge R [] l = l.
Proof. by destruct l. Qed.
Lemma list_merge_nil_r l : list_merge R l [] = l.
Proof. by destruct l. Qed.

(** The loop condition and the choice of the next element. *)
Lemma srt_merge_unfold fuel s :
  srt_merge cmpfcn (S fuel) s =
  (let q_done := (m_qsize s =? 0) || bool_decide (m_q s = None) in
   if negb (m_psize s =? 0) || negb q_done then
     s ← (if m_psize s =? 0 then srt_take_q s
          else if q_done then srt_take_p s
          else
            p ← deref (m_p s);
            q ← deref (m_q s);
            if cmpfcn p q <=? 0 then srt_take_p s else srt_take_q s);
     srt_merge cmpfcn fuel s
   else Ok s).
Proof. reflexivity. Qed.

(** The tests of the loop, in terms of the two runs. *)
Lemma merge_tests s out ps qs :
  merge_inv s out ps qs ->
  (m_psize s =? 0) = bool_decide (ps = []) /\
  (m_qsize s =? 0) || bool_decide (m_q s = None)
  = bool_decide (take (Z.to_nat (m_qsize s)) qs = []).
Proof.
  intros [_ _ _ [Hps _] Hq Hqsz]. split.
  - rewrite Hps. destruct ps; [done|]. by apply Z.eqb_neq; unfold zlen; cbn; lia.
  - pose proof (sseg_head _ _ _ Hq) as Eq. apply eq_bool_prop_intro.
    destruct (Z.eqb_spec (m_qsize s) 0) as [->|Hne0]; cbn [orb].
    { by rewrite bool_decide_true. }
    rewrite !bool_decide_spec, Eq. destruct qs as [|q0 qs]; [by rewrite take_nil|].
    replace (Z.to_nat (m_qsize s)) with (S (Z.to_nat (m_qsize s - 1))) by lia. done.
Qed.

(** What a round does to the two runs. *)
Definition round_ok (s s1 : merge_state) (out ps qs : list ptr) (e : ptr) (ps1 qs1 : list ptr)
    : Prop :=
  let run := take (Z.to_nat (m_qsize s)) qs in
  let run1 := take (Z.to_nat (m_qsize s1)) qs1 in
  merge_inv s1 (out ++ [e]) ps1 qs1 /\ bcore_eq (m_hh s) (m_hh s1) /\
  list_merge R ps run = e :: list_merge R ps1 run1 /\
  drop (Z.to_nat (m_qsize s1)) qs1 = drop (Z.to_nat (m_qsize s)) qs /\
  (length ps + length run = S (length ps1 + length run1))%nat.

Lemma round_q s out ps q qs :
  merge_inv s out ps (q :: qs) -> 0 < m_qsize s ->
  match ps with p :: _ => ~ R p q | [] => True end ->
  exists s1, srt_take_q s = Ok s1 /\ round_ok s s1 out ps (q :: qs) q ps qs.
Proof.
  intros Hi Hpos Hlt. destruct (srt_take_q_spec s out ps q qs Hi Hpos) as (s1 & E & Hi1 & Hz & HB).
  exists s1. split; [done|]. unfold round_ok. rewrite Hz.
  replace (Z.to_nat (m_qsize s)) with (S (Z.to_nat (m_qsize s - 1))) by lia. cbn [take drop].
  split; [done|]. split; [done|]. split; [|split; [done|cbn [length]; lia]].
  destruct ps as [|p ps]; [by rewrite !list_merge_nil_l|].
  rewrite list_merge_cons, decide_False by done. done.
Qed.

Lemma round_p s out p ps qs :
  merge_inv s out (p :: ps) qs ->
  match take (Z.to_nat (m_qsize s)) qs with q :: _ => R p q | [] => True end ->
  exists s1, srt_take_p s = Ok s1 /\ round_ok s s1 out (p :: ps) qs p ps qs.
Proof.
  intros Hi Hle. destruct (srt_take_p_spec s out p ps qs Hi) as (s1 & E & Hi1 & Hz & HB).
  exists s1. split; [done|]. unfold round_ok. rewrite Hz.
  split; [done|]. split; [done|]. split; [|split; [done|cbn [length]; lia]].
  destruct (take (Z.to_nat (m_qsize s)) qs) as [|q run]; [by rewrite !list_merge_nil_r|].
  by rewrite list_merge_cons, decide_True.
Qed.

(** One round of the loop: the element the specification picks. *)
Lemma srt_merge_step s out ps qs fuel :
  merge_inv s out ps qs ->
  ps <> [] \/ take (Z.to_nat (m_qsize s)) qs <> [] ->
  exists s1 e ps1 qs1,
    srt_merge cmpfcn (S fuel) s = srt_merge cmpfcn fuel s1 /\ round_ok s s1 out ps qs e ps1 qs1.
Proof.
  intros Hi Hne. rewrite srt_merge_unfold. destruct (merge_tests _ _ _ _ Hi) as [-> ->]. cbv zeta.
  pose proof (mi_qsize _ _ _ _ Hi) as Hqsz. pose proof (sseg_head _ _ _ (mi_q _ _ _ _ Hi)) as Eq.
  destruct ps as [|p ps].
  - rewrite bool_decide_true by done. destruct Hne as [?|Hne]; [done|].
    rewrite (bool_decide_false _ Hne). cbn [negb orb].
    destruct qs as [|q qs]; [by rewrite take_nil in Hne|].
    assert (m_qsize s <> 0) by (intros E; by rewrite E in Hne).
    destruct (round_q s out [] q qs Hi ltac:(lia) I) as (s1 & E & Hr). rewrite E.
    cbn [mbind res_bind]. eauto 10.
  - rewrite (bool_decide_false (p :: ps = [])) by done. cbn [negb orb].
    destruct (bool_decide_reflect (take (Z.to_nat (m_qsize s)) qs = [])) as [Erun|Hrun].
    + destruct (round_p s out p ps qs Hi) as (s1 & E & Hr); [by rewrite Erun|].
      rewrite E. cbn [mbind res_bind]. eauto 10.
    + destruct qs as [|q qs]; [by rewrite take_nil in Hrun|].
      assert (m_qsize s <> 0) by (intros E; by rewrite E in Hrun).
      destruct (mi_p _ _ _ _ Hi) as [to (Ep & _)]. rewrite Ep, Eq. cbn [deref mbind res_bind list.head].
      destruct (Z.leb_spec (cmpfcn p q) 0) as [Hle|Hgt].
      * destruct (round_p s out p ps (q :: qs) Hi) as (s1 & E & Hr).
        { by replace (Z.to_nat (m_qsize s)) with (S (Z.to_nat (m_qsize s - 1))) by lia. }
        rewrite E. cbn [mbind res_bind]. eauto 10.
      * destruct (round_q s out (p :: ps) q qs Hi ltac:(lia)) as (s1 & E & Hr).
        { unfold cmp_le. lia. }
        rewrite E. cbn [mbind res_bind]. eauto 10.
Qed.

Lemma srt_merge_spec fuel : forall s out ps qs,
  merge_inv s out ps qs ->
  (length ps + length (take (Z.to_nat (m_qsize s)) qs) <= fuel)%nat ->
  exists s', srt_merge cmpfcn fuel s = Ok s' /\
    merge_inv s' (out ++ list_merge R ps (take (Z.to_nat (m_qsize s)) qs)) []
      (drop (Z.to_nat (m_qsize s)) qs) /\
    bcore_eq (m_hh s) (m_hh s').
Proof.
  induction fuel as [|fuel IH]; intros s out ps qs Hi Hf.
  - destruct ps as [|]; [|cbn in Hf; lia].
    destruct (take (Z.to_nat (m_qsize s)) qs) as [|] eqn:Et; [|cbn in Hf; lia].
    exists s. cbn [srt_merge]. destruct (merge_tests _ _ _ _ Hi) as [-> ->]. rewrite Et.
    split; [done|]. split; [|done]. rewrite list_merge_nil_l, app_nil_r.
    by rewrite <- (take_drop (Z.to_nat (m_qsize s)) qs), Et in Hi.
  - destruct (decide (ps = [] /\ take (Z.to_nat (m_qsize s)) qs = [])) as [[-> Et]|Hne].
    + exists s. rewrite srt_merge_unfold. destruct (merge_tests _ _ _ _ Hi) as [-> ->]. rewrite Et.
      split; [done|]. split; [|done]. rewrite list_merge_nil_l, app_nil_r.
      by rewrite <- (take_drop (Z.to_nat (m_qsize s)) qs), Et in Hi.
    + assert (ps <> [] \/ take (Z.to_nat (m_qsize s)) qs <> []) as Hne'.
      { destruct ps; [right|by left]. intros Et. by apply Hne. }
      destruct (srt_merge_step s out ps qs fuel Hi Hne') as (s1 & e & ps1 & qs1 & E & Hi1 & HB & Em &
        Ed & El).
      destruct (IH s1 (out ++ [e]) ps1 qs1 Hi1 ltac:(lia)) as (s' & E' & Hi' & HB').
      exists s'. rewrite E. split; [done|]. split; [|by etransitivity].
      rewrite Em, <- Ed. by rewrite <- app_assoc in Hi'.
Qed.

(** ** One pass and the whole sort *)

Lemma merge_inv_start H p0 xs l tl out n :
  NoDup (out ++ xs) -> emitted H l tl out -> sseg H (Some p0) xs None ->
  (0 < n)%nat -> Z.of_nat n < 2 ^ 32 ->
  merge_inv (mkMerge H (Some p0) (Z.of_nat (Nat.min n (length xs))) (list.head (drop n xs))
               (Z.of_nat n) l tl) out (take n xs) (drop n xs).
Proof.
  intros Hnd Hout Hs Hn Hb. rewrite <- (take_drop n xs) in Hs. apply sseg_app in Hs as (m & Hs1 & Hs2).
  pose proof (sseg_head _ _ _ Hs2) as ->.
  split; cbn [m_hh m_p m_psize m_q m_qsize m_list m_tail]; try done; try lia.
  - by rewrite take_drop.
  - by eexists.
  - unfold zlen. rewrite length_take. lia.
Qed.

Lemma srt_pass_spec fuel n : forall H p l tl nm out xs,
  (0 < n)%nat -> Z.of_nat n < 2 ^ 32 -> (length xs <= fuel)%nat ->
  NoDup (out ++ xs) -> emitted H l tl out -> sseg H p xs None ->
  nm = u32 nm ->
  exists H' l' tl',
    srt_pass cmpfcn fuel (Z.of_nat n) H p l tl nm
    = Ok (H', l', tl', u32 (nm + Z.of_nat (count_runs fuel n xs))) /\
    emitted H' l' tl' (out ++ merge_runs R fuel n xs) /\ bcore_eq H H'.
Proof.
  induction fuel as [|fuel IH]; intros H p l tl nm out xs Hn Hb Hf Hnd Hout Hs Hnm;
    pose proof (sseg_head _ _ _ Hs) as Ep.
  - destruct xs; [|cbn in Hf; lia]. rewrite Ep. cbn. rewrite Z.add_0_r, <- Hnm, app_nil_r.
    by exists H, l, tl.
  - destruct xs as [|p0 xs].
    { rewrite Ep. cbn. rewrite Z.add_0_r, <- Hnm, app_nil_r. by exists H, l, tl. }
    cbn [list.head] in Ep. subst p. cbn [srt_pass]. rewrite Nat2Z.id.
    rewrite (srt_count_spec n H p0 0 (p0 :: xs) Hs) by lia. rewrite Z.add_0_l.
    cbn [mbind res_bind]. set (ys := p0 :: xs) in *.
    pose proof (merge_inv_start H p0 ys l tl out n Hnd Hout Hs Hn Hb) as Hi.
    destruct (srt_merge_spec (S (size H)) _ out (take n ys) (drop n ys) Hi)
      as (s' & E & Hi' & HB).
    { cbn [m_qsize]. rewrite Nat2Z.id, !length_take, length_drop.
      assert (length ys <= size H)%nat; [|lia]. apply nodup_size.
      - by apply NoDup_app in Hnd as (_ & _ & ?).
      - intros x. by eapply sseg_lookup. }
    cbn [m_qsize m_hh] in E, Hi', HB. rewrite Nat2Z.id in Hi'. rewrite drop_drop in Hi'.
    rewrite E. cbn [mbind res_bind].
    destruct (IH (m_hh s') (m_q s') (m_list s') (m_tail s') (u32 (nm + 1))
      (out ++ list_merge R (take n ys) (take n (drop n ys))) (drop (n + n) ys))
      as (H' & l' & tl' & E' & Hout' & HB'); try apply Hi'; try done.
    { rewrite length_drop. cbn in Hf |- *. lia. }
    { unfold u32. by rewrite Z.mod_mod. }
    exists H', l', tl'. rewrite E'. cbn [count_runs merge_runs]. rewrite <- app_assoc in Hout'.
    split; [|split; [done|by etransitivity]]. do 2 f_equal.
    unfold u32. rewrite Zplus_mod_idemp_l. f_equal. subst ys. cbn iota. lia.
Qed.

(** [tail->next = NULL]. *)
Lemma close_list H l tl out :
  emitted H l tl out -> NoDup out -> out <> [] ->
  exists H', upd_hh_opt H tl (set_next None) = Ok H' /\ aseg H' None l out (last out) None /\
    bcore_eq H H' /\ tl = last out.
Proof.
  intros [to Hd] Hnd Hne. pose proof (dseg_last _ _ _ _ _ _ _ _ Hd) as Hl.
  destruct (last_is_Some out) as [_ [t Ht]]; [done|]. rewrite Ht in Hl |- *. rewrite Hl in *.
  apply last_Some_elem_of in Ht. destruct (dseg_lookup _ _ _ _ _ _ _ _ t Hd Ht) as [ht Hht].
  exists (<[t := set_next None ht]> H). cbn [upd_hh_opt]. split; [by apply upd_hh_ok|].
  split; [by eapply dseg_set_end|]. split; [by eapply bcore_eq_insert|done].
Qed.

Lemma srt_loop_spec fuel : forall n H l xs,
  (0 < n)%nat -> (length xs <= n + fuel)%nat -> (0 < fuel)%nat ->
  Z.of_nat n < 2 ^ 32 -> zlen xs <= 2 ^ 31 ->
  NoDup xs -> xs <> [] -> sseg H l xs None ->
  exists H' l' ys,
    srt_loop cmpfcn fuel (Z.of_nat n) H l = Ok (H', l', last ys) /\
    aseg H' None l' ys (last ys) None /\ bcore_eq H H' /\ ys ≡ₚ xs /\
    (Total R -> runs_sorted R n xs -> Sorted R ys /\ (Transitive R -> stable R xs ys)).
Proof.
  induction fuel as [|fuel IH]; intros n H l xs Hn Hf Hf0 Hb Hsz Hnd Hne Hs; [lia|].
  assert (length xs <= S (size H))%nat as Hsize.
  { apply Nat.le_le_succ_r, nodup_size; [done|]. intros x. by eapply sseg_lookup. }
  cbn [srt_loop].
  destruct (srt_pass_spec (S (size H)) n H l None None 0 [] xs) as (H1 & l1 & tl1 & E1 & Ho & HB1);
    try done; [by exists None|].
  rewrite E1. cbn [mbind res_bind]. cbn [app] in Ho.
  set (ys := merge_runs R (S (size H)) n xs) in *.
  assert (ys ≡ₚ xs) as Hperm by apply merge_runs_perm.
  assert (NoDup ys) as Hndy by (by rewrite Hperm).
  assert (ys <> []) as Hney.
  { intros E. rewrite E in Hperm. by apply Permutation_nil_l in Hperm. }
  destruct (close_list H1 l1 tl1 ys Ho Hndy Hney) as (H2 & E2 & Hd & HB2 & ->).
  rewrite E2. cbn [mbind res_bind].
  assert (count_runs (S (size H)) n xs <= length xs)%nat as Hcr by (by apply count_runs_length).
  rewrite Z.add_0_l, u32_small by (unfold zlen in *; lia).
  assert (Total R -> runs_sorted R n xs -> runs_sorted R (n + n) ys) as Hsorted
    by (intros; by apply runs_sorted_double).
  destruct (Z.leb_spec (Z.of_nat (count_runs (S (size H)) n xs)) 1) as [Hc|Hc].
  - exists H2, l1, ys. split; [done|]. split; [done|]. split; [by etransitivity|].
    split; [done|]. intros HT Hr. split; [|intros ?; by apply merge_runs_stable].
    apply (runs_sorted_all R (n + n)); [|by apply Hsorted].
    rewrite Hperm. eapply count_runs_one; [exact Hsize|done|lia].
  - assert (n + n < length xs)%nat as Hlong.
    { destruct (Nat.le_gt_cases (length xs) (n + n)) as [Hle|]; [|done].
      pose proof (count_runs_short (S (size H)) n xs Hle). lia. }
    replace (u32 (Z.of_nat n * 2)) with (Z.of_nat (n + n))
      by (rewrite u32_small by (unfold zlen in *; lia); lia).
    destruct (IH (n + n)%nat H2 l1 ys) as (H' & l' & zs & E & Hd' & HB' & Hp' & Hs'); try done; try lia.
    + rewrite Hperm. lia.
    + unfold zlen in *. lia.
    + rewrite Hperm. lia.
    + by eapply aseg_sseg.
    + exists H', l', zs. split; [done|]. split; [done|].
      split; [etransitivity; [exact HB1|]; by etransitivity|].
      split; [by rewrite Hp'|]. intros HT Hr. destruct (Hs' HT (Hsorted HT Hr)) as [Hs1 Hs2].
      split; [done|]. intros Htr z. rewrite (Hs2 Htr z). by apply merge_runs_stable.
Qed.
End Refine.

(** A table whose application order alone has changed. *)
Lemma ut_inv_reordered u xs t cs H' y ys tl :
  tbl u = Some t -> table_ok (hhs u) t cs -> concat cs ≡ₚ xs -> num_items t = zlen xs ->
  zlen xs <= 2 ^ 31 -> Forall (hashed (hhs u)) xs -> bcore_eq (hhs u) H' ->
  aseg H' None (Some y) (y :: ys) (Some tl) None -> y :: ys ≡ₚ xs ->
  ut_inv (mkUt (Some y) (Some (mkTable (buckets t) (num_buckets t) (log2_num_buckets t)
    (num_items t) tl (ideal_chain_maxlen t) (nonideal_items t) (ineff_expands t) (noexpand t))) H')
    (y :: ys).
Proof.
  intros Et Hok Hcs Hn Hsz Hh HB Hd Hp. eexists _, cs. split; [reflexivity|]. cbn [hhs tail]. split_and!.
  - exact Hd.
  - by eapply table_ok_bcore_eq.
  - by rewrite Hcs.
  - cbn [num_items]. by rewrite Hn, Hp.
  - by rewrite Hp.
  - rewrite Hp. rewrite Forall_forall in Hh |- *. intros x Hx. eapply hashed_bcore_eq; eauto.
Qed.

Lemma hash_srt_spec cmpfcn u xs :
  ut_inv u xs ->
  exists u' ys, HASH_SRT cmpfcn u = Ok u' /\ ut_inv u' ys /\ ys ≡ₚ xs /\
    (forall m, ut_rep u m -> ut_rep u' m /\ forall k, HASH_FIND u' k = HASH_FIND u k) /\
    (Total (cmp_le cmpfcn) -> Transitive (cmp_le cmpfcn) ->
       StronglySorted (cmp_le cmpfcn) ys /\ stable (cmp_le cmpfcn) xs ys).
Proof.
  intros Hinv. pose proof (ut_inv_nodup u xs Hinv) as Hnd. pose proof Hinv as Hinv'.
  unfold ut_inv in Hinv. unfold HASH_SRT. destruct (head u) as [hd|] eqn:Eh.
  2: { subst xs. exists u, []. do 4 (split; [done|]). split; [constructor|done]. }
  destruct Hinv as (t & cs & Et & Hd & Hok & Hcs & Hn & Hsz & Hh). rewrite Et.
  cbn [deref mbind res_bind].
  assert (xs <> []) as Hne by (intros ->; by destruct Hd).
  assert (length xs <= size (hhs u))%nat as Hlen.
  { apply nodup_size; [done|]. intros x. by eapply dseg_lookup. }
  destruct (srt_loop_spec cmpfcn (S (size (hhs u))) 1 (hhs u) (Some hd) xs)
    as (H' & l' & ys & E & Hd' & HB & Hp & Hs); try done; try lia; [by eapply aseg_sseg|].
  change (Z.of_nat 1) with 1 in E. rewrite E. cbn [mbind res_bind].
  destruct ys as [|y ys]; [by apply Permutation_nil_l in Hp; subst|].
  destruct (last_is_Some (y :: ys)) as [_ [tl Htl]]; [done|]. rewrite Htl in *.
  cbn [deref mbind res_bind]. pose proof Hd' as (-> & _).
  pose proof (ut_inv_reordered u xs t cs H' y ys tl Et Hok Hcs Hn Hsz Hh HB Hd' Hp) as I.
  eexists _, (y :: ys). split; [reflexivity|]. split; [exact I|]. split; [done|]. split.
  - intros m Hr. set (u' := mkUt _ _ _) in *. assert (ut_rep u' m) as Hr'.
    { exists (y :: ys). split; [done|]. destruct Hr as (zs & Hz & Hm). intros k p.
      rewrite (Hm k p), (ut_inv_fun u zs xs), Hp by done. unfold key_of. cbn [hhs u'].
      by rewrite (bcore_eq_key _ _ _ HB). }
    split; [done|]. intros k. by rewrite (ut_find_spec u' m k Hr'), (ut_find_spec u m k Hr).
  - intros HT Htr. destruct (Hs HT (runs_sorted_one _ xs)) as [Hs1 Hs2].
    split; [by apply Sorted_StronglySorted|by apply Hs2].
Qed.

(** C13. Sorting a table: whatever the comparison answers, [HASH_SRT] terminates
    without following a bad pointer, only the application order changes, and it
    becomes a permutation of what it was, so that the table is as well formed
    as before and no search can tell the difference; when the comparison is a
    total preorder the new order is sorted, and elements that compare equal
    stay in the order they were in. *)
Theorem hash_srt_sorts cmpfcn u xs :
  ut_inv u xs ->
  exists u' ys, HASH_SRT cmpfcn u = Ok u' /\ ut_inv u' ys /\ ys ≡ₚ xs /\
    (forall m, ut_rep u m -> ut_rep u' m /\ forall k, HASH_FIND u' k = HASH_FIND u k) /\
    (Total (cmp_le cmpfcn) -> Transitive (cmp_le cmpfcn) ->
       StronglySorted (cmp_le cmpfcn) ys /\ stable (cmp_le cmpfcn) xs ys).
Proof. apply hash_srt_spec. Qed.

(** Three elements, inserted in the order of their addresses, sorted downwards. *)
Definition three_elements : res uthash :=
  u ← two_elements; HASH_ADD_KEYPTR u 3%positive [9].

Lemma hash_srt_sorts_witness :
  let cmp := fun a b : ptr => Z.pos b - Z.pos a in
  exists u u' ys, two_elements = Ok u /\ HASH_SRT cmp u = Ok u' /\ ut_inv u' ys /\
    StronglySorted (cmp_le cmp) ys /\ HASH_FIND u' [7] = HASH_FIND u [7].
Proof.
  intros cmp. destruct two_elements_rep as (u & E & R). pose proof R as (xs & I & _).
  destruct (hash_srt_sorts cmp u xs I) as (u' & ys & E' & I' & _ & F & S).
  exists u, u', ys. split; [exact E|]. split; [exact E'|]. split; [exact I'|]. split.
  - apply S; unfold cmp_le, cmp.
    + intros x y. destruct (Z.le_ge_cases (Z.pos y - Z.pos x) 0); [left|right]; lia.
    + intros x y z. lia.
  - destruct (F _ R) as [_ F']. apply F'.
Defined.

Example hash_srt_three :
  (u ← three_elements; HASH_SRT (fun a b => Z.pos b - Z.pos a) u) ≫= (fun u => Ok (head u))
  = Ok (Some 3%positive).
Proof. vm_compute. reflexivity. Qed.
