(* ===== verification/UtOrder.v ===== *)
(** * UtOrder: ordered insertion of [uthash.h]

    [HASH_ADD_INORDER] and [HASH_REPLACE_INORDER]: the new element goes in front
    of the first one that the user's comparison calls greater.  At the end,
    programs of the operations that change a table, [HASH_SELECT] excepted. *)

From stdpp Require Import base tactics list numbers option gmap sorting.
From S2P Require Import Prelude KeyTable UtHash UtExtra UtSort.

Section Order.
(** [cmpfcn(a, b)] on elements. *)
Context (cmpfcn : ptr -> ptr -> Z).

(** [do { if (cmpfcn(iter, add) > 0) break; } while ((iter = iter->next))]. *)
Fixpoint HASH_AKBI_INNER_LOOP (fuel : nat) (H : handles) (iter add : ptr) : res (option ptr) :=
  match fuel with
  | O => NoFuel
  | S fuel =>
      if 0 <? cmpfcn iter add then Ok (Some iter)
      else
        h ← get_hh H iter;
        match next h with
        | None => Ok None
        | Some iter => HASH_AKBI_INNER_LOOP fuel H iter add
        end
  end.

(** Linking [p] in front of [iter]; the new head pointer. *)
Definition link_before (H : handles) (hd iter p : ptr) : res (handles * ptr) :=
  hi ← get_hh H iter;
  H ← upd_hh H p (fun h => set_prev (prev hi) (set_next (Some iter) h));
  '(H, hd) ← (match prev hi with
              | Some q => H ← upd_hh H q (set_next (Some p)); Ok (H, hd)
              | None => Ok (H, p)
              end);
  H ← upd_hh H iter (set_prev (Some p));
  Ok (H, hd).

Definition HASH_ADD_KEYPTR_INORDER (u : uthash) (p : ptr) (key : list Z) : res uthash :=
  let hv := HASH_JEN key in
  let H := <[p := mkHandle None None None None key (u32 (zlen key)) hv]> (hhs u) in
  match head u with
  | None =>
      '(H, t) ← HASH_ADD_TO_TABLE H (HASH_MAKE_TABLE p) hv p;
      Ok (mkUt (Some p) (Some t) H)
  | Some hd =>
      t ← deref (tbl u);
      iter ← HASH_AKBI_INNER_LOOP (S (size H)) H hd p;
      '(H, t, hd) ←
        (match iter with
         | Some iter => '(H, hd) ← link_before H hd iter p; Ok (H, t, hd)
         | None => '(H, t) ← HASH_APPEND_LIST H t p; Ok (H, t, hd)
         end);
      '(H, t) ← HASH_ADD_TO_TABLE H t hv p;
      Ok (mkUt (Some hd) (Some t) H)
  end.

Definition HASH_REPLACE_INORDER (u : uthash) (p : ptr) (key : list Z)
    : res (uthash * option ptr) :=
  replaced ← HASH_FIND u key;
  u ← (match replaced with Some q => HASH_DELETE u q | None => Ok u end);
  u ← HASH_ADD_KEYPTR_INORDER u p key;
  Ok (u, replaced).

(** ** The specification: insertion into a list *)

Fixpoint insert_before (p : ptr) (xs : list ptr) : list ptr :=
  match xs with
  | [] => [p]
  | x :: xs => if 0 <? cmpfcn x p then p :: x :: xs else x :: insert_before p xs
  end.

Lemma insert_before_perm p xs : insert_before p xs ≡ₚ p :: xs.
Proof.
  induction xs as [|x xs IH]; cbn; [done|]. destruct (0 <? cmpfcn x p); [done|].
  rewrite IH. apply Permutation_swap.
Qed.

Lemma insert_before_sorted p xs :
  (forall x y, cmpfcn x y > 0 -> cmpfcn y x <= 0) ->
  Sorted (cmp_le cmpfcn) xs -> Sorted (cmp_le cmpfcn) (insert_before p xs).
Proof.
  intros Hc. induction xs as [|x xs IH]; intros Hs; cbn; [by repeat constructor|].
  destruct (Z.ltb_spec 0 (cmpfcn x p)) as [Hl|Hl].
  - constructor; [done|]. constructor. apply Hc. lia.
  - inversion Hs as [|? ? Hs1 Hh]; subst. constructor; [by apply IH|].
    destruct xs as [|y xs]; cbn; [constructor; unfold cmp_le; lia|].
    destruct (0 <? cmpfcn y p); constructor; [unfold cmp_le; lia|by inversion Hh].
Qed.

(** Where the search for the position stops. *)
Lemma inner_loop_spec xs : forall fuel H pv from l p,
  aseg H pv from xs l None -> xs <> [] -> (length xs <= fuel)%nat ->
  exists it o, from = Some it /\ HASH_AKBI_INNER_LOOP fuel H it p = Ok o /\
    match o with
    | None => insert_before p xs = xs ++ [p]
    | Some i => exists a b, xs = a ++ i :: b /\ insert_before p xs = a ++ p :: i :: b
    end.
Proof.
  induction xs as [|x xs IH]; intros fuel H pv from l p Hd Hne Hf; [done|].
  destruct Hd as (-> & h & Hh & _ & Hd). destruct fuel as [|fuel]; [cbn in Hf; lia|].
  exists x. cbn [HASH_AKBI_INNER_LOOP insert_before].
  destruct (0 <? cmpfcn x p) eqn:Ec; [exists (Some x); split_and!; try done; by exists [], xs|].
  unfold get_hh. rewrite Hh. cbn [deref mbind res_bind].
  destruct xs as [|y xs].
  - destruct Hd as [-> _]. by exists None.
  - destruct (IH fuel _ _ _ _ p Hd) as (it & o & En & E & Ho); [done|cbn in *; lia|].
    rewrite En. exists o. split; [done|]. split; [exact E|]. destruct o as [i|].
    + destruct Ho as (a & b & E1 & E2). exists (x :: a), b. cbn [app]. by rewrite <- E1, <- E2.
    + by rewrite Ho.
Qed.

Lemma link_before_spec H a i b hd l p h :
  aseg H None (Some hd) (a ++ i :: b) l None -> NoDup (a ++ i :: b) -> p ∉ a ++ i :: b ->
  H !! p = Some h ->
  exists H' hd', link_before H hd i p = Ok (H', hd') /\ bcore_eq H H' /\
    aseg H' None (Some hd') (a ++ p :: i :: b) l None.
Proof.
  intros Hd Hnd Hp Hh. apply dseg_app in Hd as (m & n & Ha & Hi).
  destruct Hi as (-> & hi & Hhi & Hpi & Hb). unfold link_before, get_hh. rewrite Hhi.
  cbn [deref mbind res_bind].
  set (h1 := set_prev (prev hi) (set_next (Some i) h)).
  rewrite (upd_hh_ok _ _ (fun h => set_prev (prev hi) (set_next (Some i) h)) _ Hh).
  cbn [mbind res_bind]. fold h1.
  apply NoDup_app in Hnd as (Hnda & Hab & [Hib Hndb]%NoDup_cons).
  assert (p <> i) as Hpi' by set_solver.
  set (hi' := set_prev (Some p) hi).
  assert (bcore_eq H (<[p := h1]> H)) as B1 by (by eapply bcore_eq_insert).
  (* the part from the new element on, whatever else changes in front *)
  assert (forall H2, (forall x, x ∈ p :: i :: b -> H2 !! x = <[p := h1]> H !! x) ->
    aseg (<[i := hi']> H2) m (Some p) (p :: i :: b) l None) as Hback.
  { intros H2 E2. split; [done|]. exists h1.
    rewrite lookup_insert_ne, E2, lookup_insert_eq by set_solver. split; [done|].
    split; [done|]. split; [done|]. exists hi'. rewrite lookup_insert_eq.
    split; [done|]. split; [done|]. apply dseg_insert_other; [done|].
    eapply dseg_frame; [|exact Hb]. intros x Hx g Hg. exists g.
    rewrite E2, lookup_insert_ne by set_solver. done. }
  destruct m as [q|]; rewrite Hpi.
  - assert (q ∈ a) as Hq.
    { apply dseg_last in Ha. destruct (last a) as [z|] eqn:El; [|done]. injection Ha as ->.
      by apply last_Some_elem_of. }
    destruct (dseg_lookup _ _ _ _ _ _ _ _ _ Ha Hq) as [hq Hhq].
    assert (<[p := h1]> H !! q = Some hq) as Hhq1 by (rewrite lookup_insert_ne; set_solver).
    rewrite (upd_hh_ok _ _ _ _ Hhq1). cbn [mbind res_bind].
    set (H2 := <[q := _]> _).
    assert (H2 !! i = Some hi) as Hhi2.
    { unfold H2. rewrite !lookup_insert_ne; [done|set_solver..]. }
    rewrite (upd_hh_ok _ _ _ _ Hhi2). fold hi'. eexists _, hd. split; [reflexivity|].
    split; [etransitivity; [exact B1|]; etransitivity; by eapply bcore_eq_insert|].
    apply dseg_app. exists (Some q), (Some p). split.
    + apply dseg_insert_other; [set_solver|]. unfold H2.
      eapply dseg_set_end; [done| |done|exact Hhq1|done|done].
      apply dseg_insert_other; [set_solver|exact Ha].
    + apply Hback. intros x Hx. unfold H2. rewrite lookup_insert_ne; set_solver.
  - assert (a = []) as ->.
    { apply dseg_last in Ha. destruct a as [|y a]; [done|].
      destruct (last_is_Some (y :: a)) as [_ [z Hz]]; [done|]. by rewrite Hz in Ha. }
    cbn [mbind res_bind].
    assert (<[p := h1]> H !! i = Some hi) as Hhi2 by (by rewrite lookup_insert_ne).
    rewrite (upd_hh_ok _ _ _ _ Hhi2). fold hi'. eexists _, p. split; [reflexivity|].
    split; [etransitivity; [exact B1|]; by eapply bcore_eq_insert|]. by apply Hback.
Qed.

Lemma add_inorder_spec u m xs p k :
  ut_inv u xs -> ut_rep u m -> key_fits k -> ut_room u = true -> m !! k = None ->
  (forall k', m !! k' <> Some p) ->
  exists u', HASH_ADD_KEYPTR_INORDER u p k = Ok u' /\ ut_inv u' (insert_before p xs) /\
    ut_rep u' (<[k := p]> m).
Proof.
  intros Hinv Hr Hk Hroom Hnone Hfresh. pose proof (ut_inv_empty u m Hr) as Hemp.
  destruct Hr as (xs' & Hinv' & Hm). rewrite (ut_inv_fun u xs' xs) in Hm by done. clear Hinv'.
  unfold HASH_ADD_KEYPTR_INORDER, ut_inv, ut_room in *.
  fold (new_handle k). set (H0 := <[p := new_handle k]> (hhs u)) in *.
  assert (H0 !! p = Some (new_handle k)) as Hp0 by apply lookup_insert_eq.
  destruct (head u) as [hd|].
  2: { subst xs. rewrite (Hemp eq_refl), insert_empty. cbn [insert_before].
       destruct (add_first H0 p k Hk Hp0) as (H2 & t2 & E2 & I2 & R2). rewrite E2. eauto. }
  destruct Hinv as (t & cs & Et & Hd & Hok & Hcs & Hn & Hsz & Hh). rewrite Et in *.
  apply andb_true_iff in Hroom as [Hb%Z.leb_le Hi%Z.ltb_lt].
  pose proof (fresh_not_in u xs m p Hm Hh Hfresh) as Hp.
  assert (NoDup xs) as Hnd by (rewrite <- Hcs; apply Hok).
  assert (xs <> []) as Hne by (intros ->; by destruct Hd).
  assert (forall x, x ∈ xs -> H0 !! x = hhs u !! x) as F0.
  { intros x Hx. apply lookup_insert_ne. set_solver. }
  assert (aseg H0 None (Some hd) xs (Some (tail t)) None) as Hd0 by (by apply dseg_insert_other).
  assert (forall H1 t1 hd1 ys, table_ok H0 t1 cs -> num_items t1 = zlen xs ->
    num_buckets t1 <= 2 ^ 30 -> bcore_eq H0 H1 ->
    aseg H1 None (Some hd1) ys (Some (tail t1)) None -> ys = insert_before p xs ->
    exists u', ('(H2, t2) ← HASH_ADD_TO_TABLE H1 t1 (HASH_JEN k) p;
                Ok (mkUt (Some hd1) (Some t2) H2)) = Ok u' /\
      ut_inv u' (insert_before p xs) /\ ut_rep u' (<[k := p]> m)) as Hfin.
  { intros H1 t1 hd1 ys O1 N1 B1 C1 A1 ->.
    destruct (add_linked H0 H1 (key_of u) t1 cs xs (insert_before p xs) p k m hd1)
      as (H2 & t2 & E2 & I2 & R2); try done; [lia|..].
    - by apply (Forall_hashed_frame (hhs u)).
    - apply insert_before_perm.
    - intros q Hq. unfold key_of. by rewrite F0.
    - rewrite E2. eauto. }
  assert (table_ok H0 t cs) as Hok0.
  { apply (table_ok_frame (hhs u)); [|exact Hok]. intros x Hx. rewrite Hcs in Hx. auto. }
  cbn [deref mbind res_bind].
  destruct (inner_loop_spec xs (S (size H0)) H0 None (Some hd) (Some (tail t)) p Hd0 Hne)
    as (it & o & [= <-] & Eo & Ho).
  { apply Nat.le_le_succ_r, nodup_size; [done|]. intros x. by eapply dseg_lookup. }
  rewrite Eo. cbn [mbind res_bind]. destruct o as [i|].
  - destruct Ho as (a & b & -> & Eins).
    destruct (link_before_spec H0 a i b hd _ p _ Hd0 Hnd Hp Hp0) as (H1 & hd1 & E1 & B1 & D1).
    rewrite E1. cbn [mbind res_bind]. by eapply Hfin.
  - destruct (HASH_APPEND_LIST_spec H0 t (Some hd) xs p _ Hd0 Hnd Hne Hp Hp0)
      as (H1 & E1 & B1 & D1).
    rewrite E1. cbn [mbind res_bind]. by eapply Hfin.
Qed.

Lemma replace_inorder_spec u m p k :
  ut_rep u m -> key_fits k -> ut_room u = true -> (forall k', m !! k' <> Some p) ->
  exists u', HASH_REPLACE_INORDER u p k = Ok (u', m !! k) /\ ut_rep u' (<[k := p]> m).
Proof.
  intros Hr Hk Hroom Hfresh. unfold HASH_REPLACE_INORDER. rewrite (ut_find_spec u m k Hr).
  cbn [mbind res_bind]. destruct (m !! k) as [q|] eqn:Eq.
  - destruct (ut_del_spec u m q k Hr Eq) as (u1 & E1 & R1 & Room1). rewrite E1. cbn [mbind res_bind].
    pose proof R1 as (xs & I1 & _).
    destruct (add_inorder_spec u1 _ xs p k I1 R1 Hk (Room1 Hroom)) as (u2 & E2 & _ & R2).
    + apply lookup_delete_eq.
    + intros k' Hk'. apply lookup_delete_Some in Hk' as [_ Hk']. by eapply Hfresh.
    + rewrite E2. cbn [mbind res_bind]. exists u2. split; [done|].
      by rewrite insert_delete_eq in R2.
  - pose proof Hr as (xs & I & _).
    destruct (add_inorder_spec u m xs p k I Hr Hk Hroom Eq Hfresh) as (u2 & E2 & _ & R2).
    cbn [mbind res_bind]. rewrite E2. by exists u2.
Qed.
End Order.

(** ** Properties *)

(** C14. Ordered insertion: [HASH_ADD_INORDER] puts the new element in front of the
    first greater one, keeps the rest of the order, the links, the buckets and
    the counters right, and adds exactly its key to what is found; a sorted
    table stays sorted. *)
Theorem add_inorder_sorted cmpfcn u m xs p k :
  ut_inv u xs -> ut_rep u m -> key_fits k -> ut_room u = true -> m !! k = None ->
  (forall k', m !! k' <> Some p) ->
  exists u', HASH_ADD_KEYPTR_INORDER cmpfcn u p k = Ok u' /\
    ut_inv u' (insert_before cmpfcn p xs) /\ HASH_FSCK u' = Ok true /\
    HASH_FIND u' k = Ok (Some p) /\ (forall k', k' <> k -> HASH_FIND u' k' = HASH_FIND u k') /\
    ((forall x y, cmpfcn x y > 0 -> cmpfcn y x <= 0) -> Sorted (cmp_le cmpfcn) xs ->
       Sorted (cmp_le cmpfcn) (insert_before cmpfcn p xs)).
Proof.
  intros Hi Hr Hk Hroom Hn Hf.
  destruct (add_inorder_spec cmpfcn u m xs p k Hi Hr Hk Hroom Hn Hf) as (u' & E & I & R).
  exists u'. split; [done|]. split; [done|]. split; [by eapply ut_inv_fsck|].
  rewrite (ut_find_spec u' _ k R), lookup_insert_eq. split; [done|].
  split; [|by apply insert_before_sorted].
  intros k' Hne. rewrite (ut_find_spec u' _ k' R), (ut_find_spec u m k' Hr).
  by rewrite lookup_insert_ne.
Qed.

(** Two elements, then a third that goes in front of both. *)
Lemma add_inorder_sorted_witness :
  let cmp := fun a b : ptr => Z.pos b - Z.pos a in
  exists u u' xs, two_elements = Ok u /\
    HASH_ADD_KEYPTR_INORDER cmp u 3%positive [9] = Ok u' /\
    ut_inv u' (insert_before cmp 3%positive xs) /\ HASH_FIND u' [9] = Ok (Some 3%positive) /\
    HASH_FSCK u' = Ok true.
Proof.
  intros cmp. destruct two_elements_rep as (u & E & R). pose proof R as (xs & I & _).
  destruct (add_inorder_sorted cmp u _ xs 3%positive [9] I R) as (u' & E' & I' & F & G & _).
  - vm_compute. reflexivity.
  - vm_compute in E. injection E as <-. vm_compute. reflexivity.
  - reflexivity.
  - intros k' [[_ Hk]|[_ [_ Hk]%lookup_singleton_Some]]%lookup_insert_Some; discriminate.
  - exists u, u', xs. split; [exact E|]. split; [exact E'|]. split; [exact I'|]. by split.
Defined.

Example add_inorder_front :
  (u ← two_elements; HASH_ADD_KEYPTR_INORDER (fun a b => Z.pos b - Z.pos a) u 3%positive [9])
    ≫= (fun u => Ok (head u))
  = Ok (Some 3%positive).
Proof. vm_compute. reflexivity. Qed.

(** ** Programs of operations *)

(** The operations that change a table.  ([HASH_SELECT] makes a second table and is
    not among them: [hash_select_correct] shows that the check does fire on its
    result after the next insertion.) *)
Inductive ut_op : Type :=
  | OpAdd (p : ptr) (key : list Z)
  | OpAddInorder (cmpfcn : ptr -> ptr -> Z) (p : ptr) (key : list Z)
  | OpReplace (p : ptr) (key : list Z)
  | OpReplaceInorder (cmpfcn : ptr -> ptr -> Z) (p : ptr) (key : list Z)
  | OpDel (p : ptr)
  | OpSort (cmpfcn : ptr -> ptr -> Z)
  | OpClear.

Definition ut_step (u : uthash) (o : ut_op) : res uthash :=
  match o with
  | OpAdd p k => HASH_ADD_KEYPTR u p k
  | OpAddInorder cmp p k => HASH_ADD_KEYPTR_INORDER cmp u p k
  | OpReplace p k => '(u, _) ← HASH_REPLACE u p k; Ok u
  | OpReplaceInorder cmp p k => '(u, _) ← HASH_REPLACE_INORDER cmp u p k; Ok u
  | OpDel p => HASH_DELETE u p
  | OpSort cmp => HASH_SRT cmp u
  | OpClear => Ok (HASH_CLEAR u)
  end.

Fixpoint ut_run (u : uthash) (os : list ut_op) : res uthash :=
  match os with
  | [] => Ok u
  | o :: os => u ← ut_step u o; ut_run u os
  end.

(** The same on a map. *)
Definition op_map (m : gmap (list Z) ptr) (o : ut_op) : gmap (list Z) ptr :=
  match o with
  | OpAdd p k | OpAddInorder _ p k | OpReplace p k | OpReplaceInorder _ p k => <[k := p]> m
  | OpDel p => filter (fun kp => kp.2 <> p) m
  | OpSort _ => m
  | OpClear => ∅
  end.

(** No key leads to the element [p]. *)
Definition unused (m : gmap (list Z) ptr) (p : ptr) : bool :=
  bool_decide (map_Forall (fun _ q => q <> p) m).

(** An operation the callers may make: room and a fresh element to insert, and a new
    key unless it replaces; an element of the table to delete. *)
Definition op_ok (u : uthash) (m : gmap (list Z) ptr) (o : ut_op) : bool :=
  match o with
  | OpAdd p k | OpAddInorder _ p k =>
      (zlen k <? 2 ^ 32) && ut_room u && bool_decide (m !! k = None) && unused m p
  | OpReplace p k | OpReplaceInorder _ p k => (zlen k <? 2 ^ 32) && ut_room u && unused m p
  | OpDel p => negb (unused m p)
  | OpSort _ | OpClear => true
  end.

Fixpoint ops_ok (u : uthash) (m : gmap (list Z) ptr) (os : list ut_op) : bool :=
  match os with
  | [] => true
  | o :: os => op_ok u m o &&
      match ut_step u o with Ok u => ops_ok u (op_map m o) os | _ => true end
  end.

Lemma unused_true m p : unused m p = true -> forall k, m !! k <> Some p.
Proof. intros Hu%bool_decide_eq_true k Hk. by apply (Hu k p Hk). Qed.

Lemma unused_false m p : unused m p = false -> exists k, m !! k = Some p.
Proof.
  intros Hu%bool_decide_eq_false. apply map_not_Forall in Hu as (k & q & Hk & Hq); [|apply _].
  exists k. by apply dec_stable in Hq as ->.
Qed.

Lemma ut_rep_inj u m p k k' : ut_rep u m -> m !! k = Some p -> m !! k' = Some p -> k = k'.
Proof. intros (xs & _ & Hm) [_ Hk]%Hm [_ Hk']%Hm. congruence. Qed.

Lemma ut_rep_clear u : ut_rep (HASH_CLEAR u) ∅ \/ head u = None.
Proof.
  unfold HASH_CLEAR. destruct (head u); [left|by right]. exists []. split; [done|].
  intros k q. rewrite lookup_empty. split; [done|]. by intros [?%not_elem_of_nil _].
Qed.

(** Deleting an element is deleting its key. *)
Lemma filter_delete u m p k :
  ut_rep u m -> m !! k = Some p -> filter (fun kp => kp.2 <> p) m = delete k m.
Proof.
  intros Hr Hk. apply map_eq. intros k'. destruct (decide (k = k')) as [<-|Hne].
  - rewrite lookup_delete_eq. apply map_lookup_filter_None. right.
    intros q Hq Hp. cbn in Hp. congruence.
  - rewrite lookup_delete_ne by done. destruct (m !! k') as [q|] eqn:Eq.
    + apply map_lookup_filter_Some. split; [done|]. cbn. intros ->.
      apply Hne. by eapply ut_rep_inj.
    + apply map_lookup_filter_None. by left.
Qed.

(** Each permitted operation does to the map what it should. *)
Lemma ut_step_ok u m o :
  ut_rep u m -> op_ok u m o = true -> exists u', ut_step u o = Ok u' /\ ut_rep u' (op_map m o).
Proof.
  intros Hr Ho. pose proof Hr as (xs & Hi & Hm).
  destruct o as [p k|cmp p k|p k|cmp p k|p|cmp|]; cbn [op_ok ut_step op_map] in *;
    repeat match goal with
    | H : _ && _ = true |- _ => apply andb_true_iff in H as [H ?]
    | H : unused _ _ = true |- _ => pose proof (unused_true _ _ H); clear H
    | H : bool_decide _ = true |- _ => apply bool_decide_eq_true in H
    | H : (_ <? _) = true |- _ => apply Z.ltb_lt in H
    end.
  - by apply ut_add_spec.
  - destruct (add_inorder_spec cmp u m xs p k) as (u' & E & _ & R); try done. by exists u'.
  - destruct (hash_replace_spec u m p k) as (u' & E & R); try done. exists u'. by rewrite E.
  - destruct (replace_inorder_spec cmp u m p k) as (u' & E & R); try done. exists u'. by rewrite E.
  - apply negb_true_iff, unused_false in Ho as [k Hk].
    destruct (ut_del_spec u m p k Hr Hk) as (u' & E & R & _).
    exists u'. split; [done|]. by rewrite (filter_delete u m p k).
  - destruct (hash_srt_spec cmp u xs Hi) as (u' & ys & E & _ & _ & R & _). exists u'.
    split; [done|]. by apply R.
  - exists (HASH_CLEAR u). split; [done|]. destruct (ut_rep_clear u) as [|Hh]; [done|].
    unfold HASH_CLEAR. rewrite Hh. by rewrite <- (ut_inv_empty u m Hr Hh).
Qed.

Lemma ut_run_ok u m os :
  ut_rep u m -> ops_ok u m os = true ->
  exists u', ut_run u os = Ok u' /\ ut_rep u' (foldl op_map m os).
Proof.
  revert u m. induction os as [|o os IH]; intros u m Hr Ho; [by exists u|].
  cbn [ops_ok] in Ho. apply andb_true_iff in Ho as [Ho Hos].
  destruct (ut_step_ok u m o Hr Ho) as (u1 & E & R). rewrite E in Hos.
  destruct (IH u1 _ R Hos) as (u' & E' & R'). exists u'. cbn [ut_run]. by rewrite E.
Qed.

(** C17. The integrity check never fires.  After any sequence of permitted
    operations (insertion at the end or in order, replacement likewise, deletion,
    sorting, clearing) on a table the macros built, [HASH_FSCK] terminates and
    accepts, and the searches answer what the same operations on a map leave.
    ([HASH_SELECT] is not covered: see [hash_select_correct].) *)
Theorem fsck_after_operations u m os :
  ut_rep u m -> ops_ok u m os = true ->
  exists u', ut_run u os = Ok u' /\ HASH_FSCK u' = Ok true /\
    forall k, HASH_FIND u' k = Ok (foldl op_map m os !! k).
Proof.
  intros Hr Ho. destruct (ut_run_ok u m os Hr Ho) as (u' & E & R). exists u'. split; [done|].
  split; [destruct R as (xs & I & _); by eapply ut_inv_fsck|]. intros k. by apply ut_find_spec.
Qed.

(** One element goes, one comes in front, one takes the place of another, all are
    sorted; then the table is cleared and used again. *)
Lemma fsck_after_operations_witness :
  let up := fun a b : ptr => Z.pos a - Z.pos b in
  let os := [OpDel 1%positive; OpAddInorder up 3%positive [9]; OpReplace 4%positive [7];
             OpSort up; OpClear; OpAdd 5%positive [1]] in
  exists u u', two_elements = Ok u /\ ut_run u os = Ok u' /\ HASH_FSCK u' = Ok true /\
    HASH_FIND u' [1] = Ok (Some 5%positive) /\ HASH_FIND u' [7] = Ok None.
Proof.
  intros up os. destruct two_elements_rep as (u & E & R).
  destruct (fsck_after_operations u _ os R) as (u' & E' & F & G).
  - vm_compute in E. injection E as <-. vm_compute. reflexivity.
  - exists u, u'. split; [exact E|]. split; [exact E'|]. split; [exact F|].
    split; [rewrite (G [1])|rewrite (G [7])]; vm_compute; reflexivity.
Defined.
