(* ===== verification/UtSelect.v ===== *)
(** * UtSelect: [HASH_SELECT] of [uthash.h]

    Elements of one table are entered into a second table through a second
    handle of the structure.  The two kinds of handles are two stores here. *)

From stdpp Require Import base tactics list numbers option gmap.
From S2P Require Import Prelude KeyTable UtHash UtExtra.

Section Select.
Context (cond : ptr -> bool).

(** The body of the inner loop: [u] is the table [dst], [last] is [_last_elt].
    The links of the new handle in its bucket are overwritten. *)
Definition select_item (Hs : handles) (x : ptr) (st : uthash * option ptr)
    : res (uthash * option ptr) :=
  hs ← get_hh Hs x;
  if cond x then
    let '(u, last) := st in
    let H := <[x := mkHandle last None None None (hh_key hs) (keylen hs) (hashv hs)]> (hhs u) in
    H ← upd_hh_opt H last (set_next (Some x));
    '(hd, t) ← (match head u with
                | None => Ok (x, HASH_MAKE_TABLE x)
                | Some hd => t ← deref (tbl u); Ok (hd, t)
                end);
    '(H, t) ← HASH_ADD_TO_BKT H t (HASH_TO_BKT (hashv hs) (num_buckets t)) x;
    let t := mkTable (buckets t) (num_buckets t) (log2_num_buckets t) (u32 (num_items t + 1))
               (tail t) (ideal_chain_maxlen t) (nonideal_items t) (ineff_expands t)
               (noexpand t) in
    Ok (mkUt (Some hd) (Some t) H, Some x)
  else Ok st.

Fixpoint select_chain (fuel : nat) (Hs : handles) (src_hh : option ptr)
    (st : uthash * option ptr) : res (uthash * option ptr) :=
  match src_hh with
  | None => Ok st
  | Some x =>
      match fuel with
      | O => NoFuel
      | S fuel =>
          st ← select_item Hs x st;
          hs ← get_hh Hs x;
          select_chain fuel Hs (hh_next hs) st
      end
  end.

(** [n] buckets are left, from index [i] on. *)
Fixpoint select_buckets (n fuel : nat) (Hs : handles) (bs : list UT_hash_bucket) (i : Z)
    (st : uthash * option ptr) : res (uthash * option ptr) :=
  match n with
  | O => Ok st
  | S n =>
      b ← get_bucket bs i;
      st ← select_chain fuel Hs (hh_head b) st;
      select_buckets n fuel Hs bs (u32 (i + 1)) st
  end.

Definition HASH_SELECT (dst src : uthash) : res uthash :=
  match head src with
  | None => Ok dst
  | Some _ =>
      t ← deref (tbl src);
      '(dst, _) ← select_buckets (Z.to_nat (num_buckets t)) (S (size (hhs src))) (hhs src)
                    (buckets t) 0 (dst, None);
      Ok dst
  end.

(** ** The order of the visits *)

(** The elements [l], one after the other. *)
Fixpoint select_list (Hs : handles) (l : list ptr) (st : uthash * option ptr)
    : res (uthash * option ptr) :=
  match l with
  | [] => Ok st
  | x :: l => st ← select_item Hs x st; select_list Hs l st
  end.

Lemma select_list_app Hs l1 l2 st :
  select_list Hs (l1 ++ l2) st = (st ← select_list Hs l1 st; select_list Hs l2 st).
Proof.
  revert st. induction l1 as [|x l1 IH]; intros st; [done|]. cbn [app select_list].
  destruct (select_item Hs x st); cbn [mbind res_bind]; [apply IH|done..].
Qed.

Lemma select_chain_list Hs c : forall fuel pv from l st,
  bseg Hs pv from c l None -> (length c <= fuel)%nat ->
  select_chain fuel Hs from st = select_list Hs c st.
Proof.
  induction c as [|x c IH]; intros fuel pv from l st Hd Hf.
  - destruct Hd as [-> _]. by destruct fuel.
  - destruct Hd as (-> & h & Hh & _ & Hd). destruct fuel as [|fuel]; [cbn in Hf; lia|].
    cbn [select_chain select_list]. destruct (select_item Hs x st); cbn [mbind res_bind]; [|done..].
    unfold get_hh. rewrite Hh. cbn [deref mbind res_bind].
    eapply IH; [exact Hd|cbn in Hf; lia].
Qed.

Lemma select_buckets_list Hs bs n : forall i cs st,
  Forall2 (chain_ok Hs) (drop i bs) cs -> length bs = (i + n)%nat ->
  Z.of_nat (length bs) < 2 ^ 32 ->
  select_buckets n (S (size Hs)) Hs bs (Z.of_nat i) st = select_list Hs (concat cs) st.
Proof.
  induction n as [|n IH]; intros i cs st Hf Hl Hb.
  - rewrite drop_ge in Hf by lia. by inversion Hf; subst.
  - destruct (lookup_lt_is_Some_2 bs i ltac:(lia)) as [b Hbi].
    rewrite (drop_S _ _ _ Hbi) in Hf. inversion Hf as [|? c ? cs' [Hd _] Hf']; subst.
    cbn [select_buckets concat]. unfold get_bucket.
    rewrite (proj2 (Z.leb_le 0 _)), Nat2Z.id, Hbi by lia. cbn [deref mbind res_bind].
    rewrite (select_chain_list _ c _ _ _ _ _ Hd) by (by eapply dseg_size).
    rewrite select_list_app. destruct (select_list Hs c st); cbn [mbind res_bind]; [|done..].
    rewrite u32_small by lia. replace (Z.of_nat i + 1) with (Z.of_nat (S i)) by lia.
    apply IH; [done|lia|done].
Qed.
End Select.

(** ** The table that is built *)

(** After the elements [zs] have been entered: everything is as in a table
    built by insertion, except that the [tail] stays at the first element. *)
Definition selected (Hs : handles) (zs : list ptr) (st : uthash * option ptr) : Prop :=
  st.2 = last zs /\
  (forall x, x ∈ zs -> hh_key <$> hhs st.1 !! x = hh_key <$> Hs !! x) /\
  match zs with
  | [] => head st.1 = None
  | z :: _ => exists t cs,
      head st.1 = Some z /\ tbl st.1 = Some t /\ tail t = z /\
      aseg (hhs st.1) None (Some z) zs (last zs) None /\ table_ok (hhs st.1) t cs /\
      concat cs ≡ₚ zs /\ num_items t = zlen zs /\ zlen zs <= 2 ^ 31 /\
      Forall (hashed (hhs st.1)) zs
  end.

Section Step.
Context (Hs : handles) (x : ptr) (hs : UT_hash_handle).
Hypothesis Hx : Hs !! x = Some hs.
Hypothesis Hhash : hashed Hs x.

Definition copied (last : option ptr) : UT_hash_handle :=
  mkHandle last None None None (hh_key hs) (keylen hs) (hashv hs).

Lemma select_finish H0 H1 t cs zs hd lst :
  table_ok H0 t cs -> concat cs ≡ₚ zs -> x ∉ zs -> num_items t = zlen zs ->
  num_buckets t <= 2 ^ 30 -> zlen zs < 2 ^ 31 -> H0 !! x = Some (copied lst) ->
  bcore_eq H0 H1 -> aseg H1 None (Some hd) (zs ++ [x]) (Some x) None ->
  Forall (hashed H0) zs -> (forall y, y ∈ zs -> hh_key <$> H0 !! y = hh_key <$> Hs !! y) ->
  tail t = hd -> list.head (zs ++ [x]) = Some hd ->
  exists H' t', HASH_ADD_TO_BKT H1 t (HASH_TO_BKT (hashv hs) (num_buckets t)) x = Ok (H', t') /\
    selected Hs (zs ++ [x])
      (mkUt (Some hd) (Some (mkTable (buckets t') (num_buckets t') (log2_num_buckets t')
         (u32 (num_items t' + 1)) (tail t') (ideal_chain_maxlen t') (nonideal_items t')
         (ineff_expands t') (noexpand t'))) H', Some x).
Proof.
  intros Hok Hcs Hxz Hn Hb Hsz Hx0 B1 Hd Hh Hkey Ht Hhd.
  destruct (bcore_eq_lookup _ _ _ _ B1 Hx0) as (h1 & Hx1 & _ & _ & Ek & El & Ev).
  cbn [hh_key keylen hashv copied] in *. rewrite <- Ev.
  destruct (HASH_ADD_TO_BKT_spec H1 t cs x h1) as (H' & t' & cs' & E & O & P & C & N & T).
  - by apply (table_ok_bcore_eq H0).
  - rewrite Hcs. apply NoDup_cons. split; [done|]. rewrite <- Hcs. apply Hok.
  - done.
  - done.
  - by rewrite Hcs.
  - exists H', t'. split; [exact E|]. split; [by rewrite last_snoc|]. cbn [fst hhs].
    assert (forall y, hh_key <$> H' !! y = hh_key <$> H0 !! y) as Hk'.
    { intros y. by rewrite (core_eq_key _ _ _ C), (bcore_eq_key _ _ _ B1). }
    assert (hashed H0 x) as Hx0h.
    { exists (copied lst). split; [done|]. destruct Hhash as (g & Hg & Hgs).
      rewrite Hx in Hg. by injection Hg as <-. }
    split.
    { intros y [Hy| ->%list_elem_of_singleton]%elem_of_app; rewrite Hk'; [by apply Hkey|].
      by rewrite Hx0, Hx. }
    destruct (zs ++ [x]) as [|z r] eqn:Ez; [by destruct zs|]. injection Hhd as ->.
    rewrite <- Ez in *. eexists _, cs'. split; [reflexivity|]. split; [reflexivity|].
    cbn [tail hhs]. split; [congruence|]. split.
    { rewrite last_snoc. by eapply aseg_core_eq. }
    split; [done|]. split; [rewrite P, Hcs; by rewrite <- Permutation_cons_append|].
    pose proof (zlen_nonneg zs). rewrite zlen_app. change (zlen [x]) with 1. cbn [num_items].
    split; [rewrite N, Hn, u32_small; lia|]. split; [lia|].
    apply List.Forall_app. split.
    + rewrite Forall_forall in Hh |- *. intros y Hy.
      eapply hashed_core_eq; [exact C|]. eapply hashed_bcore_eq; [exact B1|]. auto.
    + apply List.Forall_cons; [|apply List.Forall_nil].
      eapply hashed_core_eq; [exact C|]. by eapply hashed_bcore_eq.
Qed.

Lemma select_item_spec cond zs st :
  selected Hs zs st -> cond x = true -> x ∉ zs -> zlen zs < 2 ^ 31 -> ut_room (fst st) = true ->
  exists st', select_item cond Hs x st = Ok st' /\ selected Hs (zs ++ [x]) st'.
Proof.
  destruct st as [u lst]. intros (El & Hkey & Hm) Hc Hxz Hsz Hroom. cbn [fst snd] in *.
  unfold select_item, get_hh. rewrite Hx, Hc. cbn [deref mbind res_bind].
  fold (copied lst). set (H0 := <[x := copied lst]> (hhs u)).
  assert (H0 !! x = Some (copied lst)) as Hx0 by apply lookup_insert_eq.
  assert (forall y, y ∈ zs -> H0 !! y = hhs u !! y) as F0.
  { intros y Hy. apply lookup_insert_ne. set_solver. }
  destruct zs as [|z0 zs].
  - subst lst. rewrite Hm. cbn [upd_hh_opt last mbind res_bind].
    destruct (select_finish H0 H0 (HASH_MAKE_TABLE x) (replicate 32 []) [] x None)
      as (H' & t' & E & Hsel); try done.
    + apply table_ok_new.
    + split; [done|]. by exists (copied None).
    + intros y Hy. set_solver.
    + rewrite E. cbn [mbind res_bind]. eauto.
  - destruct Hm as (t & cs & Eh & Et & Etl & Hd & Hok & Hcs & Hn & _ & Hh).
    unfold ut_room in Hroom. rewrite Eh, Et in Hroom.
    apply andb_true_iff in Hroom as [Hb%Z.leb_le _].
    destruct (last_is_Some (z0 :: zs)) as [_ [z Hz]]; [done|]. rewrite Hz in El. subst lst.
    pose proof (last_Some_elem_of _ _ Hz) as Hzin.
    destruct (dseg_lookup _ _ _ _ _ _ _ _ _ Hd Hzin) as [hz Hhz].
    assert (NoDup (z0 :: zs)) as Hnd by (rewrite <- Hcs; apply Hok).
    assert (H0 !! z = Some hz) as Hhz0 by (by rewrite F0).
    assert (x <> z) as Hxz' by (intros ->; done).
    cbn [upd_hh_opt]. rewrite (upd_hh_ok _ _ _ _ Hhz0), Eh, Et. cbn [deref mbind res_bind].
    set (H1 := <[z := set_next (Some x) hz]> H0).
    destruct (select_finish H0 H1 t cs (z0 :: zs) z0 (Some z)) as (H' & t' & E & Hsel); try done.
    + apply (table_ok_frame (hhs u)); [|done]. intros y Hy. rewrite Hcs in Hy. auto.
    + by eapply bcore_eq_insert.
    + apply dseg_app. exists (Some z), (Some x). split.
      * unfold H1. eapply dseg_set_end; [done| |done|exact Hhz0|done|done].
        apply dseg_insert_other; [done|]. rewrite Hz in Hd. exact Hd.
      * split; [done|]. exists (copied (Some z)). unfold H1.
        by rewrite lookup_insert_ne by done.
    + by apply (Forall_hashed_frame (hhs u)).
    + intros y Hy. by rewrite F0, Hkey.
    + rewrite E. cbn [mbind res_bind]. eauto.
Qed.
End Step.

Lemma select_list_spec cond Hs l : forall zs st,
  selected Hs zs st -> NoDup (zs ++ l) -> Forall (hashed Hs) l -> zlen (zs ++ l) <= 2 ^ 31 ->
  (forall l1 l2 st', l = l1 ++ l2 -> select_list cond Hs l1 st = Ok st' -> ut_room st'.1 = true) ->
  exists st', select_list cond Hs l st = Ok st' /\
    selected Hs (zs ++ filter (fun x => cond x = true) l) st'.
Proof.
  induction l as [|x l IH]; intros zs st Hsel Hnd Hh Hsz Hroom.
  - exists st. split; [done|]. by rewrite app_nil_r.
  - apply Forall_cons_iff in Hh as [Hx Hh]. pose proof Hx as (hs & Hhs & _).
    cbn [select_list]. rewrite filter_cons. destruct (cond x) eqn:Ec.
    + destruct (select_item_spec Hs x hs Hhs Hx cond zs st Hsel Ec) as (st1 & E1 & Hsel1).
      * apply NoDup_app in Hnd as (_ & Hd & _). intros Hin. apply (Hd x Hin). set_solver.
      * rewrite zlen_app, zlen_cons in Hsz. pose proof (zlen_nonneg l). lia.
      * by apply (Hroom [] (x :: l)).
      * rewrite E1. cbn [mbind res_bind].
        destruct (IH (zs ++ [x]) st1 Hsel1) as (st2 & E2 & Hsel2).
        -- by rewrite <- app_assoc.
        -- done.
        -- by rewrite <- app_assoc.
        -- intros l1 l2 st' -> E'. apply (Hroom (x :: l1) l2); [done|].
           cbn [select_list]. by rewrite E1.
        -- exists st2. split; [done|]. rewrite decide_True by done.
           by rewrite <- app_assoc in Hsel2.
    + assert (select_item cond Hs x st = Ok st) as E1.
      { unfold select_item, get_hh. by rewrite Hhs, Ec. }
      rewrite E1. cbn [mbind res_bind]. rewrite decide_False by done.
      apply IH; [done| |done| |].
      * apply NoDup_app in Hnd as (N1 & N2 & [_ N3]%NoDup_cons). apply NoDup_app.
        split; [done|]. split; [|done]. intros y Hy Hyl. apply (N2 y Hy). set_solver.
      * rewrite zlen_app, zlen_cons in Hsz. rewrite zlen_app. lia.
      * intros l1 l2 st' -> E'. apply (Hroom (x :: l1) l2); [done|].
        cbn [select_list]. by rewrite E1.
Qed.

(** Neither the search nor the integrity check looks at the tail. *)
Definition retail (u : uthash) (tl : ptr) : uthash :=
  mkUt (head u)
    ((fun t => mkTable (buckets t) (num_buckets t) (log2_num_buckets t) (num_items t) tl
                 (ideal_chain_maxlen t) (nonideal_items t) (ineff_expands t) (noexpand t))
     <$> tbl u) (hhs u).

Lemma retail_find u tl k : HASH_FIND (retail u tl) k = HASH_FIND u k.
Proof. unfold HASH_FIND, retail. cbn. destruct (head u); [|done]. by destruct (tbl u). Qed.

Lemma retail_fsck u tl : HASH_FSCK (retail u tl) = HASH_FSCK u.
Proof. unfold HASH_FSCK, retail. cbn. destruct (head u); [|done]. by destruct (tbl u). Qed.

Lemma selected_inv Hs zs u lst :
  selected Hs zs (u, lst) -> exists tl, ut_inv (retail u tl) zs.
Proof.
  intros (_ & _ & Hm). cbn [fst] in Hm. destruct zs as [|z0 zs].
  - exists 1%positive. unfold ut_inv, retail. cbn. by rewrite Hm.
  - destruct Hm as (t & cs & Eh & Et & Etl & Hd & Hok & Hcs & Hn & Hsz & Hh).
    destruct (last_is_Some (z0 :: zs)) as [_ [z Hz]]; [done|]. exists z.
    unfold ut_inv, retail. cbn [head tbl hhs]. rewrite Eh, Et. eexists _, cs.
    split; [reflexivity|]. cbn [tail num_items]. rewrite Hz in Hd. done.
Qed.

(** The map of what is selected. *)
Definition select_map (cond : ptr -> bool) (m : gmap (list Z) ptr) : gmap (list Z) ptr :=
  filter (fun kp => cond (snd kp) = true) m.

Lemma selected_find cond us xs m u lst k :
  ut_inv us xs -> ut_rep us m -> forall zs, zs ≡ₚ filter (fun x => cond x = true) xs ->
  selected (hhs us) zs (u, lst) -> HASH_FIND u k = Ok (select_map cond m !! k).
Proof.
  intros Hi (xs' & Hi' & Hm) zs Hzs Hsel. rewrite (ut_inv_fun us xs' xs) in Hm by done.
  destruct (selected_inv _ _ _ _ Hsel) as [tl Hinv]. rewrite <- (retail_find u tl).
  apply ut_find_spec. exists zs. split; [done|]. intros k' p. unfold select_map.
  rewrite map_lookup_filter_Some, (Hm k' p), Hzs, list_elem_of_filter. cbn [snd].
  destruct Hsel as (_ & Hkey & _). unfold key_of in *. cbn [fst retail hhs] in *. split.
  - intros [[Hp Hk] Hc]. split; [done|]. rewrite Hkey, Hk; [done|].
    rewrite Hzs. by apply list_elem_of_filter.
  - intros [[Hc Hp] Hk]. rewrite Hkey in Hk; [done|]. rewrite Hzs. by apply list_elem_of_filter.
Qed.

(** Appending to a table whose tail is its first element leaves two elements in
    the application order, whatever there was before. *)
Lemma selected_add Hs z0 z1 zs u lst p k :
  selected Hs (z0 :: z1 :: zs) (u, lst) -> p ∉ z0 :: z1 :: zs -> ut_room u = true ->
  exists u', HASH_ADD_KEYPTR u p k = Ok u' /\ HASH_FSCK u' = Ok false.
Proof.
  intros (_ & _ & t & cs & Eh & Et & Etl & Hd & Hok & Hcs & Hn & _ & _) Hp Hroom.
  cbn [fst] in *. unfold ut_room in Hroom. rewrite Eh, Et in Hroom.
  apply andb_true_iff in Hroom as [Hb%Z.leb_le Hi%Z.ltb_lt].
  unfold HASH_ADD_KEYPTR. fold (new_handle k). rewrite Eh, Et. cbn [deref mbind res_bind].
  set (H0 := <[p := new_handle k]> (hhs u)).
  destruct Hd as (_ & h0 & Hh0 & Hp0 & _).
  assert (p <> z0) as Hpz by set_solver.
  assert (H0 !! p = Some (new_handle k)) as Hp1 by apply lookup_insert_eq.
  unfold HASH_APPEND_LIST. rewrite (upd_hh_ok _ _ _ _ Hp1), Etl. cbn [mbind res_bind].
  set (hp := set_prev (Some z0) (set_next None (new_handle k))).
  assert (<[p := hp]> H0 !! z0 = Some h0) as Hz0 by (unfold H0; by rewrite !lookup_insert_ne).
  rewrite (upd_hh_ok _ _ _ _ Hz0). cbn [mbind res_bind].
  set (H2 := <[z0 := set_next (Some p) h0]> _).
  assert (bcore_eq H0 H2) as B.
  { etransitivity; [by apply (bcore_eq_insert H0 p (new_handle k) hp)|]. by eapply bcore_eq_insert. }
  assert (H2 !! p = Some hp) as Hp2 by (unfold H2; by rewrite lookup_insert_ne, lookup_insert_eq).
  match goal with |- context [HASH_ADD_TO_TABLE H2 ?t _ _] => set (t1 := t) end.
  assert (table_ok H2 t1 cs) as Hok2.
  { apply (table_ok_bcore_eq H0), (table_ok_frame (hhs u)); [done| |done].
    intros y Hy. unfold H0. rewrite lookup_insert_ne; [done|]. rewrite Hcs in Hy. set_solver. }
  destruct (HASH_ADD_TO_TABLE_spec H2 t1 cs p hp Hok2) as (H3 & t3 & cs3 & E & O & P & C & N & T).
  - rewrite Hcs. apply NoDup_cons. split; [done|]. rewrite <- Hcs. apply Hok.
  - done.
  - done.
  - rewrite Hcs. lia.
  - change (hashv hp) with (HASH_JEN k) in E. rewrite E. cbn [mbind res_bind].
    eexists. split; [done|].
    assert (zlen (concat cs3) = num_items t + 1) as Hz3 by (rewrite P, zlen_cons, Hcs, Hn; lia).
    pose proof (zlen_nonneg zs). rewrite !zlen_cons in Hn.
    cbn [num_items t1] in N. rewrite u32_small in N by lia.
    eapply (fsck_rejects _ z0 t3 cs3 [z0; p]); [done..|exact O|lia|lia| |].
    + apply (aseg_core_eq H2); [done|]. split; [done|]. exists (set_next (Some p) h0).
      unfold H2 at 1. rewrite lookup_insert_eq. split; [done|]. split; [done|].
      split; [done|]. by exists hp.
    + change (zlen [z0; p]) with 2. lia.
Qed.

Lemma ut_inv_hashed u xs : ut_inv u xs -> Forall (hashed (hhs u)) xs /\ zlen xs <= 2 ^ 31 /\ NoDup xs.
Proof.
  unfold ut_inv. destruct (head u).
  - intros (t & cs & _ & _ & Hok & Hcs & _ & Hsz & Hh). split; [done|]. split; [done|].
    rewrite <- Hcs. apply Hok.
  - intros ->. split; [by apply List.Forall_nil|]. split; [done|]. by apply NoDup_nil.
Qed.

(** The elements are visited bucket by bucket. *)
Lemma HASH_SELECT_list cond u xs dst :
  ut_inv u xs ->
  exists l, l ≡ₚ xs /\
    HASH_SELECT cond dst u = (st ← select_list cond (hhs u) l (dst, None); Ok (fst st)).
Proof.
  unfold ut_inv, HASH_SELECT. destruct (head u) as [hd|].
  - intros (t & cs & -> & _ & (Hf & _ & _ & Hl & Hn & Hlen) & Hcs & _). exists (concat cs).
    split; [done|]. cbn [deref mbind res_bind]. unfold zlen in Hlen.
    assert (2 ^ log2_num_buckets t < 2 ^ 32) by (apply Z.pow_lt_mono_r; lia).
    change 0 with (Z.of_nat 0) at 1.
    rewrite (select_buckets_list cond _ _ _ 0 cs) by (done || lia).
    by destruct (select_list _ _ _ _) as [[]| | |].
  - intros ->. by exists [].
Qed.

Definition ut_empty : uthash := mkUt None None ∅.

(** ** Properties *)

(** C15. Selection into an empty table: as long as the tables built on the way can
    grow, [HASH_SELECT] enters exactly the elements that satisfy the condition,
    in a table that finds them by their keys and passes the integrity check.
    But when two or more elements were selected, the next insertion breaks the
    table: the integrity check fails.  (The tail of the new table was left at its
    first element, so that the insertion cuts the others out of the application
    order.) *)
Theorem hash_select_correct cond u m :
  ut_rep u m ->
  (forall xs l st, ut_inv u xs -> l ⊆+ xs ->
     select_list cond (hhs u) l (ut_empty, None) = Ok st -> ut_room (fst st) = true) ->
  exists u', HASH_SELECT cond ut_empty u = Ok u' /\ HASH_FSCK u' = Ok true /\
    (forall k, HASH_FIND u' k = Ok (select_map cond m !! k)) /\
    (forall k1 k2 p1 p2 p k,
       select_map cond m !! k1 = Some p1 -> select_map cond m !! k2 = Some p2 -> p1 <> p2 ->
       (forall k', m !! k' <> Some p) ->
       exists u'', HASH_ADD_KEYPTR u' p k = Ok u'' /\ HASH_FSCK u'' = Ok false).
Proof.
  intros Hr Hroom. pose proof Hr as (xs & Hi & Hm).
  destruct (HASH_SELECT_list cond u xs ut_empty Hi) as (l & Hl & E).
  destruct (ut_inv_hashed u xs Hi) as (Hh & Hsz & Hnd).
  destruct (select_list_spec cond (hhs u) l [] (ut_empty, None)) as ([u' lst] & E' & Hsel);
    [|by rewrite Hl|by rewrite Hl|by rewrite Hl|..].
  { split; [done|]. split; [set_solver|done]. }
  { intros l1 l2 st -> E1. apply (Hroom xs l1); [done| |done]. rewrite <- Hl.
    apply submseteq_inserts_r. done. }
  rewrite E' in E. cbn [mbind res_bind fst app] in *.
  set (ys := filter (fun x => cond x = true) l) in *.
  assert (ys ≡ₚ filter (fun x => cond x = true) xs) as Hys by (unfold ys; by rewrite Hl).
  pose proof (fun k => selected_find cond u xs m u' lst k Hi Hr ys Hys Hsel) as Hfind.
  exists u'. split; [exact E|]. split.
  { destruct (selected_inv _ _ _ _ Hsel) as [tl Hinv]. rewrite <- (retail_fsck u' tl).
    by eapply ut_inv_fsck. }
  split; [exact Hfind|]. intros k1 k2 p1 p2 p k H1 H2 Hne Hfresh.
  assert (forall q, q ∈ ys -> exists k', m !! k' = Some q) as Hys'.
  { intros q Hq. rewrite Hys in Hq. apply list_elem_of_filter in Hq as [_ Hq].
    rewrite Forall_forall in Hh. destruct (Hh q Hq) as (h & Hqh & _). exists (hh_key h).
    apply Hm. split; [done|]. unfold key_of. by rewrite Hqh. }
  assert (forall k' q, select_map cond m !! k' = Some q -> q ∈ ys) as Hin.
  { intros k' q [Hq Hc]%map_lookup_filter_Some. rewrite Hys. apply list_elem_of_filter.
    split; [done|]. by apply (Hm k' q). }
  apply Hin in H1, H2. destruct ys as [|z0 [|z1 zs]] eqn:Ey; [set_solver|set_solver|].
  eapply selected_add; [exact Hsel| |by apply (Hroom xs l (u', lst)); [|rewrite Hl|]].
  intros Hp. destruct (Hys' p Hp) as [k' Hk']. by apply (Hfresh k').
Qed.

Lemma hash_select_correct_witness :
  exists u u' u'', two_elements = Ok u /\ HASH_SELECT (fun _ => true) ut_empty u = Ok u' /\
    HASH_FSCK u' = Ok true /\ HASH_FIND u' [7] = Ok (Some 2%positive) /\
    HASH_ADD_KEYPTR u' 3%positive [9] = Ok u'' /\ HASH_FSCK u'' = Ok false.
Proof.
  destruct two_elements_rep as (u & E & R).
  destruct (hash_select_correct (fun _ => true) u _ R) as (u' & E' & F & G & A).
  - intros xs l st Hi Hl Est.
    assert (xs = [1%positive; 2%positive]) as ->.
    { destruct R as (ys & Hi' & Hm). rewrite (ut_inv_fun u xs ys Hi Hi'). clear Hi.
      vm_compute in E. injection E as <-. unfold ut_inv in Hi'. cbn [head] in Hi'.
      destruct Hi' as (t & cs & Et & Hd & _). injection Et as <-. cbn [tail hhs] in Hd.
      eapply dseg_fun; [exact Hd|]. split; [reflexivity|]. eexists. split; [reflexivity|].
      split; [reflexivity|]. split; [reflexivity|]. eexists. split; [reflexivity|].
      split; [reflexivity|]. split; reflexivity. }
    pose proof (submseteq_length _ _ Hl) as Hlen. cbn in Hlen.
    assert (forall x, x ∈ l -> x = 1%positive \/ x = 2%positive) as Hx.
    { intros x Hx. eapply elem_of_submseteq in Hx; [|exact Hl].
      by apply elem_of_cons in Hx as [?|?%list_elem_of_singleton]; [left|right]. }
    vm_compute in E. injection E as <-.
    destruct l as [|a [|b [|c l]]]; [| | |cbn in Hlen; lia].
    + injection Est as <-. reflexivity.
    + destruct (Hx a) as [-> | ->]; [by left|..]; vm_compute in Est; injection Est as <-;
        reflexivity.
    + destruct (Hx a) as [-> | ->]; [by left|..]; (destruct (Hx b) as [-> | ->]; [by right; left|..]);
        vm_compute in Est; injection Est as <-; reflexivity.
  - assert (select_map (fun _ => true) (<[[7] := 2%positive]> {[ [104; 105] := 1%positive ]}) !! [7]
            = Some 2%positive) as L1.
    { apply map_lookup_filter_Some. split; [apply lookup_insert_eq|done]. }
    destruct (A [7] [104; 105] 2%positive 1%positive 3%positive [9] L1) as (u'' & E'' & F'').
    + apply map_lookup_filter_Some. split; [vm_compute; reflexivity|done].
    + discriminate.
    + intros k' [[_ Hk]|[_ [_ Hk]%lookup_singleton_Some]]%lookup_insert_Some; discriminate.
    + exists u, u', u''. split; [exact E|]. split; [exact E'|]. split; [exact F|].
      split; [rewrite G, L1; reflexivity|]. by split.
Defined.
