(* ===== verification/UtHashes.v ===== *)
(** * UtHashes: the other hash functions of [uthash.h]

    The functions a user may select with [HASH_FUNCTION] instead of the Jenkins
    hash of [UtHash.v]: Bernstein, SAX, FNV-1a, one-at-a-time, Paul Hsieh's and
    Murmur (in the variant for Intel processors, whose words are little endian).
    The key is given by its bytes.  Four of them are shown to lose nothing of a key
    that another differs from in one byte. *)

From stdpp Require Import base tactics list numbers option.
From S2P Require Import Prelude.

(** [hashv = ((hashv << 5) + hashv) + byte] *)
Definition ber_step (hashv k : Z) : Z := u32 (u32 (u32 (Z.shiftl hashv 5) + hashv) + k).
Definition HASH_BER (key : list Z) : Z := foldl ber_step 0 key.

Definition sax_step (hashv k : Z) : Z :=
  Z.lxor hashv (u32 (u32 (u32 (Z.shiftl hashv 5) + Z.shiftr hashv 2) + k)).
Definition HASH_SAX (key : list Z) : Z := foldl sax_step 0 key.

Definition fnv_step (hashv k : Z) : Z := u32 (Z.lxor hashv k * 16777619).
Definition HASH_FNV (key : list Z) : Z := foldl fnv_step 2166136261 key.

Definition oat_step (hashv k : Z) : Z :=
  let hashv := u32 (hashv + k) in
  let hashv := u32 (hashv + u32 (Z.shiftl hashv 10)) in
  Z.lxor hashv (Z.shiftr hashv 6).
Definition HASH_OAT (key : list Z) : Z :=
  let hashv := foldl oat_step 0 key in
  let hashv := u32 (hashv + u32 (Z.shiftl hashv 3)) in
  let hashv := Z.lxor hashv (Z.shiftr hashv 11) in
  u32 (hashv + u32 (Z.shiftl hashv 15)).

(** Two bytes, little endian. *)
Definition get16bits (k0 k1 : Z) : Z := u32 (u32 (Z.shiftl k1 8) + k0).

(** The main loop over blocks of four bytes; the bytes left are returned. *)
Fixpoint sfh_blocks (key : list Z) (hashv : Z) : list Z * Z :=
  match key with
  | k0 :: k1 :: k2 :: k3 :: rest =>
      let hashv := u32 (hashv + get16bits k0 k1) in
      let tmp := Z.lxor (u32 (Z.shiftl (get16bits k2 k3) 11)) hashv in
      let hashv := Z.lxor (u32 (Z.shiftl hashv 16)) tmp in
      let hashv := u32 (hashv + Z.shiftr hashv 11) in
      sfh_blocks rest hashv
  | _ => (key, hashv)
  end.

Definition sfh_tail (rest : list Z) (hashv : Z) : Z :=
  match rest with
  | [k0; k1; k2] =>
      let hashv := u32 (hashv + get16bits k0 k1) in
      let hashv := Z.lxor hashv (u32 (Z.shiftl hashv 16)) in
      let hashv := Z.lxor hashv (u32 (Z.shiftl k2 18)) in
      u32 (hashv + Z.shiftr hashv 11)
  | [k0; k1] =>
      let hashv := u32 (hashv + get16bits k0 k1) in
      let hashv := Z.lxor hashv (u32 (Z.shiftl hashv 11)) in
      u32 (hashv + Z.shiftr hashv 17)
  | [k0] =>
      let hashv := u32 (hashv + k0) in
      let hashv := Z.lxor hashv (u32 (Z.shiftl hashv 10)) in
      u32 (hashv + Z.shiftr hashv 1)
  | _ => hashv
  end.

Definition HASH_SFH (key : list Z) : Z :=
  let '(rest, hashv) := sfh_blocks key 3405691582 in
  let hashv := sfh_tail rest hashv in
  let hashv := Z.lxor hashv (u32 (Z.shiftl hashv 3)) in
  let hashv := u32 (hashv + Z.shiftr hashv 5) in
  let hashv := Z.lxor hashv (u32 (Z.shiftl hashv 4)) in
  let hashv := u32 (hashv + Z.shiftr hashv 17) in
  let hashv := Z.lxor hashv (u32 (Z.shiftl hashv 25)) in
  u32 (hashv + Z.shiftr hashv 6).

Definition MUR_GETBLOCK (k0 k1 k2 k3 : Z) : Z :=
  u32 (k0 + Z.shiftl k1 8 + Z.shiftl k2 16 + Z.shiftl k3 24).
Definition MUR_ROTL32 (x r : Z) : Z := Z.lor (u32 (Z.shiftl x r)) (Z.shiftr x (32 - r)).
Definition MUR_FMIX (h : Z) : Z :=
  let h := Z.lxor h (Z.shiftr h 16) in
  let h := u32 (h * 0x85ebca6b) in
  let h := Z.lxor h (Z.shiftr h 13) in
  let h := u32 (h * 0xc2b2ae35) in
  Z.lxor h (Z.shiftr h 16).

(** [_mur_k1] on its way from the key into the hash. *)
Definition mur_k1 (k : Z) : Z :=
  let k := u32 (k * 0xcc9e2d51) in
  let k := MUR_ROTL32 k 15 in
  u32 (k * 0x1b873593).

Fixpoint mur_blocks (key : list Z) (h1 : Z) : list Z * Z :=
  match key with
  | k0 :: k1 :: k2 :: k3 :: rest =>
      let h1 := Z.lxor h1 (mur_k1 (MUR_GETBLOCK k0 k1 k2 k3)) in
      let h1 := MUR_ROTL32 h1 13 in
      mur_blocks rest (u32 (u32 (h1 * 5) + 0xe6546b64))
  | _ => (key, h1)
  end.

(** The cases fall through: the higher bytes join the lower ones. *)
Definition mur_tail (rest : list Z) (h1 : Z) : Z :=
  match rest with
  | [k0] => Z.lxor h1 (mur_k1 (Z.lxor 0 k0))
  | [k0; k1] => Z.lxor h1 (mur_k1 (Z.lxor (Z.lxor 0 (u32 (Z.shiftl k1 8))) k0))
  | [k0; k1; k2] =>
      Z.lxor h1 (mur_k1 (Z.lxor (Z.lxor (Z.lxor 0 (u32 (Z.shiftl k2 16)))
                                   (u32 (Z.shiftl k1 8))) k0))
  | _ => h1
  end.

(** For keys of less than [2^31] bytes: the number of blocks is an [int]. *)
Definition HASH_MUR (key : list Z) : Z :=
  let '(rest, h1) := mur_blocks key 0xf88D5353 in
  let h1 := mur_tail rest h1 in
  MUR_FMIX (Z.lxor h1 (u32 (zlen key))).

(** ** Properties *)

(** Known values of FNV-1a: the offset basis, and the hash of "a". *)
Example fnv_empty : HASH_FNV [] = 2166136261.
Proof. reflexivity. Qed.
Example fnv_a : HASH_FNV [97] = 0xe40c292c.
Proof. reflexivity. Qed.

(** 32-bit values are closed under exclusive or. *)
Lemma lxor_u32 a b : 0 <= a < 2 ^ 32 -> 0 <= b < 2 ^ 32 -> 0 <= Z.lxor a b < 2 ^ 32.
Proof.
  intros Ha Hb. assert (Z.lxor a b = Z.lxor a b mod 2 ^ 32) as ->; [|apply Z.mod_pos_bound; lia].
  apply Z.bits_inj'. intros n Hn. destruct (Z.lt_ge_cases n 32).
  - by rewrite Z.mod_pow2_bits_low.
  - rewrite Z.mod_pow2_bits_high, Z.lxor_spec by lia.
    rewrite <- (Z.mod_small a (2 ^ 32)), <- (Z.mod_small b (2 ^ 32)) by done.
    by rewrite !Z.mod_pow2_bits_high by lia.
Qed.

Lemma fold_range (f : Z -> Z -> Z) h key :
  (forall h k, 0 <= h < 2 ^ 32 -> byte_ok k -> 0 <= f h k < 2 ^ 32) ->
  0 <= h < 2 ^ 32 -> Forall byte_ok key -> 0 <= foldl f h key < 2 ^ 32.
Proof.
  intros Hf Hh Hk. revert h Hh. induction Hk as [|k key Hk1 Hk IH]; intros h Hh; [done|].
  cbn. apply IH, Hf; done.
Qed.

(** The range of Murmur's operations. *)
Lemma lor_u32 a b : 0 <= a < 2 ^ 32 -> 0 <= b < 2 ^ 32 -> 0 <= Z.lor a b < 2 ^ 32.
Proof.
  intros Ha Hb. assert (Z.lor a b = Z.lor a b mod 2 ^ 32) as ->; [|apply Z.mod_pos_bound; lia].
  apply Z.bits_inj'. intros n Hn. destruct (Z.lt_ge_cases n 32).
  - by rewrite Z.mod_pow2_bits_low.
  - rewrite Z.mod_pow2_bits_high, Z.lor_spec by lia.
    rewrite <- (Z.mod_small a (2 ^ 32)), <- (Z.mod_small b (2 ^ 32)) by done.
    by rewrite !Z.mod_pow2_bits_high by lia.
Qed.

Lemma shiftr_u32 a r : 0 <= a < 2 ^ 32 -> 0 <= r -> 0 <= Z.shiftr a r < 2 ^ 32.
Proof.
  intros Ha Hr. rewrite Z.shiftr_div_pow2 by done.
  pose proof (Z.pow_pos_nonneg 2 r ltac:(lia) Hr). split; [apply Z.div_pos; lia|].
  apply Z.div_lt_upper_bound; nia.
Qed.

Lemma xorshift_range h r : 0 <= h < 2 ^ 32 -> 0 <= r -> 0 <= Z.lxor h (Z.shiftr h r) < 2 ^ 32.
Proof. intros Hh Hr. apply lxor_u32; [done|by apply shiftr_u32]. Qed.

Lemma MUR_FMIX_range h : 0 <= h < 2 ^ 32 -> 0 <= MUR_FMIX h < 2 ^ 32.
Proof. intros _. unfold MUR_FMIX. apply xorshift_range; [apply u32_range|lia]. Qed.

Lemma mur_blocks_range n : forall key h,
  (length key <= n)%nat -> 0 <= h < 2 ^ 32 -> 0 <= (mur_blocks key h).2 < 2 ^ 32.
Proof.
  induction n as [|n IH]; intros key h Hl Hh; (destruct key as [|k0 [|k1 [|k2 [|k3 key]]]]; try done).
  - cbn in Hl. lia.
  - cbn [mur_blocks]. apply IH; [cbn in Hl; lia|apply u32_range].
Qed.

Lemma mur_k1_range k : 0 <= mur_k1 k < 2 ^ 32.
Proof. apply u32_range. Qed.

Lemma mur_tail_range rest h : 0 <= h < 2 ^ 32 -> 0 <= mur_tail rest h < 2 ^ 32.
Proof.
  intros Hh. destruct rest as [|k0 [|k1 [|k2 [|k3 rest]]]]; try done;
    (apply lxor_u32; [done|apply mur_k1_range]).
Qed.

Lemma HASH_MUR_range key : 0 <= HASH_MUR key < 2 ^ 32.
Proof.
  unfold HASH_MUR.
  pose proof (mur_blocks_range (length key) key 0xf88D5353 (le_n _) ltac:(lia)) as Hb.
  destruct (mur_blocks key _) as [rest h]. apply MUR_FMIX_range, lxor_u32; [|apply u32_range].
  by apply mur_tail_range.
Qed.

(** Murmur's final mixing loses nothing: its steps can be undone. *)
Lemma xorshift_inj r a b :
  0 < r -> 0 <= a < 2 ^ 32 -> 0 <= b < 2 ^ 32 ->
  Z.lxor a (Z.shiftr a r) = Z.lxor b (Z.shiftr b r) -> a = b.
Proof.
  intros Hr Ha Hb E.
  assert (forall n i, (0 <= i) -> 32 - i <= Z.of_nat n -> Z.testbit a i = Z.testbit b i) as Hbits.
  { induction n as [|n IH]; intros i Hi Hn.
    - rewrite <- (Z.mod_small a (2 ^ 32)), <- (Z.mod_small b (2 ^ 32)) by done.
      by rewrite !Z.mod_pow2_bits_high by lia.
    - assert (Z.testbit (Z.lxor a (Z.shiftr a r)) i = Z.testbit (Z.lxor b (Z.shiftr b r)) i)
        as Ei by (by rewrite E).
      rewrite !Z.lxor_spec, !Z.shiftr_spec, (IH (i + r)) in Ei by lia.
      by destruct (Z.testbit a i), (Z.testbit b i), (Z.testbit b (i + r)). }
  apply Z.bits_inj'. intros i Hi. apply (Hbits 32%nat); lia.
Qed.

Lemma u32_mul_inj c c' a b :
  u32 (c * c') = 1 -> 0 <= a < 2 ^ 32 -> 0 <= b < 2 ^ 32 -> u32 (a * c) = u32 (b * c) -> a = b.
Proof.
  intros Hc Ha Hb E.
  assert (forall x, 0 <= x < 2 ^ 32 -> u32 (u32 (x * c) * c') = x) as Hinv.
  { intros x Hx. rewrite u32_mul_l, <- Z.mul_assoc, (Z.mul_comm x), <- u32_mul_l, Hc.
    rewrite Z.mul_1_l. by apply u32_small. }
  by rewrite <- (Hinv a Ha), <- (Hinv b Hb), E.
Qed.

Lemma MUR_FMIX_inj a b :
  0 <= a < 2 ^ 32 -> 0 <= b < 2 ^ 32 -> MUR_FMIX a = MUR_FMIX b -> a = b.
Proof.
  intros Ha Hb E. unfold MUR_FMIX in E.
  apply xorshift_inj in E; [|lia|apply u32_range..].
  apply (u32_mul_inj _ 0x7ed1b41d) in E; [|reflexivity|apply xorshift_range; [apply u32_range|lia]..].
  apply xorshift_inj in E; [|lia|apply u32_range..].
  apply (u32_mul_inj _ 0xa5cb9243) in E; [|reflexivity|by apply xorshift_range..].
  by apply xorshift_inj in E.
Qed.

(** The Bernstein hash is the polynomial with the key's bytes for coefficients,
    at 33, modulo [2^32]. *)
Fixpoint poly33 (h : Z) (key : list Z) : Z :=
  match key with
  | [] => h
  | k :: key => poly33 (h * 33 + k) key
  end.

Lemma ber_step_eq h k : ber_step h k = u32 (h * 33 + k).
Proof.
  unfold ber_step. rewrite Z.shiftl_mul_pow2, !u32_add_l by lia.
  rewrite <- Z.add_assoc, u32_add_l. f_equal. lia.
Qed.

Lemma poly33_mod h h' key : u32 h = u32 h' -> u32 (poly33 h key) = u32 (poly33 h' key).
Proof.
  revert h h'. induction key as [|k key IH]; intros h h' E; cbn; [exact E|]. apply IH.
  by rewrite <- u32_add_l, <- u32_mul_l, E, u32_mul_l, u32_add_l.
Qed.

Lemma ber_fold h key : h = u32 h -> foldl ber_step h key = u32 (poly33 h key).
Proof.
  revert h. induction key as [|k key IH]; intros h Hh; cbn; [exact Hh|].
  rewrite ber_step_eq, IH by (by rewrite u32_idem). apply poly33_mod. apply u32_idem.
Qed.

Lemma poly33_app h k1 k2 : poly33 h (k1 ++ k2) = poly33 (poly33 h k1) k2.
Proof. revert h. induction k1 as [|k k1 IH]; intros h; cbn; [done|apply IH]. Qed.

Lemma poly33_shift h key : poly33 h key = h * 33 ^ zlen key + poly33 0 key.
Proof.
  revert h. induction key as [|k key IH]; intros h; cbn [poly33].
  - change (zlen []) with 0. lia.
  - rewrite IH, (IH (0 * 33 + k)). assert (zlen (k :: key) = 1 + zlen key) as ->
      by (unfold zlen; cbn [length]; lia).
    rewrite Z.pow_add_r by (pose proof (zlen_nonneg key); lia). lia.
Qed.

Lemma HASH_BER_poly key : HASH_BER key = poly33 0 key mod 2 ^ 32.
Proof. by apply ber_fold. Qed.

(** The hash of a concatenation, from the hashes of the parts. *)
Lemma HASH_BER_app k1 k2 :
  HASH_BER (k1 ++ k2) = (HASH_BER k1 * 33 ^ zlen k2 + HASH_BER k2) mod 2 ^ 32.
Proof.
  rewrite !HASH_BER_poly, poly33_app, poly33_shift.
  fold (u32 (poly33 0 k1)) (u32 (poly33 0 k2)).
  fold (u32 (u32 (poly33 0 k1) * 33 ^ zlen k2 + u32 (poly33 0 k2))).
  by rewrite u32_add_r, <- (u32_add_l (u32 _ * _)), u32_mul_l, u32_add_l.
Qed.

(** Published values of the functions, which pin their constants and shifts. *)
Example fnv_foobar : HASH_FNV [102; 111; 111; 98; 97; 114] = 0xbf9cf968.
Proof. reflexivity. Qed.
Example oat_a : HASH_OAT [97] = 0xca2e9442.
Proof. reflexivity. Qed.

(** ** One changed byte changes the hash *)

Lemma lxor_inj_r a b c : Z.lxor a c = Z.lxor b c -> a = b.
Proof.
  intros E. apply (f_equal (fun x => Z.lxor x c)) in E.
  by rewrite !Z.lxor_assoc, !Z.lxor_nilpotent, !Z.lxor_0_r in E.
Qed.
Lemma lxor_inj_l a b c : Z.lxor c a = Z.lxor c b -> a = b.
Proof. rewrite !(Z.lxor_comm c). apply lxor_inj_r. Qed.

Lemma u32_add_inj c a b :
  0 <= a < 2 ^ 32 -> 0 <= b < 2 ^ 32 -> u32 (a + c) = u32 (b + c) -> a = b.
Proof. unfold u32. intros Ha Hb E. zlia. Qed.

Lemma byte_u32 b : byte_ok b -> 0 <= b < 2 ^ 32.
Proof. unfold byte_ok. lia. Qed.

Section Fold.
Context (f : Z -> Z -> Z).
Hypothesis f_range : forall h k, 0 <= h < 2 ^ 32 -> byte_ok k -> 0 <= f h k < 2 ^ 32.
Hypothesis f_state : forall h h' k, 0 <= h < 2 ^ 32 -> 0 <= h' < 2 ^ 32 -> byte_ok k ->
  f h k = f h' k -> h = h'.
Hypothesis f_byte : forall h b b', 0 <= h < 2 ^ 32 -> byte_ok b -> byte_ok b' ->
  f h b = f h b' -> b = b'.

Lemma fold_state key h h' :
  Forall byte_ok key -> 0 <= h < 2 ^ 32 -> 0 <= h' < 2 ^ 32 ->
  foldl f h key = foldl f h' key -> h = h'.
Proof using f_range f_state.
  intros Hk. revert h h'. induction Hk as [|k key Hk1 Hk IH]; intros h h' Hh Hh' E; [done|].
  apply IH in E; [by eapply f_state|by apply f_range..].
Qed.

Lemma fold_byte pre b b' post h :
  Forall byte_ok (pre ++ post) -> byte_ok b -> byte_ok b' -> 0 <= h < 2 ^ 32 ->
  foldl f h (pre ++ b :: post) = foldl f h (pre ++ b' :: post) -> b = b'.
Proof using f_range f_state f_byte.
  intros [Hpre Hpost]%Forall_app Hb Hb' Hh. rewrite !foldl_app. cbn [foldl].
  pose proof (fold_range f h pre f_range Hh Hpre) as Hr.
  intros E. apply fold_state in E; [by eapply f_byte|done|by apply f_range..].
Qed.
End Fold.

(** No two keys that differ in one byte collide. *)
Definition sensitive (hash : list Z -> Z) : Prop := forall pre b b' post,
  Forall byte_ok (pre ++ post) -> byte_ok b -> byte_ok b' ->
  hash (pre ++ b :: post) = hash (pre ++ b' :: post) -> b = b'.

Lemma ber_sensitive : sensitive HASH_BER.
Proof.
  intros pre b b' post Hk Hb Hb'. apply (fold_byte ber_step); try done.
  - intros. apply u32_range.
  - intros h h' k Hh Hh' _. rewrite !ber_step_eq, <- !(u32_add_l (_ * 33)).
    intros E%u32_add_inj; try apply u32_range. by eapply (u32_mul_inj 33 0x3e0f83e1).
  - intros h x y Hh Hx Hy. rewrite !ber_step_eq, !(Z.add_comm (h * 33)).
    apply u32_add_inj; by apply byte_u32.
Qed.

Lemma fnv_sensitive : sensitive HASH_FNV.
Proof.
  assert (forall a b, 0 <= a < 2 ^ 32 -> 0 <= b < 2 ^ 32 -> u32 (a * 16777619) = u32 (b * 16777619) ->
    a = b) as Hinj by (intros a b; by apply (u32_mul_inj 16777619 0x359c449b)).
  intros pre b b' post Hk Hb Hb'. apply (fold_byte fnv_step); try done.
  - intros. apply u32_range.
  - intros h h' k Hh Hh' Hk'%byte_u32 E%Hinj; [by eapply lxor_inj_r|by apply lxor_u32..].
  - intros h x y Hh Hx%byte_u32 Hy%byte_u32 E%Hinj; [by eapply lxor_inj_l|by apply lxor_u32..].
Qed.

(** [h += h << r] is a multiplication. *)
Lemma add_shiftl_mul h r : 0 <= r -> u32 (h + u32 (Z.shiftl h r)) = u32 (h * (1 + 2 ^ r)).
Proof. intros Hr. rewrite u32_add_r, Z.shiftl_mul_pow2 by done. f_equal. lia. Qed.

(** The second half of a step of [HASH_OAT]. *)
Lemma oat_mix_inj a b :
  0 <= a < 2 ^ 32 -> 0 <= b < 2 ^ 32 ->
  (let h := u32 (a + u32 (Z.shiftl a 10)) in Z.lxor h (Z.shiftr h 6)) =
  (let h := u32 (b + u32 (Z.shiftl b 10)) in Z.lxor h (Z.shiftr h 6)) -> a = b.
Proof.
  intros Ha Hb. cbv zeta. rewrite !add_shiftl_mul by lia. intros E%xorshift_inj; [|lia|apply u32_range..].
  apply (u32_mul_inj _ 0xc00ffc01) in E; done.
Qed.

Lemma oat_sensitive : sensitive HASH_OAT.
Proof.
  intros pre b b' post Hk Hb Hb' E. unfold HASH_OAT in E. rewrite !add_shiftl_mul in E by lia.
  assert (forall h k, 0 <= oat_step h k < 2 ^ 32) as Hr
    by (intros h k; apply xorshift_range; [apply u32_range|lia]).
  assert (forall key, 0 <= foldl oat_step 0 key < 2 ^ 32) as Hf.
  { intros key. destruct key as [|k key _] using rev_ind; [done|]. rewrite foldl_app. apply Hr. }
  apply (u32_mul_inj _ 0x3fff8001) in E; [|reflexivity|apply xorshift_range; [apply u32_range|lia]..].
  apply xorshift_inj in E; [|lia|apply u32_range..].
  apply (u32_mul_inj _ 0x38e38e39) in E; [|reflexivity|apply Hf..].
  revert E. apply (fold_byte oat_step); try done.
  - intros h h' k Hh Hh' Hk' E%oat_mix_inj; [by eapply u32_add_inj|apply u32_range..].
  - intros h x y Hh Hx%byte_u32 Hy%byte_u32 E%oat_mix_inj; [|apply u32_range..].
    rewrite !(Z.add_comm h) in E. by eapply u32_add_inj.
Qed.

(** Murmur: a rotation, the scrambling of a word and a round lose nothing. *)
Lemma ROTL32_bit x r i :
  0 <= x < 2 ^ 32 -> 0 < r < 32 -> 0 <= i < 32 ->
  Z.testbit (MUR_ROTL32 x r) i =
  (if decide (i < r) then Z.testbit x (i + (32 - r)) else Z.testbit x (i - r)).
Proof.
  intros Hx Hr Hi. unfold MUR_ROTL32, u32. rewrite Z.lor_spec, Z.mod_pow2_bits_low by lia.
  rewrite Z.shiftl_spec, Z.shiftr_spec by lia. case_decide.
  - by rewrite (Z.testbit_neg_r x (i - r)) by lia.
  - rewrite <- (Z.mod_small x (2 ^ 32)) at 2 by done.
    by rewrite (Z.mod_pow2_bits_high _ _ (i + (32 - r))), orb_false_r by lia.
Qed.

Lemma ROTL32_inj r a b :
  0 < r < 32 -> 0 <= a < 2 ^ 32 -> 0 <= b < 2 ^ 32 -> MUR_ROTL32 a r = MUR_ROTL32 b r -> a = b.
Proof.
  intros Hr Ha Hb E. apply Z.bits_inj'. intros i Hi.
  destruct (Z.lt_ge_cases i 32).
  - destruct (Z.lt_ge_cases i (32 - r)).
    + apply (f_equal (fun x => Z.testbit x (i + r))) in E. rewrite !ROTL32_bit in E by lia.
      rewrite !decide_False in E by lia. by replace (i + r - r) with i in E by lia.
    + apply (f_equal (fun x => Z.testbit x (i - (32 - r)))) in E. rewrite !ROTL32_bit in E by lia.
      rewrite !decide_True in E by lia. by replace (i - (32 - r) + (32 - r)) with i in E by lia.
  - rewrite <- (Z.mod_small a (2 ^ 32)), <- (Z.mod_small b (2 ^ 32)) by done.
    by rewrite !Z.mod_pow2_bits_high by lia.
Qed.

Lemma ROTL32_range x r : 0 <= x < 2 ^ 32 -> 0 < r < 32 -> 0 <= MUR_ROTL32 x r < 2 ^ 32.
Proof. intros Hx Hr. apply lor_u32; [apply u32_range|apply shiftr_u32; [done|lia]]. Qed.

Lemma mur_k1_inj a b : 0 <= a < 2 ^ 32 -> 0 <= b < 2 ^ 32 -> mur_k1 a = mur_k1 b -> a = b.
Proof.
  intros Ha Hb E. unfold mur_k1 in E.
  apply (u32_mul_inj _ 0x56ed309b) in E; [|reflexivity|apply ROTL32_range; [apply u32_range|lia]..].
  apply ROTL32_inj in E; [|lia|apply u32_range..].
  by apply (u32_mul_inj _ 0xdee13bb1) in E.
Qed.

(** A round of [mur_blocks]. *)
Definition mur_round (h k : Z) : Z :=
  u32 (u32 (MUR_ROTL32 (Z.lxor h (mur_k1 k)) 13 * 5) + 0xe6546b64).

Lemma mur_round_inj h h' k k' :
  0 <= h < 2 ^ 32 -> 0 <= h' < 2 ^ 32 ->
  mur_round h k = mur_round h' k' -> Z.lxor h (mur_k1 k) = Z.lxor h' (mur_k1 k').
Proof.
  intros Hh Hh' E. pose proof (mur_k1_range k). pose proof (mur_k1_range k').
  apply u32_add_inj in E; [|apply u32_range..].
  apply (u32_mul_inj _ 0xcccccccd) in E; [|reflexivity|apply ROTL32_range; [by apply lxor_u32|lia]..].
  by apply ROTL32_inj in E; [|lia|apply lxor_u32..].
Qed.

(** The hash of Murmur before its final mixing. *)
Definition mur_core (key : list Z) (h : Z) : Z :=
  let '(rest, h) := mur_blocks key h in mur_tail rest h.

Lemma mur_core_block k0 k1 k2 k3 key h :
  mur_core (k0 :: k1 :: k2 :: k3 :: key) h = mur_core key (mur_round h (MUR_GETBLOCK k0 k1 k2 k3)).
Proof. done. Qed.

Lemma mur_core_state n : forall key h h',
  (length key <= n)%nat -> 0 <= h < 2 ^ 32 -> 0 <= h' < 2 ^ 32 ->
  mur_core key h = mur_core key h' -> h = h'.
Proof.
  induction n as [|n IH]; intros key h h' Hl Hh Hh' E;
    (destruct key as [|k0 [|k1 [|k2 [|k3 key]]]];
       [exact E|by apply lxor_inj_r in E|by apply lxor_inj_r in E|by apply lxor_inj_r in E|]).
  - cbn in Hl. lia.
  - rewrite !mur_core_block in E. apply IH in E; [|cbn in Hl; lia|apply u32_range..].
    apply mur_round_inj in E; [|done..]. by apply lxor_inj_r in E.
Qed.

Lemma GETBLOCK_eq k0 k1 k2 k3 :
  byte_ok k0 -> byte_ok k1 -> byte_ok k2 -> byte_ok k3 ->
  MUR_GETBLOCK k0 k1 k2 k3 = k0 + k1 * 2 ^ 8 + k2 * 2 ^ 16 + k3 * 2 ^ 24.
Proof.
  unfold byte_ok, MUR_GETBLOCK. intros. rewrite !Z.shiftl_mul_pow2 by lia. apply u32_small. lia.
Qed.

Lemma shiftl_byte b r : byte_ok b -> 0 <= r <= 24 -> u32 (Z.shiftl b r) = b * 2 ^ r.
Proof.
  unfold byte_ok. intros Hb Hr. rewrite Z.shiftl_mul_pow2 by lia. apply u32_small.
  pose proof (Z.pow_le_mono_r 2 r 24 ltac:(lia) ltac:(lia)).
  pose proof (Z.pow_pos_nonneg 2 r ltac:(lia) ltac:(lia)). nia.
Qed.

Lemma mur_block_byte h k k' n key :
  (length key <= n)%nat -> 0 <= h < 2 ^ 32 -> 0 <= k < 2 ^ 32 -> 0 <= k' < 2 ^ 32 ->
  mur_core key (mur_round h k) = mur_core key (mur_round h k') -> k = k'.
Proof.
  intros Hl Hh Hk Hk' E. apply (mur_core_state n) in E; [|done|apply u32_range..].
  apply mur_round_inj in E; [|done..]. apply lxor_inj_l in E. by apply mur_k1_inj in E.
Qed.

Ltac mur_range := repeat first [done | apply lxor_u32 | apply u32_range | by apply byte_u32].

(** Strip the tail's words, which are equal, down to the changed byte. *)
Ltac mur_peel E :=
  apply lxor_inj_l in E; apply mur_k1_inj in E; [|mur_range..];
  repeat first [apply lxor_inj_r in E | apply lxor_inj_l in E];
  rewrite ?shiftl_byte in E by (done || lia); lia.

(** A changed byte of the last one to three bytes. *)
Lemma mur_tail_byte h pre b b' post :
  Forall byte_ok (pre ++ post) -> byte_ok b -> byte_ok b' -> (length (pre ++ post) <= 2)%nat ->
  mur_tail (pre ++ b :: post) h = mur_tail (pre ++ b' :: post) h -> b = b'.
Proof.
  intros Hk Hb Hb' Hl E.
  destruct pre as [|x [|y [|z pre]]], post as [|u [|v [|w post]]]; cbn in Hl; try lia;
    cbn [app mur_tail] in Hk, E; rewrite ?Forall_cons_iff in Hk; destruct_and?; mur_peel E.
Qed.

Lemma mur_core_short key h : (length key <= 3)%nat -> mur_core key h = mur_tail key h.
Proof. intros Hl. destruct key as [|k0 [|k1 [|k2 [|k3 key]]]]; [done..|cbn in Hl; lia]. Qed.

(** A changed byte of a block. *)
Lemma mur_first_block pre b b' post h :
  Forall byte_ok (pre ++ post) -> byte_ok b -> byte_ok b' -> 0 <= h < 2 ^ 32 ->
  (length pre <= 3)%nat -> (3 <= length (pre ++ post))%nat ->
  mur_core (pre ++ b :: post) h = mur_core (pre ++ b' :: post) h -> b = b'.
Proof.
  intros Hk Hb Hb' Hh Hl Hl' E.
  destruct pre as [|x [|y [|z [|? pre]]]]; [| | | |cbn in Hl; lia];
    destruct post as [|u [|v [|w post]]]; try (cbn in Hl'; lia);
    cbn [app] in Hk, E; rewrite ?Forall_cons_iff in Hk; destruct_and?;
    rewrite !mur_core_block in E; eapply mur_block_byte in E; try done;
    try apply u32_range; rewrite !GETBLOCK_eq in E by done; lia.
Qed.

Lemma mur_core_byte n : forall pre b b' post h,
  (length pre <= n)%nat -> Forall byte_ok (pre ++ post) -> byte_ok b -> byte_ok b' ->
  0 <= h < 2 ^ 32 ->
  mur_core (pre ++ b :: post) h = mur_core (pre ++ b' :: post) h -> b = b'.
Proof.
  induction n as [n IH] using lt_wf_ind. intros pre b b' post h Hn Hk Hb Hb' Hh E.
  destruct (decide (length pre <= 3)%nat) as [Hs|Hs].
  - destruct (decide (3 <= length (pre ++ post))%nat) as [Hp|Hp]; [by eapply mur_first_block|].
    rewrite length_app in Hp.
    rewrite !mur_core_short in E by (rewrite length_app; cbn [length]; lia).
    eapply mur_tail_byte; [done..| |done]. rewrite length_app. lia.
  - destruct pre as [|k0 [|k1 [|k2 [|k3 pre]]]]; try (cbn in Hs; lia).
    cbn [app] in Hk, E. rewrite !Forall_cons_iff in Hk. destruct_and?. rewrite !mur_core_block in E.
    cbn in Hn. eapply (IH (length pre)); [lia|done..| |exact E]. apply u32_range.
Qed.

Lemma mur_sensitive : sensitive HASH_MUR.
Proof.
  intros pre b b' post Hk Hb Hb' E.
  assert (forall key, HASH_MUR key = MUR_FMIX (Z.lxor (mur_core key 0xf88D5353) (u32 (zlen key))))
    as Heq by (intros key; unfold HASH_MUR, mur_core; by destruct (mur_blocks key _)).
  assert (forall key, 0 <= mur_core key 0xf88D5353 < 2 ^ 32) as Hr.
  { intros key. unfold mur_core.
    pose proof (mur_blocks_range (length key) key 0xf88D5353 (le_n _) ltac:(lia)).
    destruct (mur_blocks key _). by apply mur_tail_range. }
  rewrite !Heq in E. apply MUR_FMIX_inj in E; [|apply lxor_u32; [apply Hr|apply u32_range]..].
  assert (zlen (pre ++ b :: post) = zlen (pre ++ b' :: post)) as El
    by (unfold zlen; by rewrite !length_app).
  rewrite El in E. apply lxor_inj_r in E. apply (mur_core_byte (length pre)) in E; try done; lia.
Qed.

(** C33. The Bernstein hash is the polynomial of the key's bytes at 33, modulo
    [2^32]; and no two keys of the same length that differ in exactly one byte,
    whatever its position (in a block or in the one to three bytes of the tail),
    have the same Bernstein, FNV-1a, one-at-a-time or Murmur hash: each step of
    the loop, each case of the tail and the final mixing lose nothing.  (The
    SAX and Hsieh functions are modelled, but their steps [h + (h >> r)] are not
    injective and the claim does not extend to them.) *)
Theorem one_byte_changes_hash :
  (forall key, HASH_BER key = poly33 0 key mod 2 ^ 32) /\
  sensitive HASH_BER /\ sensitive HASH_FNV /\ sensitive HASH_OAT /\ sensitive HASH_MUR.
Proof.
  split; [exact HASH_BER_poly|]. split; [exact ber_sensitive|]. split; [exact fnv_sensitive|].
  split; [exact oat_sensitive|exact mur_sensitive].
Qed.

(** The third byte of a tail and the second of a block. *)
Lemma one_byte_changes_hash_witness :
  HASH_MUR [1; 2; 3; 4; 5; 6; 7] <> HASH_MUR [1; 2; 3; 4; 5; 6; 8] /\
  HASH_OAT [1; 2; 3] <> HASH_OAT [1; 9; 3].
Proof.
  destruct one_byte_changes_hash as (_ & _ & _ & Hoat & Hmur).
  assert (forall b, (0 <=? b) && (b <? 256) = true -> byte_ok b) as Hby
    by (intros b Hb%andb_prop; unfold byte_ok; lia).
  split; intros E.
  - apply (Hmur [1; 2; 3; 4; 5; 6] 7 8 []) in E;
      [discriminate E|repeat constructor; by apply Hby|by apply Hby..].
  - apply (Hoat [1] 2 9 [3]) in E;
      [discriminate E|repeat constructor; by apply Hby|by apply Hby..].
Defined.
