(* ===== verification/UtOom.v ===== *)
(** * UtOom: failing allocation in [uthash.h]

    With [HASH_NONFATAL_OOM] a failing [malloc] does not end the process: the
    macros record it, undo what they did, and call [uthash_nonfatal_oom].  This
    file models that variant of [HASH_MAKE_TABLE], [HASH_EXPAND_BUCKETS],
    [HASH_ADD_TO_BKT], [HASH_ROLLBACK_BKT], [HASH_ADD_TO_TABLE] and
    [HASH_ADD_KEYPTR], and shows that an element that cannot be added leaves
    the table exactly as it was.  The field [hh.tbl] of every element, which these
    paths set and a user may test, is kept in a map of its own ([tbl_fields]). *)

From stdpp Require Import base tactics list numbers option gmap.
From S2P Require Import Prelude KeyTable UtHash UtExtra.

Lemma u32_inc_dec x : u32 (u32 (x + 1) - 1) = u32 x.
Proof.
  replace (u32 (x + 1) - 1) with (u32 (x + 1) + -1) by lia. rewrite u32_add_l. f_equal. lia.
Qed.

(** The field [hh.tbl] of an element: NULL, the table of the head pointer, or a table
    that has been freed. *)
Inductive tbl_field : Type := TblNull | TblTable | TblFreed.
Abbreviation tbl_fields := (gmap ptr tbl_field).

Section Oom.
(** Whether [uthash_malloc] finds that many bytes, during one insertion. *)
Context (uthash_malloc : Z -> bool).

(** [None]: [oomed]; what was allocated is freed again.  With the field [hh.tbl] of
    the element. *)
Definition HASH_MAKE_TABLE_oom (p : ptr) : option UT_hash_table * tbl_field :=
  if negb (uthash_malloc sizeof_UT_hash_table) then (None, TblNull)
  else if negb (uthash_malloc (HASH_INITIAL_NUM_BUCKETS * sizeof_UT_hash_bucket))
  then (None, TblFreed)
  else (Some (HASH_MAKE_TABLE p), TblTable).

(** The flag is [oomed]; a failed expansion changes nothing. *)
Definition HASH_EXPAND_BUCKETS_oom (H : handles) (t : UT_hash_table)
    : res (handles * UT_hash_table * bool) :=
  if negb (uthash_malloc (u64 (u64 (2 * num_buckets t) * sizeof_UT_hash_bucket)))
  then Ok (H, t, true)
  else '(H, t) ← HASH_EXPAND_BUCKETS H t; Ok (H, t, false).

Definition set_buckets (bs : list UT_hash_bucket) (t : UT_hash_table) : UT_hash_table :=
  mkTable bs (num_buckets t) (log2_num_buckets t) (num_items t) (tail t)
    (ideal_chain_maxlen t) (nonideal_items t) (ineff_expands t) (noexpand t).

(** The element is taken out of its bucket again when the expansion failed. *)
Definition HASH_ADD_TO_BKT_oom (H : handles) (t : UT_hash_table) (i : Z) (p : ptr)
    : res (handles * UT_hash_table * bool) :=
  b ← get_bucket (buckets t) i;
  let cnt := u32 (count b + 1) in
  H ← upd_hh H p (fun h => set_hh_prev None (set_hh_next (hh_head b) h));
  H ← upd_hh_opt H (hh_head b) (set_hh_prev (Some p));
  let t := set_buckets (<[Z.to_nat i := mkBucket (Some p) cnt (expand_mult b)]> (buckets t)) t in
  if (u32 (u32 (expand_mult b + 1) * HASH_BKT_CAPACITY_THRESH) <=? cnt)
       && (noexpand t =? 0)
  then
    '(H, t, oomed) ← HASH_EXPAND_BUCKETS_oom H t;
    if (oomed : bool) then
      '(H, bs) ← HASH_DEL_IN_BKT H (buckets t) i p;
      Ok (H, set_buckets bs t, true)
    else Ok (H, t, false)
  else Ok (H, t, false).

(** Make the bucket ready for the [HASH_DEL_IN_BKT] that [HASH_DELETE_HH] is
    going to do: count the element again and forget its links. *)
Definition HASH_ROLLBACK_BKT (H : handles) (t : UT_hash_table) (p : ptr)
    : res (handles * UT_hash_table) :=
  h ← get_hh H p;
  let i := HASH_TO_BKT (hashv h) (num_buckets t) in
  b ← get_bucket (buckets t) i;
  H ← upd_hh H p (fun h => set_hh_prev None (set_hh_next None h));
  Ok (H, set_buckets (<[Z.to_nat i := mkBucket (hh_head b) (u32 (count b + 1))
                                        (expand_mult b)]> (buckets t)) t).

(** The flag: [uthash_nonfatal_oom] was called, with [(add)->hh.tbl] set to NULL. *)
Definition HASH_ADD_TO_TABLE_oom (u : uthash) (ts : tbl_fields) (hv : Z) (p : ptr)
    (oomed : bool) : res (uthash * tbl_fields * bool) :=
  if oomed then Ok (u, <[p := TblNull]> ts, true) else
  t ← deref (tbl u);
  let t := mkTable (buckets t) (num_buckets t) (log2_num_buckets t) (u32 (num_items t + 1))
             (tail t) (ideal_chain_maxlen t) (nonideal_items t) (ineff_expands t)
             (noexpand t) in
  '(H, t, oomed) ← HASH_ADD_TO_BKT_oom (hhs u) t (HASH_TO_BKT hv (num_buckets t)) p;
  if (oomed : bool) then
    '(H, t) ← HASH_ROLLBACK_BKT H t p;
    u ← HASH_DELETE (mkUt (head u) (Some t) H) p;
    Ok (u, <[p := TblNull]> ts, true)
  else Ok (mkUt (head u) (Some t) H, ts, false).

(** The table is reached through the field of the head, which is copied. *)
Definition HASH_ADD_KEYPTR_oom (u : uthash) (ts : tbl_fields) (p : ptr) (key : list Z)
    : res (uthash * tbl_fields * bool) :=
  let hv := HASH_JEN key in
  let H := <[p := mkHandle None None None None key (u32 (zlen key)) hv]> (hhs u) in
  match head u with
  | None =>
      let '(t, f) := HASH_MAKE_TABLE_oom p in
      let ts := <[p := f]> ts in
      match t with
      | None => HASH_ADD_TO_TABLE_oom (mkUt None (tbl u) H) ts hv p true
      | Some t => HASH_ADD_TO_TABLE_oom (mkUt (Some p) (Some t) H) ts hv p false
      end
  | Some hd =>
      f ← deref (ts !! hd);
      let ts := <[p := f]> ts in
      t ← (match f with TblTable => deref (tbl u) | _ => Ub end);
      '(H, t) ← HASH_APPEND_LIST H t p;
      HASH_ADD_TO_TABLE_oom (mkUt (Some hd) (Some t) H) ts hv p false
  end.

(** ** Undoing *)

(** Adding [p] to a bucket and taking it out restores every other handle and
    the bucket. *)
Lemma push_pop H bs i b p h em :
  bs !! i = Some b -> H !! p = Some h -> hh_head b <> Some p ->
  (forall q, hh_head b = Some q -> exists hq, H !! q = Some hq /\ hh_prev hq = None) ->
  let h1 := set_hh_prev None (set_hh_next (hh_head b) h) in
  exists H2,
    upd_hh H p (fun h => set_hh_prev None (set_hh_next (hh_head b) h)) = Ok (<[p := h1]> H) /\
    upd_hh_opt (<[p := h1]> H) (hh_head b) (set_hh_prev (Some p)) = Ok H2 /\
    HASH_DEL_IN_BKT H2 (<[i := mkBucket (Some p) (u32 (count b + 1)) em]> bs) (Z.of_nat i) p
      = Ok (<[p := h1]> H,
            <[i := mkBucket (hh_head b) (u32 (u32 (count b + 1) - 1)) em]> bs).
Proof using.
  intros Hb Hp Hne Hq h1.
  assert (get_bucket (<[i := mkBucket (Some p) (u32 (count b + 1)) em]> bs) (Z.of_nat i)
    = Ok (mkBucket (Some p) (u32 (count b + 1)) em)) as Eb.
  { unfold get_bucket. rewrite (proj2 (Z.leb_le _ _)), Nat2Z.id by lia.
    by rewrite list_lookup_insert_eq by (by eapply lookup_lt_Some). }
  unfold HASH_DEL_IN_BKT, get_hh. rewrite Eb. cbn [mbind res_bind hh_head count expand_mult].
  destruct (hh_head b) as [q|] eqn:Eq; cbn [upd_hh_opt].
  - destruct (Hq q eq_refl) as (hq & Hhq & Hprev). assert (p <> q) as Hpq by congruence.
    exists (<[q := set_hh_prev (Some p) hq]> (<[p := h1]> H)).
    split; [exact (upd_hh_ok _ _ _ _ Hp)|].
    split; [apply (upd_hh_ok _ _ _ hq); by rewrite lookup_insert_ne|].
    rewrite lookup_insert_ne, lookup_insert_eq by done. cbn [deref mbind res_bind].
    rewrite bool_decide_true by done. cbn [h1 hh_prev hh_next set_hh_prev set_hh_next upd_hh_opt].
    cbn [mbind res_bind].
    rewrite (upd_hh_ok _ q _ (set_hh_prev (Some p) hq)) by apply lookup_insert_eq.
    cbn [mbind res_bind]. rewrite Nat2Z.id, list_insert_insert_eq, insert_insert_eq.
    rewrite insert_id; [done|]. rewrite lookup_insert_ne by done. rewrite Hhq. f_equal.
    destruct hq. cbn in *. by subst.
  - exists (<[p := h1]> H). split; [exact (upd_hh_ok _ _ _ _ Hp)|]. split; [done|].
    rewrite lookup_insert_eq. cbn [deref mbind res_bind]. rewrite bool_decide_true by done.
    cbn. by rewrite Nat2Z.id, list_insert_insert_eq.
Qed.

(** Deleting an element that is last in the application order and in no chain. *)
Lemma delete_unlinked H t hd p h tl ht i b :
  H !! p = Some h -> prev h = Some tl -> next h = None -> hh_prev h = None ->
  hh_next h = None -> tail t = p -> tl <> p -> H !! tl = Some ht ->
  HASH_TO_BKT (hashv h) (num_buckets t) = Z.of_nat i ->
  buckets t !! i = Some b -> hh_head b <> Some p ->
  HASH_DELETE (mkUt (Some hd) (Some t) H) p = Ok (mkUt (Some hd)
    (Some (mkTable (<[i := mkBucket (hh_head b) (u32 (count b - 1)) (expand_mult b)]> (buckets t))
       (num_buckets t) (log2_num_buckets t) (u32 (num_items t - 1)) tl (ideal_chain_maxlen t)
       (nonideal_items t) (ineff_expands t) (noexpand t)))
    (<[tl := set_next None ht]> H)).
Proof using.
  intros Hp Epv Enx Ehp Ehn Etl Htp Hht Ei Hb Hne. unfold HASH_DELETE, get_hh. cbn [hhs tbl head].
  rewrite Hp. cbn [deref mbind res_bind]. rewrite Epv, Enx, Etl, bool_decide_true by done.
  cbn [deref mbind res_bind upd_hh_opt]. rewrite (upd_hh_ok _ _ _ _ Hht).
  cbn [mbind res_bind]. unfold HASH_DEL_IN_BKT, get_bucket, get_hh.
  rewrite Ei, (proj2 (Z.leb_le _ _)), Nat2Z.id, Hb, lookup_insert_ne, Hp by (done || lia).
  cbn [deref mbind res_bind]. rewrite bool_decide_false, Ehp, Ehn by done. done.
Qed.

Lemma rollback_delete H t hd p h tl ht i b :
  H !! p = Some h -> prev h = Some tl -> next h = None -> tail t = p -> tl <> p ->
  H !! tl = Some ht -> HASH_TO_BKT (hashv h) (num_buckets t) = Z.of_nat i ->
  buckets t !! i = Some b -> hh_head b <> Some p ->
  exists H' t', HASH_ROLLBACK_BKT H t p = Ok (H', t') /\
  HASH_DELETE (mkUt (Some hd) (Some t') H') p = Ok (mkUt (Some hd)
    (Some (mkTable (<[i := mkBucket (hh_head b) (u32 (u32 (count b + 1) - 1)) (expand_mult b)]>
         (buckets t))
       (num_buckets t) (log2_num_buckets t) (u32 (num_items t - 1)) tl (ideal_chain_maxlen t)
       (nonideal_items t) (ineff_expands t) (noexpand t)))
    (<[tl := set_next None ht]> (<[p := set_hh_prev None (set_hh_next None h)]> H))).
Proof using.
  intros Hp Epv Enx Etl Htp Hht Ei Hb Hne. unfold HASH_ROLLBACK_BKT, get_hh.
  rewrite Hp. cbn [deref mbind res_bind]. unfold get_bucket.
  rewrite Ei, (proj2 (Z.leb_le _ _)), Nat2Z.id, Hb by lia. cbn [deref mbind res_bind].
  rewrite (upd_hh_ok _ _ _ _ Hp). cbn [mbind res_bind]. do 2 eexists. split; [reflexivity|].
  rewrite (delete_unlinked _ _ _ p (set_hh_prev None (set_hh_next None h)) tl ht i
    (mkBucket (hh_head b) (u32 (count b + 1)) (expand_mult b))); try done.
  - cbn. by rewrite list_insert_insert_eq.
  - apply lookup_insert_eq.
  - by rewrite lookup_insert_ne.
  - cbn. by rewrite list_lookup_insert_eq by (by eapply lookup_lt_Some).
Qed.

(** The handles but that of [p]. *)
Definition same_but (p : ptr) (H H' : handles) : Prop := forall q, q <> p -> H' !! q = H !! q.

(** The bucket is due for an expansion, and there is no memory for it. *)
Definition expansion_refused (t : UT_hash_table) (b : UT_hash_bucket) : bool :=
  (u32 (u32 (expand_mult b + 1) * HASH_BKT_CAPACITY_THRESH) <=? u32 (count b + 1)) &&
  (noexpand t =? 0) && negb (uthash_malloc (u64 (u64 (2 * num_buckets t) * sizeof_UT_hash_bucket))).

Lemma add_to_bkt_accepted H t i p b :
  get_bucket (buckets t) i = Ok b -> expansion_refused t b = false ->
  HASH_ADD_TO_BKT_oom H t i p = '(H, t) ← HASH_ADD_TO_BKT H t i p; Ok (H, t, false).
Proof using.
  intros Eb Hr. unfold HASH_ADD_TO_BKT_oom, HASH_ADD_TO_BKT. rewrite Eb. cbn [mbind res_bind].
  destruct (upd_hh H p _) as [H1| | |]; [|done..]. cbn [mbind res_bind].
  destruct (upd_hh_opt H1 _ _) as [H2| | |]; [|done..]. cbn [mbind res_bind].
  cbv zeta in *. unfold expansion_refused in Hr. cbn [noexpand set_buckets].
  destruct (_ && (noexpand t =? 0)); [|done].
  apply negb_false_iff in Hr. unfold HASH_EXPAND_BUCKETS_oom. cbn [num_buckets set_buckets].
  rewrite Hr. cbn [negb]. unfold set_buckets. by destruct (HASH_EXPAND_BUCKETS _ _) as [[]| | |].
Qed.

(** The fields of a table that was just written. *)
Ltac table_fields := cbn [set_buckets buckets num_buckets log2_num_buckets num_items tail
  ideal_chain_maxlen nonideal_items ineff_expands noexpand mbind res_bind].

(** A refused expansion: the whole insertion is undone. *)
Lemma add_undone H t ts hd p h ht i b :
  H !! p = Some h -> p <> tail t -> H !! tail t = Some ht -> next ht = None ->
  HASH_TO_BKT (hashv h) (num_buckets t) = Z.of_nat i -> buckets t !! i = Some b ->
  hh_head b <> Some p -> count b = u32 (count b) -> num_items t = u32 (num_items t) ->
  (forall q, hh_head b = Some q -> exists hq, H !! q = Some hq /\ hh_prev hq = None) ->
  expansion_refused t b = true ->
  exists H1 t1 H2, HASH_APPEND_LIST H t p = Ok (H1, t1) /\
    HASH_ADD_TO_TABLE_oom (mkUt (Some hd) (Some t1) H1) ts (hashv h) p false
      = Ok (mkUt (Some hd) (Some t) H2, <[p := TblNull]> ts, true) /\ same_but p H H2.
Proof using.
  destruct t as [bs nb lg n tl ideal non ineff noex].
  unfold expansion_refused. cbn [buckets num_buckets num_items tail noexpand].
  intros Hp Hpt Hht Hnt Ei Hb Hne Hcnt Hnum Hq [Hc Hm%negb_true_iff]%andb_true_iff.
  set (h1 := set_prev (Some tl) (set_next None h)).
  set (H1 := <[tl := set_next (Some p) ht]> (<[p := h1]> H)).
  assert (H1 !! p = Some h1) as Hp1 by (by unfold H1; rewrite lookup_insert_ne, lookup_insert_eq).
  assert (H1 !! tl = Some (set_next (Some p) ht)) as Ht1 by apply lookup_insert_eq.
  assert (forall q, hh_head b = Some q -> exists hq, H1 !! q = Some hq /\ hh_prev hq = None) as Hq1.
  { intros q E. destruct (Hq q E) as (hq & Hhq & Hpv). unfold H1.
    destruct (decide (tl = q)) as [<-|]; [|by rewrite !lookup_insert_ne by congruence; eauto].
    rewrite lookup_insert_eq. simplify_eq. eauto. }
  destruct (push_pop H1 bs i b p h1 (expand_mult b) Hb Hp1 Hne Hq1) as (H2 & E1 & E2 & E3).
  set (h2 := set_hh_prev None (set_hh_next (hh_head b) h1)) in *.
  set (em := expand_mult b) in *.
  set (H3 := <[p := h2]> H1) in *.
  exists H1, (mkTable bs nb lg n p ideal non ineff noex). eexists. split; [|split].
  - unfold HASH_APPEND_LIST. rewrite (upd_hh_ok _ _ _ _ Hp). cbn [mbind res_bind tail].
    by rewrite (upd_hh_ok _ _ _ ht) by (by rewrite lookup_insert_ne).
  - unfold HASH_ADD_TO_TABLE_oom, HASH_ADD_TO_BKT_oom. cbn [tbl deref mbind res_bind hhs head].
    cbn [num_buckets buckets]. rewrite Ei.
    assert (get_bucket bs (Z.of_nat i) = Ok b) as ->
      by (by unfold get_bucket; rewrite (proj2 (Z.leb_le _ _)), Nat2Z.id, Hb by lia).
    table_fields. rewrite E1. table_fields. rewrite E2. table_fields.
    fold em. rewrite Hc, Nat2Z.id. unfold HASH_EXPAND_BUCKETS_oom. table_fields.
    rewrite Hm. cbn [negb]. table_fields. rewrite E3. table_fields.
    match goal with |- context [HASH_ROLLBACK_BKT ?H ?t p] =>
      destruct (rollback_delete H t hd p h2 tl (set_next (Some p) ht) i
        (mkBucket (hh_head b) (u32 (u32 (count b + 1) - 1)) em)) as (H4 & t4 & E4 & E5) end;
      try done; table_fields.
    + apply lookup_insert_eq.
    + unfold H3. by rewrite lookup_insert_ne.
    + by rewrite !list_lookup_insert_eq by (rewrite ?length_insert; by eapply lookup_lt_Some).
    + rewrite E4. cbn [mbind res_bind]. rewrite E5. cbn [mbind res_bind]. table_fields.
      cbn [hh_head count expand_mult]. do 5 f_equal. f_equal.
      * rewrite !list_insert_insert_eq. apply list_insert_id. rewrite Hb. f_equal.
        unfold em. rewrite !u32_inc_dec, u32_idem, <- Hcnt. by destruct b.
      * by rewrite u32_inc_dec, <- Hnum.
  - intros q Hqp. unfold H3, H1. destruct (decide (q = tl)) as [->|Hqt].
    + rewrite lookup_insert_eq, Hht. f_equal. destruct ht. cbn in *. by subst.
    + by rewrite !lookup_insert_ne by done.
Qed.

(** A granted insertion is the ordinary one. *)
Lemma add_to_table_accepted H t ts hd hv p b :
  get_bucket (buckets t) (HASH_TO_BKT hv (num_buckets t)) = Ok b ->
  expansion_refused t b = false ->
  HASH_ADD_TO_TABLE_oom (mkUt (Some hd) (Some t) H) ts hv p false =
    '(H, t) ← HASH_ADD_TO_TABLE H t hv p; Ok (mkUt (Some hd) (Some t) H, ts, false).
Proof using.
  intros Eb Hr. unfold HASH_ADD_TO_TABLE_oom, HASH_ADD_TO_TABLE.
  cbn [tbl deref mbind res_bind hhs head num_buckets].
  rewrite (add_to_bkt_accepted _ _ _ _ b) by done.
  by destruct (HASH_ADD_TO_BKT _ _ _ _) as [[]| | |].
Qed.
End Oom.

(** The contents do not depend on handles of elements outside. *)
Lemma ut_inv_same_but u p H' xs :
  ut_inv u xs -> p ∉ xs -> same_but p (hhs u) H' -> ut_inv (mkUt (head u) (tbl u) H') xs.
Proof.
  intros Hinv Hp Hs. unfold ut_inv in *. cbn [head tbl hhs].
  destruct (head u) as [hd|]; [|done].
  destruct Hinv as (t & cs & Et & Hd & Hok & Hcs & Hn & Hsz & Hh).
  assert (forall x, x ∈ xs -> H' !! x = hhs u !! x) as E.
  { intros x Hx. apply Hs. set_solver. }
  exists t, cs. split_and!; try done.
  - eapply dseg_frame; [|exact Hd]. intros x Hx h Hxh. exists h. by rewrite E.
  - eapply table_ok_frame; [|exact Hok]. intros x Hx. rewrite Hcs in Hx. auto.
  - by eapply Forall_hashed_frame.
Qed.

Lemma ut_rep_same_but u m p H' :
  ut_rep u m -> (forall k, m !! k <> Some p) -> same_but p (hhs u) H' ->
  ut_rep (mkUt (head u) (tbl u) H') m.
Proof.
  intros (xs & Hinv & Hm) Hf Hs.
  assert (p ∉ xs) as Hp.
  { unfold ut_inv in Hinv. destruct (head u) as [hd|]; [|subst; set_solver].
    destruct Hinv as (t & cs & _ & _ & _ & _ & _ & _ & Hh). by eapply fresh_not_in. }
  exists xs. split; [by eapply ut_inv_same_but|]. intros k q. rewrite (Hm k q).
  unfold key_of. cbn [hhs]. split; intros [Hq Hk]; (split; [done|]);
    rewrite (Hs q) in * by set_solver; done.
Qed.

(** The last element has no successor. *)
Lemma dseg_end nx pv H p from xs x h :
  dseg nx pv H p from xs (Some x) None -> x ∈ xs -> H !! x = Some h -> nx h = None.
Proof.
  intros Hd Hx Hh. pose proof (dseg_last _ _ _ _ _ _ _ _ Hd) as El.
  destruct (last xs) as [y|] eqn:Ey; [|apply last_None in Ey; subst; set_solver].
  injection El as <-. apply last_Some in Ey as [ys ->].
  apply dseg_app in Hd as (m & n & _ & _ & h' & Hh' & _ & <- & _). by simplify_eq.
Qed.

(** Appending to the application order leaves the buckets alone. *)
Lemma append_list_table H t p H' t' :
  HASH_APPEND_LIST H t p = Ok (H', t') ->
  buckets t' = buckets t /\ num_buckets t' = num_buckets t /\ noexpand t' = noexpand t.
Proof.
  unfold HASH_APPEND_LIST. intros (H1 & _ & (H2 & _ & [= _ <-])%res_bind_ok)%res_bind_ok. done.
Qed.

(** What the undoing needs to know about the bucket of a new element. *)
Lemma bucket_facts H t cs xs p hv :
  table_ok H t cs -> concat cs ≡ₚ xs -> p ∉ xs -> zlen xs < 2 ^ 32 ->
  exists i b, HASH_TO_BKT hv (num_buckets t) = Z.of_nat i /\ buckets t !! i = Some b /\
    hh_head b <> Some p /\ count b = u32 (count b) /\
    (forall q, hh_head b = Some q -> q ∈ xs /\ exists hq, H !! q = Some hq /\ hh_prev hq = None).
Proof.
  intros (Hf & Hnd & Hi & Hl & Hn & Hlen) Hcs Hp Hsz.
  pose proof (HASH_TO_BKT_range hv _ Hl) as Hr. rewrite <- Hn in Hr.
  destruct (get_bucket_ok (buckets t) (HASH_TO_BKT hv (num_buckets t)) ltac:(by rewrite Hlen))
    as (b & Hb & _).
  exists (Z.to_nat (HASH_TO_BKT hv (num_buckets t))), b.
  destruct (Forall2_lookup_l _ _ _ _ _ Hf Hb) as (c & Hc & Hd & Hcount).
  pose proof (zlen_concat_lookup _ _ _ Hc). pose proof (zlen_nonneg c).
  assert (zlen (concat cs) = zlen xs) as Hz by (unfold zlen; by rewrite Hcs).
  assert (forall q, hh_head b = Some q -> q ∈ xs /\ exists hq, H !! q = Some hq /\ hh_prev hq = None)
    as Hq.
  { intros q E. rewrite E in Hd. destruct c as [|q' c]; [by destruct Hd|].
    destruct Hd as ([= <-] & hq & Hhq & Hpv & _). split; [|by exists hq].
    rewrite <- Hcs. eapply in_concat_lookup; [exact Hc|]. set_solver. }
  split_and!; [lia|done| |by rewrite Hcount, u32_small by lia|done].
  intros E. destruct (Hq p E) as [? _]. done.
Qed.

(** The head pointer leads to an element of the map. *)
Lemma head_in_map u m hd : ut_rep u m -> head u = Some hd -> exists k, m !! k = Some hd.
Proof.
  intros (xs & Hinv & Hm) Eh. unfold ut_inv in Hinv. rewrite Eh in Hinv.
  destruct Hinv as (t & cs & _ & Hd & _). destruct xs as [|x xs]; [by destruct Hd|].
  destruct Hd as ([= ->] & h & Hh & _). exists (hh_key h). apply Hm. split; [set_solver|].
  unfold key_of. by rewrite Hh.
Qed.

(** ** Properties *)

(** The first element: only the table itself is allocated. *)
Lemma add_first_oom uthash_malloc H o ts p k :
  key_fits k -> H !! p = Some (new_handle k) -> exists u' refused,
    (let '(t, f) := HASH_MAKE_TABLE_oom uthash_malloc p in
     let ts := <[p := f]> ts in
     match t with
     | None => HASH_ADD_TO_TABLE_oom uthash_malloc (mkUt None o H) ts (HASH_JEN k) p true
     | Some t => HASH_ADD_TO_TABLE_oom uthash_malloc (mkUt (Some p) (Some t) H) ts (HASH_JEN k) p false
     end) = Ok (u', <[p := if refused : bool then TblNull else TblTable]> ts, refused) /\
    if (refused : bool) then u' = mkUt None o H /\ exists n, uthash_malloc n = false
    else ('(H, t) ← HASH_ADD_TO_TABLE H (HASH_MAKE_TABLE p) (HASH_JEN k) p;
          Ok (mkUt (Some p) (Some t) H)) = Ok u'.
Proof.
  intros Hk Hp. destruct (add_first H p k Hk Hp) as (H2 & t2 & E & _).
  unfold HASH_MAKE_TABLE_oom. destruct (uthash_malloc sizeof_UT_hash_table) eqn:E1; cbn [negb].
  - destruct (uthash_malloc (HASH_INITIAL_NUM_BUCKETS * sizeof_UT_hash_bucket)) eqn:E2; cbn [negb];
      [|by exists (mkUt None o H), true; cbn; rewrite insert_insert_eq; split_and!; [..|eexists]].
    pose proof (HASH_TO_BKT_range (HASH_JEN k) 5 ltac:(lia)) as Hr.
    rewrite (add_to_table_accepted uthash_malloc H (HASH_MAKE_TABLE p) _ p _ p new_bucket); [|..].
    + rewrite E. cbn [mbind res_bind]. by exists (mkUt (Some p) (Some t2) H2), false.
    + unfold get_bucket. rewrite (proj2 (Z.leb_le _ _)) by apply Hr. 
      change (buckets (HASH_MAKE_TABLE p)) with (replicate 32 new_bucket).
      rewrite lookup_replicate_2; [done|]. change (num_buckets (HASH_MAKE_TABLE p)) with (2 ^ 5). lia.
    + reflexivity.
  - by exists (mkUt None o H), true; cbn; rewrite insert_insert_eq; split_and!; [..|eexists].
Qed.

(** A further element: when the expansion is refused, everything is undone. *)
Lemma add_more_oom uthash_malloc u ts m p k hd xs ua :
  head u = Some hd -> ts !! hd = Some TblTable -> ut_rep u m -> ut_inv u xs -> (forall k', m !! k' <> Some p) -> p ∉ xs ->
  HASH_ADD_KEYPTR u p k = Ok ua ->
  exists u' refused, HASH_ADD_KEYPTR_oom uthash_malloc u ts p k =
      Ok (u', <[p := if refused : bool then TblNull else TblTable]> ts, refused) /\
    if (refused : bool) then
      head u' = head u /\ tbl u' = tbl u /\ same_but p (hhs u) (hhs u') /\
      exists n, uthash_malloc n = false
    else u' = ua.
Proof.
  intros Eh Ets Hr Hinv Hfresh Hp Ea. unfold HASH_ADD_KEYPTR_oom, HASH_ADD_KEYPTR, ut_inv in *.
  fold (new_handle k) in *. set (H0 := <[p := new_handle k]> (hhs u)) in *. cbv zeta in *.
  assert (same_but p (hhs u) H0) as S0 by (intros q Hq; by apply lookup_insert_ne).
  rewrite Eh in *. destruct Hinv as (t & cs & Et & Hd & Hok & Hcs & Hn & Hsz & Hh).
  rewrite Et, Ets in *. cbn [deref mbind res_bind] in *. pose proof (zlen_nonneg xs).
  destruct (bucket_facts _ t cs xs p (HASH_JEN k) Hok Hcs Hp ltac:(lia))
    as (i & b & Ei & Hb & Hne & Hcnt & Hq).
  destruct (expansion_refused uthash_malloc t b) eqn:Eref.
  - assert (tail t ∈ xs) as Htl.
    { pose proof (dseg_last _ _ _ _ _ _ _ _ Hd) as El. apply last_Some_elem_of.
      destruct (last xs); [congruence|done]. }
    rewrite Forall_forall in Hh. pose proof (Hh _ Htl) as (ht & Hht & _).
    destruct (add_undone uthash_malloc H0 t (<[p := TblTable]> ts) hd p (new_handle k) ht i b) as (H1 & t1 & H2 & E1 & E2 & S2);
      try done.
    + apply lookup_insert_eq.
    + set_solver.
    + rewrite S0; [done|set_solver].
    + by eapply dseg_end.
    + rewrite u32_small; [done|lia].
    + intros q Eq. destruct (Hq q Eq) as (Hqx & Hhq). rewrite S0; [done|set_solver].
    + rewrite E1. cbn [mbind res_bind]. exists (mkUt (Some hd) (Some t) H2), true.
      rewrite insert_insert_eq in E2. split; [exact E2|]. split_and!; [done..|intros q Hqp; cbn; by rewrite S2, S0|].
      apply andb_true_iff in Eref as [_ Em%negb_true_iff]. by eexists.
  - apply res_bind_ok in Ea as ([H1 t1] & E1 & ([H2 t2] & E2 & [= Ea])%res_bind_ok).
    rewrite E1. cbn [mbind res_bind]. pose proof (append_list_table _ _ _ _ _ E1) as (B1 & B2 & B3).
    rewrite (add_to_table_accepted uthash_malloc H1 t1 _ hd _ p b).
    + rewrite E2. cbn [mbind res_bind]. by exists ua, false; subst ua.
    + rewrite B1, B2. unfold get_bucket. by rewrite Ei, (proj2 (Z.leb_le _ _)), Nat2Z.id, Hb by lia.
    + unfold expansion_refused in *. by rewrite B2, B3.
Qed.

(** C18. Adding under memory pressure: whichever allocations fail, the insertion
    returns, without touching bad memory.  Either it was not refused, and is the
    ordinary insertion; or [uthash_nonfatal_oom] was called because an
    allocation failed, and the head pointer, the table record with all its
    counters and buckets, and every handle but that of the refused element
    are what they were.  Every element has a mark, the field [hh.tbl]: afterwards
    the new element has the table there if it was added, and NULL if it was refused
    (not what the copy from the head, or a table freed again, left in it), and no
    other field has changed. *)
Theorem add_oom_atomic uthash_malloc u ts m p k :
  ut_rep u m -> (forall k q, m !! k = Some q -> ts !! q = Some TblTable) ->
  key_fits k -> ut_room u = true -> m !! k = None -> (forall k', m !! k' <> Some p) ->
  exists u' refused, HASH_ADD_KEYPTR_oom uthash_malloc u ts p k =
      Ok (u', <[p := if refused : bool then TblNull else TblTable]> ts, refused) /\
    if (refused : bool) then
      head u' = head u /\ tbl u' = tbl u /\ same_but p (hhs u) (hhs u') /\ ut_rep u' m /\
      exists n, uthash_malloc n = false
    else HASH_ADD_KEYPTR u p k = Ok u' /\ ut_rep u' (<[k := p]> m).
Proof.
  intros Hr Hts Hk Hroom Hnone Hfresh.
  destruct (ut_add_spec u m p k Hr Hk Hroom Hnone Hfresh) as (ua & Ea & Ra).
  destruct (head u) as [hd|] eqn:Eh.
  - pose proof Hr as (xs & Hinv & Hm).
    assert (p ∉ xs) as Hp.
    { unfold ut_inv in Hinv. rewrite Eh in Hinv. destruct Hinv as (t & cs & _ & _ & _ & _ & _ & _ & Hh).
      by eapply fresh_not_in. }
    destruct (head_in_map u m hd Hr Eh) as [kh Hkh].
    destruct (add_more_oom uthash_malloc u ts m p k hd xs ua Eh (Hts _ _ Hkh) Hr Hinv Hfresh Hp Ea)
      as (u' & refused & E & Hc). exists u', refused. split; [exact E|].
    destruct refused; [|by subst]. destruct Hc as (H1 & H2 & H3 & H4).
    split_and!; [congruence|done..| |done]. destruct u' as [hd' t' H']. cbn in *. subst.
    by eapply ut_rep_same_but.
  - unfold HASH_ADD_KEYPTR_oom. rewrite Eh. fold (new_handle k). cbv zeta.
    set (H0 := <[p := new_handle k]> (hhs u)).
    destruct (add_first_oom uthash_malloc H0 (tbl u) ts p k Hk (lookup_insert_eq _ _ _))
      as (u' & refused & E & Hc).
    exists u', refused. split; [exact E|]. destruct refused.
    + destruct Hc as [-> Hn]. cbn [head tbl hhs].
      assert (same_but p (hhs u) H0) as S0 by (intros q Hq; by apply lookup_insert_ne).
      split_and!; try done. rewrite <- Eh. by eapply ut_rep_same_but.
    + unfold HASH_ADD_KEYPTR in Ea. rewrite Eh in Ea. fold (new_handle k) in Ea. fold H0 in Ea.
      cbv zeta in Ea. rewrite Ea in Hc. injection Hc as <-. split; [|done].
      unfold HASH_ADD_KEYPTR. by rewrite Eh.
Qed.

(** Insertions from a list, checked as they are made. *)
Fixpoint build (u : uthash) (m : gmap (list Z) ptr) (es : list (ptr * list Z))
    : option (uthash * gmap (list Z) ptr) :=
  match es with
  | [] => Some (u, m)
  | (p, k) :: es =>
      if (zlen k <? 2 ^ 32) && ut_room u && bool_decide (m !! k = None) &&
         bool_decide (map_Forall (fun _ q => q <> p) m)
      then match HASH_ADD_KEYPTR u p k with
           | Ok u => build u (<[k := p]> m) es
           | _ => None
           end
      else None
  end.

Lemma build_rep es u m u' m' :
  ut_rep u m -> build u m es = Some (u', m') -> ut_rep u' m'.
Proof.
  revert u m. induction es as [|[p k] es IH]; intros u m Hr E; cbn [build] in E.
  - by injection E as <- <-.
  - destruct (_ && _) eqn:Ec; [|done].
    apply andb_true_iff in Ec as [[[Hk Hroom]%andb_true_iff Hn]%andb_true_iff Hf].
    apply Z.ltb_lt in Hk. apply bool_decide_eq_true in Hn, Hf.
    destruct (ut_add_spec u m p k Hr Hk Hroom Hn) as (u1 & E1 & R1).
    { intros k' Hk'. by eapply Hf. }
    rewrite E1 in E. by eapply IH.
Qed.

Lemma build_fresh es u m u' m' p :
  build u m es = Some (u', m') -> (forall k, m !! k <> Some p) -> p ∉ es.*1 ->
  forall k, m' !! k <> Some p.
Proof.
  revert u m. induction es as [|[q k] es IH]; intros u m E Hm Hp; cbn [build] in E.
  - by injection E as <- <-.
  - destruct (_ && _); [|done]. destruct (HASH_ADD_KEYPTR u q k) as [u1| | |]; [|done..].
    eapply IH; [exact E| |set_solver]. intros k' [[_ ->]|[_ Hk']]%lookup_insert_Some; [set_solver|].
    by eapply Hm.
Qed.

(** Nine elements in bucket 0; the tenth makes an expansion due. *)
Definition nine_elements : list (ptr * list Z) :=
  zip (Pos.of_nat <$> seq 1 9) [[16]; [20]; [22]; [29]; [88]; [115]; [141]; [182]; [196]].

(** Every element of the map has the table in its field. *)
Definition all_attached (m : gmap (list Z) ptr) : tbl_fields :=
  list_to_map ((fun kp => (kp.2, TblTable)) <$> map_to_list m).

Lemma all_attached_lookup m k q : m !! k = Some q -> all_attached m !! q = Some TblTable.
Proof.
  intros Hk. unfold all_attached. destruct (list_to_map _ !! q) as [[]|] eqn:E; [|done| |].
  - apply elem_of_list_to_map_2, list_elem_of_fmap in E as ([? ?] & [=] & _).
  - apply elem_of_list_to_map_2, list_elem_of_fmap in E as ([? ?] & [=] & _).
  - exfalso. apply not_elem_of_list_to_map in E. apply E. rewrite <- list_fmap_compose.
    apply list_elem_of_fmap. exists (k, q). split; [done|]. by apply elem_of_map_to_list.
Qed.

Definition nine_checks : bool :=
  match build (mkUt None None ∅) ∅ nine_elements with
  | Some (u, m) =>
      ut_room u && bool_decide (m !! [201] = None) && bool_decide (m !! [88] = Some 5%positive) &&
      match HASH_ADD_KEYPTR_oom (fun _ => false) u (all_attached m) 10%positive [201] with
      | Ok (_, _, refused) => refused
      | _ => false
      end
  | None => false
  end.

Lemma add_oom_atomic_witness :
  exists u m u', build (mkUt None None ∅) ∅ nine_elements = Some (u, m) /\
    HASH_ADD_KEYPTR_oom (fun _ => false) u (all_attached m) 10%positive [201] =
      Ok (u', <[10%positive := TblNull]> (all_attached m), true) /\
    tbl u' = tbl u /\ HASH_FIND u' [201] = Ok None /\ HASH_FIND u' [88] = Ok (Some 5%positive).
Proof.
  assert (nine_checks = true) as Hc by (vm_compute; reflexivity). unfold nine_checks in Hc.
  destruct (build (mkUt None None ∅) ∅ nine_elements) as [[u m]|] eqn:E; [|discriminate].
  pose proof (build_rep _ _ _ _ _ ut_rep_empty E) as R.
  apply andb_true_iff in Hc as [[[Hroom Hn]%andb_true_iff Hs]%andb_true_iff Hf].
  apply bool_decide_eq_true in Hn, Hs.
  destruct (add_oom_atomic (fun _ => false) u (all_attached m) m 10%positive [201] R)
    as (u' & refused & E' & C).
  - apply all_attached_lookup.
  - vm_compute. reflexivity.
  - exact Hroom.
  - exact Hn.
  - eapply build_fresh; [exact E|intros k; rewrite lookup_empty; discriminate|].
    apply (bool_decide_unpack _). vm_compute. exact I.
  - rewrite E' in Hf. subst refused. destruct C as (_ & T & _ & R' & _).
    exists u, m, u'. split; [reflexivity|]. split; [exact E'|]. split; [exact T|].
    rewrite !(ut_find_spec _ _ _ R'), Hn, Hs. split; reflexivity.
Defined.
