(* ===== verification/UtBloom.v ===== *)
(** * UtBloom: the Bloom filter of [uthash.h]

    With [HASH_BLOOM] defined every table carries a bit vector that remembers
    the hashes of all elements ever added, and [HASH_FIND] looks into a bucket
    only when the bit of the hash is set.  The macros with the filter meet the
    same contract [KeyTableSpec] as those without, so that the store and the
    open requests may be built on either. *)

From stdpp Require Import base tactics list numbers option gmap.
From S2P Require Import Prelude KeyTable UtHash.

(** ** The bit vector: [uint8_t *bloom_bv] *)

Definition HASH_BLOOM_BITSET (bv : list Z) (idx : Z) : res (list Z) :=
  let i := Z.to_nat (idx / 8) in
  b ← deref (bv !! i);
  Ok (<[i := u8 (Z.lor b (u32 (Z.shiftl 1 (idx mod 8))))]> bv).

Definition HASH_BLOOM_BITTEST (bv : list Z) (idx : Z) : res Z :=
  b ← deref (bv !! Z.to_nat (idx / 8));
  Ok (Z.land b (u32 (Z.shiftl 1 (idx mod 8)))).

Section Bloom.
(** The value the macro is defined to: the binary logarithm of the number of bits. *)
Context (HASH_BLOOM : Z).

Definition HASH_BLOOM_BITLEN : Z := u64 (Z.shiftl 1 HASH_BLOOM).
Definition HASH_BLOOM_BYTELEN : Z :=
  HASH_BLOOM_BITLEN / 8 + (if negb (HASH_BLOOM_BITLEN mod 8 =? 0) then 1 else 0).

Definition HASH_BLOOM_MAKE : list Z := replicate (Z.to_nat HASH_BLOOM_BYTELEN) 0.

(** The bit of a hash. *)
Definition bloom_index (hashv : Z) : Z :=
  Z.land hashv (u32 (u64 (Z.shiftl 1 HASH_BLOOM) - 1)).

Definition HASH_BLOOM_ADD (bv : list Z) (hashv : Z) : res (list Z) :=
  HASH_BLOOM_BITSET bv (bloom_index hashv).
Definition HASH_BLOOM_TEST (bv : list Z) (hashv : Z) : res Z :=
  HASH_BLOOM_BITTEST bv (bloom_index hashv).

(** ** The macros that use it *)

(** A table with its filter (kept, like the table record, next to the head). *)
Record bloom_table : Type := mkBloom {
  bl_ut : uthash;
  bloom_bv : list Z;
}.

Definition bloom_HASH_FIND (u : bloom_table) (key : list Z) : res (option ptr) :=
  match head (bl_ut u) with
  | None => Ok None
  | Some _ =>
      t ← deref (tbl (bl_ut u));
      let hv := HASH_JEN key in
      b ← HASH_BLOOM_TEST (bloom_bv u) hv;
      if negb (b =? 0) then
        b ← get_bucket (buckets t) (HASH_TO_BKT hv (num_buckets t));
        HASH_FIND_IN_BKT (hhs (bl_ut u)) b key hv
      else Ok None
  end.

(** A new table gets an empty filter; [HASH_ADD_TO_TABLE] sets the bit. *)
Definition bloom_HASH_ADD_KEYPTR (u : bloom_table) (p : ptr) (key : list Z) : res bloom_table :=
  let bv := match head (bl_ut u) with None => HASH_BLOOM_MAKE | Some _ => bloom_bv u end in
  ut ← HASH_ADD_KEYPTR (bl_ut u) p key;
  bv ← HASH_BLOOM_ADD bv (HASH_JEN key);
  Ok (mkBloom ut bv).

(** Bits are never cleared; the filter goes with the table. *)
Definition bloom_HASH_DELETE (u : bloom_table) (p : ptr) : res bloom_table :=
  ut ← HASH_DELETE (bl_ut u) p;
  Ok (mkBloom ut (match head ut with None => [] | Some _ => bloom_bv u end)).

(** ** The filter has no false negatives *)

Definition bit_set (bv : list Z) (idx : Z) : Prop :=
  exists b, bv !! Z.to_nat (idx / 8) = Some b /\ Z.testbit b (idx mod 8) = true.

(** Every byte there is for the bits asked for. *)
Definition bv_ok (bv : list Z) : Prop :=
  zlen bv = HASH_BLOOM_BYTELEN /\ Forall byte_ok bv.

Lemma bit_mask i : 0 <= i < 8 -> u32 (Z.shiftl 1 i) = 2 ^ i.
Proof using.
  intros Hi. rewrite Z.shiftl_mul_pow2, Z.mul_1_l by lia. apply u32_small.
  split; [lia|]. apply Z.lt_trans with (2 ^ 8); [by apply Z.pow_lt_mono_r; lia|done].
Qed.

Lemma land_pow2 b i : 0 <= i -> negb (Z.land b (2 ^ i) =? 0) = Z.testbit b i.
Proof using.
  intros Hi. destruct (Z.testbit b i) eqn:E.
  - apply negb_true_iff, Z.eqb_neq. intros E0.
    assert (Z.testbit (Z.land b (2 ^ i)) i = false) as E1 by (by rewrite E0, Z.bits_0).
    by rewrite Z.land_spec, E, Z.pow2_bits_true in E1 by done.
  - apply negb_false_iff, Z.eqb_eq. apply Z.bits_inj'. intros n Hn.
    rewrite Z.land_spec, Z.bits_0, Z.pow2_bits_eqb by done.
    destruct (Z.eqb_spec i n) as [->|]; [by rewrite E|apply andb_false_r].
Qed.

Lemma byte_lor_bit b i : byte_ok b -> 0 <= i < 8 ->
  byte_ok (u8 (Z.lor b (2 ^ i))) /\
  forall j, 0 <= j < 8 -> Z.testbit (u8 (Z.lor b (2 ^ i))) j = (Z.testbit b j || (i =? j)).
Proof using.
  intros Hb Hi. split; [apply u8_range|]. intros j Hj. unfold u8.
  by rewrite Z.mod_pow2_bits_low, Z.lor_spec, Z.pow2_bits_eqb by lia.
Qed.

Context (size : 0 <= HASH_BLOOM <= 32).

Lemma bloom_bits : HASH_BLOOM_BITLEN = 2 ^ HASH_BLOOM /\ 0 < 2 ^ HASH_BLOOM <= 2 ^ 32.
Proof using size.
  assert (0 < 2 ^ HASH_BLOOM <= 2 ^ 32) as H.
  { split; [by apply Z.pow_pos_nonneg; lia|by apply Z.pow_le_mono_r; lia]. }
  split; [|done]. unfold HASH_BLOOM_BITLEN. rewrite Z.shiftl_mul_pow2, Z.mul_1_l by lia.
  apply u64_small. lia.
Qed.

Lemma bloom_index_range hv : 0 <= bloom_index hv < 2 ^ HASH_BLOOM.
Proof using size.
  pose proof bloom_bits as [Hb Hr]. unfold bloom_index. fold HASH_BLOOM_BITLEN. rewrite Hb.
  rewrite u32_small by lia. replace (2 ^ HASH_BLOOM - 1) with (Z.ones HASH_BLOOM)
    by (rewrite Z.ones_equiv; lia).
  rewrite Z.land_ones by lia. apply Z.mod_pos_bound. lia.
Qed.

(** Every bit is inside the vector. *)
Lemma bloom_byte bv hv : bv_ok bv -> exists b,
  bv !! Z.to_nat (bloom_index hv / 8) = Some b /\ byte_ok b.
Proof using size.
  intros [Hl Hf]. pose proof bloom_bits as [Hb Hr]. pose proof (bloom_index_range hv) as Hi.
  destruct (lookup_lt_is_Some_2 bv (Z.to_nat (bloom_index hv / 8))) as [b Eb].
  - unfold zlen, HASH_BLOOM_BYTELEN in Hl. rewrite Hb in Hl.
    pose proof (Z.div_mod (2 ^ HASH_BLOOM) 8 ltac:(lia)).
    pose proof (Z.div_mod (bloom_index hv) 8 ltac:(lia)).
    pose proof (Z.mod_pos_bound (bloom_index hv) 8 ltac:(lia)).
    pose proof (Z.mod_pos_bound (2 ^ HASH_BLOOM) 8 ltac:(lia)).
    destruct (Z.eqb_spec (2 ^ HASH_BLOOM mod 8) 0); cbn [negb] in Hl; lia.
  - exists b. split; [done|]. rewrite Forall_forall in Hf. by eapply Hf, list_elem_of_lookup_2.
Qed.

Lemma bloom_test_ok bv hv : bv_ok bv ->
  exists x, HASH_BLOOM_TEST bv hv = Ok x /\ (negb (x =? 0) = true <-> bit_set bv (bloom_index hv)).
Proof using size.
  intros Hbv. destruct (bloom_byte bv hv Hbv) as (b & Eb & _).
  unfold HASH_BLOOM_TEST, HASH_BLOOM_BITTEST. rewrite Eb. cbn [deref mbind res_bind].
  eexists. split; [reflexivity|].
  pose proof (Z.mod_pos_bound (bloom_index hv) 8 ltac:(lia)).
  rewrite bit_mask, land_pow2 by lia. unfold bit_set. rewrite Eb. naive_solver.
Qed.

Lemma bloom_add_ok bv hv : bv_ok bv ->
  exists bv', HASH_BLOOM_ADD bv hv = Ok bv' /\ bv_ok bv' /\
    bit_set bv' (bloom_index hv) /\ forall i, 0 <= i -> bit_set bv i -> bit_set bv' i.
Proof using size.
  intros Hbv. destruct (bloom_byte bv hv Hbv) as (b & Eb & Hb). destruct Hbv as [Hl Hf].
  unfold HASH_BLOOM_ADD, HASH_BLOOM_BITSET. rewrite Eb. cbn [deref mbind res_bind].
  eexists. split; [reflexivity|]. set (idx := bloom_index hv) in *.
  pose proof (Z.mod_pos_bound idx 8 ltac:(lia)) as Hm. rewrite bit_mask by done.
  destruct (byte_lor_bit b (idx mod 8) Hb Hm) as [Hb' Hbits].
  assert (Z.to_nat (idx / 8) < length bv)%nat as Hlt by (by eapply lookup_lt_Some).
  split; [split; [by rewrite zlen_insert|by apply Forall_insert]|]. split.
  - eexists. rewrite list_lookup_insert_eq by done. split; [done|].
    by rewrite Hbits, Z.eqb_refl, orb_true_r.
  - intros i Hi (b' & Eb' & Ht). unfold bit_set.
    pose proof (Z.mod_pos_bound i 8 ltac:(lia)).
    destruct (decide (Z.to_nat (idx / 8) = Z.to_nat (i / 8))) as [E|E].
    + rewrite <- E in Eb' |- *. rewrite list_lookup_insert_eq by done. simplify_eq.
      eexists. split; [done|]. by rewrite Hbits, Ht.
    + rewrite list_lookup_insert_ne by done. by exists b'.
Qed.

Lemma bloom_make_ok : bv_ok HASH_BLOOM_MAKE.
Proof using size.
  pose proof bloom_bits as [Hb Hr]. split.
  - unfold HASH_BLOOM_MAKE, zlen. rewrite length_replicate. apply Z2Nat.id.
    unfold HASH_BLOOM_BYTELEN. rewrite Hb. pose proof (Z.div_pos (2 ^ HASH_BLOOM) 8).
    destruct (negb _); lia.
  - apply Forall_replicate. done.
Qed.

(** ** The contract *)

(** The table stands for [m], and the bit of every key is set. *)
Definition bloom_rep (u : bloom_table) (m : gmap (list Z) ptr) : Prop :=
  ut_rep (bl_ut u) m /\ (head (bl_ut u) <> None -> bv_ok (bloom_bv u)) /\
  forall k p, m !! k = Some p -> bit_set (bloom_bv u) (bloom_index (HASH_JEN k)).

Lemma bloom_find_eq u m k : bloom_rep u m -> bloom_HASH_FIND u k = HASH_FIND (bl_ut u) k.
Proof using size.
  intros (Hr & Hbv & Hbits). pose proof (ut_find_spec _ m k Hr) as E. rewrite E.
  unfold bloom_HASH_FIND, HASH_FIND in *. destruct (head (bl_ut u)) as [hd|]; [|done].
  destruct (tbl (bl_ut u)) as [t|]; [|done]. cbn [deref mbind res_bind] in *. cbv zeta in *.
  destruct (bloom_test_ok (bloom_bv u) (HASH_JEN k) (Hbv ltac:(done))) as (x & -> & Hx).
  cbn [mbind res_bind]. destruct (negb (x =? 0)) eqn:Ex; [exact E|].
  destruct (m !! k) as [p|] eqn:Ek; [|done]. apply Hbits, Hx in Ek. congruence.
Qed.

Lemma bloom_add_spec u m p k :
  bloom_rep u m -> key_fits k -> ut_room (bl_ut u) = true -> m !! k = None ->
  (forall k', m !! k' <> Some p) ->
  exists u', bloom_HASH_ADD_KEYPTR u p k = Ok u' /\ HASH_ADD_KEYPTR (bl_ut u) p k = Ok (bl_ut u') /\
    bloom_rep u' (<[k := p]> m).
Proof using size.
  intros (Hr & Hbv & Hbits) Hk Hroom Hn Hf.
  destruct (ut_add_spec _ m p k Hr Hk Hroom Hn Hf) as (ut & E & R).
  unfold bloom_HASH_ADD_KEYPTR. rewrite E. cbn [mbind res_bind].
  assert (exists bv, bv = match head (bl_ut u) with None => HASH_BLOOM_MAKE | Some _ => bloom_bv u end
    /\ bv_ok bv /\ forall k p, m !! k = Some p -> bit_set bv (bloom_index (HASH_JEN k)))
    as (bv & <- & Hok & Hold).
  { eexists. split; [reflexivity|]. destruct (head (bl_ut u)) eqn:Eh; [by auto|].
    split; [apply bloom_make_ok|]. rewrite (ut_inv_empty _ _ Hr Eh). intros k' p'.
    by rewrite lookup_empty. }
  destruct (bloom_add_ok bv (HASH_JEN k) Hok) as (bv' & -> & Hok' & Hnew & Hkeep).
  cbn [mbind res_bind]. eexists. split; [reflexivity|]. split; [done|].
  split; [done|]. split; [done|]. cbn [bloom_bv].
  intros k' p' [[<- _]|[_ Hk']]%lookup_insert_Some; [done|].
  apply Hkeep; [|by eapply Hold]. apply bloom_index_range.
Qed.

Lemma bloom_del_spec u m p k :
  bloom_rep u m -> m !! k = Some p ->
  exists u', bloom_HASH_DELETE u p = Ok u' /\ HASH_DELETE (bl_ut u) p = Ok (bl_ut u') /\
    bloom_rep u' (delete k m) /\ (ut_room (bl_ut u) = true -> ut_room (bl_ut u') = true).
Proof using size.
  intros (Hr & Hbv & Hbits) Hk. destruct (ut_del_spec _ m p k Hr Hk) as (ut & E & R & Hroom).
  unfold bloom_HASH_DELETE. rewrite E. cbn [mbind res_bind]. eexists. split; [reflexivity|].
  split; [done|]. split; [|done]. split; [done|]. cbn [bl_ut bloom_bv].
  destruct (head ut) as [hd|] eqn:Eh.
  - split.
    + intros _. apply Hbv. intros En. rewrite (ut_inv_empty _ _ Hr En), lookup_empty in Hk. done.
    + intros k' p' [_ Hk']%lookup_delete_Some. by eapply Hbits.
  - split; [done|]. rewrite (ut_inv_empty _ _ R Eh). intros k' p'. by rewrite lookup_empty.
Qed.
End Bloom.

(** Programs that define [HASH_BLOOM] run on these tables. *)
Definition bloom_key_table (HASH_BLOOM : Z) : KeyTable bloom_table := {|
  kt_empty := mkBloom (mkUt None None ∅) [];
  kt_find := bloom_HASH_FIND HASH_BLOOM;
  kt_add := bloom_HASH_ADD_KEYPTR HASH_BLOOM;
  kt_del := bloom_HASH_DELETE;
|}.

Lemma bloom_rep_empty n : bloom_rep n (mkBloom (mkUt None None ∅) []) ∅.
Proof. split; [exact ut_rep_empty|]. split; [done|]. intros k p. by rewrite lookup_empty. Qed.

Definition bloom_key_table_spec (HASH_BLOOM : Z) (size : 0 <= HASH_BLOOM <= 32) :
  @KeyTableSpec bloom_table (bloom_key_table HASH_BLOOM).
Proof.
  refine (Build_KeyTableSpec _ (bloom_key_table HASH_BLOOM) (bloom_rep HASH_BLOOM)
    (fun u => ut_room (bl_ut u)) _ _ _ _ _).
  - apply bloom_rep_empty.
  - done.
  - intros u m k Hr _. rewrite <- (ut_find_spec (bl_ut u) m k) by apply Hr.
    by apply (bloom_find_eq _ size _ m).
  - intros u m p k Hr Hk Hroom Hn Hf.
    destruct (bloom_add_spec _ size u m p k Hr Hk Hroom Hn Hf) as (u' & E & _ & R). eauto.
  - intros u m p k Hr Hk. destruct (bloom_del_spec _ size u m p k Hr Hk) as (u' & E & _ & R & Hroom).
    eauto.
Defined.

(** ** Properties *)

(** C19. The Bloom filter changes no answer.  For every size of the filter, in
    every state reached by insertions and deletions (each of which keeps the
    state so): a search with the filter returns what a search without it
    returns, never looking outside the bit vector; when the bit of a key's hash
    is clear the key is not in the table; and insertion and deletion do to the
    table what they do without the filter. *)
Theorem bloom_transparent HASH_BLOOM u m :
  0 <= HASH_BLOOM <= 32 -> bloom_rep HASH_BLOOM u m ->
  (forall k, bloom_HASH_FIND HASH_BLOOM u k = HASH_FIND (bl_ut u) k) /\
  (forall k, head (bl_ut u) <> None ->
     HASH_BLOOM_TEST HASH_BLOOM (bloom_bv u) (HASH_JEN k) = Ok 0 -> m !! k = None) /\
  (forall p k, key_fits k -> ut_room (bl_ut u) = true -> m !! k = None ->
     (forall k', m !! k' <> Some p) ->
     exists u', bloom_HASH_ADD_KEYPTR HASH_BLOOM u p k = Ok u' /\
       HASH_ADD_KEYPTR (bl_ut u) p k = Ok (bl_ut u') /\ bloom_rep HASH_BLOOM u' (<[k := p]> m)) /\
  (forall p k, m !! k = Some p ->
     exists u', bloom_HASH_DELETE u p = Ok u' /\ HASH_DELETE (bl_ut u) p = Ok (bl_ut u') /\
       bloom_rep HASH_BLOOM u' (delete k m)).
Proof.
  intros Hs Hr. split_and!.
  - intros k. by eapply bloom_find_eq.
  - intros k Hh Ht. destruct Hr as (_ & Hbv & Hbits).
    destruct (bloom_test_ok _ Hs (bloom_bv u) (HASH_JEN k) (Hbv Hh)) as (x & E & Hx).
    rewrite Ht in E. injection E as <-. destruct (m !! k) as [p|] eqn:Ek; [|done].
    by apply Hbits, Hx in Ek.
  - intros p k. by apply bloom_add_spec.
  - intros p k Hk. destruct (bloom_del_spec _ Hs u m p k Hr Hk) as (u' & E & E' & R & _). eauto.
Qed.

(** A filter of eight bits: the key 16 sets the lowest one. *)
Lemma bloom_transparent_witness :
  exists u, bloom_HASH_ADD_KEYPTR 3 (mkBloom (mkUt None None ∅) []) 1%positive [16] = Ok u /\
    bloom_bv u = [1] /\ HASH_BLOOM_TEST 3 (bloom_bv u) (HASH_JEN [7]) = Ok 0 /\ bloom_HASH_FIND 3 u [7] = Ok None /\
    bloom_HASH_FIND 3 u [16] = Ok (Some 1%positive).
Proof.
  destruct (bloom_transparent 3 (mkBloom (mkUt None None ∅) []) ∅) as (_ & _ & Hadd & _).
  - split; discriminate.
  - apply bloom_rep_empty.
  - destruct (Hadd 1%positive [16]) as (u & E & _ & R).
    + vm_compute. reflexivity.
    + reflexivity.
    + reflexivity.
    + intros k'. rewrite lookup_empty. discriminate.
    + exists u. split; [exact E|]. vm_compute in E. injection E as <-.
      split; [reflexivity|]. repeat split; vm_compute; reflexivity.
Defined.
