(* ===== verification/UtKeys.v ===== *)
(** * UtKeys: typed keys, iteration and key emission of [uthash.h]

    The convenience forms for string, [int] and pointer keys, the loop
    [HASH_ITER] whose body may delete the element it is at, and
    [HASH_EMIT_KEY], which writes the keys of all insertions to a file. *)

From stdpp Require Import base tactics list numbers option gmap.
From S2P Require Import Prelude KeyTable UtHash UtExtra UtOom.

(** ** Keys of a type *)

(** [uthash_strlen]: up to the first NUL, which must be there. *)
Fixpoint uthash_strlen (m : list cell) : res Z :=
  match m with
  | Some b :: m => if b =? 0 then Ok 0 else n ← uthash_strlen m; Ok (n + 1)
  | _ => Ub
  end.

(** The key a string argument stands for. *)
Definition str_key (s : list cell) : res (list Z) :=
  n ← uthash_strlen s; load_bytes (Some s) (u32 n).

Definition HASH_FIND_STR (u : uthash) (findstr : list cell) : res (option ptr) :=
  k ← str_key findstr; HASH_FIND u k.
Definition HASH_ADD_STR (u : uthash) (p : ptr) (strfield : list cell) : res uthash :=
  k ← str_key strfield; HASH_ADD_KEYPTR u p k.
Definition HASH_REPLACE_STR (u : uthash) (p : ptr) (strfield : list cell)
    : res (uthash * option ptr) :=
  k ← str_key strfield; HASH_REPLACE u p k.

(** The [sizeof(int)] bytes of an [int], and the [sizeof(void * )] bytes of an
    address, on the little-endian hosts the program runs on. *)
Definition int_key (i : Z) : list Z := le_bytes 4 (u32 i).
Definition ptr_key (a : Z) : list Z := le_bytes 8 a.

Definition HASH_FIND_INT (u : uthash) (i : Z) : res (option ptr) := HASH_FIND u (int_key i).
Definition HASH_ADD_INT (u : uthash) (p : ptr) (i : Z) : res uthash :=
  HASH_ADD_KEYPTR u p (int_key i).
Definition HASH_REPLACE_INT (u : uthash) (p : ptr) (i : Z) : res (uthash * option ptr) :=
  HASH_REPLACE u p (int_key i).
Definition HASH_FIND_PTR (u : uthash) (a : Z) : res (option ptr) := HASH_FIND u (ptr_key a).
Definition HASH_ADD_PTR (u : uthash) (p : ptr) (a : Z) : res uthash :=
  HASH_ADD_KEYPTR u p (ptr_key a).
Definition HASH_REPLACE_PTR (u : uthash) (p : ptr) (a : Z) : res (uthash * option ptr) :=
  HASH_REPLACE u p (ptr_key a).

(** ** [HASH_ITER] *)

Section Iter.
(** The loop's body runs on a state that contains the table. *)
Context {S : Type} (table : S -> uthash) (body : ptr -> S -> res S).

(** [(tmp) != NULL ? (tmp)->hh.next : NULL] *)
Definition iter_next (s : S) (el : option ptr) : res (option ptr) :=
  match el with
  | None => Ok None
  | Some e => h ← get_hh (hhs (table s)) e; Ok (next h)
  end.

(** The successor is read before the body of the next round runs. *)
Fixpoint iter_loop (fuel : nat) (el tmp : option ptr) (s : S) : res S :=
  match el with
  | None => Ok s
  | Some e =>
      match fuel with
      | O => NoFuel
      | Datatypes.S fuel =>
          s ← body e s;
          tmp' ← iter_next s tmp;
          iter_loop fuel tmp tmp' s
      end
  end.

(** The application order has no more elements than there are handles. *)
Definition HASH_ITER (s : S) : res S :=
  let u := table s in
  tmp ← iter_next s (head u);
  iter_loop (Datatypes.S (size (hhs u))) (head u) tmp s.
End Iter.

(** ** [HASH_EMIT_KEY] *)

(** The bytes written: the length as an [unsigned], then the key. *)
Definition HASH_EMIT_KEY (key : list Z) : list Z := le_bytes 4 (u32 (zlen key)) ++ key.

(** What a reader of the file makes of them. *)
Fixpoint read_keys (fuel : nat) (bs : list Z) : option (list (list Z)) :=
  match fuel, bs with
  | _, [] => Some []
  | O, _ => None
  | Datatypes.S fuel, _ =>
      let n := Z.to_nat (le_val (take 4 bs)) in
      let rest := drop 4 bs in
      if (n <=? length rest)%nat
      then ks ← read_keys fuel (drop n rest); Some (take n rest :: ks)
      else None
  end.

Lemma read_emitted keys fuel :
  Forall key_fits keys -> (length keys <= fuel)%nat ->
  read_keys fuel (concat (HASH_EMIT_KEY <$> keys)) = Some keys.
Proof.
  intros Hk. revert fuel. induction Hk as [|k keys Hk Hks IH]; intros fuel Hf;
    [by destruct fuel|].
  destruct fuel as [|fuel]; [cbn in Hf; lia|]. cbn [fmap list_fmap concat]. unfold HASH_EMIT_KEY at 1.
  rewrite <- !app_assoc. pose proof (zlen_nonneg k). unfold key_fits in Hk.
  set (bs := le_bytes 4 _ ++ _). assert (exists b bs', bs = b :: bs') as (b & bs' & E) by (by do 2 eexists).
  cbn [read_keys]. rewrite E. rewrite <- E. unfold bs. clear E.
  rewrite take_app_length', drop_app_length' by (by rewrite length_le_bytes).
  rewrite le_val_bytes, u32_small, Z.mod_small by lia. unfold zlen. rewrite Nat2Z.id.
  rewrite length_app, (proj2 (Nat.leb_le _ _)), take_app_length, drop_app_length by lia.
  rewrite IH; [done|cbn in Hf; lia].
Qed.

(** ** Typed keys are distinct when the values are *)

(** A C string in memory, with what follows it. *)
Definition c_string (s : list Z) (rest : list cell) : list cell := cells s ++ Some 0 :: rest.

Lemma strlen_c_string s rest :
  Forall (fun b => b <> 0) s -> uthash_strlen (c_string s rest) = Ok (zlen s).
Proof.
  induction 1 as [|b s Hb Hs IH]; [done|]. cbn. rewrite (proj2 (Z.eqb_neq b 0)) by done.
  unfold c_string in IH. fold (cells s). rewrite IH. cbn. f_equal. unfold zlen. cbn [length]. lia.
Qed.

Lemma str_key_c_string s rest :
  Forall (fun b => b <> 0) s -> key_fits s -> str_key (c_string s rest) = Ok s.
Proof.
  intros Hs Hk. unfold str_key. rewrite strlen_c_string by done. cbn [mbind res_bind].
  pose proof (zlen_nonneg s). rewrite u32_small by (split; [done|exact Hk]).
  by apply load_bytes_cells.
Qed.

Lemma int_key_inj i j :
  - 2 ^ 31 <= i < 2 ^ 31 -> - 2 ^ 31 <= j < 2 ^ 31 -> int_key i = int_key j -> i = j.
Proof.
  intros Hi Hj E. apply le_bytes_inj in E; [|apply u32_range..].
  unfold u32 in E. pose proof (Z.div_mod i (2 ^ 32) ltac:(lia)).
  pose proof (Z.div_mod j (2 ^ 32) ltac:(lia)). nia.
Qed.

Lemma ptr_key_inj a b : 0 <= a < 2 ^ 64 -> 0 <= b < 2 ^ 64 -> ptr_key a = ptr_key b -> a = b.
Proof. intros Ha Hb. by apply (le_bytes_inj 8). Qed.

(** ** Iteration *)

Lemma iter_next_middle {S} (table : S -> uthash) s a x b :
  ut_inv (table s) (a ++ x :: b) -> iter_next table s (Some x) = Ok (list.head b).
Proof.
  intros Hinv. unfold iter_next, get_hh, ut_inv in *.
  destruct (head (table s)) as [hd|]; [|by destruct a].
  destruct Hinv as (t & cs & _ & Hd & _). apply dseg_app in Hd as (m & n & _ & _ & h & Hh & _ & Hd).
  rewrite Hh. cbn [deref mbind res_bind]. f_equal. destruct b as [|y b]; [by destruct Hd|].
  by destruct Hd as (-> & _).
Qed.

Lemma ut_inv_head u xs : ut_inv u xs -> head u = list.head xs.
Proof.
  unfold ut_inv. destruct (head u) as [hd|]; [|by intros ->].
  intros (t & cs & _ & Hd & _). destruct xs as [|x xs]; [by destruct Hd|]. by destruct Hd.
Qed.

Lemma ut_inv_size u xs : ut_inv u xs -> (length xs <= size (hhs u))%nat.
Proof.
  intros Hinv. apply nodup_size; [by eapply ut_inv_nodup|]. intros x Hx. unfold ut_inv in Hinv.
  destruct (head u) as [hd|]; [|subst; set_solver].
  destruct Hinv as (t & cs & _ & Hd & _). by eapply dseg_lookup.
Qed.

(** The rounds of the loop: [R] relates the state to the elements kept so far
    and the elements still to come, and every round keeps it. *)
Lemma iter_loop_spec {S} (table : S -> uthash) body (R : S -> list ptr -> list ptr -> Prop)
    (step : list ptr -> ptr -> list ptr) :
  (forall s a b, R s a b -> ut_inv (table s) (a ++ b)) ->
  (forall s a e b, R s a (e :: b) -> exists s', body e s = Ok s' /\ R s' (step a e) b) ->
  forall b fuel s a, R s a b -> (length b <= fuel)%nat ->
  exists s', iter_loop table body fuel (list.head b) (list.head (tl b)) s = Ok s' /\
    R s' (foldl step a b) [].
Proof.
  intros Hinv Hbody b. induction b as [|e b IH]; intros fuel s a Hr Hf.
  - exists s. destruct fuel; done.
  - destruct fuel as [|fuel]; [cbn in Hf; lia|]. cbn [list.head tl iter_loop].
    destruct (Hbody s a e b Hr) as (s' & E & Hr'). rewrite E. cbn [mbind res_bind].
    assert (iter_next table s' (list.head b) = Ok (list.head (tl b))) as ->.
    { destruct b as [|x b]; [done|]. eapply iter_next_middle. by apply Hinv. }
    cbn [mbind res_bind]. apply IH; [done|cbn in Hf; lia].
Qed.

Lemma HASH_ITER_spec {S} (table : S -> uthash) body (R : S -> list ptr -> list ptr -> Prop)
    (step : list ptr -> ptr -> list ptr) s xs :
  (forall s a b, R s a b -> ut_inv (table s) (a ++ b)) ->
  (forall s a e b, R s a (e :: b) -> exists s', body e s = Ok s' /\ R s' (step a e) b) ->
  R s [] xs -> exists s', HASH_ITER table body s = Ok s' /\ R s' (foldl step [] xs) [].
Proof.
  intros Hinv Hbody Hr. pose proof (Hinv _ _ _ Hr) as I. cbn in I. unfold HASH_ITER. cbv zeta.
  rewrite (ut_inv_head _ _ I).
  assert (iter_next table s (list.head xs) = Ok (list.head (tl xs))) as ->.
  { destruct xs as [|x xs]; [done|]. by eapply (iter_next_middle table s []). }
  cbn [mbind res_bind]. eapply iter_loop_spec; try done.
  pose proof (ut_inv_size _ _ I). lia.
Qed.

(** A body that deletes (and frees) the elements that are not to be kept, and
    notes what it has seen. *)
Definition delete_unless (keep : ptr -> bool) (e : ptr) (s : uthash * list ptr)
    : res (uthash * list ptr) :=
  let '(u, seen) := s in
  if keep e then Ok (u, seen ++ [e]) else
  u ← HASH_DELETE u e;
  Ok (mkUt (head u) (tbl u) (delete e (hhs u)), seen ++ [e]).


(** ** Properties *)

Lemma filter_snoc (keep : ptr -> bool) seen e :
  filter keep (seen ++ [e]) = if keep e then filter keep seen ++ [e] else filter keep seen.
Proof.
  rewrite filter_app. destruct (keep e) eqn:Ek.
  - by rewrite filter_cons_True, filter_nil by (rewrite Ek; exact I).
  - rewrite filter_cons_False, filter_nil by (rewrite Ek; intros []). apply app_nil_r.
Qed.

Lemma delete_unless_step (keep : ptr -> bool) u xs u1 seen e b :
  xs = seen ++ e :: b -> ut_inv u1 (filter keep seen ++ e :: b) ->
  (forall q, q ∈ seen -> keep q = false -> hhs u1 !! q = None) ->
  (forall q, q ∉ seen \/ keep q = true -> hh_key <$> hhs u1 !! q = hh_key <$> hhs u !! q) ->
  exists u2, delete_unless keep e (u1, seen) = Ok (u2, seen ++ [e]) /\
    ut_inv u2 (filter keep (seen ++ [e]) ++ b) /\
    (forall q, q ∈ seen ++ [e] -> keep q = false -> hhs u2 !! q = None) /\
    (forall q, q ∉ seen ++ [e] \/ keep q = true -> hh_key <$> hhs u2 !! q = hh_key <$> hhs u !! q).
Proof.
  intros Hxs Hinv Hgone Hkey. unfold delete_unless. rewrite filter_snoc.
  destruct (keep e) eqn:Ek.
  - exists u1. split; [done|]. rewrite <- app_assoc. split_and!; [done| |].
    + intros q [Hq|Hq]%elem_of_app Hkq; [auto|]. apply list_elem_of_singleton in Hq as ->. congruence.
    + intros q Hq. apply Hkey. set_solver.
  - destruct (del_list_spec u1 _ e b Hinv) as (u2 & E & I & Hk & _). rewrite E.
    cbn [mbind res_bind]. eexists. split; [reflexivity|].
    cbn [hhs]. split_and!.
    + eapply ut_inv_same_but; [done| |by intros q Hq; apply lookup_delete_ne].
      apply ut_inv_nodup in Hinv. rewrite <- Permutation_middle in Hinv.
      by apply NoDup_cons in Hinv as [? _].
    + intros q [Hq|Hq]%elem_of_app Hkq.
      * destruct (decide (q = e)) as [->|]; [by rewrite lookup_delete_eq|].
        rewrite lookup_delete_ne by done. specialize (Hk q). rewrite (Hgone q Hq Hkq) in Hk.
        by destruct (hhs u2 !! q).
      * apply list_elem_of_singleton in Hq as ->. by rewrite lookup_delete_eq.
    + intros q Hq. assert (q <> e) as Hne.
      { intros ->. destruct Hq as [Hq|Hq]; [set_solver|congruence]. }
      rewrite lookup_delete_ne, Hk by done. apply Hkey. set_solver.
Qed.

(** C20. [HASH_ITER] may delete as it goes: a loop over a table whose body
    deletes and frees some of the elements it is given ends, reads no freed
    element, visits every element exactly once in the order of insertion, and
    leaves exactly the others, in their order; their keys are untouched.  When
    all are deleted the head pointer is NULL. *)
Theorem hash_iter_delete (keep : ptr -> bool) u xs :
  ut_inv u xs ->
  exists u', HASH_ITER fst (delete_unless keep) (u, []) = Ok (u', xs) /\
    ut_inv u' (filter keep xs) /\
    (forall q, q ∈ xs -> keep q = false -> hhs u' !! q = None) /\
    (forall q, q ∉ xs \/ keep q = true -> key_of u' q = key_of u q) /\
    (Forall (fun q => keep q = false) xs -> head u' = None).
Proof.
  intros Hinv.
  destruct (HASH_ITER_spec fst (delete_unless keep) (fun s a b =>
    xs = s.2 ++ b /\ a = filter keep s.2 /\ ut_inv s.1 (a ++ b) /\
    (forall q, q ∈ s.2 -> keep q = false -> hhs s.1 !! q = None) /\
    (forall q, q ∉ s.2 \/ keep q = true -> hh_key <$> hhs s.1 !! q = hh_key <$> hhs u !! q))
    (fun a e => if keep e then a ++ [e] else a) (u, []) xs) as ([u' seen] & E & Hr).
  - by intros s a b (_ & _ & ? & _).
  - intros [u1 seen] a e b (Hxs & -> & I & Hg & Hk). cbn [fst snd] in *.
    destruct (delete_unless_step keep u xs u1 seen e b Hxs I Hg Hk) as (u2 & E & I2 & Hg2 & Hk2).
    exists (u2, seen ++ [e]). split; [exact E|]. cbn [fst snd].
    rewrite <- filter_snoc.
    split; [by rewrite <- app_assoc|]. done.
  - cbn. split_and!; try done. intros q Hq. set_solver.
  - cbn [fst snd] in Hr. rewrite app_nil_r in Hr. destruct Hr as (-> & Ea & I & Hg & Hk).
    rewrite Ea, app_nil_r in I. exists u'. split_and!; try done. intros Hall.
    rewrite (ut_inv_head _ _ I).
    rewrite (filter_none (fun q => Is_true (keep q))); [done|].
    eapply Forall_impl; [exact Hall|]. intros q Hq. rewrite Hq. intros [].

Qed.

Lemma hash_iter_delete_witness :
  exists u u', two_elements = Ok u /\
    HASH_ITER fst (delete_unless (fun q => (q =? 2)%positive)) (u, [])
      = Ok (u', [1%positive; 2%positive]) /\
    hhs u' !! 1%positive = None /\ key_of u' 2%positive = Some [7].
Proof.
  destruct two_elements_rep as (u & E & xs & Hinv & _).
  assert (xs = [1%positive; 2%positive] /\ key_of u 2%positive = Some [7]) as [-> Hkey].
  { vm_compute in E. injection E as <-. split; [|vm_compute; reflexivity].
    destruct Hinv as (t & cs & _ & Hd & _). destruct xs as [|x [|y [|z xs]]].
    - destruct Hd as [Hd _]. discriminate.
    - destruct Hd as ([= <-] & h & Hh & _ & Hd & _). vm_compute in Hh. injection Hh as <-. discriminate.
    - destruct Hd as ([= <-] & h & Hh & _ & Hd & _). vm_compute in Hh. injection Hh as <-.
      injection Hd as <-. reflexivity.
    - destruct Hd as ([= <-] & h & Hh & _ & Hd & h' & Hh' & _ & Hd' & _). vm_compute in Hh.
      injection Hh as <-. injection Hd as <-. vm_compute in Hh'. injection Hh' as <-. discriminate. }
  destruct (hash_iter_delete (fun q => (q =? 2)%positive) u _ Hinv) as (u' & E' & _ & Hg & Hk & _).
  exists u, u'. split; [exact E|]. split; [exact E'|]. split.
  - apply Hg; [apply list_elem_of_here|reflexivity].
  - rewrite Hk; [exact Hkey|]. right. reflexivity.
Defined.

(** Typed keys: a string is found under the same C string whatever follows its
    terminator, an [int] under the same number and a pointer under the same
    address, and nothing else is disturbed. *)
Theorem typed_keys_find u m p :
  ut_rep u m -> ut_room u = true -> (forall k, m !! k <> Some p) ->
  (forall s rest, Forall (fun b => b <> 0) s -> key_fits s -> m !! s = None ->
     exists u', HASH_ADD_STR u p (c_string s rest) = Ok u' /\
       forall s' rest', Forall (fun b => b <> 0) s' -> key_fits s' ->
         HASH_FIND_STR u' (c_string s' rest')
         = if decide (s' = s) then Ok (Some p) else HASH_FIND_STR u (c_string s' rest')) /\
  (forall i, - 2 ^ 31 <= i < 2 ^ 31 -> m !! int_key i = None ->
     exists u', HASH_ADD_INT u p i = Ok u' /\
       forall j, - 2 ^ 31 <= j < 2 ^ 31 ->
         HASH_FIND_INT u' j = if decide (j = i) then Ok (Some p) else HASH_FIND_INT u j) /\
  (forall a, 0 <= a < 2 ^ 64 -> m !! ptr_key a = None ->
     exists u', HASH_ADD_PTR u p a = Ok u' /\
       forall b, 0 <= b < 2 ^ 64 ->
         HASH_FIND_PTR u' b = if decide (b = a) then Ok (Some p) else HASH_FIND_PTR u b).
Proof.
  intros Hr Hroom Hf.
  assert (forall k, key_fits k -> m !! k = None -> exists u', HASH_ADD_KEYPTR u p k = Ok u' /\
    forall k', HASH_FIND u' k' = if decide (k' = k) then Ok (Some p) else HASH_FIND u k') as Hadd.
  { intros k Hk Hn. destruct (ut_add_spec u m p k Hr Hk Hroom Hn Hf) as (u' & E & R).
    exists u'. split; [done|]. intros k'. rewrite (ut_find_spec u' _ k' R), (ut_find_spec u m k' Hr).
    destruct (decide (k' = k)) as [->|]; [by rewrite lookup_insert_eq|by rewrite lookup_insert_ne]. }
  assert (forall n v, Z.of_nat n < 2 ^ 32 -> key_fits (le_bytes n v)) as Hfit.
  { intros n v Hn. unfold key_fits, zlen. by rewrite length_le_bytes. }
  split; [|split].
  - intros s rest Hs Hk Hn. destruct (Hadd s Hk Hn) as (u' & E & F). exists u'.
    unfold HASH_ADD_STR, HASH_FIND_STR. rewrite str_key_c_string by done. split; [done|].
    intros s' rest' Hs' Hk'. rewrite str_key_c_string by done. apply F.
  - intros i Hi Hn. destruct (Hadd (int_key i) (Hfit 4%nat _ ltac:(lia)) Hn) as (u' & E & F).
    exists u'. split; [done|]. intros j Hj. unfold HASH_FIND_INT. rewrite F.
    destruct (decide (j = i)) as [->|Hne]; [by rewrite decide_True|].
    rewrite decide_False; [done|]. intros Ek. by apply int_key_inj in Ek.
  - intros a Ha Hn. destruct (Hadd (ptr_key a) (Hfit 8%nat _ ltac:(lia)) Hn) as (u' & E & F).
    exists u'. split; [done|]. intros b Hb. unfold HASH_FIND_PTR. rewrite F.
    destruct (decide (b = a)) as [->|Hne]; [by rewrite decide_True|].
    rewrite decide_False; [done|]. intros Ek. by apply ptr_key_inj in Ek.
Qed.
