(* ===== verification/UtMurmur.v ===== *)
(** * UtMurmur: the Murmur hash on processors other than Intel's

    [HASH_MUR] reads the key in 32-bit words.  Where unaligned reads are not
    safe, [MUR_GETBLOCK] puts a word together from the two aligned ones around
    it ([MUR_THREE_ONE], [MUR_TWO_TWO], [MUR_ONE_THREE]), for either byte
    order.  This file models that variant over a byte-addressed memory and
    compares it with the Intel variant of [UtHashes.v]. *)

From stdpp Require Import base tactics list numbers option.
From S2P Require Import Prelude UtHashes.

Section Portable.
(** The memory, and whether the processor is big endian. *)
Context (mem : Z -> Z) (big_endian : bool).

Definition bytes_at (a : Z) (n : nat) : list Z := (fun i => mem (a + Z.of_nat i)) <$> seq 0 n.

(** The [uint32_t] at address [a]. *)
Definition word (a : Z) : Z :=
  let bs := bytes_at a 4 in le_val (if big_endian then reverse bs else bs).

Definition MUR_PLUS0_ALIGNED (p : Z) : bool := Z.land p 3 =? 0.
Definition MUR_PLUS1_ALIGNED (p : Z) : bool := Z.land p 3 =? 1.
Definition MUR_PLUS2_ALIGNED (p : Z) : bool := Z.land p 3 =? 2.
Definition WP (p : Z) : Z := Z.land p (Z.lnot 3).

Definition MUR_THREE_ONE (p : Z) : Z :=
  if big_endian
  then Z.lor (u32 (Z.shiftl (Z.land (word (WP p)) 0x00ffffff) 8))
             (Z.shiftr (Z.land (word (WP p + 4)) 0xff000000) 24)
  else Z.lor (Z.shiftr (Z.land (word (WP p)) 0xffffff00) 8)
             (u32 (Z.shiftl (Z.land (word (WP p + 4)) 0x000000ff) 24)).
Definition MUR_TWO_TWO (p : Z) : Z :=
  if big_endian
  then Z.lor (u32 (Z.shiftl (Z.land (word (WP p)) 0x0000ffff) 16))
             (Z.shiftr (Z.land (word (WP p + 4)) 0xffff0000) 16)
  else Z.lor (Z.shiftr (Z.land (word (WP p)) 0xffff0000) 16)
             (u32 (Z.shiftl (Z.land (word (WP p + 4)) 0x0000ffff) 16)).
Definition MUR_ONE_THREE (p : Z) : Z :=
  if big_endian
  then Z.lor (u32 (Z.shiftl (Z.land (word (WP p)) 0x000000ff) 24))
             (Z.shiftr (Z.land (word (WP p + 4)) 0xffffff00) 8)
  else Z.lor (Z.shiftr (Z.land (word (WP p)) 0xff000000) 24)
             (u32 (Z.shiftl (Z.land (word (WP p + 4)) 0x00ffffff) 8)).

(** [p] is a [const uint32_t *]: [(p)[i]] is four bytes a step. *)
Definition MUR_GETBLOCK_portable (p i : Z) : Z :=
  if MUR_PLUS0_ALIGNED p then word (p + 4 * i)
  else if MUR_PLUS1_ALIGNED p then MUR_THREE_ONE p
  else if MUR_PLUS2_ALIGNED p then MUR_TWO_TWO p else MUR_ONE_THREE p.

(** [for (_mur_i = -_mur_nblocks; _mur_i != 0; _mur_i++)], [n] rounds to go. *)
Fixpoint mur_loop (n : nat) (blocks h1 : Z) : Z :=
  match n with
  | O => h1
  | S n' =>
      let h1 := Z.lxor h1 (mur_k1 (MUR_GETBLOCK_portable blocks (- Z.of_nat n))) in
      let h1 := MUR_ROTL32 h1 13 in
      mur_loop n' blocks (u32 (u32 (h1 * 5) + 0xe6546b64))
  end.

(** For keys of less than [2^31] bytes at address [key]. *)
Definition HASH_MUR_portable (key : Z) (keylen : nat) : Z :=
  let nblocks := (keylen / 4)%nat in
  let blocks := key + Z.of_nat (nblocks * 4) in
  let h1 := mur_loop nblocks blocks 0xf88D5353 in
  let h1 := mur_tail (bytes_at blocks (keylen mod 4)) h1 in
  MUR_FMIX (Z.lxor h1 (u32 (Z.of_nat keylen))).

(** ** Words from two aligned words *)

Context (mem_ok : forall a, byte_ok (mem a)).

Lemma bytes_at_ok a n : Forall byte_ok (bytes_at a n).
Proof using mem_ok. apply Forall_fmap, Forall_true. intros i. apply mem_ok. Qed.

(** The number in the processor's byte order. *)
Definition native (b0 b1 b2 b3 : Z) : Z :=
  if big_endian then b3 + 2 ^ 8 * b2 + 2 ^ 16 * b1 + 2 ^ 24 * b0
  else b0 + 2 ^ 8 * b1 + 2 ^ 16 * b2 + 2 ^ 24 * b3.

Lemma word_native a : word a = native (mem a) (mem (a + 1)) (mem (a + 2)) (mem (a + 3)).
Proof using.
  unfold word, native, bytes_at. cbn [seq fmap list_fmap]. change (Z.of_nat 0) with 0.
  rewrite Z.add_0_r. change (Z.of_nat 1) with 1. change (Z.of_nat 2) with 2.
  change (Z.of_nat 3) with 3. destruct big_endian; cbn; lia.
Qed.

(** The low [k] bits, and the bits above them. *)
Lemma land_low x k : 0 <= k -> Z.land x (2 ^ k - 1) = x mod 2 ^ k.
Proof using. intros Hk. rewrite <- Z.land_ones by done. f_equal. rewrite Z.ones_equiv. lia. Qed.

Lemma shiftr_land_high x k m :
  0 <= k <= 32 -> 0 <= x < 2 ^ 32 -> m = 2 ^ 32 - 2 ^ k -> Z.shiftr (Z.land x m) k = x / 2 ^ k.
Proof using.
  intros Hk Hx ->. rewrite Z.shiftr_land, !Z.shiftr_div_pow2 by lia.
  assert (0 < 2 ^ k) by (by apply Z.pow_pos_nonneg; lia).
  assert ((2 ^ 32 - 2 ^ k) / 2 ^ k = 2 ^ (32 - k) - 1) as ->.
  { replace (2 ^ 32) with (2 ^ (32 - k) * 2 ^ k) by (rewrite <- Z.pow_add_r by lia; f_equal; lia).
    replace (2 ^ (32 - k) * 2 ^ k - 2 ^ k) with ((2 ^ (32 - k) - 1) * 2 ^ k) by lia.
    apply Z.div_mul. lia. }
  rewrite land_low by lia. apply Z.mod_small. split; [apply Z.div_pos; lia|].
  apply Z.div_lt_upper_bound; [done|]. rewrite <- Z.pow_add_r by lia.
  replace (k + (32 - k)) with 32 by lia. lia.
Qed.

Lemma WP_eq p : WP p = 4 * (p / 4).
Proof using.
  unfold WP. rewrite <- Z.ldiff_land.  change 3 with (Z.ones 2). rewrite Z.ldiff_ones_r by lia.
  rewrite Z.shiftl_mul_pow2, Z.shiftr_div_pow2 by lia. change (2 ^ 2) with 4. lia.
Qed.

Lemma land_3 p : Z.land p 3 = p mod 4.
Proof using. change 3 with (Z.ones 2). by rewrite Z.land_ones. Qed.

(** Shifting the two words together. *)
Lemma join_words (w0 w1 k : Z) :
  0 <= k <= 32 -> 0 <= w0 < 2 ^ 32 -> 0 <= w1 < 2 ^ 32 ->
  Z.lor (Z.shiftr (Z.land w0 (2 ^ 32 - 2 ^ k)) k) (u32 (Z.shiftl (Z.land w1 (2 ^ k - 1)) (32 - k)))
  = w0 / 2 ^ k + 2 ^ (32 - k) * (w1 mod 2 ^ k).
Proof using.
  intros Hk H0 H1. rewrite (shiftr_land_high w0 k) by done. rewrite land_low by lia.
  assert (0 < 2 ^ k) by (by apply Z.pow_pos_nonneg; lia).
  assert (0 < 2 ^ (32 - k)) by (apply Z.pow_pos_nonneg; lia).
  assert (2 ^ 32 = 2 ^ (32 - k) * 2 ^ k) as E32 by (rewrite <- Z.pow_add_r by lia; f_equal; lia).
  pose proof (Z.mod_pos_bound w1 (2 ^ k) ltac:(lia)).
  assert (0 <= w0 / 2 ^ k < 2 ^ (32 - k)).
  { split; [apply Z.div_pos; lia|]. apply Z.div_lt_upper_bound; lia. }
  rewrite u32_small; [|rewrite Z.shiftl_mul_pow2 by lia; nia].
  rewrite Z.lor_comm, lor_shiftl_add by lia. lia.
Qed.

Lemma native_range b0 b1 b2 b3 :
  byte_ok b0 -> byte_ok b1 -> byte_ok b2 -> byte_ok b3 -> 0 <= native b0 b1 b2 b3 < 2 ^ 32.
Proof using. unfold byte_ok, native. intros. destruct big_endian; lia. Qed.

Lemma WP_below a k : 0 <= k < 4 -> a mod 4 = 0 -> WP (a + k) = a.
Proof using.
  intros Hk Ha. rewrite WP_eq. pose proof (Z.div_mod a 4 ltac:(lia)).
  pose proof (Z.div_mod (a + k) 4 ltac:(lia)). pose proof (Z.mod_pos_bound (a + k) 4 ltac:(lia)). lia.
Qed.

(** The words at [a] and [a + 4], shifted together by [k] bits. *)
Lemma joined a k :
  0 <= k <= 32 ->
  let w := native (mem a) (mem (a + 1)) (mem (a + 2)) (mem (a + 3)) in
  let w' := native (mem (a + 4)) (mem (a + 4 + 1)) (mem (a + 4 + 2)) (mem (a + 4 + 3)) in
  Z.lor (Z.shiftr (Z.land w (2 ^ 32 - 2 ^ k)) k) (u32 (Z.shiftl (Z.land w' (2 ^ k - 1)) (32 - k)))
    = w / 2 ^ k + 2 ^ (32 - k) * (w' mod 2 ^ k) /\
  Z.lor (u32 (Z.shiftl (Z.land w (2 ^ (32 - k) - 1)) k))
        (Z.shiftr (Z.land w' (2 ^ 32 - 2 ^ (32 - k))) (32 - k))
    = w' / 2 ^ (32 - k) + 2 ^ k * (w mod 2 ^ (32 - k)).
Proof using mem_ok.
  intros Hk w w'. assert (0 <= w < 2 ^ 32) by (by apply native_range).
  assert (0 <= w' < 2 ^ 32) by (by apply native_range). split; [by apply join_words|].
  rewrite Z.lor_comm. pose proof (join_words w' w (32 - k)) as E.
  replace (32 - (32 - k)) with k in E by lia. apply E; lia.
Qed.

(** One residue of the address: look at the bytes. *)
Ltac look_at_bytes a k :=
  let L := fresh in let B := fresh in
  destruct (joined a k ltac:(lia)) as [L B];
  destruct big_endian eqn:Eb; [etransitivity; [exact B|]|etransitivity; [exact L|]];
  unfold native; rewrite ?Eb;
  pose proof (mem_ok a); pose proof (mem_ok (a + 1)); pose proof (mem_ok (a + 2));
  pose proof (mem_ok (a + 3)); pose proof (mem_ok (a + 4)); pose proof (mem_ok (a + 4 + 1));
  pose proof (mem_ok (a + 4 + 2)); pose proof (mem_ok (a + 4 + 3));
  unfold byte_ok in *.

Lemma three_one a : a mod 4 = 0 ->
  MUR_THREE_ONE (a + 1) = native (mem (a + 1)) (mem (a + 2)) (mem (a + 3)) (mem (a + 4)).
Proof using mem_ok.
  intros Ha. unfold MUR_THREE_ONE. rewrite WP_below, !word_native by lia.
  look_at_bytes a 8; zlia.
Qed.

Lemma two_two a : a mod 4 = 0 ->
  MUR_TWO_TWO (a + 2) = native (mem (a + 2)) (mem (a + 3)) (mem (a + 4)) (mem (a + 4 + 1)).
Proof using mem_ok.
  intros Ha. unfold MUR_TWO_TWO. rewrite WP_below, !word_native by lia.
  look_at_bytes a 16; zlia.
Qed.

Lemma one_three a : a mod 4 = 0 ->
  MUR_ONE_THREE (a + 3)
  = native (mem (a + 3)) (mem (a + 4)) (mem (a + 4 + 1)) (mem (a + 4 + 2)).
Proof using mem_ok.
  intros Ha. unfold MUR_ONE_THREE. rewrite WP_below, !word_native by lia.
  look_at_bytes a 24; zlia.
Qed.

(** The four bytes from [p] on, as a number. *)
Definition native_at (p : Z) : Z := native (mem p) (mem (p + 1)) (mem (p + 2)) (mem (p + 3)).

(** What the macro reads: the block asked for when the address is aligned; the
    first one, whatever block is asked for, when it is not. *)
Lemma getblock_spec p i :
  MUR_GETBLOCK_portable p i = native_at (if p mod 4 =? 0 then p + 4 * i else p).
Proof using mem_ok.
  unfold MUR_GETBLOCK_portable, MUR_PLUS0_ALIGNED, MUR_PLUS1_ALIGNED, MUR_PLUS2_ALIGNED.
  rewrite land_3. destruct (Z.eqb_spec (p mod 4) 0) as [E0|E0]; [apply word_native|].
  pose proof (Z.mod_pos_bound p 4 ltac:(lia)). unfold native_at.
  assert ((p - p mod 4) mod 4 = 0) as Ha by zlia.
  destruct (Z.eqb_spec (p mod 4) 1) as [E1|E1]; [|destruct (Z.eqb_spec (p mod 4) 2) as [E2|E2]].
  - rewrite E1 in Ha. replace p with (p - 1 + 1) at 1 by lia. rewrite three_one by done.
    f_equal; f_equal; lia.
  - rewrite E2 in Ha. replace p with (p - 2 + 2) at 1 by lia. rewrite two_two by done.
    f_equal; f_equal; lia.
  - assert (p mod 4 = 3) as E3 by lia. rewrite E3 in Ha.
    replace p with (p - 3 + 3) at 1 by lia. rewrite one_three by done. f_equal; f_equal; lia.
Qed.

Lemma length_bytes_at a n : length (bytes_at a n) = n.
Proof using. unfold bytes_at. by rewrite length_fmap, length_seq. Qed.

Lemma bytes_at_app a n k : bytes_at a (n + k) = bytes_at a n ++ bytes_at (a + Z.of_nat n) k.
Proof using.
  unfold bytes_at. rewrite seq_app, fmap_app. f_equal. rewrite <- (Nat.add_0_r (0 + n)).
  rewrite <- fmap_add_seq, <- list_fmap_compose. apply list_fmap_ext. intros i x _. cbn.
  f_equal. lia.
Qed.
End Portable.

(** ** Comparison with the Intel variant *)

Section Compare.
Context (mem : Z -> Z) (big_endian : bool) (mem_ok : forall a, byte_ok (mem a)).

(** The four bytes looked at for the block [i], lowest first. *)
Definition block_read (blocks i : Z) : list Z :=
  let bs := bytes_at mem (if blocks mod 4 =? 0 then blocks + 4 * i else blocks) 4 in
  if big_endian then reverse bs else bs.

(** Those of the last [n] blocks. *)
Fixpoint blocks_read (n : nat) (blocks : Z) : list Z :=
  match n with
  | O => []
  | S n' => block_read blocks (- Z.of_nat n) ++ blocks_read n' blocks
  end.

Lemma getblock_native a :
  native_at mem big_endian a =
  let bs := bytes_at mem a 4 in
  match (if big_endian then reverse bs else bs) with
  | [b0; b1; b2; b3] => MUR_GETBLOCK b0 b1 b2 b3
  | _ => 0
  end.
Proof using mem_ok.
  pose proof (native_range big_endian) as R.
  pose proof (R _ _ _ _ (mem_ok a) (mem_ok (a + 1)) (mem_ok (a + 2)) (mem_ok (a + 3))) as H.
  unfold native_at, native, bytes_at in *. cbn [seq fmap list_fmap]. change (Z.of_nat 0) with 0.
  change (Z.of_nat 1) with 1. change (Z.of_nat 2) with 2. change (Z.of_nat 3) with 3.
  rewrite Z.add_0_r. clear R. destruct big_endian; cbn -[Z.add Z.shiftl]; unfold MUR_GETBLOCK;
    rewrite !Z.shiftl_mul_pow2, u32_small by lia; lia.
Qed.

(** The rounds of the Intel variant over the bytes looked at. *)
Lemma mur_loop_read n blocks rest h :
  (length rest < 4)%nat ->
  mur_blocks (blocks_read n blocks ++ rest) h = (rest, mur_loop mem big_endian n blocks h).
Proof using mem_ok.
  intros Hr. revert h. induction n as [|n IH]; intros h.
  - by destruct rest as [|? [|? [|? [|? ?]]]]; [..|cbn in Hr; lia].
  - cbn [blocks_read mur_loop]. rewrite (getblock_spec mem big_endian mem_ok), getblock_native.
    unfold block_read. rewrite <- app_assoc. set (a := if _ =? 0 then _ else _).
    change (bytes_at mem a 4) with [mem (a + 0); mem (a + 1); mem (a + 2); mem (a + 3)].
    destruct big_endian; cbn [reverse rev_append app mur_blocks]; apply IH.
Qed.

(** Misaligned: one word, over and over. *)
Lemma blocks_read_unaligned n blocks :
  blocks mod 4 <> 0 -> blocks_read n blocks = concat (replicate n (block_read blocks 0)).
Proof using.
  intros Ha. induction n as [|n IH]; [done|]. cbn [blocks_read replicate concat]. rewrite IH.
  unfold block_read. by rewrite (proj2 (Z.eqb_neq _ _)).
Qed.
End Compare.

(** Aligned and little endian: the key. *)
Lemma blocks_read_aligned mem n blocks :
  blocks mod 4 = 0 ->
  blocks_read mem false n blocks = bytes_at mem (blocks - 4 * Z.of_nat n) (4 * n).
Proof.
  intros Ha. induction n as [|n IH]; [done|]. cbn [blocks_read]. rewrite IH.
  unfold block_read. rewrite Ha. cbn [Z.eqb].
  replace (4 * S n)%nat with (4 + 4 * n)%nat by lia. rewrite bytes_at_app.
  f_equal; f_equal; lia.
Qed.

(** ** Properties *)

(** C21. The Murmur hash without unaligned reads, exactly.  It is the Intel variant
    of the bytes that are looked at: for each block four bytes ([block_read], in
    reversed order on a big-endian processor), then the key's last one to three
    bytes.  For a key at an aligned address, and for a key of less than four bytes,
    these are the bytes of the key, so that a little-endian processor computes the
    hash that Intel's compute.  For a longer key at any other address the four bytes
    after the key's blocks are looked at in every round, and the blocks themselves
    never. *)
Theorem mur_portable_spec mem big_endian key keylen :
  (forall a, byte_ok (mem a)) ->
  let n := (keylen / 4)%nat in
  let blocks := key + Z.of_nat (n * 4) in
  HASH_MUR_portable mem big_endian key keylen =
    HASH_MUR (blocks_read mem big_endian n blocks ++ bytes_at mem blocks (keylen mod 4)) /\
  (big_endian = false -> key mod 4 = 0 \/ (keylen < 4)%nat ->
     HASH_MUR_portable mem big_endian key keylen = HASH_MUR (bytes_at mem key keylen)) /\
  (key mod 4 <> 0 ->
     blocks_read mem big_endian n blocks = concat (replicate n (block_read mem big_endian blocks 0)) /\
     block_read mem big_endian blocks 0 =
       (if big_endian then reverse (bytes_at mem blocks 4) else bytes_at mem blocks 4)).
Proof.
  intros Hm n blocks. pose proof (Nat.div_mod_eq keylen 4) as Hd. fold n in Hd.
  pose proof (Nat.mod_upper_bound keylen 4 ltac:(lia)) as Hr.
  assert (blocks mod 4 = key mod 4) as Hmod.
  { unfold blocks. replace (Z.of_nat (n * 4)) with (Z.of_nat n * 4) by lia. by rewrite Z.mod_add. }
  assert (forall be n b, length (blocks_read mem be n b) = (4 * n)%nat) as Hlen.
  { intros be k b. induction k as [|k IH]; [done|]. cbn [blocks_read]. rewrite length_app, IH.
    unfold block_read. destruct be; rewrite ?length_reverse, length_bytes_at; lia. }
  assert (HASH_MUR_portable mem big_endian key keylen =
    HASH_MUR (blocks_read mem big_endian n blocks ++ bytes_at mem blocks (keylen mod 4))) as Hex.
  { unfold HASH_MUR_portable, HASH_MUR. fold n. fold blocks.
    rewrite (mur_loop_read mem big_endian Hm) by (by rewrite length_bytes_at).
    unfold zlen. rewrite length_app, Hlen, length_bytes_at. by rewrite <- Hd. }
  split; [exact Hex|]. split.
  - intros -> Hk. rewrite Hex. f_equal. destruct Hk as [Ha|Hs].
    + rewrite blocks_read_aligned by lia. replace (blocks - 4 * Z.of_nat n) with key by (unfold blocks; lia).
      rewrite Hd at 2. rewrite bytes_at_app. do 2 f_equal. unfold blocks. lia.
    + assert (n = 0%nat) as En by (by apply Nat.div_small). unfold blocks. rewrite En.
      rewrite Nat.mod_small by lia. cbn [blocks_read app]. f_equal. lia.
  - intros Ha. split; [apply blocks_read_unaligned; lia|]. unfold block_read.
    by rewrite (proj2 (Z.eqb_neq _ _)) by lia.
Qed.

(** The keys "abcd" and "wxyz" at the address 1. *)
Definition two_keys (k : list Z) (a : Z) : Z :=
  if (1 <=? a) && (a <? 5) then default 0 (k !! Z.to_nat (a - 1)) else 0.

Lemma two_keys_ok k : Forall byte_ok k -> forall a, byte_ok (two_keys k a).
Proof.
  intros Hk a. unfold two_keys. destruct (_ && _); [|done].
  destruct (k !! Z.to_nat (a - 1)) as [b|] eqn:E; [|done].
  exact (Forall_lookup_1 _ _ _ _ Hk E).
Qed.

(** Both get the hash of the four bytes behind them, though their hashes elsewhere
    differ; the first three bytes alone are hashed as they should be. *)
Lemma mur_portable_spec_witness :
  HASH_MUR_portable (two_keys [119; 120; 121; 122]) false 1 4 = HASH_MUR [0; 0; 0; 0] /\
  HASH_MUR_portable (two_keys [97; 98; 99; 100]) false 1 4 = HASH_MUR [0; 0; 0; 0] /\
  HASH_MUR [119; 120; 121; 122] <> HASH_MUR [97; 98; 99; 100] /\
  HASH_MUR_portable (two_keys [97; 98; 99; 100]) false 1 3 = HASH_MUR [97; 98; 99].
Proof.
  assert (forall a, byte_ok (two_keys [119; 120; 121; 122] a)) as H1.
  { apply two_keys_ok. repeat (apply List.Forall_cons; [split; [discriminate|reflexivity]|]).
    apply List.Forall_nil. }
  assert (forall a, byte_ok (two_keys [97; 98; 99; 100] a)) as H2.
  { apply two_keys_ok. repeat (apply List.Forall_cons; [split; [discriminate|reflexivity]|]).
    apply List.Forall_nil. }
  split; [exact (proj1 (mur_portable_spec _ false 1 4 H1))|].
  split; [exact (proj1 (mur_portable_spec _ false 1 4 H2))|].
  split; [vm_compute; discriminate|].
  apply (proj1 (proj2 (mur_portable_spec _ false 1 3 H2))); [reflexivity|right; lia].
Defined.
