(* ===== verification/HashTable.v ===== *)
(** * HashTable: the key-value store ([praxis2/src/hash_table.c])

    [htable_set], [htable_get] and [htable_delete] over the hash table
    interface, with the entries, the key copies and the value copies as heap
    objects, each allocated by its own [malloc], filled by its own [memcpy] and
    freed by its own [free], in the code's order; a pointer to an object that is
    not alive must not be followed or freed.  The contract is a finite map from
    keys to values, and a heap that holds exactly the entries of the table and
    two blocks for each (nothing leaks, nothing dangles).

    The hash macros read the key bytes of the argument; the model reads them
    before the search even when the table is empty, where the code would not
    look at them. *)

From stdpp Require Import base tactics list numbers option gmap.
From S2P Require Import Prelude KeyTable UtHash.

(** ** The heap of key and value copies

    [malloc] returns a block nothing else uses; [free] ends a block's life, and
    is undefined on anything but a live block. *)
Abbreviation heap := (gmap ptr (list cell)).

Definition malloc_block (b : heap) (n : Z) : ptr * heap :=
  let p := fresh (dom b) in (p, <[p := malloc n]> b).

(** [memcpy(dst, src, n)] into the block at [dst]. *)
Definition memcpy_block (b : heap) (dst : ptr) (src : option (list cell)) (n : Z) : res heap :=
  m ← deref (b !! dst);
  bs ← memcpy_src src n;
  m ← store_block m 0 bs;
  Ok (<[dst := m]> b).

Definition free_block (b : heap) (p : ptr) : res heap :=
  _ ← deref (b !! p);
  Ok (delete p b).

Lemma malloc_block_fresh b n p b' :
  malloc_block b n = (p, b') -> b !! p = None /\ b' = <[p := malloc n]> b.
Proof. intros [= <- <-]. split; [|done]. apply not_elem_of_dom, is_fresh. Qed.

(** A copy of exactly the size of its block fills it. *)
Lemma memcpy_block_ok b p src n bs :
  memcpy_src src n = Ok bs -> zlen bs = n -> b !! p = Some (malloc n) ->
  memcpy_block b p src n = Ok (<[p := bs]> b).
Proof.
  intros Hs Hn Hp. unfold memcpy_block. rewrite Hp. cbn [deref]. rewrite res_bind_Ok, Hs, res_bind_Ok.
  assert (zlen (malloc n) = n) as Hm.
  { unfold malloc, zlen in *. rewrite length_replicate. lia. }
  unfold store_block. rewrite Hm, Z.add_0_l, Hn. cbn [andb Z.leb Z.compare].
  rewrite Z.leb_refl, res_bind_Ok. do 2 f_equal. change (Z.to_nat 0) with 0%nat. rewrite take_0. cbn [app plus].
  rewrite drop_ge, app_nil_r; [done|]. unfold malloc, zlen in *. rewrite length_replicate. lia.
Qed.

(** [typedef struct htable], the handle [hh] apart, which the table owns. *)
Record htable : Type := mkHtable {
  e_key : ptr;
  e_key_len : Z;
  e_value : ptr;
  e_value_len : Z;
}.

(** [create_entry2], which nobody calls, allocates [sizeof(entry)] bytes: the size
    of a pointer.  The block is given by its bytes, the fields by their offsets;
    what is stored in them does not matter. *)
Definition sizeof_ptr : Z := 8.
Definition create_entry2 (key : option (list cell)) (key_len : Z)
    (value : option (list cell)) (value_len : Z) : res (list cell) :=
  let field := malloc sizeof_ptr in
  let entry := malloc sizeof_ptr in
  entry ← store_block entry 0 field;
  ekey ← memcpy_src key key_len;
  entry ← store_block entry 8 field;
  entry ← store_block entry 16 field;
  evalue ← memcpy_src value value_len;
  store_block entry 24 field.

(** It always writes behind the block. *)
Lemma create_entry2_ub key key_len value value_len :
  create_entry2 key key_len value value_len = Ub.
Proof.
  unfold create_entry2. change (store_block _ 0 _) with (Ok (malloc sizeof_ptr)).
  cbn [mbind res_bind].
  destruct (memcpy_src key key_len) as [ekey| | |] eqn:E; cbn [mbind res_bind]; [done|done|..];
    unfold memcpy_src, load_block in E; repeat case_match; done.
Qed.

Section HashTable.
Context {T : Type} `{KTS : KeyTableSpec T}.

(** [htable *ht], the entries and the copies allocated. *)
Record store : Type := mkStore {
  ht : T;
  entries : gmap ptr htable;
  blocks : heap;
}.

Definition store_empty : store := mkStore kt_empty ∅ ∅.

(** [HASH_DEL], which goes through the handle in the entry. *)
Definition hash_del (s : store) (entry : ptr) : res store :=
  _ ← deref (entries s !! entry);
  t ← kt_del (ht s) entry;
  Ok (mkStore t (entries s) (blocks s)).

(** [free(entry->key)], [free(entry->value)], [free(entry)] *)
Definition free_key (s : store) (entry : ptr) : res store :=
  e ← deref (entries s !! entry);
  b ← free_block (blocks s) (e_key e);
  Ok (mkStore (ht s) (entries s) b).

Definition free_value (s : store) (entry : ptr) : res store :=
  e ← deref (entries s !! entry);
  b ← free_block (blocks s) (e_value e);
  Ok (mkStore (ht s) (entries s) b).

Definition free_entry (s : store) (entry : ptr) : res store :=
  _ ← deref (entries s !! entry);
  Ok (mkStore (ht s) (delete entry (entries s)) (blocks s)).

(** What [htable_set] does with the entry it replaces. *)
Definition remove_entry (s : store) (entry : ptr) : res store :=
  s ← hash_del s entry;
  s ← free_value s entry;
  s ← free_key s entry;
  free_entry s entry.

Definition htable_set (s : store) (key : option (list cell)) (key_len : Z)
    (value : option (list cell)) (value_len : Z) : res store :=
  k ← load_bytes key key_len;
  entry ← kt_find (ht s) k;
  s ← (match entry with
       | Some entry => remove_entry s entry
       | None => Ok s
       end);
  let entry : ptr := fresh (dom (entries s)) in
  let '(ekey, b) := malloc_block (blocks s) key_len in
  let '(evalue, b) := malloc_block b value_len in
  b ← memcpy_block b ekey key key_len;
  b ← memcpy_block b evalue value value_len;
  m ← deref (b !! ekey);
  k ← load_bytes (Some m) key_len;
  t ← kt_add (ht s) entry k;
  Ok (mkStore t (<[entry := mkHtable ekey key_len evalue value_len]> (entries s)) b).

Definition htable_get (s : store) (key : option (list cell)) (key_len : Z)
    : res (option ptr) :=
  k ← load_bytes key key_len;
  kt_find (ht s) k.

Definition htable_delete (s : store) (key : option (list cell)) (key_len : Z)
    : res (Z * store) :=
  k ← load_bytes key key_len;
  toDelete ← kt_find (ht s) k;
  s ← (match toDelete with
       | Some toDelete =>
           s ← hash_del s toDelete;
           s ← free_key s toDelete;
           s ← free_value s toDelete;
           free_entry s toDelete
       | None => Ok s
       end);
  Ok (0, s).

(** ** The contract *)

(** The entry of [k] holds [v], in live copies. *)
Definition entry_ok (b : heap) (k : list Z) (v : list cell) (e : htable) : Prop :=
  b !! e_key e = Some (cells k) /\ e_key_len e = zlen k /\
  b !! e_value e = Some v /\ e_value_len e = zlen v.

(** The entries the table [mt] leads to hold the values of [m]. *)
Definition entries_ok (es : gmap ptr htable) (b : heap) (mt : gmap (list Z) ptr)
    (m : gmap (list Z) (list cell)) : Prop :=
  forall k, match mt !! k, m !! k with
            | Some p, Some v => exists e, es !! p = Some e /\ entry_ok b k v e
            | None, None => True
            | _, _ => False
            end.

Definition owns (e : htable) (q : ptr) : Prop := q = e_key e \/ q = e_value e.

(** No block has two owners, or one owner twice. *)
Definition separate (es : gmap ptr htable) : Prop :=
  forall p e, es !! p = Some e ->
    e_key e <> e_value e /\
    forall p' e' q, es !! p' = Some e' -> owns e q -> owns e' q -> p = p'.

(** The store stands for the map [m]: the table maps the keys of [m] to the
    entries allocated, one to one; every entry has two blocks of its own, and
    there are no other blocks. *)
Definition store_rep (s : store) (m : gmap (list Z) (list cell)) : Prop :=
  exists mt, kt_rep (ht s) mt /\
    entries_ok (entries s) (blocks s) mt m /\
    (forall p e, entries s !! p = Some e -> exists k, mt !! k = Some p) /\
    separate (entries s) /\ size (blocks s) = (2 * size (entries s))%nat.

Lemma store_rep_empty : store_rep store_empty ∅.
Proof.
  exists ∅. split; [apply kt_rep_empty|]. split; [|split; [|split]].
  - intros k. by rewrite !lookup_empty.
  - intros p e. cbn. by rewrite lookup_empty.
  - intros p e. cbn. by rewrite lookup_empty.
  - done.
Qed.

(** Two keys never share an entry. *)
Lemma entries_ok_inj es b mt m k k' p :
  entries_ok es b mt m ->
  mt !! k = Some p -> mt !! k' = Some p -> k = k'.
Proof.
  intros Hm E E'. pose proof (Hm k) as Hk. pose proof (Hm k') as Hk'. rewrite E in Hk.
  rewrite E' in Hk'. destruct (m !! k), (m !! k'); try done.
  destruct Hk as (e & He & Hc & _), Hk' as (e' & He' & Hc' & _).
  assert (cells k = cells k') as Ek by congruence.
  apply (f_equal (mapM id)) in Ek. rewrite !mapM_id_cells in Ek. by injection Ek.
Qed.

(** An entry's copies do not depend on blocks it does not own. *)
Lemma entry_ok_frame b b' k v e :
  entry_ok b k v e -> (forall q, owns e q -> b' !! q = b !! q) -> entry_ok b' k v e.
Proof.
  intros (Hk & Hkl & Hv & Hvl) Hb. split; [|split; [done|split; [|done]]].
  - rewrite Hb; [done|by left].
  - rewrite Hb; [done|by right].
Qed.

(** The bytes of a determinate block are what [memcpy] copies. *)
Lemma load_bytes_copy key n k :
  load_bytes key n = Ok k -> memcpy_src key n = Ok (cells k) /\ n = zlen k.
Proof. intros Hk. by apply load_bytes_inv in Hk as (? & <- & _). Qed.

(** The store without the entry [p], its key copy and its value copy. *)
Definition without (s : store) (t : T) (p : ptr) (e : htable) : store :=
  mkStore t (delete p (entries s)) (delete (e_key e) (delete (e_value e) (blocks s))).

(** Both orders of the calls of [free] do the same. *)
Lemma free_orders s t p e k v :
  entries s !! p = Some e -> e_key e <> e_value e -> entry_ok (blocks s) k v e ->
  let s1 := mkStore t (entries s) (blocks s) in
  (s ← free_value s1 p; s ← free_key s p; free_entry s p) = Ok (without s t p e) /\
  (s ← free_key s1 p; s ← free_value s p; free_entry s p) = Ok (without s t p e).
Proof.
  intros He Hne (Hk & _ & Hv & _) s1. unfold free_value, free_key, free_entry, free_block, s1.
  cbn [entries blocks ht]. rewrite He. cbn [deref mbind res_bind entries blocks ht].
  rewrite Hk, Hv. cbn [deref mbind res_bind entries blocks ht]. rewrite He.
  cbn [deref mbind res_bind]. rewrite !lookup_delete_ne, Hk, Hv by done.
  cbn [deref mbind res_bind entries blocks ht]. rewrite He. cbn [deref mbind res_bind].
  unfold without. split; [done|]. by rewrite delete_delete.
Qed.

Lemma without_rep s m mt t k p e v :
  kt_rep t (delete k mt) ->
  entries_ok (entries s) (blocks s) mt m ->
  (forall p e, entries s !! p = Some e -> exists k, mt !! k = Some p) ->
  separate (entries s) -> size (blocks s) = (2 * size (entries s))%nat ->
  mt !! k = Some p -> entries s !! p = Some e -> entry_ok (blocks s) k v e ->
  store_rep (without s t p e) (delete k m).
Proof.
  intros Hr Hm Hdom Hsep Hsz Hp He (Hek & _ & Hev & _). destruct (Hsep p e He) as [Hne Hown].
  exists (delete k mt). split; [exact Hr|]. cbn [without entries blocks]. split; [|split; [|split]].
  - intros k'. destruct (decide (k = k')) as [<-|Hk']; [by rewrite !lookup_delete_eq|].
    rewrite !lookup_delete_ne by done. pose proof (Hm k') as H'.
    destruct (mt !! k') as [p'|] eqn:Ep', (m !! k') as [v'|]; try done.
    destruct H' as (e' & He' & Hok).
    assert (p <> p') as Hpp by (intros <-; by apply Hk', (entries_ok_inj _ _ _ _ _ _ _ Hm Hp Ep')).
    exists e'. rewrite lookup_delete_ne by done. split; [done|]. apply (entry_ok_frame (blocks s)); [done|].
    intros q Hq. rewrite !lookup_delete_ne; [done|..]; intros <-; apply Hpp.
    + apply (Hown p' e' _ He' (or_intror eq_refl) Hq).
    + apply (Hown p' e' _ He' (or_introl eq_refl) Hq).
  - intros p' e' [Hpp He']%lookup_delete_Some. destruct (Hdom p' e' He') as [k' Hk'].
    exists k'. rewrite lookup_delete_ne; [done|]. intros ->. congruence.
  - intros p1 e1 [_ H1]%lookup_delete_Some. destruct (Hsep p1 e1 H1) as [? Ho].
    split; [done|]. intros p2 e2 q [_ H2]%lookup_delete_Some. by apply Ho.
  - rewrite (map_size_delete_Some p (entries s)) by (by exists e).
    rewrite map_size_delete_Some by (by rewrite lookup_delete_ne; [exists (cells k)|]).
    rewrite map_size_delete_Some by (by exists v).
    assert (size (entries s) <> 0)%nat; [|lia].
    intros Hz%map_size_empty_inv. rewrite Hz, lookup_empty in He. done.
Qed.

(** Overwriting or deleting, the entry of [k] and its copies are gone. *)
Lemma remove_spec s m k :
  store_rep s m -> key_fits k ->
  exists entry s', kt_find (ht s) k = Ok entry /\
    match entry with Some entry => remove_entry s entry | None => Ok s end = Ok s' /\
    match entry with
    | Some entry =>
        s ← hash_del s entry; s ← free_key s entry; s ← free_value s entry; free_entry s entry
    | None => Ok s
    end = Ok s' /\
    store_rep s' (delete k m) /\ (kt_room (ht s) = true -> kt_room (ht s') = true).
Proof.
  intros (mt & Hr & Hm & Hdom & Hsep & Hsz) Hk. exists (mt !! k).
  pose proof (Hm k) as Hmk. destruct (mt !! k) as [p|] eqn:Ep.
  - destruct (kt_del_spec (ht s) mt p k Hr Ep) as (t & Et & Hr' & Hroom).
    destruct (m !! k) as [v|]; [|done]. destruct Hmk as (e & He & Hok).
    destruct (free_orders s t p e k v He (proj1 (Hsep p e He)) Hok) as [F1 F2].
    exists (without s t p e). rewrite (kt_find_spec _ mt k Hr Hk), Ep.
    unfold remove_entry, hash_del. rewrite He, Et. cbn [deref mbind res_bind]. cbn [mbind res_bind] in F1, F2.
    split; [done|]. split; [exact F1|]. split; [exact F2|]. split; [|exact Hroom].
    by apply (without_rep s m mt t k p e v).
  - exists s. rewrite (kt_find_spec _ mt k Hr Hk), Ep. destruct (m !! k) eqn:Emk; [done|].
    rewrite delete_id by done. split_and!; try done. by exists mt.
Qed.

(** A new entry with copies of its own. *)
Lemma with_entry_rep s m mt t k v p ek ev :
  let e := mkHtable ek (zlen k) ev (zlen v) in
  kt_rep t (<[k := p]> mt) -> mt !! k = None -> m !! k = None ->
  entries_ok (entries s) (blocks s) mt m ->
  (forall p e, entries s !! p = Some e -> exists k, mt !! k = Some p) ->
  separate (entries s) -> size (blocks s) = (2 * size (entries s))%nat ->
  entries s !! p = None -> blocks s !! ek = None -> blocks s !! ev = None -> ek <> ev ->
  store_rep (mkStore t (<[p := e]> (entries s)) (<[ev := v]> (<[ek := cells k]> (blocks s))))
    (<[k := v]> m).
Proof.
  intros e Hr Hmt Hmk Hm Hdom Hsep Hsz Hp Hek Hev Hne.
  assert (forall p' e' q, entries s !! p' = Some e' -> owns e q -> owns e' q -> False) as Hfr.
  { intros p' e' q He' Hq Hq'. destruct (Hdom p' e' He') as [k' Hk']. pose proof (Hm k') as H'.
    rewrite Hk' in H'. destruct (m !! k'); [|done]. destruct H' as (e'' & He'' & H1 & _ & H2 & _).
    simplify_eq. destruct Hq as [->| ->], Hq' as [E|E]; cbn in E; congruence. }
  exists (<[k := p]> mt). split; [exact Hr|]. cbn. split; [|split; [|split]].
  - intros k'. destruct (decide (k = k')) as [<-|Hk'].
    + rewrite !lookup_insert_eq. exists e. split; [done|]. unfold entry_ok. cbn.
      rewrite lookup_insert_eq, lookup_insert_ne, lookup_insert_eq by done. done.
    + rewrite !lookup_insert_ne by done. pose proof (Hm k') as H'.
      destruct (mt !! k') as [p'|] eqn:Ep', (m !! k'); try done.
      destruct H' as (e' & He' & Hok). exists e'.
      rewrite lookup_insert_ne by (intros <-; congruence). split; [done|].
      apply (entry_ok_frame (blocks s)); [done|]. intros q Hq.
      rewrite !lookup_insert_ne; [done|..]; intros <-.
      * by apply (Hfr p' e' ek He'); [left|].
      * by apply (Hfr p' e' ev He'); [right|].
  - intros p' e' [[<- <-]|[Hpp He']]%lookup_insert_Some.
    + exists k. by rewrite lookup_insert_eq.
    + destruct (Hdom p' e' He') as [k' Hk']. exists k'. rewrite lookup_insert_ne; [done|].
      intros <-. congruence.
  - intros p1 e1 H1. apply lookup_insert_Some in H1 as [[<- <-]|[Hpp H1]].
    + split; [done|]. intros p2 e2 q [[<- _]|[_ H2]]%lookup_insert_Some; [done|].
      intros. by destruct (Hfr p2 e2 q).
    + destruct (Hsep p1 e1 H1) as [? Ho]. split; [done|].
      intros p2 e2 q [[<- <-]|[_ H2]]%lookup_insert_Some; [|by apply Ho].
      intros. by destruct (Hfr p1 e1 q).
  - rewrite map_size_insert_None by (by rewrite lookup_insert_ne).
    rewrite !map_size_insert_None by done. lia.
Qed.

Lemma htable_set_ok s m key key_len value value_len k v :
  store_rep s m -> kt_room (ht s) = true ->
  load_bytes key key_len = Ok k -> memcpy_src value value_len = Ok v ->
  key_fits k -> zlen v = value_len ->
  exists s', htable_set s key key_len value value_len = Ok s' /\
    store_rep s' (<[k := v]> m).
Proof.
  intros Hs Hroom Hk Hv Hfit Hvl.
  destruct (load_bytes_copy _ _ _ Hk) as [Hck ->].
  destruct (remove_spec s m k Hs Hfit) as (entry & s1 & Ef & Er & _ & Hs1 & Hroom1).
  unfold htable_set. rewrite Hk, res_bind_Ok, Ef, res_bind_Ok, Er, res_bind_Ok.
  destruct Hs1 as (mt & Hr & Hm & Hdom & Hsep & Hsz).
  set (p := fresh (dom (entries s1)) : ptr).
  assert (entries s1 !! p = None) as Hp by apply not_elem_of_dom, is_fresh.
  destruct (malloc_block (blocks s1) (zlen k)) as [ek b1] eqn:E1.
  apply malloc_block_fresh in E1 as [Hek ->].
  destruct (malloc_block _ value_len) as [ev b2] eqn:E2.
  apply malloc_block_fresh in E2 as [Hev ->].
  apply lookup_insert_None in Hev as [Hev Hne].
  rewrite (memcpy_block_ok _ ek key (zlen k) (cells k)), res_bind_Ok;
    [|done|apply zlen_cells|by rewrite lookup_insert_ne, lookup_insert_eq].
  rewrite (memcpy_block_ok _ ev value value_len v), res_bind_Ok;
    [|done|done|by rewrite lookup_insert_ne, lookup_insert_eq].
  rewrite lookup_insert_ne, lookup_insert_eq by done. cbn [deref]. rewrite res_bind_Ok.
  rewrite load_bytes_exact, res_bind_Ok by done.
  assert (mt !! k = None) as Hmtk.
  { pose proof (Hm k) as H'. rewrite lookup_delete_eq in H'. by destruct (mt !! k). }
  assert (forall k', mt !! k' <> Some p) as Hfr.
  { intros k' E. pose proof (Hm k') as H'. rewrite E in H'.
    destruct (delete k m !! k'); [|done]. destruct H' as (e & He & _). congruence. }
  destruct (kt_add_spec (ht s1) mt p k Hr Hfit (Hroom1 Hroom) Hmtk Hfr) as (t & Et & Hr').
  rewrite Et, res_bind_Ok. eexists. split; [reflexivity|].
  pose proof (with_entry_rep s1 (delete k m) mt t k v p ek ev Hr' Hmtk) as Hrep. cbv zeta in Hrep.
  rewrite insert_delete_eq, lookup_delete_eq in Hrep.
  rewrite <- Hvl, (insert_insert_ne _ ek ev), !insert_insert_eq by done.
  by apply Hrep.
Qed.

(** A value that cannot be copied is undefined behaviour, like the copy. *)
Lemma htable_set_bad_value s m key key_len value value_len k :
  store_rep s m -> load_bytes key key_len = Ok k -> key_fits k ->
  memcpy_src value value_len = Ub -> htable_set s key key_len value value_len = Ub.
Proof.
  intros Hs Hk Hfit Hv. destruct (load_bytes_copy _ _ _ Hk) as [Hck ->].
  destruct (remove_spec s m k Hs Hfit) as (entry & s1 & Ef & Er & _).
  unfold htable_set. rewrite Hk, res_bind_Ok, Ef, res_bind_Ok, Er, res_bind_Ok.
  destruct (malloc_block (blocks s1) (zlen k)) as [ek b1] eqn:E1.
  apply malloc_block_fresh in E1 as [Hek ->].
  destruct (malloc_block _ value_len) as [ev b2] eqn:E2.
  apply malloc_block_fresh in E2 as [Hev ->]. apply lookup_insert_None in Hev as [Hev Hne].
  rewrite (memcpy_block_ok _ ek key (zlen k) (cells k)), res_bind_Ok;
    [|done|apply zlen_cells|by rewrite lookup_insert_ne, lookup_insert_eq].
  unfold memcpy_block. rewrite (lookup_insert_ne _ ek ev), lookup_insert_eq by done.
  cbn [deref]. by rewrite res_bind_Ok, Hv.
Qed.

Lemma htable_get_ok s m key key_len k :
  store_rep s m -> load_bytes key key_len = Ok k -> key_fits k ->
  exists o, htable_get s key key_len = Ok o /\
    match m !! k with
    | Some v => exists p e, o = Some p /\ entries s !! p = Some e /\ entry_ok (blocks s) k v e
    | None => o = None
    end.
Proof.
  intros (mt & Hr & Hm & _) Hk Hfit. unfold htable_get. rewrite Hk, res_bind_Ok.
  exists (mt !! k). split; [by apply kt_find_spec|]. pose proof (Hm k) as H'.
  destruct (mt !! k) as [p|], (m !! k); try done. destruct H' as (e & He & Hok).
  by exists p, e.
Qed.

Lemma htable_delete_ok s m key key_len k :
  store_rep s m -> load_bytes key key_len = Ok k -> key_fits k ->
  exists s', htable_delete s key key_len = Ok (0, s') /\ store_rep s' (delete k m) /\
    (kt_room (ht s) = true -> kt_room (ht s') = true).
Proof.
  intros Hs Hk Hfit.
  destruct (remove_spec s m k Hs Hfit) as (entry & s1 & Ef & _ & Er & Hs1 & Hroom1).
  exists s1. unfold htable_delete. by rewrite Hk, res_bind_Ok, Ef, res_bind_Ok, Er.
Qed.

(** No leak: there are as many entries allocated as keys in the map, and two
    blocks for each. *)
Lemma store_rep_size s m :
  store_rep s m -> size (entries s) = size m /\ size (blocks s) = (2 * size m)%nat.
Proof.
  intros (mt & _ & Hm & Hdom & _ & Hsz). rewrite Hsz.
  enough (size (entries s) = size m) as -> by done.
  assert (dom mt = dom m) as Ed.
  { apply set_eq. intros k. rewrite !elem_of_dom. pose proof (Hm k) as Hk.
    by destruct (mt !! k), (m !! k). }
  rewrite <- (size_dom m), <- Ed, size_dom, <- (size_dom (entries s)).
  assert (dom (entries s) =@{gset ptr} list_to_set ((map_to_list mt).*2)) as ->.
  { apply set_eq. intros p. rewrite elem_of_dom, elem_of_list_to_set, list_elem_of_fmap. split.
    - intros [e He]. destruct (Hdom p e He) as [k Hk]. exists (k, p).
      by rewrite elem_of_map_to_list.
    - intros ([k q] & -> & Hkq). apply elem_of_map_to_list in Hkq. pose proof (Hm k) as Hk.
      rewrite Hkq in Hk. destruct (m !! k); [|done]. destruct Hk as (e & He & _). by exists e. }
  rewrite size_list_to_set; [by rewrite length_fmap, length_map_to_list|].
  apply NoDup_fmap_2_strong; [|apply NoDup_map_to_list].
  intros [k p] [k' p'] H1 H2 E. cbn in E. subst p'.
  apply elem_of_map_to_list in H1, H2. by rewrite (entries_ok_inj _ _ _ _ _ _ _ Hm H1 H2).
Qed.

(** ** Operation sequences against the map *)

Inductive hop : Type :=
  | HSet (k v : list Z)
  | HGet (k : list Z)
  | HDel (k : list Z).

Definition hop_key (o : hop) : list Z :=
  match o with HSet k _ | HGet k | HDel k => k end.

(** What a caller of [htable_get] reads through the pointer returned. *)
Definition entry_value (s : store) (o : option ptr) : res (option (list cell)) :=
  match o with
  | None => Ok None
  | Some p =>
      e ← deref (entries s !! p);
      b ← deref (blocks s !! e_value e);
      v ← memcpy_src (Some b) (e_value_len e);
      Ok (Some v)
  end.

Definition hop_step (s : store) (o : hop) : res (option (list cell) * store) :=
  match o with
  | HSet k v => s ← htable_set s (Some (cells k)) (zlen k) (Some (cells v)) (zlen v);
                Ok (None, s)
  | HGet k => e ← htable_get s (Some (cells k)) (zlen k); v ← entry_value s e; Ok (v, s)
  | HDel k => '(_, s) ← htable_delete s (Some (cells k)) (zlen k); Ok (None, s)
  end.

Fixpoint hop_run (s : store) (os : list hop) : res (list (option (list cell)) * store) :=
  match os with
  | [] => Ok ([], s)
  | o :: os => '(a, s) ← hop_step s o; '(r, s) ← hop_run s os; Ok (a :: r, s)
  end.

(** The same sequence on a map. *)
Definition map_step (m : gmap (list Z) (list cell)) (o : hop)
    : option (list cell) * gmap (list Z) (list cell) :=
  match o with
  | HSet k v => (None, <[k := cells v]> m)
  | HGet k => (m !! k, m)
  | HDel k => (None, delete k m)
  end.

Fixpoint map_run (m : gmap (list Z) (list cell)) (os : list hop)
    : list (option (list cell)) * gmap (list Z) (list cell) :=
  match os with
  | [] => ([], m)
  | o :: os => let '(a, m) := map_step m o in let '(r, m) := map_run m os in (a :: r, m)
  end.

(** Every insertion finds the counters of the table away from their limits. *)
Fixpoint roomy (s : store) (os : list hop) : bool :=
  match os with
  | [] => true
  | o :: os =>
      (match o with HSet _ _ => kt_room (ht s) | _ => true end) &&
      match hop_step s o with Ok (_, s) => roomy s os | _ => true end
  end.

Lemma hop_step_spec s m o :
  store_rep s m -> key_fits (hop_key o) ->
  match o with HSet _ _ => kt_room (ht s) = true | _ => True end ->
  exists s', hop_step s o = Ok ((map_step m o).1, s') /\ store_rep s' (map_step m o).2.
Proof.
  intros Hs Hfit Hroom. pose proof (fun k => load_bytes_exact k (zlen k) eq_refl) as Hb.
  destruct o as [k v|k|k]; cbn [hop_key hop_step map_step fst snd] in *.
  - destruct (htable_set_ok s m (Some (cells k)) (zlen k) (Some (cells v)) (zlen v) k (cells v))
      as (s' & E & Hs'); try done.
    + by apply load_bytes_copy.
    + apply zlen_cells.
    + exists s'. by rewrite E.
  - destruct (htable_get_ok s m (Some (cells k)) (zlen k) k) as (o & E & Ho); try done.
    exists s. rewrite E, res_bind_Ok. split; [|done]. destruct (m !! k) as [v|].
    + destruct Ho as (p & e & -> & He & _ & _ & Ev & El). cbn [entry_value].
      rewrite He. cbn [deref mbind res_bind]. rewrite Ev. cbn [deref mbind res_bind memcpy_src].
      by rewrite El, load_block_all.
    + by rewrite Ho.
  - destruct (htable_delete_ok s m (Some (cells k)) (zlen k) k) as (s' & E & Hs' & _); try done.
    exists s'. by rewrite E.
Qed.
End HashTable.
Arguments store T : clear implicits.

(** ** Properties *)

(** C9. The store refines a finite map: over any sequence of SET, GET and DELETE
    the C functions return normally, every GET answers what the map answers
    (the last value set, unless deleted); no object is followed or freed that is
    not alive, and at the end one entry and two blocks, its key copy and its
    value copy, are allocated per key of the map. *)
Theorem htable_refines_map {T} `{KeyTableSpec T} (s : store T) m os :
  store_rep s m -> Forall (fun o => key_fits (hop_key o)) os -> roomy s os = true ->
  exists s', hop_run s os = Ok ((map_run m os).1, s') /\
    store_rep s' (map_run m os).2 /\ size (entries s') = size (map_run m os).2 /\
    size (blocks s') = (2 * size (map_run m os).2)%nat.
Proof.
  intros Hs Hfit. revert s m Hs. induction Hfit as [|o os Ho Hos IH]; intros s m Hs Hr.
  - exists s. split; [done|]. split; [done|]. by apply store_rep_size.
  - cbn in Hr. apply andb_true_iff in Hr as [Hr1 Hr2].
    destruct (hop_step_spec s m o Hs Ho) as (s1 & E & Hs1); [by destruct o|].
    rewrite E in Hr2. destruct (IH s1 _ Hs1 Hr2) as (s2 & E2 & Hs2 & Hz & Hz2).
    exists s2. cbn [hop_run map_run]. rewrite E. cbn [mbind res_bind]. rewrite E2.
    cbn [mbind res_bind].
    destruct (map_step m o) as [a m1]. cbn in *. by destruct (map_run m1 os).
Qed.

Lemma htable_refines_map_witness :
  let os := [HSet [97] [1]; HSet [98; 0] [2; 2]; HSet [97] [3; 0; 3]; HGet [97]; HDel [98; 0];
             HGet [98; 0]; HGet []] in
  exists s' : store uthash, hop_run store_empty os =
    Ok ([None; None; None; Some (cells [3; 0; 3]); None; None; None], s') /\
    size (entries s') = 1%nat /\ size (blocks s') = 2%nat.
Proof.
  set (os := [HSet [97] [1]; HSet [98; 0] [2; 2]; HSet [97] [3; 0; 3]; HGet [97]; HDel [98; 0];
              HGet [98; 0]; HGet []]).
  destruct (htable_refines_map (store_empty : store uthash) ∅ os store_rep_empty)
    as (s' & E & _ & Z & Z2).
  - repeat (apply List.Forall_cons; [vm_compute; reflexivity|]). apply List.Forall_nil.
  - vm_compute. reflexivity.
  - exists s'. split; [rewrite E; vm_compute; reflexivity|].
    split; [rewrite Z; vm_compute; reflexivity|rewrite Z2; vm_compute; reflexivity].
Defined.
