(* ===== verification/Requests.v ===== *)
(** * Requests: the open requests of a node ([praxis2/src/requests.c])

    While a node waits for the answer to a lookup it queues the clients'
    packets under the hash id looked up: a hash table of singly linked lists.
    List nodes and table entries are heap objects with their pointers; the
    walk to the end of a list is a loop with fuel.  The contract is a finite
    map from hash ids to FIFO queues of (packet copy, socket). *)

From stdpp Require Import base tactics list numbers option gmap.
From S2P Require Import Prelude Packet KeyTable UtHash.

(** [typedef struct _request]; the node owns the packet copy. *)
Record request : Type := mkRequest {
  rq_packet : packet;
  rq_socket : Z;
  rq_next : option ptr;
}.

(** [typedef struct _rtable], the handle apart. *)
Record rtable : Type := mkRtable {
  rt_hash_id : Z;
  open_requests : option ptr;
}.

(** [&hash_id], two bytes on the little-endian hosts the program runs on. *)
Definition hash_id_key (h : Z) : list Z := [byte_at h 0; byte_at h 8].

Section Requests.
Context {T : Type} `{KTS : KeyTableSpec T}.

Record rtables : Type := mkRtables {
  rt : T;
  rt_entries : gmap ptr rtable;
  rq_nodes : gmap ptr request;
}.

Definition rtables_empty : rtables := mkRtables kt_empty ∅ ∅.

(** [for (re = ...; re->next != NULL; re = re->next)]: the last node. *)
Fixpoint last_request (fuel : nat) (nodes : gmap ptr request) (re : ptr) : res ptr :=
  match fuel with
  | O => NoFuel
  | S fuel =>
      r ← deref (nodes !! re);
      match rq_next r with
      | None => Ok re
      | Some re => last_request fuel nodes re
      end
  end.

Definition add_request (t : rtables) (hash_id : Z) (socket : Z) (p : packet) : res rtables :=
  copy ← packet_dup p;
  let r : ptr := fresh (dom (rq_nodes t)) in
  existing ← kt_find (rt t) (hash_id_key hash_id);
  match existing with
  | Some existing =>
      e ← deref (rt_entries t !! existing);
      re ← deref (open_requests e);
      re ← last_request (S (size (rq_nodes t))) (rq_nodes t) re;
      l ← deref (rq_nodes t !! re);
      let nodes := <[re := mkRequest (rq_packet l) (rq_socket l) (Some r)]> (rq_nodes t) in
      Ok (mkRtables (rt t) (rt_entries t) (<[r := mkRequest copy socket None]> nodes))
  | None =>
      let entry : ptr := fresh (dom (rt_entries t)) in
      k ← kt_add (rt t) entry (hash_id_key hash_id);
      Ok (mkRtables k (<[entry := mkRtable hash_id (Some r)]> (rt_entries t))
            (<[r := mkRequest copy socket None]> (rq_nodes t)))
  end.

Definition get_requests (t : rtables) (hash_id : Z) : res (option ptr) :=
  existing ← kt_find (rt t) (hash_id_key hash_id);
  match existing with
  | Some existing => e ← deref (rt_entries t !! existing); Ok (open_requests e)
  | None => Ok None
  end.

(** [while (re != NULL)]: the nodes are freed one after the other. *)
Fixpoint free_requests (fuel : nat) (nodes : gmap ptr request) (re : option ptr)
    : res (gmap ptr request) :=
  match re with
  | None => Ok nodes
  | Some p =>
      match fuel with
      | O => NoFuel
      | S fuel =>
          r ← deref (nodes !! p);
          free_requests fuel (delete p nodes) (rq_next r)
      end
  end.

(** The table entry itself is unlinked but not freed: it stays allocated. *)
Definition clear_requests (t : rtables) (hash_id : Z) : res rtables :=
  existing ← kt_find (rt t) (hash_id_key hash_id);
  match existing with
  | Some existing =>
      e ← deref (rt_entries t !! existing);
      nodes ← free_requests (S (size (rq_nodes t))) (rq_nodes t) (open_requests e);
      k ← kt_del (rt t) existing;
      Ok (mkRtables k (rt_entries t) nodes)
  | None => Ok t
  end.

(** The requests a caller meets that walks the list from [re]. *)
Fixpoint walk_requests (fuel : nat) (nodes : gmap ptr request) (re : option ptr)
    : res (list (packet * Z)) :=
  match re with
  | None => Ok []
  | Some p =>
      match fuel with
      | O => NoFuel
      | S fuel =>
          r ← deref (nodes !! p);
          rs ← walk_requests fuel nodes (rq_next r);
          Ok ((rq_packet r, rq_socket r) :: rs)
      end
  end.

(** ** Lists of nodes *)

Definition queue : Type := list (packet * Z).

(** From [re], the nodes [xs] carry the requests [q]. *)
Fixpoint rseg (nodes : gmap ptr request) (re : option ptr) (xs : list ptr) (q : queue) : Prop :=
  match xs, q with
  | [], [] => re = None
  | x :: xs, (p, s) :: q =>
      re = Some x /\ exists n, nodes !! x = Some (mkRequest p s n) /\ rseg nodes n xs q
  | _, _ => False
  end.

Lemma rseg_frame nodes nodes' re xs q :
  (forall x, x ∈ xs -> nodes' !! x = nodes !! x) ->
  rseg nodes re xs q -> rseg nodes' re xs q.
Proof.
  revert re q. induction xs as [|x xs IH]; intros re [|[p s] q] Hf Hs; try done.
  destruct Hs as (-> & n & Hn & Hs). split; [done|]. exists n.
  rewrite Hf by set_solver. split; [done|]. apply IH; [|done]. set_solver.
Qed.

Lemma rseg_in nodes re xs q x : rseg nodes re xs q -> x ∈ xs -> is_Some (nodes !! x).
Proof.
  revert re q. induction xs as [|y xs IH]; intros re [|[p s] q] Hs Hx; try done.
  - by apply not_elem_of_nil in Hx.
  - destruct Hs as (_ & n & Hn & Hs). apply elem_of_cons in Hx as [->|Hx]; eauto.
Qed.

Lemma rseg_size nodes re xs q : rseg nodes re xs q -> NoDup xs -> (length xs <= size nodes)%nat.
Proof.
  intros Hs Hnd. rewrite <- (size_list_to_set (C := gset ptr)) by done.
  rewrite <- (size_dom (D := gset ptr)). apply subseteq_size. intros x Hx.
  apply elem_of_dom. eapply rseg_in; [exact Hs|set_solver].
Qed.

(** Appending: the last node is found, and pointing it to a new node extends
    the queue. *)
Lemma rseg_append nodes re xs q fuel r p s :
  rseg nodes (Some re) xs q -> NoDup xs -> (length xs <= fuel)%nat -> nodes !! r = None ->
  exists l pl sl,
    last_request fuel nodes re = Ok l /\ l ∈ xs /\ nodes !! l = Some (mkRequest pl sl None) /\
    rseg (<[r := mkRequest p s None]> (<[l := mkRequest pl sl (Some r)]> nodes))
      (Some re) (xs ++ [r]) (q ++ [(p, s)]).
Proof.
  intros Hs Hnd Hf Hr. revert re q fuel Hs Hf.
  induction xs as [|x xs IH]; intros re [|[px sx] q] fuel Hs Hf; try done.
  destruct Hs as ([= ->] & n & Hn & Hs). apply NoDup_cons in Hnd as [Hx Hnd].
  destruct fuel as [|fuel]; [cbn in Hf; lia|]. cbn [last_request]. rewrite Hn.
  assert (r <> x) as Hrx by congruence.
  cbn [deref mbind res_bind rq_next]. destruct n as [re'|].
  - destruct (IH Hnd re' q fuel Hs ltac:(cbn in Hf; lia)) as (l & pl & sl & El & Hl & Hnl & Hs').
    exists l, pl, sl. split; [done|]. split; [set_solver|]. split; [done|].
    split; [done|]. exists (Some re'). rewrite lookup_insert_ne by done.
    rewrite lookup_insert_ne by set_solver. done.
  - destruct xs as [|y xs]; [|destruct q as [|[? ?] q]; [done|by destruct Hs]].
    destruct q as [|]; [|done].
    exists x, px, sx. split; [done|]. split; [set_solver|]. split; [done|]. cbn.
    split; [done|]. exists (Some r). rewrite lookup_insert_ne, lookup_insert_eq by done.
    split; [done|]. split; [done|]. exists None. by rewrite lookup_insert_eq.
Qed.

Lemma rseg_free nodes re xs q fuel :
  rseg nodes re xs q -> NoDup xs -> (length xs <= fuel)%nat ->
  exists nodes', free_requests fuel nodes re = Ok nodes' /\
    (forall x, x ∈ xs -> nodes' !! x = None) /\
    (forall x, x ∉ xs -> nodes' !! x = nodes !! x).
Proof.
  revert nodes re q fuel.
  induction xs as [|x xs IH]; intros nodes re [|[p s] q] fuel Hs Hnd Hf; try done.
  - cbn in Hs. subst re. exists nodes. destruct fuel; (split; [done|]);
      (split; [intros x Hx; by apply not_elem_of_nil in Hx|done]).
  - destruct Hs as (-> & n & Hn & Hs). apply NoDup_cons in Hnd as [Hx Hnd].
    destruct fuel as [|fuel]; [cbn in Hf; lia|]. cbn [free_requests]. rewrite Hn.
    cbn [deref mbind res_bind rq_next].
    destruct (IH (delete x nodes) n q fuel) as (nodes' & E & F1 & F2).
    + eapply rseg_frame; [|exact Hs]. intros y Hy. apply lookup_delete_ne. set_solver.
    + done.
    + cbn in Hf. lia.
    + exists nodes'. split; [done|]. split.
      * intros y [->|Hy]%elem_of_cons; [|by apply F1]. by rewrite F2, lookup_delete_eq.
      * intros y Hy. rewrite F2 by set_solver. apply lookup_delete_ne. set_solver.
Qed.

Lemma rseg_walk nodes re xs q fuel :
  rseg nodes re xs q -> (length xs <= fuel)%nat -> walk_requests fuel nodes re = Ok q.
Proof.
  revert re q fuel. induction xs as [|x xs IH]; intros re [|[p s] q] fuel Hs Hf; try done.
  - cbn in Hs. subst re. by destruct fuel.
  - destruct Hs as (-> & n & Hn & Hs). destruct fuel as [|fuel]; [cbn in Hf; lia|].
    cbn [walk_requests]. rewrite Hn. cbn [deref mbind res_bind rq_next].
    rewrite (IH n q fuel Hs) by (cbn in Hf; lia). done.
Qed.

(** ** The contract *)

Definition id_ok (h : Z) : Prop := 0 <= h < 2 ^ 16.

Lemma hash_id_key_inj h h' : id_ok h -> id_ok h' -> hash_id_key h = hash_id_key h' -> h = h'.
Proof.
  unfold id_ok, hash_id_key. intros Hh Hh' [= E0 E1].
  rewrite <- (dec_u16_be h Hh), <- (dec_u16_be h' Hh'). congruence.
Qed.

Lemma hash_id_key_fits h : key_fits (hash_id_key h).
Proof. done. Qed.

(** The queue of one hash id: [mt] leads to the table entry, whose list visits
    the nodes [nl] records for the id. *)
Definition queue_ok (t : rtables) (h : Z) (entry : option ptr) (q : option queue)
    (xs : option (list ptr)) : Prop :=
  match entry, q, xs with
  | Some p, Some q, Some xs =>
      exists re, rt_entries t !! p = Some (mkRtable h (Some re)) /\
        rseg (rq_nodes t) (Some re) xs q /\ NoDup xs
  | None, None, None => True
  | _, _, _ => False
  end.

Definition disjoint_lists (nl : gmap Z (list ptr)) : Prop :=
  forall h h' xs xs' x, nl !! h = Some xs -> nl !! h' = Some xs' -> x ∈ xs -> x ∈ xs' -> h = h'.

(** The tables stand for [m]: a non-empty queue for every hash id with open
    requests; the allocated nodes are exactly those of the queues. *)
Definition rq_rep (t : rtables) (m : gmap Z queue) : Prop :=
  exists mt nl, kt_rep (rt t) mt /\
    (forall h, id_ok h -> queue_ok t h (mt !! hash_id_key h) (m !! h) (nl !! h)) /\
    disjoint_lists nl /\
    (forall h, is_Some (m !! h) \/ is_Some (nl !! h) -> id_ok h) /\
    (forall k p, mt !! k = Some p -> exists h, id_ok h /\ k = hash_id_key h) /\
    (forall x, is_Some (rq_nodes t !! x) -> exists h xs, nl !! h = Some xs /\ x ∈ xs).

Lemma rq_rep_empty : rq_rep rtables_empty ∅.
Proof.
  exists ∅, ∅. split; [apply kt_rep_empty|]. unfold disjoint_lists. cbn.
  setoid_rewrite lookup_empty. split_and!; try done.
  - intros h [[? ?]|[? ?]]; done.
  - intros x [? ?]. done.
Qed.

Lemma queue_ok_frame t t' h entry q xs :
  (forall p e, entry = Some p -> rt_entries t !! p = Some e -> rt_entries t' !! p = Some e) ->
  (forall l x, xs = Some l -> x ∈ l -> rq_nodes t' !! x = rq_nodes t !! x) ->
  queue_ok t h entry q xs -> queue_ok t' h entry q xs.
Proof.
  intros He Hn. unfold queue_ok. destruct entry as [p|], q as [q|], xs as [xs|]; try done.
  intros (re & Hre & Hs & Hnd). exists re. split; [by apply (He p)|]. split; [|done].
  eapply rseg_frame; [|exact Hs]. intros x Hx. by apply (Hn xs).
Qed.

(** The queue of one id changes; the lists of the others keep their nodes. *)
Lemma disjoint_lists_insert nl h ys :
  disjoint_lists nl ->
  (forall h' xs x, h' <> h -> nl !! h' = Some xs -> x ∈ xs -> x ∉ ys) ->
  disjoint_lists (<[h := ys]> nl).
Proof.
  intros Hd Hy h1 h2 xs1 xs2 x.
  destruct (decide (h1 = h)) as [->|H1], (decide (h2 = h)) as [->|H2];
    rewrite ?lookup_insert_eq, ?lookup_insert_ne by done.
  - done.
  - intros [= <-] E Hx1 Hx2. by destruct (Hy h2 xs2 x H2 E Hx2).
  - intros E [= <-] Hx1 Hx2. by destruct (Hy h1 xs1 x H1 E Hx1).
  - apply Hd.
Qed.

Lemma fresh_lookup {A} (m : gmap ptr A) : m !! (fresh (dom m) : ptr) = None.
Proof. apply not_elem_of_dom, is_fresh. Qed.

(** The nodes of the queues are allocated. *)
Lemma queue_nodes (t : rtables) (m : gmap Z queue) (mt : gmap (list Z) ptr)
    (nl : gmap Z (list ptr)) (h : Z) (xs : list ptr) (x : ptr) :
  (forall h, id_ok h -> queue_ok t h (mt !! hash_id_key h) (m !! h) (nl !! h)) ->
  (forall h, is_Some (m !! h) \/ is_Some (nl !! h) -> id_ok h) ->
  nl !! h = Some xs -> x ∈ xs -> is_Some (rq_nodes t !! x).
Proof.
  intros Hq Hid Hxs Hx. pose proof (Hq h ltac:(apply Hid; right; by exists xs)) as Hh.
  rewrite Hxs in Hh. unfold queue_ok in Hh.
  destruct (mt !! hash_id_key h), (m !! h); try done.
  destruct Hh as (re & _ & Hs & _). by eapply rseg_in.
Qed.

Lemma add_request_first t m h s p c :
  rq_rep t m -> id_ok h -> packet_dup p = Ok c -> m !! h = None -> kt_room (rt t) = true ->
  exists t', add_request t h s p = Ok t' /\ rq_rep t' (<[h := [(c, s)]]> m).
Proof.
  intros (mt & nl & Hr & Hq & Hd & Hid & Hk & Hx) Hh Hc Hm Hroom.
  pose proof (Hq h Hh) as Hqh. rewrite Hm in Hqh. unfold queue_ok in Hqh.
  destruct (mt !! hash_id_key h) eqn:Emt; [done|]. destruct (nl !! h) eqn:Enl; [done|].
  unfold add_request. rewrite Hc. cbn [mbind res_bind].
  rewrite (kt_find_spec _ mt _ Hr (hash_id_key_fits h)), Emt. cbn [mbind res_bind].
  set (r := fresh (dom (rq_nodes t)) : ptr). set (entry := fresh (dom (rt_entries t)) : ptr).
  pose proof (fresh_lookup (rq_nodes t)) as Hfr. fold r in Hfr.
  pose proof (fresh_lookup (rt_entries t)) as Hfe. fold entry in Hfe.
  destruct (kt_add_spec (rt t) mt entry (hash_id_key h) Hr (hash_id_key_fits h) Hroom Emt)
    as (k' & E & Hr').
  { intros k Hke. destruct (Hk k _ Hke) as (h' & Hh' & ->). pose proof (Hq h' Hh') as Hqh'.
    rewrite Hke in Hqh'. unfold queue_ok in Hqh'. destruct (m !! h'), (nl !! h'); try done.
    destruct Hqh' as (re & Hre & _). congruence. }
  rewrite E. cbn [mbind res_bind]. eexists. split; [reflexivity|].
  exists (<[hash_id_key h := entry]> mt), (<[h := [r]]> nl). split; [exact Hr'|]. split_and!.
  - intros h' Hh'. destruct (decide (h = h')) as [<-|Hne].
    + rewrite !lookup_insert_eq. exists r. split; [apply lookup_insert_eq|].
      split; [|apply NoDup_singleton]. split; [done|]. exists None. cbn.
      by rewrite lookup_insert_eq.
    + rewrite !lookup_insert_ne by (done || intros ?%hash_id_key_inj; done).
      eapply (queue_ok_frame t); [| |by apply Hq]; cbn.
      * intros q e _ He. rewrite lookup_insert_ne; [done|]. congruence.
      * intros l x Hl Hxl. apply lookup_insert_ne. intros <-.
        destruct (queue_nodes _ _ _ _ _ _ _ Hq Hid Hl Hxl). congruence.
  - apply disjoint_lists_insert; [done|]. intros h' xs x Hne Hl Hxl ->%list_elem_of_singleton.
    destruct (queue_nodes _ _ _ _ _ _ _ Hq Hid Hl Hxl). congruence.
  - intros h'. destruct (decide (h = h')) as [<-|Hne]; [done|].
    rewrite !lookup_insert_ne by done. apply Hid.
  - intros k q [[<- _]|[_ Hkq]]%lookup_insert_Some; [by exists h|by eapply Hk].
  - intros x. cbn. destruct (decide (r = x)) as [<-|Hne].
    + intros _. exists h, [r]. rewrite lookup_insert_eq. split; [done|set_solver].
    + rewrite lookup_insert_ne by done. intros (h' & xs & Hl & Hxl)%Hx. exists h', xs.
      rewrite lookup_insert_ne; [done|]. intros <-. congruence.
Qed.

(** Every allocated node is in a list, also with a node [r] behind the list of [h],
    whose last node [l] is written. *)
Lemma nodes_append (nl : gmap Z (list ptr)) (nodes : gmap ptr request) h xs r l v v' :
  nl !! h = Some xs -> l ∈ xs -> is_Some (nodes !! l) ->
  (forall x, is_Some (nodes !! x) -> exists h xs, nl !! h = Some xs /\ x ∈ xs) ->
  forall x, is_Some (<[r := v]> (<[l := v']> nodes) !! x) ->
  exists h' xs', <[h := xs ++ [r]]> nl !! h' = Some xs' /\ x ∈ xs'.
Proof.
  intros Enl Hl Hlv Hx x Hsome. destruct (decide (r = x)) as [<-|Hne].
  - exists h, (xs ++ [r]). rewrite lookup_insert_eq. split; [done|set_solver].
  - rewrite lookup_insert_ne in Hsome by done.
    assert (is_Some (nodes !! x)) as (h' & xs' & Hl' & Hx')%Hx.
    { destruct (decide (l = x)) as [<-|?]; [done|]. by rewrite lookup_insert_ne in Hsome. }
    destruct (decide (h = h')) as [<-|?].
    + exists h, (xs ++ [r]). rewrite lookup_insert_eq. split; [done|].
      rewrite Enl in Hl'. injection Hl' as <-. set_solver.
    + exists h', xs'. by rewrite lookup_insert_ne.
Qed.

Lemma add_request_next t m h s p c (q : queue) :
  rq_rep t m -> packet_dup p = Ok c -> m !! h = Some q ->
  exists t', add_request t h s p = Ok t' /\ rq_rep t' (<[h := q ++ [(c, s)]]> m) /\
    rt t' = rt t.
Proof.
  intros (mt & nl & Hr & Hq & Hd & Hid & Hk & Hx) Hc Hm.
  assert (id_ok h) as Hh by (apply Hid; left; by exists q).
  pose proof (Hq h Hh) as Hqh. rewrite Hm in Hqh. unfold queue_ok in Hqh.
  destruct (mt !! hash_id_key h) as [ep|] eqn:Emt; [|done].
  destruct (nl !! h) as [xs|] eqn:Enl; [|done]. destruct Hqh as (re & Hre & Hs & Hnd).
  unfold add_request. rewrite Hc. cbn [mbind res_bind].
  rewrite (kt_find_spec _ mt _ Hr (hash_id_key_fits h)), Emt. cbn [mbind res_bind].
  rewrite Hre. cbn [deref mbind res_bind open_requests].
  set (r := fresh (dom (rq_nodes t)) : ptr).
  pose proof (fresh_lookup (rq_nodes t)) as Hfr. fold r in Hfr.
  pose proof (rseg_size _ _ _ _ Hs Hnd) as Hsz.
  destruct (rseg_append _ _ _ _ (S (size (rq_nodes t))) r c s Hs Hnd ltac:(lia) Hfr)
    as (l & pl & sl & El & Hl & Hnl & Hs').
  rewrite El. cbn [mbind res_bind]. rewrite Hnl. cbn [deref mbind res_bind rq_packet rq_socket].
  eexists. split; [reflexivity|]. split; [|done].
  assert (forall x h' xs', h' <> h -> nl !! h' = Some xs' -> x ∈ xs' -> x <> r /\ x <> l) as Hother.
  { intros x h' xs' Hne Hl' Hx'. split; intros ->.
    - destruct (queue_nodes _ _ _ _ _ _ _ Hq Hid Hl' Hx'). congruence.
    - apply Hne. by eapply Hd. }
  exists mt, (<[h := xs ++ [r]]> nl). split; [exact Hr|]. split_and!.
  - intros h' Hh'. destruct (decide (h = h')) as [<-|Hne].
    + rewrite !lookup_insert_eq, Emt. exists re. split; [done|]. split; [exact Hs'|].
      apply NoDup_app. split_and!; [done| |apply NoDup_singleton].
      intros x Hxx ->%list_elem_of_singleton.
      destruct (rseg_in _ _ _ _ _ Hs Hxx). congruence.
    + rewrite !lookup_insert_ne by done.
      eapply (queue_ok_frame t); [done| |by apply Hq]. intros xs' x Hl' Hx'. cbn.
      destruct (Hother x h' xs' ltac:(done) Hl' Hx'). by rewrite !lookup_insert_ne.
  - apply disjoint_lists_insert; [done|]. intros h' xs' x Hne Hl' Hx'.
    destruct (Hother x h' xs' Hne Hl' Hx'). intros [Hxx|?]%elem_of_app; [|set_solver].
    apply Hne. by eapply Hd.
  - intros h'. destruct (decide (h = h')) as [<-|Hne]; [done|].
    rewrite !lookup_insert_ne by done. apply Hid.
  - done.
  - intros x. apply (nodes_append nl (rq_nodes t) h xs); [done|done|by eexists|done].
Qed.

Lemma add_request_ok t m h s p c :
  rq_rep t m -> id_ok h -> packet_dup p = Ok c -> kt_room (rt t) = true ->
  exists t', add_request t h s p = Ok t' /\
    rq_rep t' (<[h := default [] (m !! h) ++ [(c, s)]]> m).
Proof.
  intros Hr Hh Hc Hroom. destruct (m !! h) as [q|] eqn:Em.
  - destruct (add_request_next t m h s p c q Hr Hc Em) as (t' & E & Hr' & _). by exists t'.
  - by apply add_request_first.
Qed.

(** The list a caller of [get_requests] walks. *)
Lemma get_requests_seg t m h :
  rq_rep t m -> id_ok h ->
  exists re xs, get_requests t h = Ok re /\
    rseg (rq_nodes t) re xs (default [] (m !! h)) /\ (length xs <= size (rq_nodes t))%nat.
Proof.
  intros (mt & nl & Hr & Hq & _) Hh. pose proof (Hq h Hh) as Hqh. unfold queue_ok in Hqh.
  unfold get_requests. rewrite (kt_find_spec _ mt _ Hr (hash_id_key_fits h)).
  cbn [mbind res_bind].
  destruct (mt !! hash_id_key h) as [ep|], (m !! h) as [q|], (nl !! h) as [xs|]; try done.
  - destruct Hqh as (re & Hre & Hs & Hnd). exists (Some re), xs. rewrite Hre. split; [done|].
    split; [done|]. by eapply rseg_size.
  - exists None, []. split; [done|]. split; [done|]. cbn. lia.
Qed.

Lemma get_requests_ok t m h :
  rq_rep t m -> id_ok h ->
  exists re, get_requests t h = Ok re /\
    walk_requests (S (size (rq_nodes t))) (rq_nodes t) re = Ok (default [] (m !! h)).
Proof.
  intros Hr Hh. destruct (get_requests_seg t m h Hr Hh) as (re & xs & E & Hs & Hl).
  exists re. split; [done|]. eapply rseg_walk; [exact Hs|]. lia.
Qed.

Lemma clear_requests_ok t m h :
  rq_rep t m -> id_ok h ->
  exists t', clear_requests t h = Ok t' /\ rq_rep t' (delete h m) /\
    (kt_room (rt t) = true -> kt_room (rt t') = true).
Proof.
  intros Hrep Hh. pose proof Hrep as (mt & nl & Hr & Hq & Hd & Hid & Hk & Hx).
  pose proof (Hq h Hh) as Hqh. unfold queue_ok in Hqh.
  unfold clear_requests. rewrite (kt_find_spec _ mt _ Hr (hash_id_key_fits h)).
  cbn [mbind res_bind].
  destruct (mt !! hash_id_key h) as [ep|] eqn:Emt, (m !! h) as [q|] eqn:Em,
    (nl !! h) as [xs|] eqn:Enl; try done.
  - destruct Hqh as (re & Hre & Hs & Hnd). rewrite Hre. cbn [deref mbind res_bind open_requests].
    pose proof (rseg_size _ _ _ _ Hs Hnd) as Hsz.
    destruct (rseg_free _ _ _ _ (S (size (rq_nodes t))) Hs Hnd ltac:(lia))
      as (nodes' & E & F1 & F2).
    rewrite E. cbn [mbind res_bind].
    destruct (kt_del_spec (rt t) mt ep (hash_id_key h) Hr Emt) as (k & Ek & Hr' & Hroom).
    rewrite Ek. cbn [mbind res_bind]. eexists. split; [reflexivity|]. split; [|exact Hroom].
    exists (delete (hash_id_key h) mt), (delete h nl). split; [exact Hr'|]. split_and!.
    + intros h' Hh'. destruct (decide (h = h')) as [<-|Hne]; [by rewrite !lookup_delete_eq|].
      rewrite !lookup_delete_ne by (done || intros ?%hash_id_key_inj; done).
      eapply (queue_ok_frame t); [done| |by apply Hq]. intros xs' x Hl' Hx'. cbn. apply F2.
      intros Hxx. apply Hne. by eapply Hd.
    + intros h1 h2 xs1 xs2 x [_ E1]%lookup_delete_Some [_ E2]%lookup_delete_Some. by eapply Hd.
    + intros h' [[? [_ E1]%lookup_delete_Some]|[? [_ E1]%lookup_delete_Some]]; apply Hid;
        [left|right]; by eexists.
    + intros k' p [_ Hkp]%lookup_delete_Some. by eapply Hk.
    + intros x. cbn. destruct (decide (x ∈ xs)) as [Hxs|Hxs].
      { rewrite F1 by done. by intros [? ?]. }
      rewrite F2 by done. intros (h' & xs' & Hl' & Hx')%Hx. exists h', xs'.
      rewrite lookup_delete_ne; [done|]. intros <-. congruence.
  - exists t. rewrite delete_id by done. done.
Qed.

(** ** Operation sequences against the queues *)

Inductive rop : Type :=
  | RAdd (h s : Z) (p : packet)
  | RGet (h : Z)
  | RClear (h : Z).

Definition rop_ok (o : rop) : Prop :=
  match o with
  | RAdd h _ p => id_ok h /\ exists c, packet_dup p = Ok c
  | RGet h | RClear h => id_ok h
  end.

Definition rop_step (t : rtables) (o : rop) : res (queue * rtables) :=
  match o with
  | RAdd h s p => t ← add_request t h s p; Ok ([], t)
  | RGet h => re ← get_requests t h;
              q ← walk_requests (S (size (rq_nodes t))) (rq_nodes t) re; Ok (q, t)
  | RClear h => t ← clear_requests t h; Ok ([], t)
  end.

Fixpoint rop_run (t : rtables) (os : list rop) : res (list queue * rtables) :=
  match os with
  | [] => Ok ([], t)
  | o :: os => '(a, t) ← rop_step t o; '(r, t) ← rop_run t os; Ok (a :: r, t)
  end.

Definition queue_step (m : gmap Z queue) (o : rop) : queue * gmap Z queue :=
  match o with
  | RAdd h s p =>
      ([], match packet_dup p with
           | Ok c => <[h := default [] (m !! h) ++ [(c, s)]]> m
           | _ => m
           end)
  | RGet h => (default [] (m !! h), m)
  | RClear h => ([], delete h m)
  end.

Fixpoint queue_run (m : gmap Z queue) (os : list rop) : list queue * gmap Z queue :=
  match os with
  | [] => ([], m)
  | o :: os => let '(a, m) := queue_step m o in let '(r, m) := queue_run m os in (a :: r, m)
  end.

Fixpoint rq_roomy (t : rtables) (os : list rop) : bool :=
  match os with
  | [] => true
  | o :: os =>
      (match o with RAdd _ _ _ => kt_room (rt t) | _ => true end) &&
      match rop_step t o with Ok (_, t) => rq_roomy t os | _ => true end
  end.

Lemma rop_step_spec t m o :
  rq_rep t m -> rop_ok o -> match o with RAdd _ _ _ => kt_room (rt t) = true | _ => True end ->
  exists t', rop_step t o = Ok ((queue_step m o).1, t') /\ rq_rep t' (queue_step m o).2.
Proof.
  intros Hr Ho Hroom. destruct o as [h s p|h|h]; cbn [rop_ok rop_step queue_step fst snd] in *.
  - destruct Ho as [Hh [c Hc]]. rewrite Hc.
    destruct (add_request_ok t m h s p c) as (t' & E & Hr'); try done.
    exists t'. by rewrite E.
  - destruct (get_requests_ok t m h) as (re & E & W); try done.
    exists t. by rewrite E, res_bind_Ok, W.
  - destruct (clear_requests_ok t m h) as (t' & E & Hr' & _); try done.
    exists t'. by rewrite E.
Qed.
End Requests.
Arguments rtables T : clear implicits.

(** ** Properties *)

(** C22. The open requests refine a map of FIFO queues: over any sequence of
    additions, look-ups and clearings the C functions return normally and every
    walk of a list meets the packets queued under that hash id since it was
    last cleared, oldest first, each with its socket. *)
Theorem requests_refine_queues {T} `{KeyTableSpec T} (t : rtables T) m os :
  rq_rep t m -> Forall rop_ok os -> rq_roomy t os = true ->
  exists t', rop_run t os = Ok ((queue_run m os).1, t') /\ rq_rep t' (queue_run m os).2.
Proof.
  intros Hr Hok. revert t m Hr. induction Hok as [|o os Ho Hos IH]; intros t m Hr Hroom.
  - by exists t.
  - cbn in Hroom. apply andb_true_iff in Hroom as [H1 H2].
    destruct (rop_step_spec t m o Hr Ho) as (t1 & E & Hr1); [by destruct o|].
    rewrite E in H2. destruct (IH t1 _ Hr1 H2) as (t2 & E2 & Hr2). exists t2.
    cbn [rop_run queue_run]. rewrite E. cbn [mbind res_bind]. rewrite E2. cbn [mbind res_bind].
    destruct (queue_step m o) as [a m1]. cbn in *. by destruct (queue_run m1 os).
Qed.

Lemma requests_refine_queues_witness :
  let p f := mkPacket f 1 0 (Some (cells [f])) None 0 0 0 0 in
  let d f := mkPacket f 1 0 (Some (cells [f])) (Some []) 0 0 0 0 in
  let os := [RAdd 513 4 (p 1); RAdd 7 5 (p 2); RAdd 513 6 (p 3); RGet 513; RClear 513;
             RGet 513; RAdd 513 8 (p 4); RGet 513; RGet 7] in
  exists t' : rtables uthash, rop_run rtables_empty os =
    Ok ([[]; []; []; [(d 1, 4); (d 3, 6)]; []; []; []; [(d 4, 8)]; [(d 2, 5)]], t').
Proof.
  intros p d os.
  destruct (requests_refine_queues (rtables_empty : rtables uthash) ∅ os rq_rep_empty)
    as (t' & E & _).
  - repeat (apply List.Forall_cons;
            [first [split; [split; [discriminate|reflexivity]|eexists; reflexivity]
                   |split; [discriminate|reflexivity]]|]). apply List.Forall_nil.
  - vm_compute. reflexivity.
  - exists t'. rewrite E. vm_compute. reflexivity.
Defined.
