(* ===== verification/Server.v ===== *)
(** * Server: the connection loop of a node ([praxis2/src/server.c])

    The client list, the per-client receive state machine ([IDLE] collects the
    seven header bytes, [HDR_RECVD] the body), delivery to the packet callback,
    and the [poll] loop.  The linked list of clients is the list of their
    addresses, head first: [c->next] is the address after [c]'s; the client
    structures are heap objects.  What the callback does besides is a
    parameter: it runs over the server, the node's own state [N] and the
    operating system.  Log output is left out, as are the socket address fields
    that only the log reads.  Stack space is unlimited. *)

From stdpp Require Import base tactics list numbers option gmap.
From S2P Require Import Prelude Sys Util Packet RingBuffer KeyTable.

Inductive client_state : Type := IDLE | HDR_RECVD | REMOVE.

#[export] Instance client_state_eq_dec : EqDecision client_state.
Proof. solve_decision. Defined.

(** [typedef struct _client] *)
Record client : Type := mkClient {
  c_socket : Z;
  state : client_state;
  header_buf : ring_buffer;
  pkt_buf : option ring_buffer;
  pack : option packet;
}.

(** [typedef struct _server], with the client structures allocated. *)
Record server : Type := mkServer {
  srv_socket : Z;
  n_clients : Z;
  active : bool;
  clients : list ptr;
  client_heap : gmap ptr client;
}.

Definition CB_REMOVE_CLIENT : Z := -1.
Definition CB_OK : Z := 0.

(** [c->next] *)
Fixpoint next_of (c : ptr) (l : list ptr) : option ptr :=
  match l with
  | [] => None
  | x :: l => if decide (x = c) then head l else next_of c l
  end.

Section Server.
(** The state of the node besides its server. *)
Context {N : Type}.

Record world : Type := mkWorld {
  w_srv : server;
  w_node : N;
  w_io : io;
}.

(** The type of [packet_cb]: client and packet, the server being part of the world. *)
Definition callback : Type := ptr -> option packet -> ST world Z.

Definition on_io {A} (m : ST io A) : ST world A := fun w =>
  match m (w_io w) with
  | Ok (a, i) => Ok (a, mkWorld (w_srv w) (w_node w) i)
  | Ub => Ub
  | Block => Block
  | NoFuel => NoFuel
  end.

Definition get_srv : ST world server := fun w => Ok (w_srv w, w).
Definition set_srv (s : server) : ST world unit := fun w =>
  Ok (tt, mkWorld s (w_node w) (w_io w)).

(** [*c] *)
Definition get_client (c : ptr) : ST world client := fun w =>
  match client_heap (w_srv w) !! c with
  | Some cl => Ok (cl, w)
  | None => Ub
  end.

(** [*c = cl] *)
Definition set_client (c : ptr) (cl : client) : ST world unit :=
  s ← get_srv;
  set_srv (mkServer (srv_socket s) (n_clients s) (active s) (clients s)
             (<[c := cl]> (client_heap s))).

Definition with_state (st : client_state) (cl : client) : client :=
  mkClient (c_socket cl) st (header_buf cl) (pkt_buf cl) (pack cl).

(** The first client with this socket is marked. *)
Fixpoint close_socket_loop (socket : Z) (cs : list ptr) : ST world unit :=
  match cs with
  | [] => mret tt
  | c :: cs =>
      cl ← get_client c;
      if c_socket cl =? socket then set_client c (with_state REMOVE cl)
      else close_socket_loop socket cs
  end.

Definition server_close_socket (socket : Z) : ST world unit :=
  s ← get_srv;
  close_socket_loop socket (clients s).

(** Unlink, close and free; a client that is not in the list is reported. *)
Definition server_remove_client (c : ptr) : ST world unit :=
  s ← get_srv;
  if bool_decide (c ∈ clients s) then
    cl ← get_client c;
    on_io (sys_close (c_socket cl));;
    set_srv (mkServer (srv_socket s) (i32 (n_clients s - 1)) (active s)
               (filter (fun x => x <> c) (clients s)) (delete c (client_heap s)))
  else mret tt.

Definition client_decode_hdr (c : ptr) : ST world unit :=
  cl ← get_client c;
  '(_, hdr, hb) ← st_lift (rb_read (header_buf cl) (malloc PKT_HEADER_LEN) PKT_HEADER_LEN);
  pk ← st_lift (packet_decode_hdr hdr PKT_HEADER_LEN);
  p ← st_lift (deref pk);
  set_client c (mkClient (c_socket cl) HDR_RECVD hb (Some (rb_new (packet_body_size p))) pk).

Definition client_decode_body (c : ptr) : ST world unit :=
  cl ← get_client c;
  pb ← st_lift (deref (pkt_buf cl));
  let avail := rb_can_read pb in
  '(_, buffer, _) ← st_lift (rb_read pb (malloc avail) avail);
  p ← st_lift (deref (pack cl));
  pk ← st_lift (packet_decode_body p buffer avail);
  set_client c (mkClient (c_socket cl) IDLE (header_buf cl) None pk).

Context (packet_cb : callback).

Definition server_deliver_packet (c : ptr) : ST world unit :=
  cl ← get_client c;
  rsp ← packet_cb c (pack cl);
  if rsp =? CB_REMOVE_CLIENT then server_remove_client c else mret tt.

(** [unsigned char buffer[bytes_needed]; recv(fd, buffer, bytes_needed, 0)]:
    the value returned and the block.  The size of a variable length array must
    be greater than zero. *)
Definition recv_block (fd bytes_needed : Z) : ST world (Z * list cell) :=
  if bytes_needed <=? 0 then st_lift Ub else
  '(r, data) ← on_io (sys_recv fd bytes_needed);
  mret (i32 r, cells data ++ malloc (bytes_needed - zlen data)).

(** The body of the client loop for a client with input pending. *)
Definition client_input (fd : Z) (c : ptr) : ST world unit :=
  cl ← get_client c;
  if decide (state cl = IDLE) then
    '(nbytes, buffer) ← recv_block fd (i32 (rb_can_write (header_buf cl)));
    if 0 <? nbytes then
      '(_, hb) ← st_lift (rb_write (header_buf cl) buffer nbytes);
      set_client c (mkClient (c_socket cl) (state cl) hb (pkt_buf cl) (pack cl));;
      if rb_can_read hb =? PKT_HEADER_LEN then client_decode_hdr c else mret tt
    else if nbytes =? 0 then server_remove_client c
    else mret tt
  else
    pb ← st_lift (deref (pkt_buf cl));
    '(nbytes, buffer) ← recv_block fd (i32 (rb_can_write pb));
    if 0 <? nbytes then
      '(_, pb) ← st_lift (rb_write pb buffer nbytes);
      set_client c (mkClient (c_socket cl) (state cl) (header_buf cl) (Some pb) (pack cl));;
      if rb_can_write pb =? 0
      then client_decode_body c;; server_deliver_packet c
      else mret tt
    else if nbytes =? 0 then server_remove_client c
    else mret tt.

Definition server_add_client : ST world unit :=
  s ← get_srv;
  fd ← on_io (sys_accept (srv_socket s));
  let c : ptr := fresh (dom (client_heap s)) in
  set_srv (mkServer (srv_socket s) (i32 (n_clients s + 1)) (active s) (c :: clients s)
             (<[c := mkClient fd IDLE (rb_new PKT_HEADER_LEN) None None]> (client_heap s))).

(** [next] is read before [c] is removed. *)
Fixpoint stop_loop (fuel : nat) (c : option ptr) : ST world unit :=
  match c with
  | None => mret tt
  | Some c =>
      match fuel with
      | O => st_lift NoFuel
      | S fuel =>
          s ← get_srv;
          let next := next_of c (clients s) in
          server_remove_client c;;
          stop_loop fuel next
      end
  end.

Definition server_stop : ST world unit :=
  s ← get_srv;
  stop_loop (length (clients s)) (head (clients s)).

(** ** One round of the [poll] loop *)

(** [fds[2..]]: the sockets of the first [n] clients. *)
Fixpoint client_fds (n : nat) (cs : list ptr) : ST world (list Z) :=
  match n, cs with
  | S n, c :: cs =>
      cl ← get_client c;
      fds ← client_fds n cs;
      mret (c_socket cl :: fds)
  | _, _ => mret []
  end.

(** The client loop; [i < srv->n_clients + 2] is evaluated with the number of
    clients at that moment.  Entries that were not filled in are zero. *)
Fixpoint serve_loop (fuel : nat) (fds : list Z) (revents : list bool) (i : nat)
    (c : option ptr) : ST world unit :=
  match c with
  | None => mret tt
  | Some c =>
      match fuel with
      | O => st_lift NoFuel
      | S fuel =>
          s ← get_srv;
          if Z.of_nat i <? i32 (n_clients s + 2) then
            let next := next_of c (clients s) in
            (if default false (revents !! i)
             then client_input (default 0 (fds !! (i - 2)%nat)) c
             else mret tt);;
            serve_loop fuel fds revents (S i) next
          else mret tt
      end
  end.

(** Clients marked for removal go. *)
Fixpoint reap_loop (fuel : nat) (c : option ptr) : ST world unit :=
  match c with
  | None => mret tt
  | Some c =>
      match fuel with
      | O => st_lift NoFuel
      | S fuel =>
          s ← get_srv;
          let next := next_of c (clients s) in
          cl ← get_client c;
          (if decide (state cl = REMOVE) then server_remove_client c else mret tt);;
          reap_loop fuel next
      end
  end.

(** The body of [while (srv->active)]; [false]: [break]. *)
Definition server_round : ST world bool :=
  s ← get_srv;
  fds ← client_fds (Z.to_nat (n_clients s)) (clients s);
  '(ready, revents) ← on_io sys_poll;
  if ready <? 0 then mret false
  else if 0 <? ready then
    if default false (revents !! 0%nat) then mret false
    else
      serve_loop (length (clients s)) fds revents 2 (head (clients s));;
      s ← get_srv;
      reap_loop (length (clients s)) (head (clients s));;
      (if default false (revents !! 1%nat) then server_add_client else mret tt);;
      mret true
  else mret true.

Fixpoint server_loop (fuel : nat) : ST world unit :=
  s ← get_srv;
  if active s then
    match fuel with
    | O => st_lift NoFuel
    | S fuel =>
        continue ← server_round;
        if continue : bool then server_loop fuel else mret tt
    end
  else mret tt.

(** Every round takes one answer of [poll] from the script. *)
Definition server_run : ST world unit := fun w =>
  (s ← get_srv;
   on_io (sys_listen (srv_socket s));;
   set_srv (mkServer (srv_socket s) (n_clients s) true (clients s) (client_heap s));;
   server_loop (S (length (script (w_io w))));;
   server_stop) w.
End Server.
Arguments world N : clear implicits.
Arguments callback N : clear implicits.

(** ** Stepping through the world *)

Section Steps.
Context {N : Type}.
Implicit Types (w : world N) (c : ptr) (cl : client).

Definition with_io (i : io) w : world N := mkWorld (w_srv w) (w_node w) i.
Definition with_srv (s : server) w : world N := mkWorld s (w_node w) (w_io w).
Definition with_client c cl w : world N :=
  let s := w_srv w in
  with_srv (mkServer (srv_socket s) (n_clients s) (active s) (clients s)
              (<[c := cl]> (client_heap s))) w.

(** [c] points to [cl]. *)
Definition points_to w c cl : Prop := client_heap (w_srv w) !! c = Some cl.

Lemma get_client_ok w c cl : points_to w c cl -> get_client c w = Ok (cl, w).
Proof. unfold points_to, get_client. by intros ->. Qed.

Lemma set_client_ok w c cl : set_client c cl w = Ok (tt, with_client c cl w).
Proof. done. Qed.

Lemma on_io_ok {A} (m : ST io A) w a i :
  m (w_io w) = Ok (a, i) -> on_io m w = Ok (a, with_io i w).
Proof. unfold on_io. by intros ->. Qed.

Lemma points_to_with_client w c cl : points_to (with_client c cl w) c cl.
Proof. apply lookup_insert_eq. Qed.

Lemma points_to_with_client_ne w c c' cl cl' :
  c <> c' -> points_to w c' cl' -> points_to (with_client c cl w) c' cl'.
Proof. intros Hne H. unfold points_to. cbn. by rewrite lookup_insert_ne. Qed.

Lemma with_client_twice w c cl cl' :
  with_client c cl' (with_client c cl w) = with_client c cl' w.
Proof. unfold with_client, with_srv. cbn. by rewrite insert_insert_eq. Qed.

(** ** Receiving *)

(** The receive state after the bytes [d] of a packet, of which [n] more are
    announced once the header is there. *)
Definition collecting (cl : client) (d : list Z) : Prop :=
  state cl = IDLE /\ rb_ok (header_buf cl) /\ rb_capacity (header_buf cl) = 7 /\
  rb_contents (header_buf cl) = cells d /\ zlen d < 7.

Definition body_buffered (cl : client) (p : packet) (b : list Z) : Prop :=
  rb_ok (header_buf cl) /\ rb_capacity (header_buf cl) = 7 /\
  rb_contents (header_buf cl) = [] /\ pack cl = Some p /\
  exists pb, pkt_buf cl = Some pb /\ rb_ok pb /\ rb_capacity pb = packet_body_size p /\
    rb_contents pb = cells b.

Definition in_body (cl : client) (p : packet) (b : list Z) : Prop :=
  state cl = HDR_RECVD /\ body_buffered cl p b.

Lemma rb_free_space rb d :
  rb_ok rb -> rb_contents rb = cells d -> rb_can_write rb = rb_capacity rb - zlen d /\
  rb_can_read rb = zlen d.
Proof.
  intros Hok Hc. pose proof (zlen_rb_contents rb Hok) as Hz. rewrite Hc, zlen_cells in Hz.
  rewrite rb_can_write_eq by done. by rewrite Hz.
Qed.

(** [recv] into a block, then [rb_write] of what arrived. *)
Lemma recv_write_step w fd rb d cs rest :
  rb_ok rb -> rb_contents rb = cells d -> rb_capacity rb < 2 ^ 31 -> zlen d < rb_capacity rb ->
  script (w_io w) = chunks cs ++ rest -> Forall (fun x : list Z => x <> []) cs -> cs <> [] ->
  exists data cs' rb' buffer,
    recv_block fd (i32 (rb_can_write rb)) w =
      Ok ((zlen data, buffer), with_io (mkIo (chunks cs' ++ rest) (trace (w_io w))) w) /\
    0 < zlen data /\ data ++ concat cs' = concat cs /\ Forall (fun x : list Z => x <> []) cs' /\
    (exists a, rb_write rb buffer (zlen data) = Ok (a, rb')) /\ rb_ok rb' /\
    rb_capacity rb' = rb_capacity rb /\ rb_contents rb' = cells (d ++ data) /\
    zlen (d ++ data) <= rb_capacity rb.
Proof.
  intros Hok Hc Hcap Hd Hw Hne Hcs. destruct (rb_free_space rb d Hok Hc) as [Hfree _].
  pose proof (zlen_nonneg d). set (n := rb_can_write rb) in *.
  destruct cs as [|c cs]; [done|]. apply List.Forall_cons_iff in Hne as [Hc0 Hne].
  destruct (sys_recv_chunk fd n (w_io w) c cs rest) as (data & cs' & E & Hl & Hne' & Hcat & _);
    [lia|done..|].
  exists data, cs'.
  destruct (rb_write_spec rb (cells data ++ malloc (n - zlen data)) (zlen data) Hok)
    as (rb' & Ew & Hok' & Hcap' & Hc'); [lia| |].
  { rewrite zlen_app, zlen_cells. pose proof (zlen_nonneg (malloc (n - zlen data))). lia. }
  exists rb', (cells data ++ malloc (n - zlen data)). split.
  - unfold recv_block. rewrite i32_small by lia. destruct (Z.leb_spec n 0); [lia|].
    erewrite st_bind_Ok by (apply on_io_ok; exact E). cbn [mret st_ret].
    by rewrite i32_small by lia.
  - split; [lia|]. split; [done|]. split; [done|]. split; [by eexists|].
    split; [done|]. split; [done|]. split.
    + rewrite Hc', Hc. fold n. rewrite Z.min_r by lia. unfold zlen. rewrite Nat2Z.id.
      by rewrite <- (length_cells data), take_app_length, cells_app.
    + rewrite zlen_app. lia.
Qed.

Lemma header_step (cb : callback N) w fd c cl d cs rest :
  points_to w c cl -> collecting cl d ->
  script (w_io w) = chunks cs ++ rest -> Forall (fun x : list Z => x <> []) cs -> cs <> [] ->
  exists data cs' cl',
    let w' := with_client c cl' (with_io (mkIo (chunks cs' ++ rest) (trace (w_io w))) w) in
    client_input cb fd c w =
      (if zlen (d ++ data) =? 7 then client_decode_hdr c w' else Ok (tt, w')) /\
    0 < zlen data /\ data ++ concat cs' = concat cs /\ Forall (fun x : list Z => x <> []) cs' /\
    zlen (d ++ data) <= 7 /\ c_socket cl' = c_socket cl /\
    state cl' = IDLE /\ rb_ok (header_buf cl') /\ rb_capacity (header_buf cl') = 7 /\
    rb_contents (header_buf cl') = cells (d ++ data).
Proof.
  intros Hp (Hst & Hok & Hcap & Hc & Hd) Hw Hne Hcs.
  destruct (recv_write_step w fd (header_buf cl) d cs rest)
    as (data & cs' & rb' & buffer & Er & Hl & Hcat & Hne' & (a & Ew) & Hok' & Hcap' & Hc' & Hle);
    try done; try lia.
  exists data, cs', (mkClient (c_socket cl) (state cl) rb' (pkt_buf cl) (pack cl)).
  cbn [c_socket state header_buf]. rewrite Hcap in *. split_and!; try done.
  unfold client_input. erewrite st_bind_Ok by (by apply get_client_ok).
  rewrite decide_True by done. erewrite st_bind_Ok by exact Er. cbn beta iota.
  rewrite (proj2 (Z.ltb_lt _ _)) by lia.
  erewrite st_bind_Ok by (by apply st_lift_Ok). cbn beta iota.
  erewrite st_bind_Ok by apply set_client_ok.
  destruct (rb_free_space rb' (d ++ data) Hok' Hc') as [_ ->].
  unfold PKT_HEADER_LEN. by destruct (_ =? 7).
Qed.

Lemma decode_hdr_step w c cl h p :
  points_to w c cl -> rb_ok (header_buf cl) -> rb_capacity (header_buf cl) = 7 ->
  rb_contents (header_buf cl) = cells h -> zlen h = 7 ->
  packet_decode_hdr (cells h) 7 = Ok (Some p) -> 0 <= packet_body_size p < 2 ^ 64 - 1 ->
  exists cl', client_decode_hdr c w = Ok (tt, with_client c cl' w) /\
    c_socket cl' = c_socket cl /\ in_body cl' p [].
Proof.
  intros Hp Hok Hcap Hc Hh Hd Hb. destruct (rb_free_space _ h Hok Hc) as [_ Hr].
  destruct (rb_read_spec (header_buf cl) (malloc 7) 7 Hok) as (rb' & Er & Hok' & Hcap' & Hc').
  - lia.
  - done.
  - rewrite Hr, Hh in *. change (Z.to_nat (Z.min 7 7)) with 7%nat in *.
    assert (7%nat = length (cells h)) as E7 by (rewrite length_cells; unfold zlen in Hh; lia).
    rewrite Hc in *. rewrite take_ge in Er by lia.
    change (drop 7 (malloc 7)) with (@nil cell) in Er. rewrite app_nil_r in Er.
    rewrite E7, drop_all in Hc'.
    destruct (rb_new_ok (packet_body_size p) Hb) as (N1 & N2 & N3).
    eexists. split.
    + unfold client_decode_hdr, PKT_HEADER_LEN. erewrite st_bind_Ok by (by apply get_client_ok).
      erewrite st_bind_Ok by (apply st_lift_Ok; exact Er). cbn beta iota.
      erewrite st_bind_Ok by (apply st_lift_Ok; exact Hd).
      erewrite st_bind_Ok by (by apply st_lift_Ok). apply set_client_ok.
    + cbn. split; [done|]. unfold in_body, body_buffered. cbn. split_and!; try done; [by rewrite Hcap'|].
      by exists (rb_new (packet_body_size p)).
Qed.

Lemma body_step (cb : callback N) w fd c cl p b cs rest :
  points_to w c cl -> in_body cl p b -> zlen b < packet_body_size p < 2 ^ 31 ->
  script (w_io w) = chunks cs ++ rest -> Forall (fun x : list Z => x <> []) cs -> cs <> [] ->
  exists data cs' cl',
    let w' := with_client c cl' (with_io (mkIo (chunks cs' ++ rest) (trace (w_io w))) w) in
    client_input cb fd c w =
      (if zlen (b ++ data) =? packet_body_size p
       then (client_decode_body c;; server_deliver_packet cb c) w' else Ok (tt, w')) /\
    0 < zlen data /\ data ++ concat cs' = concat cs /\ Forall (fun x : list Z => x <> []) cs' /\
    zlen (b ++ data) <= packet_body_size p /\ c_socket cl' = c_socket cl /\
    in_body cl' p (b ++ data).
Proof.
  intros Hp (Hst & Hok & Hcap & Hc & Hpk & pb & Hpb & Hpok & Hpcap & Hpc) Hb Hw Hne Hcs.
  destruct (recv_write_step w fd pb b cs rest)
    as (data & cs' & rb' & buffer & Er & Hl & Hcat & Hne' & (a & Ew) & Hok' & Hcap' & Hc' & Hle);
    try done; try lia.
  exists data, cs', (mkClient (c_socket cl) (state cl) (header_buf cl) (Some rb') (pack cl)).
  rewrite Hpcap in *. split; [|split_and!; try done].
  - unfold client_input. erewrite st_bind_Ok by (by apply get_client_ok).
    rewrite Hst, decide_False by done. rewrite Hpb.
    erewrite st_bind_Ok by (by apply st_lift_Ok).
    erewrite st_bind_Ok by exact Er. cbn beta iota.
    rewrite (proj2 (Z.ltb_lt _ _)) by lia.
    erewrite st_bind_Ok by (by apply st_lift_Ok). cbn beta iota.
    erewrite st_bind_Ok by apply set_client_ok.
    destruct (rb_free_space rb' (b ++ data) Hok' Hc') as [-> _]. rewrite Hcap'.
    destruct (Z.eqb_spec (zlen (b ++ data)) (packet_body_size p)) as [->|Hn].
    + by rewrite Z.sub_diag.
    + by rewrite (proj2 (Z.eqb_neq _ 0)) by lia.
  - unfold in_body, body_buffered. cbn. split_and!; try done. exists rb'. by rewrite Hcap'.
Qed.

Lemma decode_body_eq w c cl p b :
  points_to w c cl -> body_buffered cl p b -> zlen b = packet_body_size p ->
  client_decode_body c w =
    (pk ← st_lift (packet_decode_body p (cells b) (zlen b));
     set_client c (mkClient (c_socket cl) IDLE (header_buf cl) None pk)) w.
Proof.
  intros Hp (Hok & Hcap & Hc & Hpk & pb & Hpb & Hpok & Hpcap & Hpc) Hb.
  destruct (rb_free_space pb b Hpok Hpc) as [_ Hr].
  pose proof (zlen_nonneg b). pose proof (rb_ok_size _ Hpok).
  unfold rb_capacity in Hpcap.
  destruct (rb_read_spec pb (malloc (zlen b)) (zlen b) Hpok) as (rb' & Er & _);
    [lia|by rewrite zlen_malloc|].
  rewrite Hr, Hpc, Z.min_id in Er.
  assert (Z.to_nat (zlen b) = length (cells b)) as El
    by (rewrite length_cells; unfold zlen; lia).
  rewrite El, firstn_all in Er.
  assert (length (malloc (zlen b)) = length (cells b)) as Em.
  { unfold malloc. by rewrite length_replicate, El. }
  rewrite <- Em, drop_all, app_nil_r in Er.
  unfold client_decode_body. erewrite st_bind_Ok by (by apply get_client_ok).
  rewrite Hpb. erewrite st_bind_Ok by (by apply st_lift_Ok). rewrite Hr.
  erewrite st_bind_Ok by (apply st_lift_Ok; exact Er). cbn beta iota.
  rewrite Hpk. by erewrite st_bind_Ok by (by apply st_lift_Ok).
Qed.

Lemma decode_body_step w c cl p b q :
  points_to w c cl -> in_body cl p b -> zlen b = packet_body_size p ->
  packet_decode_body p (cells b) (zlen b) = Ok q ->
  exists cl', client_decode_body c w = Ok (tt, with_client c cl' w) /\
    c_socket cl' = c_socket cl /\ pack cl' = q /\ pkt_buf cl' = None /\ collecting cl' [].
Proof.
  intros Hp [_ Hbuf] Hb Hd. pose proof Hbuf as (Hok & Hcap & Hc & _).
  eexists. split.
  - rewrite (decode_body_eq w c cl p b Hp Hbuf Hb).
    erewrite st_bind_Ok by (apply st_lift_Ok; exact Hd). apply set_client_ok.
  - done.
Qed.
End Steps.

(** ** Framing *)

(** [n] rounds in which client [c] is readable. *)
Fixpoint client_inputs {N} (cb : callback N) (n : nat) (fd : Z) (c : ptr) : ST (world N) unit :=
  match n with
  | O => mret tt
  | S n => client_input cb fd c;; client_inputs cb n fd c
  end.

Section Framing.
Context {N : Type} (cb : callback N).
Implicit Types (w : world N).

Lemma bind_ret_unit {S} (m : ST S unit) s : (m;; mret tt) s = m s.
Proof. unfold mbind, st_bind. by destruct (m s) as [[[] ?]| | |]. Qed.

Lemma with_client_io c cl cl' i i' w :
  with_client c cl' (with_io i' (with_client c cl (with_io i w))) =
  with_client c cl' (with_io i' w).
Proof.
  unfold with_client, with_io, with_srv. cbn. by rewrite insert_insert_eq.
Qed.

Lemma nonempty_chunks_nil (cs : list (list Z)) :
  Forall (fun x => x <> []) cs -> concat cs = [] -> cs = [].
Proof. intros Hf. destruct Hf as [|x cs Hx Hf]; [done|]. cbn. by destruct x. Qed.

(** The world in which the packet [q] of client [c] is about to be delivered:
    only [c] and the script have changed. *)
Definition delivery (w : world N) (c : ptr) (cl : client) (q : option packet)
    (rest : list answer) (w' : world N) : Prop :=
  exists cl', w' = with_client c cl' (with_io (mkIo rest (trace (w_io w))) w) /\
    c_socket cl' = c_socket cl /\ pack cl' = q /\ pkt_buf cl' = None /\ collecting cl' [].

Lemma body_run w fd c cl p b cs rest q body :
  points_to w c cl -> in_body cl p b -> zlen b < packet_body_size p < 2 ^ 31 ->
  script (w_io w) = chunks cs ++ rest -> Forall (fun x => x <> []) cs ->
  b ++ concat cs = body -> zlen body = packet_body_size p ->
  packet_decode_body p (cells body) (zlen body) = Ok q ->
  exists n w', client_inputs cb n fd c w = server_deliver_packet cb c w' /\
    (n <= length (concat cs))%nat /\ delivery w c cl q rest w'.
Proof.
  remember (length (concat cs)) as k eqn:Hk. revert w cl b cs Hk.
  induction k as [k IH] using lt_wf_ind. intros w cl b cs -> Hp Hin Hb Hw Hne Hcat Hl Hd.
  assert (cs <> []) as Hcs.
  { intros ->. cbn in Hcat. rewrite app_nil_r in Hcat. subst. lia. }
  destruct (body_step cb w fd c cl p b cs rest Hp Hin Hb Hw Hne Hcs)
    as (data & cs' & cl1 & E & Hpos & Hc' & Hne' & Hle & Hs1 & Hin1).
  set (w1 := with_client c cl1 _) in E.
  assert (points_to w1 c cl1) as Hp1 by apply points_to_with_client.
  destruct (Z.eqb_spec (zlen (b ++ data)) (packet_body_size p)) as [Hfull|Hmore].
  - assert (cs' = []) as ->.
    { apply nonempty_chunks_nil; [done|]. apply zlen_nil_inv.
      rewrite <- Hcat, <- Hc', app_assoc, zlen_app, Hfull in Hl.
      pose proof (zlen_nonneg (concat cs')). lia. }
    cbn in Hc'. rewrite app_nil_r in Hc'. subst data. rewrite Hcat in *.
    destruct (decode_body_step w1 c cl1 p body q Hp1 Hin1 Hl Hd)
      as (cl2 & E2 & Hs2 & Hq & Hpb & Hcol).
    exists 1%nat, (with_client c cl2 w1). cbn [client_inputs]. split; [|split].
    + rewrite bind_ret_unit, E. by erewrite st_bind_Ok by exact E2.
    + unfold zlen in Hpos. lia.
    + exists cl2. unfold w1. rewrite with_client_twice. rewrite Hs2. done.
  - assert (length (concat cs') < length (concat cs))%nat as Hlt.
    { rewrite <- Hc', length_app. unfold zlen in Hpos. lia. }
    destruct (IH (length (concat cs')) Hlt w1 cl1 (b ++ data) cs') as (n & w' & En & Hn & D);
      [done|exact Hp1|exact Hin1|lia|done|done|by rewrite <- app_assoc, Hc'|done|done|].
    exists (S n), w'. split; [|split; [lia|]].
    + cbn [client_inputs]. by erewrite st_bind_Ok by exact E.
    + destruct D as (cl' & -> & Hs' & D). exists cl'. split; [|by rewrite Hs', Hs1].
      unfold w1. by rewrite with_client_io.
Qed.

Lemma header_run w fd c cl d cs rest h body p q :
  points_to w c cl -> collecting cl d ->
  script (w_io w) = chunks cs ++ rest -> Forall (fun x => x <> []) cs ->
  d ++ concat cs = h ++ body -> zlen h = 7 -> packet_decode_hdr (cells h) 7 = Ok (Some p) ->
  zlen body = packet_body_size p -> 0 < packet_body_size p < 2 ^ 31 ->
  packet_decode_body p (cells body) (zlen body) = Ok q ->
  exists n w', client_inputs cb n fd c w = server_deliver_packet cb c w' /\
    (n <= length (concat cs))%nat /\ delivery w c cl q rest w'.
Proof.
  remember (length (concat cs)) as k eqn:Hk. revert w cl d cs Hk.
  induction k as [k IH] using lt_wf_ind.
  intros w cl d cs -> Hp Hcol Hw Hne Hcat Hh Hdh Hl Hb Hd.
  assert (zlen d < 7) as Hd7 by apply Hcol.
  assert (cs <> []) as Hcs.
  { intros ->. cbn in Hcat. rewrite app_nil_r in Hcat. subst d. rewrite zlen_app in Hd7. lia. }
  destruct (header_step cb w fd c cl d cs rest Hp Hcol Hw Hne Hcs)
    as (data & cs' & cl1 & E & Hpos & Hc' & Hne' & Hle & Hs1 & Hst1 & Hok1 & Hcap1 & Hcont1).
  set (w1 := with_client c cl1 _) in E.
  assert (points_to w1 c cl1) as Hp1 by apply points_to_with_client.
  assert (length (concat cs') < length (concat cs))%nat as Hlt.
  { rewrite <- Hc', length_app. unfold zlen in Hpos. lia. }
  destruct (Z.eqb_spec (zlen (d ++ data)) 7) as [Hfull|Hmore].
  - assert (d ++ data = h /\ concat cs' = body) as [<- Hbody].
    { rewrite <- Hc', app_assoc in Hcat. apply app_inj_1 in Hcat; [done|].
      unfold zlen in *. lia. }
    destruct (decode_hdr_step w1 c cl1 (d ++ data) p Hp1 Hok1 Hcap1 Hcont1 Hfull Hdh)
      as (cl2 & E2 & Hs2 & Hin2); [lia|].
    destruct (body_run (with_client c cl2 w1) fd c cl2 p [] cs' rest q body)
      as (n & w' & En & Hn & D);
      [apply points_to_with_client|done|change (zlen []) with 0; lia|done|done|done|done|done|].
    exists (S n), w'. split; [|split; [lia|]].
    + cbn [client_inputs]. erewrite st_bind_Ok by (rewrite E; exact E2). exact En.
    + destruct D as (cl' & -> & Hs' & D). exists cl'. split; [|by rewrite Hs', Hs2, Hs1].
      unfold w1. rewrite with_client_twice. by rewrite with_client_io.
  - destruct (IH (length (concat cs')) Hlt w1 cl1 (d ++ data) cs') as (n & w' & En & Hn & D);
      [done|exact Hp1| |done|done|by rewrite <- app_assoc, Hc'|done|done|done|done|done|].
    { unfold collecting. split_and!; try done. lia. }
    exists (S n), w'. split; [|split; [lia|]].
    + cbn [client_inputs]. by erewrite st_bind_Ok by exact E.
    + destruct D as (cl' & -> & Hs' & D). exists cl'. split; [|by rewrite Hs', Hs1].
      unfold w1. by rewrite with_client_io.
Qed.

(** A header alone, however it is cut: the client waits for the body. *)
Lemma header_collected w fd c cl d cs rest h p :
  points_to w c cl -> collecting cl d ->
  script (w_io w) = chunks cs ++ rest -> Forall (fun x => x <> []) cs ->
  d ++ concat cs = h -> zlen h = 7 -> packet_decode_hdr (cells h) 7 = Ok (Some p) ->
  0 <= packet_body_size p < 2 ^ 64 - 1 ->
  exists n cl', let w' := with_client c cl' (with_io (mkIo rest (trace (w_io w))) w) in
    client_inputs cb n fd c w = Ok (tt, w') /\ (n <= length (concat cs))%nat /\
    c_socket cl' = c_socket cl /\ in_body cl' p [].
Proof.
  remember (length (concat cs)) as k eqn:Hk. revert w cl d cs Hk.
  induction k as [k IH] using lt_wf_ind. intros w cl d cs -> Hp Hcol Hw Hne Hcat Hh Hdh Hb.
  assert (zlen d < 7) as Hd7 by apply Hcol.
  assert (cs <> []) as Hcs.
  { intros ->. cbn in Hcat. rewrite app_nil_r in Hcat. subst d. lia. }
  destruct (header_step cb w fd c cl d cs rest Hp Hcol Hw Hne Hcs)
    as (data & cs' & cl1 & E & Hpos & Hc' & Hne' & Hle & Hs1 & Hst1 & Hok1 & Hcap1 & Hcont1).
  set (w1 := with_client c cl1 _) in E.
  assert (points_to w1 c cl1) as Hp1 by apply points_to_with_client.
  assert (length (concat cs') < length (concat cs))%nat as Hlt.
  { rewrite <- Hc', length_app. unfold zlen in Hpos. lia. }
  destruct (Z.eqb_spec (zlen (d ++ data)) 7) as [Hfull|Hmore].
  - assert (cs' = []) as ->.
    { apply nonempty_chunks_nil; [done|]. apply zlen_nil_inv.
      rewrite <- Hcat, <- Hc', app_assoc, zlen_app, Hfull in Hh.
      pose proof (zlen_nonneg (concat cs')). lia. }
    cbn in Hc'. rewrite app_nil_r in Hc'. subst data. rewrite Hcat in *.
    destruct (decode_hdr_step w1 c cl1 h p Hp1 Hok1 Hcap1 Hcont1 Hfull Hdh Hb)
      as (cl2 & E2 & Hs2 & Hin2).
    exists 1%nat, cl2. cbn [client_inputs]. rewrite bind_ret_unit, E, E2. unfold w1.
    rewrite with_client_twice. split; [done|]. split; [lia|]. by rewrite Hs2, Hs1.
  - destruct (IH (length (concat cs')) Hlt w1 cl1 (d ++ data) cs') as (n & cl' & En & Hn & Hs' & Hin);
      [done|exact Hp1| |done|done|by rewrite <- app_assoc, Hc'|done|done|done|].
    { unfold collecting. split_and!; try done. lia. }
    exists (S n), cl'. cbn [client_inputs]. split; [|split; [lia|by rewrite Hs', Hs1]].
    erewrite st_bind_Ok by exact E. rewrite En. unfold w1. by rewrite with_client_io.
Qed.

(** No room in the buffer for the body makes an array of no elements. *)
Lemma no_body_ub w fd c cl p :
  points_to w c cl -> in_body cl p [] -> packet_body_size p = 0 ->
  client_input cb fd c w = Ub.
Proof.
  intros Hp (Hst & _ & _ & _ & _ & pb & Hpb & Hok & Hcap & Hc) Hz.
  destruct (rb_free_space pb [] Hok Hc) as [Hw _]. rewrite Hcap, Hz in Hw.
  change (0 - zlen []) with 0 in Hw.
  unfold client_input. erewrite st_bind_Ok by (by apply get_client_ok).
  rewrite Hst, decide_False by done. rewrite Hpb. erewrite st_bind_Ok by (by apply st_lift_Ok).
  by rewrite Hw.
Qed.
End Framing.

(** ** The client list *)

Lemma next_of_middle c a b : NoDup (a ++ c :: b) -> next_of c (a ++ c :: b) = head b.
Proof.
  induction a as [|x a IH]; cbn; intros Hnd; [by rewrite decide_True|].
  apply NoDup_cons in Hnd as [Hx Hnd]. rewrite decide_False by set_solver. by apply IH.
Qed.

Lemma filter_ne_middle (c : ptr) a b :
  NoDup (a ++ c :: b) -> filter (fun x => x <> c) (a ++ c :: b) = a ++ b.
Proof.
  intros Hnd. assert (forall l : list ptr, c ∉ l -> filter (fun x => x <> c) l = l) as Hid.
  { induction l as [|x l IH]; intros Hc; [done|]. rewrite filter_cons_True by set_solver.
    rewrite IH; [done|]. set_solver. }
  apply NoDup_app in Hnd as (_ & Ha & [Hb _]%NoDup_cons). rewrite filter_app.
  rewrite filter_cons_False by (intros Hn; by apply Hn).
  rewrite !Hid; [done|done|]. intros Hca. apply (Ha c Hca). set_solver.
Qed.

Section ClientList.
Context {N : Type}.
Implicit Types (w : world N).

(** Every client in the list is allocated and no other is; the counter is the
    length of the list. *)
Definition srv_ok (s : server) : Prop :=
  NoDup (clients s) /\ (forall c, c ∈ clients s <-> is_Some (client_heap s !! c)) /\
  n_clients s = i32 (zlen (clients s)).

(** The world after client [c] is gone. *)
Definition removed c cl w : world N :=
  let s := w_srv w in
  mkWorld (mkServer (srv_socket s) (i32 (n_clients s - 1)) (active s)
             (filter (fun x => x <> c) (clients s)) (delete c (client_heap s)))
    (w_node w) (emit (EClose (c_socket cl)) (w_io w)).

Lemma i32_sub_i32 a b : i32 (i32 a - b) = i32 (a - b).
Proof. unfold i32. zlia. Qed.
Lemma i32_add_i32 a b : i32 (i32 a + b) = i32 (a + b).
Proof. unfold i32. zlia. Qed.

Lemma server_remove_client_ok w c cl :
  c ∈ clients (w_srv w) -> points_to w c cl ->
  server_remove_client c w = Ok (tt, removed c cl w).
Proof.
  intros Hc Hp. unfold server_remove_client. erewrite st_bind_Ok by done.
  rewrite bool_decide_true by done. erewrite st_bind_Ok by (by apply get_client_ok).
  by erewrite st_bind_Ok by (by apply on_io_ok).
Qed.

(** A client that is not in the list changes nothing. *)
Lemma server_remove_client_absent w c :
  c ∉ clients (w_srv w) -> server_remove_client c w = Ok (tt, w).
Proof.
  intros Hc. unfold server_remove_client. erewrite st_bind_Ok by done.
  by rewrite bool_decide_false.
Qed.

Lemma removed_ok w c cl a b :
  srv_ok (w_srv w) -> clients (w_srv w) = a ++ c :: b ->
  srv_ok (w_srv (removed c cl w)) /\ clients (w_srv (removed c cl w)) = a ++ b.
Proof.
  intros (Hnd & Hdom & Hn) Hcl. unfold srv_ok, removed. cbn [w_srv clients client_heap n_clients].
  rewrite Hcl in Hnd, Hdom, Hn |- *. rewrite filter_ne_middle by done. split; [|done].
  rewrite <- Permutation_middle in Hnd. apply NoDup_cons in Hnd as [Hc Hnd].
  split; [done|]. split.
  - intros x. destruct (decide (c = x)) as [<-|Hne].
    + rewrite lookup_delete_eq. split; [done|]. by intros [? ?].
    + rewrite lookup_delete_ne, <- Hdom by done. set_solver.
  - rewrite Hn, i32_sub_i32. f_equal. rewrite !zlen_app. unfold zlen. cbn. lia.
Qed.

Lemma srv_ok_lookup w c : srv_ok (w_srv w) -> c ∈ clients (w_srv w) -> exists cl, points_to w c cl.
Proof. intros (_ & Hdom & _) Hc. by apply Hdom in Hc as [cl Hcl]; exists cl. Qed.

Definition socket_of (s : server) (c : ptr) : Z :=
  match client_heap s !! c with Some cl => c_socket cl | None => -1 end.

Definition closes (s : server) (cs : list ptr) : list event :=
  (fun c => EClose (socket_of s c)) <$> cs.

Lemma closes_removed w c cl cs :
  c ∉ cs -> closes (w_srv (removed c cl w)) cs = closes (w_srv w) cs.
Proof.
  intros Hc. apply list_fmap_ext. intros i x Hx. unfold socket_of, removed. cbn.
  rewrite lookup_delete_ne; [done|]. intros ->. apply Hc. by eapply list_elem_of_lookup_2.
Qed.

Lemma stop_loop_spec w :
  srv_ok (w_srv w) ->
  let cs := clients (w_srv w) in
  exists w', stop_loop (length cs) (head cs) w = Ok (tt, w') /\ clients (w_srv w') = [] /\
    client_heap (w_srv w') = ∅ /\ n_clients (w_srv w') = 0 /\
    trace (w_io w') = trace (w_io w) ++ closes (w_srv w) cs /\
    script (w_io w') = script (w_io w) /\ w_node w' = w_node w.
Proof.
  intros Hok cs. subst cs. remember (clients (w_srv w)) as cs eqn:Hcs. revert w Hok Hcs.
  induction cs as [|c cs IH]; intros w Hok Hcs.
  - exists w. cbn. destruct Hok as (_ & Hdom & Hn). rewrite <- Hcs in Hdom, Hn.
    rewrite app_nil_r. split_and!; try done. apply map_empty. intros c.
    apply eq_None_not_Some. intros Hc. apply Hdom in Hc. by apply not_elem_of_nil in Hc.
  - destruct (srv_ok_lookup w c Hok ltac:(rewrite <- Hcs; set_solver)) as [cl Hcl].
    assert (NoDup (c :: cs)) as Hnd by (rewrite Hcs; apply Hok).
    pose proof Hnd as [Hc _]%NoDup_cons.
    destruct (removed_ok w c cl [] cs Hok) as [Hok' Hcs']; [done|].
    cbn [length head stop_loop]. erewrite st_bind_Ok by done.
    erewrite st_bind_Ok by (apply server_remove_client_ok; [rewrite <- Hcs; set_solver|done]).
    rewrite <- Hcs. rewrite (next_of_middle c [] cs Hnd : next_of c (c :: cs) = head cs).
    destruct (IH (removed c cl w) Hok' (eq_sym Hcs')) as (w' & E & H1 & H2 & H3 & H4 & H5 & H6).
    exists w'. split_and!; try done. rewrite H4, closes_removed by done. cbn.
    rewrite <- app_assoc. do 2 f_equal. unfold closes. cbn. f_equal. unfold socket_of.
    by rewrite Hcl.
Qed.

(** ** Reaping *)

Definition marked (s : server) (c : ptr) : bool :=
  match client_heap s !! c with Some cl => bool_decide (state cl = REMOVE) | None => false end.

Lemma reap_loop_spec w fuel a b :
  srv_ok (w_srv w) -> clients (w_srv w) = a ++ b -> (length b <= fuel)%nat ->
  exists w', reap_loop fuel (head b) w = Ok (tt, w') /\ srv_ok (w_srv w') /\
    clients (w_srv w') = a ++ filter (fun c => marked (w_srv w) c = false) b /\
    (forall c, c ∈ clients (w_srv w') ->
       client_heap (w_srv w') !! c = client_heap (w_srv w) !! c) /\
    trace (w_io w') = trace (w_io w) ++
      closes (w_srv w) (filter (fun c => marked (w_srv w) c = true) b) /\
    script (w_io w') = script (w_io w) /\ w_node w' = w_node w.
Proof.
  revert w fuel a. induction b as [|c b IH]; intros w fuel a Hok Hcs Hf.
  - exists w. cbn. rewrite !app_nil_r in *. destruct fuel; split_and!; done.
  - destruct fuel as [|fuel]; [cbn in Hf; lia|]. cbn [head reap_loop length] in *.
    destruct (srv_ok_lookup w c Hok ltac:(rewrite Hcs; set_solver)) as [cl Hcl].
    assert (NoDup (a ++ c :: b)) as Hnd by (rewrite <- Hcs; apply Hok).
    erewrite st_bind_Ok by done. erewrite st_bind_Ok by (by apply get_client_ok).
    rewrite Hcs, next_of_middle by done.
    assert (marked (w_srv w) c = bool_decide (state cl = REMOVE)) as Hm
      by (unfold marked; by rewrite Hcl).
    destruct (decide (state cl = REMOVE)) as [Hr|Hr].
    + rewrite bool_decide_true in Hm by done.
      erewrite st_bind_Ok by (apply server_remove_client_ok; [rewrite Hcs; set_solver|done]).
      destruct (removed_ok w c cl a b Hok Hcs) as [Hok' Hcs'].
      destruct (IH (removed c cl w) fuel a Hok' Hcs' ltac:(lia))
        as (w' & E & H1 & H2 & H3 & H4 & H5 & H6).
      assert (c ∉ a ++ b) as Hcab.
      { rewrite <- Permutation_middle in Hnd. by apply NoDup_cons in Hnd as [? _]. }
      assert (forall x, x ∈ b -> marked (w_srv (removed c cl w)) x = marked (w_srv w) x) as Hmk.
      { intros x Hx. unfold marked, removed. cbn. rewrite lookup_delete_ne by set_solver. done. }
      exists w'. rewrite filter_cons_False by congruence. rewrite filter_cons_True by done.
      assert (forall v, filter (fun c0 => marked (w_srv (removed c cl w)) c0 = v) b
                        = filter (fun c0 => marked (w_srv w) c0 = v) b) as Hfil.
      { intros v. apply filter_ext_in. intros x Hx. by rewrite Hmk. }
      rewrite Hfil in H2, H4. split_and!; try done.
      * intros x Hx. rewrite H3 by done. unfold removed. cbn. apply lookup_delete_ne.
        intros ->. apply Hcab. rewrite H2 in Hx. apply elem_of_app in Hx as [?|Hx]; [set_solver|].
        apply list_elem_of_filter in Hx as [_ ?]. set_solver.
      * rewrite H4, closes_removed.
        -- cbn. rewrite <- app_assoc. do 2 f_equal. unfold closes. cbn. f_equal.
           unfold socket_of. by rewrite Hcl.
        -- intros Hx%list_elem_of_filter. set_solver.
    + rewrite bool_decide_false in Hm by done. erewrite st_bind_Ok by done.
      destruct (IH w fuel (a ++ [c]) Hok) as (w' & E & H1 & H2 & H3 & H4 & H5 & H6);
        [by rewrite <- app_assoc|lia|].
      exists w'. rewrite filter_cons_True by done. rewrite filter_cons_False by congruence.
      rewrite <- app_assoc in H2. split_and!; done.
Qed.
End ClientList.

(** ** Marking *)

(** The first client of the list with this socket. *)
Fixpoint first_with (h : gmap ptr client) (socket : Z) (cs : list ptr) : option (ptr * client) :=
  match cs with
  | [] => None
  | c :: cs =>
      match h !! c with
      | Some cl => if c_socket cl =? socket then Some (c, cl) else first_with h socket cs
      | None => None
      end
  end.

Definition mark_socket (s : server) (socket : Z) : server :=
  match first_with (client_heap s) socket (clients s) with
  | Some (c, cl) =>
      mkServer (srv_socket s) (n_clients s) (active s) (clients s)
        (<[c := with_state REMOVE cl]> (client_heap s))
  | None => s
  end.

Lemma server_close_socket_ok {N} socket (w : world N) :
  srv_ok (w_srv w) ->
  server_close_socket socket w = Ok (tt, with_srv (mark_socket (w_srv w) socket) w).
Proof.
  intros (_ & Hdom & _). unfold server_close_socket, mark_socket. erewrite st_bind_Ok by done.
  assert (forall c, c ∈ clients (w_srv w) -> exists cl, points_to w c cl) as Hal.
  { intros c Hc. by apply Hdom in Hc as [cl Hcl]; exists cl. }
  clear Hdom. revert Hal. generalize (clients (w_srv w)) at 1 2 3 as cs.
  induction cs as [|c cs IH]; intros Hal; [by destruct w as [s ? ?]|]. cbn [close_socket_loop first_with].
  destruct (Hal c ltac:(set_solver)) as [cl Hcl].
  erewrite st_bind_Ok by (by apply get_client_ok). rewrite Hcl.
  destruct (c_socket cl =? socket); [done|]. apply IH. intros x Hx. apply Hal. set_solver.
Qed.

Lemma mark_socket_ok s socket : srv_ok s -> srv_ok (mark_socket s socket).
Proof.
  unfold mark_socket. destruct (first_with (client_heap s) socket (clients s)) as [[c cl]|] eqn:E;
    [|done]. intros (Hnd & Hdom & Hn). split; [done|]. split; [|done]. intros x. cbn.
  rewrite Hdom. destruct (decide (c = x)) as [<-|Hne]; [|by rewrite lookup_insert_ne].
  rewrite lookup_insert_eq. split; [done|]. intros _.
  revert E. generalize (clients s). induction l as [|y l IH]; [done|]. cbn.
  destruct (client_heap s !! y) as [cy|] eqn:Ey; [|done].
  destruct (c_socket cy =? socket); [|done]. intros [= -> ->]. by exists cl.
Qed.

(** ** The invariant of the loop *)

(** No client is marked for removal. *)
Definition unmarked (s : server) : Prop := forall c, marked s c = false.

Create HintDb keeps.

Section Invariant.
Context {N : Type}.
Implicit Types (w : world N).

Definition alloc c w : Prop := is_Some (client_heap (w_srv w) !! c).

(** [m] leaves the client list well formed; [keeps_at c] also leaves [c]
    allocated, [ends_at c] may free it. *)
Definition keeps {A} (m : ST (world N) A) : Prop := forall w a w',
  srv_ok (w_srv w) -> m w = Ok (a, w') -> srv_ok (w_srv w').
Definition keeps_at {A} c (m : ST (world N) A) : Prop := forall w a w',
  srv_ok (w_srv w) -> alloc c w -> m w = Ok (a, w') -> srv_ok (w_srv w') /\ alloc c w'.
Definition ends_at {A} c (m : ST (world N) A) : Prop := forall w a w',
  srv_ok (w_srv w) -> alloc c w -> m w = Ok (a, w') -> srv_ok (w_srv w').

Lemma keeps_bind {A B} (m : ST (world N) A) (f : A -> ST (world N) B) :
  keeps m -> (forall a, keeps (f a)) -> keeps (m ≫= f).
Proof. intros Hm Hf w b w' Hok (a & w1 & E1 & E2)%st_bind_inv.
  exact (Hf a w1 b w' (Hm w a w1 Hok E1) E2).
Qed.

Lemma keeps_at_bind {A B} c (m : ST (world N) A) (f : A -> ST (world N) B) :
  keeps_at c m -> (forall a, keeps_at c (f a)) -> keeps_at c (m ≫= f).
Proof.
  intros Hm Hf w b w' Hok Hal (a & w1 & E1 & E2)%st_bind_inv.
  destruct (Hm _ _ _ Hok Hal E1) as [Hok1 Hal1]. exact (Hf a w1 b w' Hok1 Hal1 E2).
Qed.

Lemma ends_at_bind {A B} c (m : ST (world N) A) (f : A -> ST (world N) B) :
  keeps_at c m -> (forall a, ends_at c (f a)) -> ends_at c (m ≫= f).
Proof.
  intros Hm Hf w b w' Hok Hal (a & w1 & E1 & E2)%st_bind_inv.
  destruct (Hm _ _ _ Hok Hal E1) as [Hok1 Hal1]. exact (Hf a w1 b w' Hok1 Hal1 E2).
Qed.

Lemma keeps_at_ends {A} c (m : ST (world N) A) : keeps_at c m -> ends_at c m.
Proof. intros Hm w a w' Hok Hal E. by destruct (Hm _ _ _ Hok Hal E). Qed.

Lemma keeps_ends {A} c (m : ST (world N) A) : keeps m -> ends_at c m.
Proof. intros Hm w a w' Hok _ E. exact (Hm w a w' Hok E). Qed.

(** A dereference tells that the client is allocated. *)
Lemma keeps_get_client {B} c (f : client -> ST (world N) B) :
  (forall cl, ends_at c (f cl)) -> keeps (get_client c ≫= f).
Proof.
  intros Hf w b w' Hok (cl & w1 & E1 & E2)%st_bind_inv. unfold get_client in E1.
  destruct (client_heap (w_srv w) !! c) eqn:Hc; [|done]. injection E1 as -> <-.
  refine (Hf cl w b w' Hok _ E2). by exists cl.
Qed.

Lemma keeps_ret {A} (a : A) : keeps (mret a).
Proof. intros w b w' Hok [= _ <-]. done. Qed.
Lemma keeps_at_ret {A} c (a : A) : keeps_at c (mret a).
Proof. intros w b w' Hok Hal [= _ <-]. done. Qed.
Lemma keeps_at_get_client c c' : keeps_at c (get_client c').
Proof.
  intros w b w' Hok Hal. unfold get_client. destruct (_ !! c'); [|done]. by intros [= _ <-].
Qed.
Lemma keeps_lift {A} (m : res A) : keeps (st_lift m).
Proof. intros w b w' Hok. unfold st_lift. destruct m; [|done..]. by intros [= _ <-]. Qed.
Lemma keeps_at_lift {A} c (m : res A) : keeps_at c (st_lift m).
Proof. intros w b w' Hok Hal. unfold st_lift. destruct m; [|done..]. by intros [= _ <-]. Qed.
Lemma keeps_get_srv : keeps get_srv.
Proof. intros w b w' Hok [= _ <-]. done. Qed.
Lemma keeps_on_io {A} (m : ST io A) : keeps (on_io m).
Proof.
  intros w b w' Hok. unfold on_io. destruct (m (w_io w)) as [[? ?]| | |]; [|done..].
  by intros [= _ <-].
Qed.
Lemma keeps_at_on_io {A} c (m : ST io A) : keeps_at c (on_io m).
Proof.
  intros w b w' Hok Hal. unfold on_io. destruct (m (w_io w)) as [[? ?]| | |]; [|done..].
  by intros [= _ <-].
Qed.

Lemma keeps_at_set_client c cl : keeps_at c (set_client c cl).
Proof.
  intros w b w' (Hnd & Hdom & Hn) Hal [= _ <-]. split; [split; [done|split; [|done]]|].
  - intros x. cbn. rewrite Hdom. destruct (decide (c = x)) as [<-|Hne].
    + rewrite lookup_insert_eq. by split; intros _.
    + by rewrite lookup_insert_ne.
  - unfold alloc. cbn. rewrite lookup_insert_eq. by eexists.
Qed.

Lemma keeps_remove c : keeps (server_remove_client c).
Proof.
  intros w b w' Hok E. destruct (decide (c ∈ clients (w_srv w))) as [Hc|Hc].
  - destruct (srv_ok_lookup w c Hok Hc) as [cl Hcl].
    rewrite (server_remove_client_ok w c cl Hc Hcl) in E. injection E as _ <-.
    destruct (list_elem_of_split _ _ Hc) as (l1 & l2 & Hl).
    by destruct (removed_ok w c cl l1 l2 Hok Hl).
  - rewrite server_remove_client_absent in E by done. by injection E as _ <-.
Qed.

Lemma keeps_add_client : keeps server_add_client.
Proof.
  intros w b w' (Hnd & Hdom & Hn) E. apply st_bind_inv in E as (s & w1 & [= <- <-] & E).
  apply st_bind_inv in E as (fd & w1 & E1 & [= _ <-]).
  set (c := fresh (dom (client_heap (w_srv w))) : ptr).
  assert (client_heap (w_srv w) !! c = None) as Hc by apply not_elem_of_dom, is_fresh.
  unfold srv_ok. cbn. split; [|split].
  - apply NoDup_cons. split; [|done]. rewrite Hdom, Hc. by intros [? ?].
  - intros x. rewrite elem_of_cons, Hdom. destruct (decide (c = x)) as [<-|Hne].
    + rewrite lookup_insert_eq. split; [by eexists|by left].
    + rewrite lookup_insert_ne by done. split; [intros [?|?]; [congruence|done]|by right].
  - rewrite Hn, i32_add_i32. f_equal. unfold zlen. cbn. lia.
Qed.
End Invariant.

#[export] Hint Resolve keeps_ret keeps_at_ret keeps_lift keeps_at_lift keeps_get_srv keeps_on_io
  keeps_at_on_io keeps_at_set_client keeps_remove keeps_add_client keeps_at_get_client : keeps.
#[export] Hint Resolve keeps_at_ends keeps_ends | 5 : keeps.

(** Decompose a program along its binds and case distinctions. *)
Ltac keeps_step :=
  match goal with
  | |- forall _, _ => intro
  | |- keeps (get_client _ ≫= _) => apply keeps_get_client
  | |- keeps (_ ≫= _) => apply keeps_bind
  | |- keeps_at _ (_ ≫= _) => apply keeps_at_bind
  | |- ends_at _ (_ ≫= _) => apply ends_at_bind
  | |- _ (match ?x with _ => _ end) => destruct x
  | |- _ _ (match ?x with _ => _ end) => destruct x
  | |- _ => progress auto 2 with keeps
  end.

Section RoundInvariant.
Context {N : Type} (cb : callback N).

(** The callback may change client structures (mark clients), not the list. *)
Hypothesis cb_keeps : forall c p, keeps_at c (cb c p).

Lemma client_input_keeps fd c : keeps (client_input cb fd c).
Proof using cb_keeps.
  unfold client_input, recv_block, client_decode_hdr, client_decode_body, server_deliver_packet.
  repeat keeps_step.
Qed.

Lemma serve_loop_keeps fuel fds revents i c : keeps (serve_loop cb fuel fds revents i c).
Proof using cb_keeps.
  revert i c. induction fuel as [|fuel IH]; intros i [c|]; cbn [serve_loop];
    repeat first [apply client_input_keeps | apply IH | keeps_step].
Qed.

Lemma client_fds_same n cs (w : world N) fds w' : client_fds n cs w = Ok (fds, w') -> w' = w.
Proof.
  revert cs fds. induction n as [|n IH]; intros cs fds; cbn; [by intros [= _ <-]|].
  destruct cs as [|c cs]; [by intros [= _ <-]|].
  intros (cl & w1 & E1 & (fds' & w2 & E2 & [= _ <-])%st_bind_inv)%st_bind_inv.
  unfold get_client in E1. destruct (_ !! c); [|done]. injection E1 as _ <-. by eapply IH.
Qed.

Lemma unmarked_add_client (w : world N) a w' :
  unmarked (w_srv w) -> server_add_client w = Ok (a, w') -> unmarked (w_srv w').
Proof.
  intros Hu E. apply st_bind_inv in E as (s & w1 & [= <- <-] & E).
  apply st_bind_inv in E as (fd & w1 & _ & [= _ <-]). intros c. unfold marked. cbn.
  match goal with |- context [<[?p := _]> _] => destruct (decide (p = c)) as [<-|Hne] end.
  - by rewrite lookup_insert_eq.
  - rewrite lookup_insert_ne by done. apply Hu.
Qed.

(** One round of [poll], whatever it reports, whatever the clients send and
    whatever the callback marks: the client list stays well formed and no
    marked client is left. *)
Lemma server_round_ok (w : world N) b w' :
  srv_ok (w_srv w) -> unmarked (w_srv w) -> server_round cb w = Ok (b, w') ->
  srv_ok (w_srv w') /\ unmarked (w_srv w').
Proof using cb_keeps.
  intros Hok Hu E. apply st_bind_inv in E as (s & w1 & [= <- <-] & E).
  apply st_bind_inv in E as (fds & w1 & ->%client_fds_same & E).
  apply st_bind_inv in E as ([ready revents] & w1 & E1 & E).
  assert (w_srv w1 = w_srv w) as Hs.
  { unfold on_io in E1. destruct (sys_poll (w_io w)) as [[? ?]| | |]; [|done..].
    by injection E1 as _ <-. }
  destruct (ready <? 0); [injection E as _ <-; by rewrite Hs|].
  destruct (0 <? ready); [|injection E as _ <-; by rewrite Hs].
  destruct (default false (revents !! 0%nat)); [injection E as _ <-; by rewrite Hs|].
  apply st_bind_inv in E as ([] & w2 & E2 & E).
  assert (srv_ok (w_srv w2)) as Hok2.
  { eapply serve_loop_keeps; [|exact E2]. by rewrite Hs. }
  apply st_bind_inv in E as (s & w2' & [= <- <-] & E).
  destruct (reap_loop_spec w2 (length (clients (w_srv w2))) [] (clients (w_srv w2)) Hok2)
    as (w3 & E3 & Hok3 & Hcl3 & Hheap & _); [done|lia|].
  assert (unmarked (w_srv w3)) as Hu3.
  { intros c. unfold marked. destruct (client_heap (w_srv w3) !! c) eqn:Ec; [|done].
    assert (c ∈ clients (w_srv w3)) as Hc by (apply Hok3; by eexists).
    rewrite (Hheap c Hc) in Ec. rewrite Hcl3 in Hc. cbn in Hc.
    apply list_elem_of_filter in Hc as [Hm _]. unfold marked in Hm. by rewrite Ec in Hm. }
  apply st_bind_inv in E as ([] & w3' & E3' & E). rewrite E3 in E3'. injection E3' as <-.
  apply st_bind_inv in E as ([] & w4 & E4 & [= _ <-]).
  destruct (default false (revents !! 1%nat)).
  - split; [by eapply keeps_add_client|by eapply unmarked_add_client].
  - by injection E4 as <-.
Qed.

Lemma server_loop_ok fuel (w : world N) a w' :
  srv_ok (w_srv w) -> unmarked (w_srv w) -> server_loop cb fuel w = Ok (a, w') ->
  srv_ok (w_srv w') /\ unmarked (w_srv w').
Proof using cb_keeps.
  revert w. induction fuel as [|fuel IH]; intros w Hok Hu E; cbn [server_loop] in E;
    apply st_bind_inv in E as (s & w1 & [= <- <-] & E); destruct (active (w_srv w));
    try (by injection E as _ <-); try done.
  apply st_bind_inv in E as (b & w1 & E1 & E).
  destruct (server_round_ok w b w1 Hok Hu E1) as [Hok1 Hu1].
  destruct b; [by eapply (IH w1)|by injection E as _ <-].
Qed.
End RoundInvariant.

(** ** Properties *)

(** C8. Framing: however the transport cuts a packet into chunks, and however
    many rounds of the loop that takes (at most one per byte), the first thing
    that happens to the client besides buffering is one delivery, of exactly
    the packet that the two decoders make of the seven header bytes and the
    announced number of body bytes; nothing else in the server changes, what
    follows the packet stays unread, and the client is ready for the next. *)
Theorem packet_reassembly {N} (cb : callback N) w fd c cl cs rest h body p q :
  points_to w c cl -> collecting cl [] ->
  script (w_io w) = chunks cs ++ rest -> Forall (fun x => x <> []) cs ->
  concat cs = h ++ body -> zlen h = 7 -> packet_decode_hdr (cells h) 7 = Ok (Some p) ->
  zlen body = packet_body_size p -> 0 < packet_body_size p < 2 ^ 31 ->
  packet_decode_body p (cells body) (zlen body) = Ok q ->
  exists n w' cl', client_inputs cb n fd c w = server_deliver_packet cb c w' /\
    (n <= length (h ++ body))%nat /\
    w' = with_client c cl' (with_io (mkIo rest (trace (w_io w))) w) /\
    c_socket cl' = c_socket cl /\ pack cl' = q /\ pkt_buf cl' = None /\ collecting cl' [].
Proof.
  intros Hp Hcol Hw Hne Hcat Hh Hdh Hl Hb Hd.
  destruct (header_run cb w fd c cl [] cs rest h body p q) as (n & w' & E & Hn & cl' & D);
    try done.
  exists n, w', cl'. by rewrite <- Hcat.
Qed.

(** A fresh connection and a callback that keeps the client. *)
Definition one_client (fd : Z) : server :=
  mkServer 3 1 true [1%positive]
    {[ 1%positive := mkClient fd IDLE (rb_new PKT_HEADER_LEN) None None ]}.

Lemma one_client_ok fd : srv_ok (one_client fd).
Proof.
  split; [apply NoDup_singleton|]. split; [|done]. intros c. cbn.
  rewrite list_elem_of_singleton. destruct (decide (c = 1%positive)) as [->|Hne].
  - rewrite lookup_singleton_eq. split; [by eexists|done].
  - rewrite lookup_singleton_ne by done. split; [done|by intros [? ?]].
Qed.

Lemma packet_reassembly_witness :
  let w := mkWorld (one_client 9) tt
             (mkIo (chunks [[2; 0; 1]; [0; 0; 0; 2; 65; 66]; [67]] ++ [ASend 5]) []) in
  let cb : callback unit := fun _ _ => mret CB_OK in
  exists n w' cl', client_inputs cb n 9 1%positive w = server_deliver_packet cb 1%positive w' /\
    (n <= 10)%nat /\ w' = with_client 1%positive cl' (with_io (mkIo [ASend 5] []) w) /\
    c_socket cl' = 9 /\ pack cl' = Some (data_packet 2 [65] [66; 67]) /\ pkt_buf cl' = None /\
    collecting cl' [].
Proof.
  intros w cb.
  apply (packet_reassembly cb w 9 1%positive (mkClient 9 IDLE (rb_new PKT_HEADER_LEN) None None)
           [[2; 0; 1]; [0; 0; 0; 2; 65; 66]; [67]] [ASend 5] [2; 0; 1; 0; 0; 0; 2] [65; 66; 67]
           (mkPacket 2 1 2 None None 0 0 0 0)).
  - reflexivity.
  - destruct (rb_new_ok 7) as (H1 & H2 & H3); [split; [discriminate|reflexivity]|].
    split; [reflexivity|]. split; [exact H1|]. split; [exact H2|]. split; [exact H3|reflexivity].
  - reflexivity.
  - repeat (apply List.Forall_cons; [discriminate|]). apply List.Forall_nil.
  - reflexivity.
  - reflexivity.
  - vm_compute. reflexivity.
  - vm_compute. reflexivity.
  - split; vm_compute; reflexivity.
  - vm_compute. reflexivity.
Defined.

(** C27. A packet without a body takes the server down: however the seven bytes
    of a header that announces an empty key and an empty value arrive, they are
    taken without an error, and then the client's next turn, whatever has
    arrived, sizes a stack array by the room in the empty body buffer, and an
    array of no elements is undefined behaviour.  The packet is never
    delivered. *)
Theorem empty_body_ub {N} (cb : callback N) (w : world N) fd c cl cs rest h p :
  points_to w c cl -> collecting cl [] ->
  script (w_io w) = chunks cs ++ rest -> Forall (fun x => x <> []) cs -> concat cs = h ->
  zlen h = 7 -> packet_decode_hdr (cells h) 7 = Ok (Some p) -> packet_body_size p = 0 ->
  exists n w', client_inputs cb n fd c w = Ok (tt, w') /\ (n <= 7)%nat /\
    script (w_io w') = rest /\ trace (w_io w') = trace (w_io w) /\ w_node w' = w_node w /\
    client_input cb fd c w' = Ub.
Proof.
  intros Hp Hcol Hw Hne Hcat Hh Hdh Hz.
  destruct (header_collected cb w fd c cl [] cs rest h p) as (n & cl' & E & Hn & _ & Hin);
    try done; [rewrite Hz; lia|].
  eexists n, _. split; [exact E|]. split; [rewrite Hcat in Hn; unfold zlen in Hh; lia|].
  split; [done|]. split; [done|]. split; [done|].
  by apply (no_body_ub cb _ fd c cl' p); [apply points_to_with_client|..].
Qed.

Lemma empty_body_ub_witness :
  let cb : callback unit := fun _ _ => mret CB_OK in
  let w := mkWorld (one_client 9) tt
             (mkIo (chunks [[4; 0; 0]; [0; 0; 0; 0]] ++ [ARecv (Some [1; 2])]) []) in
  exists n w', client_inputs cb n 9 1%positive w = Ok (tt, w') /\ (n <= 7)%nat /\
    script (w_io w') = [ARecv (Some [1; 2])] /\ trace (w_io w') = [] /\ w_node w' = tt /\
    client_input cb 9 1%positive w' = Ub.
Proof.
  intros cb w.
  apply (empty_body_ub cb w 9 1%positive (mkClient 9 IDLE (rb_new PKT_HEADER_LEN) None None)
           [[4; 0; 0]; [0; 0; 0; 0]] [ARecv (Some [1; 2])] [4; 0; 0; 0; 0; 0; 0]
           (mkPacket 4 0 0 None None 0 0 0 0)).
  - reflexivity.
  - destruct (rb_new_ok 7) as (H1 & H2 & H3); [split; [discriminate|reflexivity]|].
    split; [reflexivity|]. split; [exact H1|]. split; [exact H2|]. split; [exact H3|reflexivity].
  - reflexivity.
  - repeat (apply List.Forall_cons; [discriminate|]). apply List.Forall_nil.
  - reflexivity.
  - reflexivity.
  - vm_compute. reflexivity.
  - reflexivity.
Defined.

(** C28. Input that crashes the loop: a client that was marked for removal
    earlier in the same round (its answer was proxied) and is readable itself
    has no packet buffer, which is dereferenced; and a client that announced a
    body of [2^31] bytes or more makes the size of a stack array negative. *)
Theorem client_input_ub {N} (cb : callback N) (w : world N) fd c cl :
  points_to w c cl -> state cl <> IDLE ->
  pkt_buf cl = None \/
  (exists p, in_body cl p [] /\ 2 ^ 31 <= packet_body_size p < 2 ^ 32) ->
  client_input cb fd c w = Ub.
Proof.
  intros Hp Hst H. unfold client_input. erewrite st_bind_Ok by (by apply get_client_ok).
  rewrite decide_False by done. destruct H as [->|(p & Hin & Hb)]; [done|].
  destruct Hin as (_ & _ & _ & _ & _ & pb & -> & Hok & Hcap & Hc).
  destruct (rb_free_space pb [] Hok Hc) as [Hw _].
  erewrite st_bind_Ok by (by apply st_lift_Ok). rewrite Hw, Hcap.
  change (zlen []) with 0. rewrite Z.sub_0_r.
  assert (i32 (packet_body_size p) < 0) as Hneg by (unfold i32; zlia).
  unfold recv_block, mbind, st_bind.
  by rewrite (proj2 (Z.leb_le _ _) (Z.lt_le_incl _ _ Hneg)).
Qed.

Lemma client_input_ub_witness :
  let cb : callback unit := fun _ _ => mret CB_OK in
  let cl := mkClient 9 REMOVE (rb_new 7) None None in
  let w := mkWorld (mkServer 3 1 true [1%positive] {[ 1%positive := cl ]}) tt (mkIo [] []) in
  client_input cb 9 1%positive w = Ub.
Proof.
  intros cb cl w. apply (client_input_ub cb w 9 1%positive cl).
  - reflexivity.
  - discriminate.
  - left. reflexivity.
Defined.

(** Shutting down: whatever clients are connected, the loop terminates,
    closes every client's socket once, in list order, and leaves no client
    structure behind. *)
Theorem server_stop_closes_all {N} (w : world N) :
  srv_ok (w_srv w) ->
  exists w', server_stop w = Ok (tt, w') /\ clients (w_srv w') = [] /\
    client_heap (w_srv w') = ∅ /\ n_clients (w_srv w') = 0 /\
    trace (w_io w') = trace (w_io w) ++ closes (w_srv w) (clients (w_srv w)) /\
    script (w_io w') = script (w_io w) /\ w_node w' = w_node w.
Proof. intros Hok. unfold server_stop. erewrite st_bind_Ok by done. by apply stop_loop_spec. Qed.

Lemma server_stop_closes_all_witness :
  let w := mkWorld (one_client 9) tt (mkIo [] []) in
  exists w', server_stop w = Ok (tt, w') /\ clients (w_srv w') = [] /\
    client_heap (w_srv w') = ∅ /\ n_clients (w_srv w') = 0 /\
    trace (w_io w') = [EClose 9] /\ script (w_io w') = [] /\ w_node w' = tt.
Proof.
  apply (server_stop_closes_all (mkWorld (one_client 9) tt (mkIo [] []))). apply one_client_ok.
Defined.

(** The invariant of the [poll] loop: for a callback that may change client
    structures but not the list, any number of rounds, with any answers of the
    system and any input, keeps the client list well formed (distinct, exactly
    the allocated structures, counted by [n_clients]), and after each round no
    client marked for removal is left. *)
Theorem server_loop_invariant {N} (cb : callback N) fuel (w : world N) w' :
  (forall c p, keeps_at c (cb c p)) ->
  srv_ok (w_srv w) -> unmarked (w_srv w) -> server_loop cb fuel w = Ok (tt, w') ->
  srv_ok (w_srv w') /\ unmarked (w_srv w').
Proof. intros Hcb Hok Hu E. exact (server_loop_ok cb Hcb fuel w tt w' Hok Hu E). Qed.

Lemma server_loop_invariant_witness :
  let cb : callback unit := fun _ _ => mret CB_OK in
  let w := mkWorld (one_client 9) tt
             (mkIo [APoll 1 [false; true; true]; ARecv (Some [2; 0]); AAccept 11;
                    APoll 1 [true]] []) in
  exists w', server_loop cb 2 w = Ok (tt, w') /\ length (clients (w_srv w')) = 2%nat /\
    srv_ok (w_srv w') /\ unmarked (w_srv w').
Proof.
  intros cb w.
  destruct (server_loop cb 2 w) as [[[] w']| | |] eqn:E;
    [|exfalso; vm_compute in E; discriminate E..].
  exists w'. split; [reflexivity|]. split.
  - vm_compute in E. injection E as <-. reflexivity.
  - apply (server_loop_invariant cb 2 w w'); [|apply one_client_ok| |exact E].
    + intros c p. apply keeps_at_ret.
    + intros c. unfold marked. cbn. destruct (decide (c = 1%positive)) as [->|Hne].
      * reflexivity.
      * rewrite lookup_singleton_ne by (intros <-; by apply Hne). reflexivity.
Defined.
