(* ===== verification/ServerRun.v ===== *)
(** * ServerRun: the poll loop always gets on

    Every loop of [server.c] has a bound that is computed when it starts.  This
    file shows that the bounds are never reached, whatever the environment
    answers: the server returns, waits for the environment, or does something
    undefined (see [client_input_ub]); it never spins. *)

From stdpp Require Import base tactics list numbers option gmap.
From S2P Require Import Prelude Packet RingBuffer Sys KeyTable Server.

(** ** Computations without effects *)

(** [m] does not run out of fuel. *)
Definition fuel_free {A} (m : res A) : Prop := m <> NoFuel.

Create HintDb fuel.

Lemma fuel_free_bind {A B} (m : res A) (f : A -> res B) :
  fuel_free m -> (forall a, m = Ok a -> fuel_free (f a)) -> fuel_free (m ≫= f).
Proof. intros Hm Hf. destruct m; cbn; [by apply Hf|done..]. Qed.
Lemma fuel_free_Ok {A} (a : A) : fuel_free (Ok a).
Proof. done. Qed.
Lemma fuel_free_Ub {A} : fuel_free (@Ub A).
Proof. done. Qed.
Lemma fuel_free_load m i : fuel_free (load m i).
Proof. unfold load. destruct (0 <=? i); [|done]. by destruct (m !! _) as [[b|]|]. Qed.
Lemma fuel_free_deref {A} (o : option A) : fuel_free (deref o).
Proof. by destruct o. Qed.
Lemma fuel_free_load_cell m i : fuel_free (load_cell m i).
Proof. unfold load_cell. destruct (0 <=? i); [|done]. apply fuel_free_deref. Qed.
Lemma fuel_free_store_cell m i c : fuel_free (store_cell m i c).
Proof. unfold store_cell. by destruct (_ && _). Qed.
Lemma fuel_free_load_block m off n : fuel_free (load_block m off n).
Proof. unfold load_block. by destruct (_ && _). Qed.
Lemma fuel_free_rb_next rb pos : fuel_free (rb_next rb pos).
Proof. unfold rb_next. by destruct (_ =? _). Qed.

#[export] Hint Resolve fuel_free_Ok fuel_free_Ub fuel_free_load fuel_free_deref
  fuel_free_load_cell fuel_free_store_cell fuel_free_load_block fuel_free_rb_next : fuel.

(** Decompose along binds and case distinctions. *)
Ltac fuel_step :=
  match goal with
  | |- forall _, _ => intro
  | |- fuel_free (_ ≫= _) => apply fuel_free_bind
  | |- fuel_free (match ?x with _ => _ end) => destruct x
  | |- _ => progress auto 2 with fuel
  end.

Lemma fuel_free_decode_hdr buffer n : fuel_free (packet_decode_hdr buffer n).
Proof. unfold packet_decode_hdr. repeat fuel_step. Qed.

Lemma fuel_free_decode_body p buffer n : fuel_free (packet_decode_body p buffer n).
Proof. unfold packet_decode_body. cbv zeta. repeat fuel_step. Qed.

(** The loops of the ring buffer turn at most [n] times. *)
Lemma fuel_free_rb_write_loop fuel avail n i src rb :
  avail < 2 ^ 64 -> 0 <= i -> n - i <= Z.of_nat fuel ->
  fuel_free (rb_write_loop fuel avail n i src rb).
Proof.
  intros Ha. revert i rb. induction fuel as [|fuel IH]; intros i rb Hi Hf; cbn [rb_write_loop];
    destruct (Z.ltb_spec i avail), (Z.ltb_spec i n); cbn [andb]; try done; [lia|].
  repeat (apply fuel_free_bind; [auto with fuel|intros]).
  apply IH; rewrite u64_small; lia.
Qed.

Lemma fuel_free_rb_read_loop fuel avail n i dst rb :
  avail < 2 ^ 64 -> 0 <= i -> n - i <= Z.of_nat fuel ->
  fuel_free (rb_read_loop fuel avail n i dst rb).
Proof.
  intros Ha. revert i dst rb.
  induction fuel as [|fuel IH]; intros i dst rb Hi Hf; cbn [rb_read_loop];
    destruct (Z.ltb_spec i avail), (Z.ltb_spec i n); cbn [andb]; try done; [lia|].
  repeat (apply fuel_free_bind; [auto with fuel|intros]).
  apply IH; rewrite u64_small; lia.
Qed.

Lemma rb_can_read_lt rb : rb_can_read rb < 2 ^ 64.
Proof. unfold rb_can_read. destruct (_ <=? _); apply u64_range. Qed.
Lemma rb_can_write_lt rb : rb_can_write rb < 2 ^ 64.
Proof. unfold rb_can_write. destruct (_ <? _); apply u64_range. Qed.

Lemma fuel_free_rb_write rb src n : fuel_free (rb_write rb src n).
Proof.
  apply fuel_free_bind; [|done]. apply fuel_free_rb_write_loop; [apply rb_can_write_lt|lia..].
Qed.
Lemma fuel_free_rb_read rb dst n : fuel_free (rb_read rb dst n).
Proof.
  apply fuel_free_bind; [|by intros [? ?]].
  apply fuel_free_rb_read_loop; [apply rb_can_read_lt|lia..].
Qed.

#[export] Hint Resolve fuel_free_decode_hdr fuel_free_decode_body fuel_free_rb_write
  fuel_free_rb_read : fuel.

(** ** The operating system *)

(** [m] takes answers from the script, it does not add any. *)
Definition takes {A} (m : ST io A) : Prop := forall i,
  match m i with
  | Ok (_, i') => (length (script i') <= length (script i))%nat
  | NoFuel => False
  | _ => True
  end.

Lemma takes_recv fd n : takes (sys_recv fd n).
Proof.
  intros i. unfold sys_recv. destruct (n <=? 0); [done|]. destruct (script i) as [|a sc] eqn:E; [done|].
  destruct a; try done. destruct r as [bs|]; cbn; rewrite ?E; cbn; [|lia].
  destruct (zlen bs <=? _); cbn; rewrite ?E; cbn; lia.
Qed.
Lemma takes_close fd : takes (sys_close fd).
Proof. intros i. cbn. lia. Qed.
Lemma takes_accept fd : takes (sys_accept fd).
Proof.
  intros i. unfold sys_accept. destruct (script i) as [|a sc] eqn:E; [done|].
  destruct a; try done. cbn. rewrite E. cbn. lia.
Qed.
#[export] Hint Resolve takes_recv takes_close takes_accept : fuel.

(** ** The server *)

Section Run.
Context {N : Type} (J : N -> Prop) (K : option packet -> Prop).
Implicit Types (w : world N) (c : ptr).

(** The node's invariant [J], and the invariant [K] of the packets the clients are
    sending. *)
Definition settled w : Prop :=
  J (w_node w) /\ forall c cl, client_heap (w_srv w) !! c = Some cl -> K (pack cl).

(** [m] does not run out of fuel, keeps the two invariants, lets the list of
    clients alone ([calm]) or may take [c] out of it ([drops c]), and adds nothing
    to the script. *)
Definition settles {A} (P : list ptr -> list ptr -> Prop) (m : ST (world N) A) : Prop :=
  forall w, settled w ->
  match m w with
  | Ok (_, w') =>
      settled w' /\ P (clients (w_srv w)) (clients (w_srv w')) /\
      (length (script (w_io w')) <= length (script (w_io w)))%nat
  | NoFuel => False
  | _ => True
  end.

Definition calm {A} : ST (world N) A -> Prop := settles (fun cs cs' => cs' = cs).
Definition drops {A} c : ST (world N) A -> Prop :=
  settles (fun cs cs' => cs' = cs \/ cs' = filter (fun x => x <> c) cs).

Lemma settles_bind {A B} (P Q R : list ptr -> list ptr -> Prop) (m : ST (world N) A)
    (f : A -> ST (world N) B) :
  (forall x y z, P x y -> Q y z -> R x z) ->
  settles P m -> (forall a, settles Q (f a)) -> settles R (m ≫= f).
Proof.
  intros HPQ Hm Hf w Hw. specialize (Hm w Hw). unfold mbind, st_bind.
  destruct (m w) as [[a w1]| | |]; [|done..]. destruct Hm as (H1 & H2 & H3).
  specialize (Hf a w1 H1). destruct (f a w1) as [[b w2]| | |]; [|done..].
  destruct Hf as (H4 & H5 & H6). split; [done|]. split; [by eapply HPQ|lia].
Qed.

Lemma calm_bind {A B} (m : ST (world N) A) (f : A -> ST (world N) B) :
  calm m -> (forall a, calm (f a)) -> calm (m ≫= f).
Proof. apply settles_bind. congruence. Qed.

Lemma drops_bind {A B} c (m : ST (world N) A) (f : A -> ST (world N) B) :
  calm m -> (forall a, drops c (f a)) -> drops c (m ≫= f).
Proof. apply settles_bind. by intros x y z ->. Qed.

Lemma calm_drops {A} c (m : ST (world N) A) : calm m -> drops c m.
Proof.
  intros Hm w Hw. specialize (Hm w Hw). destruct (m w) as [[a w1]| | |]; [|done..]. naive_solver.
Qed.

Lemma calm_ret {A} (a : A) : calm (mret a).
Proof. intros w Hw. by split_and!. Qed.
Lemma calm_lift {A} (m : res A) : fuel_free m -> calm (st_lift m).
Proof. intros Hm w Hw. unfold st_lift. destruct m; [by split_and!|done..]. Qed.
Lemma calm_get_srv : calm get_srv.
Proof. intros w Hw. by split_and!. Qed.
Lemma calm_get_client c : calm (get_client c).
Proof. intros w Hw. unfold get_client. destruct (_ !! c); [by split_and!|done]. Qed.
Lemma calm_set_client c cl : K (pack cl) -> calm (set_client c cl).
Proof.
  intros Hk w [Hj Hw]. cbn. split; [|done]. split; [exact Hj|]. intros x clx. cbn.
  intros [[<- <-]|[_ E]]%lookup_insert_Some; [done|by eapply Hw].
Qed.
Lemma calm_on_io {A} (m : ST io A) : takes m -> calm (on_io m).
Proof.
  intros Hm w Hw. specialize (Hm (w_io w)). unfold on_io.
  destruct (m (w_io w)) as [[a i]| | |]; [|done..]. by split_and!.
Qed.

(** What is known of a value that was read. *)
Lemma settles_lift_bind {A B} P (m : res A) (f : A -> ST (world N) B) :
  fuel_free m -> (forall a, m = Ok a -> settles P (f a)) -> settles P (st_lift m ≫= f).
Proof.
  intros Hm Hf w Hw. unfold mbind, st_bind, st_lift. destruct m; [by apply Hf|done..].
Qed.
Lemma settles_get_client_bind {B} P c (f : client -> ST (world N) B) :
  (forall cl, K (pack cl) -> settles P (f cl)) -> settles P (get_client c ≫= f).
Proof.
  intros Hf w Hw. unfold mbind, st_bind, get_client.
  destruct (_ !! c) as [cl|] eqn:E; [|done]. apply Hf; [|done]. destruct Hw as [_ Hk].
  by eapply Hk.
Qed.

Lemma calm_get_client_bind {B} c (f : client -> ST (world N) B) :
  (forall cl, K (pack cl) -> calm (f cl)) -> calm (get_client c ≫= f).
Proof. apply settles_get_client_bind. Qed.
Lemma drops_get_client_bind {B} x c (f : client -> ST (world N) B) :
  (forall cl, K (pack cl) -> drops x (f cl)) -> drops x (get_client c ≫= f).
Proof. apply settles_get_client_bind. Qed.
Lemma calm_lift_bind {A B} (m : res A) (f : A -> ST (world N) B) :
  fuel_free m -> (forall a, m = Ok a -> calm (f a)) -> calm (st_lift m ≫= f).
Proof. apply settles_lift_bind. Qed.

Lemma drops_remove c : drops c (server_remove_client c).
Proof.
  intros w Hw. unfold server_remove_client, mbind, st_bind, get_srv.
  destruct (bool_decide _); [|split_and!; [done|by left|lia]].
  unfold get_client. destruct (_ !! c); [|done]. cbn. split; [|split; [by right|lia]].
  destruct Hw as [Hj Hk]. split; [done|]. intros x cl. cbn.
  intros [_ E]%lookup_delete_Some. by eapply Hk.
Qed.
End Run.

#[export] Hint Resolve calm_ret calm_lift calm_get_srv calm_get_client calm_set_client calm_on_io
  drops_remove : fuel.
#[export] Hint Resolve calm_drops | 5 : fuel.

Ltac calm_step :=
  match goal with
  | |- forall _, _ => intro
  | |- calm _ _ (get_client _ ≫= _) => apply calm_get_client_bind
  | |- drops _ _ _ (get_client _ ≫= _) => apply drops_get_client_bind
  | |- calm _ _ (_ ≫= _) => apply calm_bind
  | |- drops _ _ _ (_ ≫= _) => apply drops_bind
  | |- _ (match ?x with _ => _ end) => destruct x
  | |- _ _ (match ?x with _ => _ end) => destruct x
  | |- _ _ _ (match ?x with _ => _ end) => destruct x
  | |- _ _ _ _ (match ?x with _ => _ end) => destruct x
  | |- _ => progress auto 4 with fuel
  end.

Section Loop.
Context {N : Type} (J : N -> Prop) (K : option packet -> Prop) (cb : callback N).
(** The callback gets on, keeps its own invariant, and marks clients rather
    than removing them; what the decoders make has the invariant of packets. *)
Hypothesis cb_keeps : forall c p, keeps_at c (cb c p).
Hypothesis cb_calm : forall c p, K p -> calm J K (cb c p).
Hypothesis no_packet : K None.
Hypothesis hdr_packet : forall buffer n p, packet_decode_hdr buffer n = Ok p -> K p.
Hypothesis body_packet : forall p buffer n p',
  K (Some p) -> packet_decode_body p buffer n = Ok p' -> K p'.
Implicit Types (w : world N) (c : ptr).

Lemma decode_hdr_calm c : calm J K (client_decode_hdr c).
Proof using hdr_packet.
  apply calm_get_client_bind. intros cl Hcl. apply calm_bind; [auto with fuel|].
  intros [[? hdr] hb]. apply calm_lift_bind; [auto with fuel|]. intros pk E.
  apply calm_bind; [auto with fuel|]. intros p. apply calm_set_client. by eapply hdr_packet.
Qed.

Lemma decode_body_calm c : calm J K (client_decode_body c).
Proof using body_packet.
  apply calm_get_client_bind. intros cl Hcl. apply calm_bind; [auto with fuel|].
  intros pb. apply calm_bind; [auto with fuel|]. intros [[? buffer] ?].
  destruct (pack cl) as [p0|]; [|by intros w Hw]. apply calm_lift_bind; [done|].
  intros p [= <-]. apply calm_lift_bind; [auto with fuel|]. intros pk E.
  apply calm_set_client. by eapply body_packet.
Qed.

Lemma deliver_drops c : drops J K c (server_deliver_packet cb c).
Proof using cb_calm.
  apply drops_get_client_bind. intros cl Hcl. apply drops_bind; [by apply cb_calm|].
  repeat calm_step.
Qed.

Lemma client_input_drops fd c : drops J K c (client_input cb fd c).
Proof using cb_calm hdr_packet body_packet.
  unfold client_input, recv_block.
  repeat first [apply calm_drops, decode_hdr_calm | apply decode_body_calm | apply deliver_drops
    | calm_step].
Qed.

(** The walk over the clients: [b] are still to come. *)
Lemma serve_loop_settles fds revents : forall b fuel i a w,
  srv_ok (w_srv w) -> settled J K w -> clients (w_srv w) = a ++ b -> (length b <= fuel)%nat ->
  match serve_loop cb fuel fds revents i (head b) w with
  | Ok (_, w') => settled J K w' /\ (length (script (w_io w')) <= length (script (w_io w)))%nat
  | NoFuel => False
  | _ => True
  end.
Proof using cb_keeps cb_calm no_packet hdr_packet body_packet.
  induction b as [|c b IH]; intros fuel i a w Hok Hw Hcs Hf.
  - destruct fuel; cbn; (split; [done|lia]).
  - destruct fuel as [|fuel]; [cbn in Hf; lia|]. cbn [head serve_loop].
    erewrite st_bind_Ok by done. destruct (_ <? _); [|cbn; split; [done|lia]].
    assert (NoDup (a ++ c :: b)) as Hnd by (rewrite <- Hcs; apply Hok).
    rewrite Hcs, next_of_middle by done. cbv zeta.
    match goal with |- context [(?m ≫= _) w] => set (inp := m) end.
    assert (keeps inp) as Hkeep.
    { unfold inp. destruct (default false _); [by apply client_input_keeps|apply keeps_ret]. }
    assert (drops J K c inp) as Hdrop.
    { unfold inp. destruct (default false _); [apply client_input_drops|auto 4 with fuel]. }
    specialize (Hdrop w Hw). specialize (Hkeep w). unfold mbind, st_bind.
    destruct (inp w) as [[[] w1]| | |]; [|done..]. destruct Hdrop as (H1 & H2 & H3).
    pose proof (Hkeep tt w1 Hok eq_refl) as Hok1.
    assert (exists a', clients (w_srv w1) = a' ++ b) as [a' Ha'].
    { rewrite Hcs in H2. destruct H2 as [-> | ->]; [by exists (a ++ [c]); rewrite <- app_assoc|].
      rewrite filter_ne_middle by done. by exists a. }
    specialize (IH fuel (S i) a' w1 Hok1 H1 Ha' ltac:(cbn in Hf; lia)).
    destruct (serve_loop _ _ _ _ _ _ w1) as [[[] w2]| | |]; [|done..].
    destruct IH. split; [done|lia].
Qed.

Lemma client_fds_settles n cs w :
  match client_fds n cs w with Ok (_, w') => w' = w | NoFuel => False | _ => True end.
Proof.
  revert cs. induction n as [|n IH]; intros cs; [done|]. destruct cs as [|c cs]; [done|].
  cbn [client_fds]. unfold mbind, st_bind, get_client. destruct (_ !! c); [|done].
  specialize (IH cs). destruct (client_fds n cs w) as [[fds w1]| | |]; done.
Qed.

(** One round takes at least the answer of [poll]. *)
Lemma server_round_settles w :
  srv_ok (w_srv w) -> settled J K w ->
  match server_round cb w with
  | Ok (_, w') => settled J K w' /\ (length (script (w_io w')) < length (script (w_io w)))%nat
  | NoFuel => False
  | _ => True
  end.
Proof using cb_keeps cb_calm no_packet hdr_packet body_packet.
  intros Hok Hw. unfold server_round. erewrite st_bind_Ok by done.
  pose proof (client_fds_settles (Z.to_nat (n_clients (w_srv w))) (clients (w_srv w)) w) as Hfds.
  unfold mbind at 1, st_bind at 1.
  destruct (client_fds _ _ w) as [[fds w0]| | |]; [|done..]. subst w0.
  unfold mbind at 1, st_bind at 1. unfold on_io at 1, sys_poll at 1.
  destruct (script (w_io w)) as [|a sc] eqn:Esc; [done|]. destruct a; try done.
  set (w1 := mkWorld _ _ _).
  assert (length (script (w_io w1)) = length sc) as Hl1 by (cbn; by rewrite Esc).
  destruct (ready <? 0); [cbn [length]; split; [done|unfold mret, st_ret; lia]|].
  destruct (0 <? ready); [|cbn [length]; split; [done|lia]].
  destruct (default false (revents !! 0%nat)); [cbn [length]; split; [done|lia]|].
  pose proof (serve_loop_settles fds revents (clients (w_srv w)) (length (clients (w_srv w)))
    2 [] w1 Hok Hw eq_refl ltac:(lia)) as Hs.
  pose proof (serve_loop_keeps cb cb_keeps (length (clients (w_srv w))) fds revents 2
    (head (clients (w_srv w))) w1) as Hk.
  unfold mbind at 1, st_bind at 1.
  destruct (serve_loop _ _ _ _ _ _ w1) as [[[] w2]| | |]; [|done..]. destruct Hs as [Hw2 Hl2].
  pose proof (Hk tt w2 Hok eq_refl) as Hok2. erewrite st_bind_Ok by done.
  destruct (reap_loop_spec w2 (length (clients (w_srv w2))) [] (clients (w_srv w2)) Hok2)
    as (w3 & E3 & Hok3 & _ & Hh3 & _ & Hs3 & Hn3); [done|lia|].
  rewrite (st_bind_Ok _ _ _ _ _ E3).
  assert (settled J K w3) as Hw3.
  { destruct Hw2 as [Hj Hk2]. split; [by rewrite Hn3|]. intros c cl Hcl. apply (Hk2 c).
    rewrite <- Hh3; [done|]. apply Hok3. by eexists. }
  destruct (default false (revents !! 1%nat));
    [|erewrite st_bind_Ok by done; cbn; rewrite Hs3; cbn in *; split; [done|lia]].
  pose proof (takes_accept (srv_socket (w_srv w3)) (w_io w3)) as Ht.
  unfold server_add_client. unfold mbind, st_bind, get_srv, on_io.
  destruct (sys_accept _ _) as [[fd i]| | |]; [|done..]. cbn.
  rewrite Hs3 in Ht. cbn in *. split; [|lia]. destruct Hw3 as [Hj Hk3]. split; [done|].
  intros c cl. cbn. intros [[_ <-]|[_ E]]%lookup_insert_Some; [done|by eapply Hk3].
Qed.

Lemma server_loop_settles fuel : forall w,
  srv_ok (w_srv w) -> unmarked (w_srv w) -> settled J K w ->
  (length (script (w_io w)) < fuel)%nat ->
  match server_loop cb fuel w with
  | Ok (_, w') => settled J K w' /\ srv_ok (w_srv w')
  | NoFuel => False
  | _ => True
  end.
Proof using cb_keeps cb_calm no_packet hdr_packet body_packet.
  induction fuel as [|fuel IH]; intros w Hok Hu Hw Hf; [lia|]. cbn [server_loop].
  erewrite st_bind_Ok by done. destruct (active (w_srv w)); [|done].
  pose proof (server_round_settles w Hok Hw) as Hr.
  pose proof (server_round_ok cb cb_keeps w) as Hk. unfold mbind, st_bind.
  destruct (server_round cb w) as [[b w1]| | |]; [|done..]. destruct Hr as [Hw1 Hl1].
  destruct (Hk b w1 Hok Hu eq_refl) as [Hok1 Hu1]. destruct b; [|done].
  apply IH; [done..|lia].
Qed.
End Loop.

(** ** The whole run *)

(** The server always gets on: for every behaviour of the environment (any
    connections, any data in any pieces, any failures) and any callback that
    itself gets on, no loop of [server_run] reaches its bound: the client loop
    ends within one pass, each round of the poll loop uses up an answer of
    [poll], and when the server stops it has closed and freed every client. *)
Lemma server_run_terminates {N} (J : N -> Prop) (K : option packet -> Prop) (cb : callback N)
    (w : world N) :
  (forall c p, keeps_at c (cb c p)) -> (forall c p, K p -> calm J K (cb c p)) ->
  K None -> (forall buffer n p, packet_decode_hdr buffer n = Ok p -> K p) ->
  (forall p buffer n p', K (Some p) -> packet_decode_body p buffer n = Ok p' -> K p') ->
  srv_ok (w_srv w) -> unmarked (w_srv w) -> settled J K w ->
  match server_run cb w with
  | Ok (_, w') => clients (w_srv w') = [] /\ client_heap (w_srv w') = ∅ /\ J (w_node w')
  | NoFuel => False
  | _ => True
  end.
Proof.
  intros Hk Hc K1 K2 K3 Hok Hu Hw. unfold server_run. erewrite st_bind_Ok by done.
  unfold mbind at 1, st_bind at 1, on_io at 1, sys_listen.
  destruct (script (w_io w)) as [|a sc] eqn:Esc; [done|]. destruct a; try done.
  erewrite st_bind_Ok by done.
  set (w1 := mkWorld (mkServer _ _ _ _ _) _ _).
  pose proof (server_loop_settles J K cb Hk Hc K1 K2 K3 (S (S (length sc))) w1 Hok Hu Hw) as Hl.
  cbn [length]. unfold mbind, st_bind.
  destruct (server_loop _ _ w1) as [[[] w2]| | |];
    [|done|done|apply Hl; cbn; rewrite Esc; cbn; lia].
  destruct Hl as [Hw2 Hok2]; [cbn; rewrite Esc; cbn; lia|].
  unfold server_stop. erewrite st_bind_Ok by done.
  destruct (stop_loop_spec w2 Hok2) as (w3 & -> & H1 & H2 & _ & _ & _ & ->).
  split; [done|]. split; [done|]. apply Hw2.
Qed.
