(* ===== verification/Peer.v ===== *)
(** * Peer: a node of the ring ([praxis2/src/peer.c])

    The request handlers of a node, over the server of [Server.v], the store,
    the open requests, and the scripted operating system.  The globals [ht],
    [rt], [self], [pred] and [succ] are the node's state.  [handle_packet] is
    the callback the server delivers packets to. *)

From stdpp Require Import base tactics list numbers option gmap strings.
From S2P Require Import Prelude Sys Util Packet RingBuffer Neighbour KeyTable UtHash HashTable.
From S2P Require Import Requests Server.

Section Peer.
Context {T1 T2 : Type} `{KTS1 : KeyTableSpec T1} `{KTS2 : KeyTableSpec T2}.

(** The globals of [peer.c]. *)
Record node : Type := mkNode {
  n_ht : store T1;
  n_rt : rtables T2;
  self : peer;
  pred : peer;
  succ : peer;
}.

Abbreviation W := (world node).

Definition get_node : ST W node := fun w => Ok (w_node w, w).
Definition set_node (n : node) : ST W unit := fun w => Ok (tt, mkWorld (w_srv w) n (w_io w)).

Definition set_ht (s : store T1) : ST W unit :=
  n ← get_node; set_node (mkNode s (n_rt n) (self n) (pred n) (succ n)).
Definition set_rt (t : rtables T2) : ST W unit :=
  n ← get_node; set_node (mkNode (n_ht n) t (self n) (pred n) (succ n)).
Definition set_succ (p : peer) : ST W unit :=
  n ← get_node; set_node (mkNode (n_ht n) (n_rt n) (self n) (pred n) p).

(** The peer is passed by address: its new value is returned with the status. *)
Definition forward (p : peer) (pack : packet) : ST io (Z * peer) :=
  '(serialized_pack, packet_size) ← st_lift (packet_serialize pack);
  '(r, p) ← peer_connect p;
  if r <? 0 then mret (-1, p) else
  r ← sendall (socket p) serialized_pack packet_size;
  if r <? 0 then mret (-1, p) else
  p ← (if has_flag (flags pack) PKT_FLAG_CTRL then peer_disconnect p else mret p);
  mret (0, p).

Definition proxy_request (csocket : Z) (p : packet) (n : peer) : ST io (Z * peer) :=
  '(_, n) ← forward n p;
  '(answer_serial, answer_len) ← recvall (socket n);
  _ ← sendall csocket answer_serial answer_len;
  n ← peer_disconnect n;
  mret (CB_REMOVE_CLIENT, n).

Definition lookup_peer (hash_id : Z) : ST W Z :=
  n ← get_node;
  node_ip ← on_io (peer_get_ip (self n));
  let lkup_packet :=
    mkPacket (Z.lor (Z.lor 0 PKT_FLAG_CTRL) PKT_FLAG_LKUP) 0 0 None None
      hash_id (peer_node_id (self n)) node_ip (port (self n)) in
  '(r, s) ← on_io (forward (succ n) lkup_packet);
  set_succ s;;
  if r <? 0 then mret (-1) else mret 0.

(** The [ack_packet] of a GET. *)
Definition get_ack (s : store T1) (p : packet) : res packet :=
  let fl := Z.lor (Z.lor 0 PKT_FLAG_GET) PKT_FLAG_ACK in
  entry ← htable_get s (key p) (key_len p);
  match entry with
  | None => Ok (mkPacket fl 0 0 None None 0 0 0 0)
  | Some entry =>
      e ← deref (entries s !! entry);
      ekey ← deref (blocks s !! e_key e);
      k ← strncpy ekey (Z.to_nat (e_key_len e));
      evalue ← deref (blocks s !! e_value e);
      v ← strncpy evalue (Z.to_nat (e_value_len e));
      Ok (mkPacket fl (u16 (e_key_len e)) (u32 (e_value_len e)) (Some k) (Some v) 0 0 0 0)
  end.

Definition ack_packet (fl : Z) : packet := mkPacket fl 0 0 None None 0 0 0 0.

(** [p->flags == p->flags | PKT_FLAG_DEL], which C reads as
    [(p->flags == p->flags) | PKT_FLAG_DEL]. *)
Definition del_condition (fl : Z) : bool :=
  negb (Z.lor (if fl =? fl then 1 else 0) PKT_FLAG_DEL =? 0).

(** The case distinction of [handle_own_request]: the new store and the
    acknowledgement. *)
Definition own_request (s : store T1) (p : packet) : res (store T1 * packet) :=
  let get_flag := u8 (Z.lor (flags p) PKT_FLAG_GET) in
  let set_flag := u8 (Z.lor (flags p) PKT_FLAG_SET) in
  if flags p =? get_flag then
    ack ← get_ack s p; Ok (s, ack)
  else if flags p =? set_flag then
    s ← htable_set s (key p) (key_len p) (value p) (value_len p);
    test_entry ← htable_get s (key p) (key_len p);
    Ok (s, ack_packet (Z.lor (Z.lor 0 PKT_FLAG_SET) PKT_FLAG_ACK))
  else if del_condition (flags p) then
    '(_, s) ← htable_delete s (key p) (key_len p);
    Ok (s, ack_packet (Z.lor (Z.lor 0 PKT_FLAG_DEL) PKT_FLAG_ACK))
  else Ok (s, ack_packet 0).

Definition handle_own_request (c : ptr) (p : packet) : ST W Z :=
  n ← get_node;
  '(s, ack) ← st_lift (own_request (n_ht n) p);
  set_ht s;;
  '(serialized_pack, packet_size) ← st_lift (packet_serialize ack);
  cl ← get_client c;
  _ ← on_io (sendall (c_socket cl) serialized_pack packet_size);
  mret CB_REMOVE_CLIENT.

Definition answer_lookup (p : packet) (n : peer) : ST W Z :=
  node_ip ← on_io (peer_get_ip n);
  let rply_packet :=
    mkPacket (Z.lor (Z.lor 0 PKT_FLAG_CTRL) PKT_FLAG_RPLY) 0 0 None None
      (hash_id p) (peer_node_id n) node_ip (port n) in
  _ ← on_io (forward (peer_from_packet p) rply_packet);
  mret CB_REMOVE_CLIENT.

Definition handle_packet_data (c : ptr) (p : packet) : ST W Z :=
  hash_id ← st_lift (pseudo_hash (key p) (key_len p));
  n ← get_node;
  if negb (peer_is_responsible (peer_node_id (pred n)) (peer_node_id (self n)) hash_id =? 0)
  then handle_own_request c p
  else if negb (peer_is_responsible (peer_node_id (self n)) (peer_node_id (succ n)) hash_id =? 0)
  then
    cl ← get_client c;
    '(r, s) ← on_io (proxy_request (c_socket cl) p (succ n));
    set_succ s;;
    mret r
  else
    cl ← get_client c;
    t ← st_lift (add_request (n_rt n) hash_id (c_socket cl) p);
    set_rt t;;
    _ ← lookup_peer hash_id;
    mret CB_OK.

(** [for (r = get_requests(...); r != NULL; r = r->next)]: all requests go to
    the same peer object. *)
Fixpoint proxy_loop (fuel : nat) (n : peer) (r : option ptr) : ST W unit :=
  match r with
  | None => mret tt
  | Some r =>
      match fuel with
      | O => st_lift NoFuel
      | S fuel =>
          nd ← get_node;
          q ← st_lift (deref (rq_nodes (n_rt nd) !! r));
          '(_, n) ← on_io (proxy_request (rq_socket q) (rq_packet q) n);
          server_close_socket (rq_socket q);;
          proxy_loop fuel n (rq_next q)
      end
  end.

Definition handle_packet_ctrl (c : ptr) (p : packet) : ST W Z :=
  n ← get_node;
  if has_flag (flags p) PKT_FLAG_LKUP then
    if negb (peer_is_responsible (peer_node_id (pred n)) (peer_node_id (self n)) (hash_id p) =? 0)
    then answer_lookup p (self n)
    else if negb (peer_is_responsible (peer_node_id (self n)) (peer_node_id (succ n))
                    (hash_id p) =? 0)
    then answer_lookup p (succ n)
    else
      '(_, s) ← on_io (forward (succ n) p);
      set_succ s;;
      mret CB_REMOVE_CLIENT
  else if has_flag (flags p) PKT_FLAG_RPLY then
    let nb := peer_from_packet p in
    r ← st_lift (get_requests (n_rt n) (hash_id p));
    proxy_loop (S (size (rq_nodes (n_rt n)))) nb r;;
    n ← get_node;
    t ← st_lift (clear_requests (n_rt n) (hash_id p));
    set_rt t;;
    mret CB_REMOVE_CLIENT
  else mret CB_REMOVE_CLIENT.

Definition handle_packet : callback node := fun c p =>
  p ← st_lift (deref p);
  if has_flag (flags p) PKT_FLAG_CTRL then handle_packet_ctrl c p
  else handle_packet_data c p.
End Peer.
Arguments node T1 T2 : clear implicits.

(** ** The server's requirements on its callback *)

Section Keeps.
Context {T1 T2 : Type} `{KTS1 : KeyTableSpec T1} `{KTS2 : KeyTableSpec T2}.

Lemma keeps_at_get_node c : keeps_at c (get_node (T1 := T1) (T2 := T2)).
Proof. intros w b w' Hok Hal [= _ <-]. done. Qed.
Lemma keeps_at_set_node c (n : node T1 T2) : keeps_at c (set_node n).
Proof. intros w b w' Hok Hal [= _ <-]. done. Qed.
Lemma keeps_at_get_srv {N} c : keeps_at c (get_srv (N := N)).
Proof. intros w b w' Hok Hal [= _ <-]. done. Qed.

(** Writing to a client that was just read. *)
Lemma keeps_at_touch {N} c c' cl (w : world N) a w' :
  srv_ok (w_srv w) -> alloc c w -> alloc c' w -> set_client c' cl w = Ok (a, w') ->
  srv_ok (w_srv w') /\ alloc c w'.
Proof.
  intros Hok Hc Hc' E. destruct (keeps_at_set_client c' cl w a w' Hok Hc' E) as [Hok' _].
  split; [done|]. injection E as _ <-. unfold alloc. cbn.
  destruct (decide (c' = c)) as [->|Hne]; [by rewrite lookup_insert_eq|].
  by rewrite lookup_insert_ne.
Qed.

Lemma keeps_at_close_socket {N} c s : keeps_at c (server_close_socket (N := N) s).
Proof.
  apply keeps_at_bind; [apply keeps_at_get_srv|]. intros srv.
  induction (clients srv) as [|c' cs IH]; [apply keeps_at_ret|].
  intros w a w' Hok Hal (cl & w1 & E1 & E2)%st_bind_inv. unfold get_client in E1.
  destruct (client_heap (w_srv w) !! c') eqn:Hc'; [|done]. injection E1 as -> <-.
  destruct (c_socket cl =? s); [|exact (IH w a w' Hok Hal E2)].
  eapply keeps_at_touch; [exact Hok|exact Hal| |exact E2]. by exists cl.
Qed.
End Keeps.

#[export] Hint Resolve keeps_at_get_node keeps_at_set_node keeps_at_get_srv
  keeps_at_close_socket : keeps.

Section KeepsHandlers.
Context {T1 T2 : Type} `{KTS1 : KeyTableSpec T1} `{KTS2 : KeyTableSpec T2}.

Lemma proxy_loop_keeps c fuel n r : keeps_at c (proxy_loop (T1 := T1) (T2 := T2) fuel n r).
Proof.
  revert n r. induction fuel as [|fuel IH]; intros n [r|]; cbn [proxy_loop];
    repeat first [apply IH | keeps_step].
Qed.

Lemma handle_packet_keeps c p : keeps_at c (handle_packet (T1 := T1) (T2 := T2) c p).
Proof.
  unfold handle_packet, handle_packet_ctrl, handle_packet_data, handle_own_request,
    answer_lookup, lookup_peer, set_rt, set_succ, set_ht.
  repeat first [apply proxy_loop_keeps | keeps_step].
Qed.
End KeepsHandlers.

(** ** Requests the node owns *)

Inductive request_kind : Type := KGet | KSet | KDel.

(** The operation the flags of a data packet select: GET first, then SET, and
    DEL for everything else. *)
Definition kind_of (fl : Z) : request_kind :=
  if has_flag fl PKT_FLAG_GET then KGet
  else if has_flag fl PKT_FLAG_SET then KSet else KDel.

Lemma byte_forall (f : Z -> bool) :
  forallb f (Z.of_nat <$> seq 0 256) = true -> forall b, byte_ok b -> f b = true.
Proof.
  intros Hf b [H1 H2]. rewrite forallb_forall in Hf. apply Hf, list_elem_of_In.
  apply list_elem_of_fmap. exists (Z.to_nat b). split; [lia|]. apply elem_of_seq. lia.
Qed.

Lemma get_flag_test fl :
  byte_ok fl -> (fl =? u8 (Z.lor fl PKT_FLAG_GET)) = has_flag fl PKT_FLAG_GET.
Proof.
  intros H. apply eqb_prop. revert fl H.
  apply (byte_forall (fun fl => eqb (fl =? u8 (Z.lor fl PKT_FLAG_GET)) (has_flag fl PKT_FLAG_GET))).
  by vm_compute.
Qed.

Lemma set_flag_test fl :
  byte_ok fl -> (fl =? u8 (Z.lor fl PKT_FLAG_SET)) = has_flag fl PKT_FLAG_SET.
Proof.
  intros H. apply eqb_prop. revert fl H.
  apply (byte_forall (fun fl => eqb (fl =? u8 (Z.lor fl PKT_FLAG_SET)) (has_flag fl PKT_FLAG_SET))).
  by vm_compute.
Qed.

(** The condition of the third branch holds for every packet. *)
Lemma del_condition_true fl : del_condition fl = true.
Proof. unfold del_condition. by rewrite Z.eqb_refl. Qed.

(** What [strncpy] makes of a byte string. *)
Fixpoint cstr (bs : list Z) : list Z :=
  match bs with
  | [] => []
  | b :: l => if b =? 0 then replicate (S (length l)) 0 else b :: cstr l
  end.

Lemma cells_replicate n b : cells (replicate n b) = replicate n (Some b).
Proof. apply fmap_replicate. Qed.

Lemma strncpy_cells bs : strncpy (cells bs) (length bs) = Ok (cells (cstr bs)).
Proof.
  induction bs as [|b bs IH]; [done|]. cbn. destruct (b =? 0).
  - unfold cells. cbn. by rewrite fmap_replicate.
  - unfold cells in *. by rewrite IH.
Qed.

Lemma length_cstr bs : length (cstr bs) = length bs.
Proof.
  induction bs as [|b bs IH]; [done|]. cbn. destruct (b =? 0); cbn; [|by rewrite IH].
  by rewrite length_replicate.
Qed.

Lemma cstr_id bs : Forall (fun b => b <> 0) bs -> cstr bs = bs.
Proof.
  induction 1 as [|b bs Hb Hbs IH]; [done|]. cbn. rewrite (proj2 (Z.eqb_neq _ _)) by done.
  by rewrite IH.
Qed.

(** The reply and the new map of a request for key [k] and value [v]. *)
Definition own_spec (m : gmap (list Z) (list Z)) (fl : Z) (k v : list Z)
    : gmap (list Z) (list Z) * list Z :=
  match kind_of fl with
  | KGet =>
      (m, match m !! k with
          | Some x => wire_data 12 (cstr k) (cstr x)
          | None => wire_data 12 [] []
          end)
  | KSet => (<[k := v]> m, wire_data 10 [] [])
  | KDel => (delete k m, wire_data 9 [] [])
  end.

Section Own.
Context {T1 T2 : Type} `{KTS1 : KeyTableSpec T1} `{KTS2 : KeyTableSpec T2}.

(** The store holds the byte strings of [m]; values fit their length field. *)
Definition bytes_rep (s : store T1) (m : gmap (list Z) (list Z)) : Prop :=
  store_rep s (cells <$> m) /\ forall k v, m !! k = Some v -> zlen v < 2 ^ 32.

Lemma ack_serialize fl : packet_serialize (ack_packet fl) =
  if is_ctrl fl then Ok (cells (wire_ctrl (ack_packet fl)), 11)
  else Ok (cells (wire_data fl [] []), 7).
Proof.
  unfold packet_serialize, is_ctrl. cbn [flags ack_packet].
  destruct (has_flag fl PKT_FLAG_CTRL); [apply packet_serialize_ctrl_wire|].
  by rewrite (packet_serialize_data_wire _ [] []).
Qed.

Lemma get_ack_ok s m p k :
  bytes_rep s m -> load_bytes (key p) (key_len p) = Ok k -> key_len p < 2 ^ 16 ->
  exists ack, get_ack s p = Ok ack /\
    packet_serialize ack =
      let r := match m !! k with
               | Some x => wire_data 12 (cstr k) (cstr x)
               | None => wire_data 12 [] []
               end in Ok (cells r, zlen r).
Proof.
  intros [Hs Hv] Hk Hl. pose proof (load_bytes_copy _ _ _ Hk) as [_ Hkl]. rewrite Hkl in Hl.
  destruct (htable_get_ok s _ (key p) (key_len p) k Hs Hk) as (o & E & Ho);
    [unfold key_fits; lia|].
  unfold get_ack. rewrite E, res_bind_Ok. rewrite lookup_fmap in Ho.
  destruct (m !! k) as [x|] eqn:Ex; cbn in Ho.
  - destruct Ho as (q & e & -> & He & Ek & Ekl & Ev & Evl). rewrite He. cbn [deref mbind res_bind].
    rewrite Ek, Ev. cbn [deref mbind res_bind]. rewrite Ekl, Evl, zlen_cells.
    unfold zlen. rewrite !Nat2Z.id, !strncpy_cells. cbn [mbind res_bind].
    eexists. split; [reflexivity|]. specialize (Hv k x Ex).
    change (Z.of_nat (length k)) with (zlen k). change (Z.of_nat (length x)) with (zlen x).
    pose proof (zlen_nonneg k). pose proof (zlen_nonneg x).
    rewrite u16_small, u32_small by lia. unfold packet_serialize. cbn [flags].
    change (has_flag _ PKT_FLAG_CTRL) with false. cbv iota.
    assert (zlen (cstr k) = zlen k) as Hck by (unfold zlen; by rewrite length_cstr).
    assert (zlen (cstr x) = zlen x) as Hcx by (unfold zlen; by rewrite length_cstr).
    rewrite (packet_serialize_data_wire _ (cstr k) (cstr x)); cbn [key key_len value value_len];
      try (by apply load_bytes_exact); try lia.
    cbn [flags]. f_equal. f_equal. unfold wire_data, be16, be32.
    cbn [app]. unfold zlen in *. cbn [length]. rewrite length_app. lia.
  - subst o. eexists. split; [reflexivity|]. apply (ack_serialize 12).
Qed.

Lemma own_request_ok s m p k v :
  bytes_rep s m -> byte_ok (flags p) ->
  load_bytes (key p) (key_len p) = Ok k -> load_bytes (value p) (value_len p) = Ok v ->
  key_len p < 2 ^ 16 -> value_len p < 2 ^ 32 ->
  (kind_of (flags p) = KSet -> kt_room (ht s) = true) ->
  exists s' ack, own_request s p = Ok (s', ack) /\
    bytes_rep s' (own_spec m (flags p) k v).1 /\
    packet_serialize ack =
      Ok (cells (own_spec m (flags p) k v).2, zlen (own_spec m (flags p) k v).2).
Proof.
  intros Hs Hb Hk Hv Hkl Hvl Hroom.
  pose proof (load_bytes_copy _ _ _ Hk) as [_ Hkl']. pose proof (load_bytes_copy _ _ _ Hv) as [Hcv Hvl'].
  assert (key_fits k) as Hfit by (unfold key_fits; lia).
  unfold own_request, own_spec, kind_of in *. rewrite get_flag_test, set_flag_test by done.
  destruct (has_flag (flags p) PKT_FLAG_GET) eqn:Eg.
  - destruct (get_ack_ok s m p k Hs Hk Hkl) as (ack & E & Es). exists s, ack. by rewrite E.
  - destruct Hs as [Hs Hval]. destruct (has_flag (flags p) PKT_FLAG_SET) eqn:Et.
    + destruct (htable_set_ok s _ (key p) (key_len p) (value p) (value_len p) k (cells v) Hs)
        as (s' & E & Hs'); try done; [by apply Hroom|by rewrite zlen_cells|].
      rewrite <- fmap_insert in Hs'.
      destruct (htable_get_ok s' _ (key p) (key_len p) k Hs' Hk Hfit) as (o & Eo & _).
      rewrite E, res_bind_Ok, Eo, res_bind_Ok. do 2 eexists. split; [reflexivity|].
      split; [split; [done|]|apply (ack_serialize 10)].
      cbn. intros k' v' [[_ <-]|[_ Hk']]%lookup_insert_Some; [lia|by eapply Hval].
    + rewrite del_condition_true.
      destruct (htable_delete_ok s _ (key p) (key_len p) k Hs Hk Hfit) as (s' & E & Hs' & _).
      rewrite <- fmap_delete in Hs'. rewrite E. cbn [mbind res_bind].
      do 2 eexists. split; [reflexivity|]. split; [split; [done|]|apply (ack_serialize 9)].
      cbn. intros k' v' [_ Hk']%lookup_delete_Some. by eapply Hval.
Qed.

(** The effect on the world: the store, and what was written to the client. *)
Lemma handle_own_request_ok (w : world (node T1 T2)) c cl m p k v :
  points_to w c cl -> bytes_rep (n_ht (w_node w)) m -> byte_ok (flags p) ->
  load_bytes (key p) (key_len p) = Ok k -> load_bytes (value p) (value_len p) = Ok v ->
  key_len p < 2 ^ 16 -> value_len p < 2 ^ 32 ->
  (kind_of (flags p) = KSet -> kt_room (ht (n_ht (w_node w))) = true) ->
  exists s', bytes_rep s' (own_spec m (flags p) k v).1 /\
    let reply := cells (own_spec m (flags p) k v).2 in
    let n := w_node w in
    handle_own_request c p w =
      (_ ← on_io (sendall (c_socket cl) reply (zlen reply)); mret CB_REMOVE_CLIENT)
        (mkWorld (w_srv w) (mkNode s' (n_rt n) (self n) (pred n) (succ n)) (w_io w)).
Proof.
  intros Hp Hs Hb Hk Hv Hkl Hvl Hroom.
  destruct (own_request_ok _ m p k v Hs Hb Hk Hv Hkl Hvl Hroom) as (s' & ack & E & Hs' & Es).
  exists s'. split; [done|]. cbv zeta. unfold handle_own_request.
  erewrite st_bind_Ok by done. erewrite st_bind_Ok by (apply st_lift_Ok; exact E). cbn beta iota.
  erewrite st_bind_Ok by done.
  erewrite st_bind_Ok by (apply st_lift_Ok; exact Es). cbn beta iota.
  erewrite st_bind_Ok by (apply get_client_ok; exact Hp). by rewrite zlen_cells.
Qed.
End Own.

(** ** Transfers, when the network cooperates *)

(** Who a peer is: its id, name and port. *)
Definition names (p : peer) : Z * string * Z := (peer_node_id p, hostname p, port p).

(** The answers of the system to a successful [forward]. *)
Definition forward_answers (a : sockaddr) (fd n : Z) : list answer :=
  [AAddrinfo (Some [a]); ASocket fd; AConnect 0; ASend n].

Definition connect_trace (p : peer) (a : sockaddr) (fd : Z) : list event :=
  [EResolve (hostname p) (port p); ESocket fd; EConnect fd a].

Lemma forward_ok p pack a fd n w rest buf :
  packet_serialize pack = Ok (buf, zlen buf) -> 0 < zlen buf <= MAX_RW_COUNT -> zlen buf <= n ->
  0 <= fd -> script w = forward_answers a fd n ++ rest ->
  exists q, forward p pack w =
    Ok ((0, q), mkIo rest (trace w ++ connect_trace p a fd ++ [ESend fd buf] ++
                 if is_ctrl (flags pack) then [EClose fd] else [])) /\
    peer_node_id q = peer_node_id p /\ hostname q = hostname p /\ port q = port p /\
    (is_ctrl (flags pack) = false -> socket q = fd).
Proof.
  intros Hs Hb Hn Hfd Hw. unfold forward.
  erewrite st_bind_Ok by (apply st_lift_Ok; exact Hs). cbn beta iota.
  erewrite st_bind_Ok by (apply peer_connect_one; [exact Hw|exact Hfd]). cbn beta iota.
  change (0 <? 0) with false. cbn [app]. cbv iota.
  erewrite st_bind_Ok by (apply (sendall_once _ _ n); [reflexivity|exact Hb|exact Hn]).
  change (0 <? 0) with false. cbv iota. unfold is_ctrl.
  destruct (has_flag (flags pack) PKT_FLAG_CTRL).
  - exists (mkPeer (peer_node_id p) (hostname p) (port p) (-1) no_addr 0). split; [|done]. unfold peer_disconnect, sys_close. erewrite st_bind_Ok by reflexivity.
    unfold connect_trace, emit. cbn. by rewrite <- !app_assoc.
  - exists (set_socket p fd). split; [|done]. erewrite st_bind_Ok by reflexivity.
    unfold connect_trace. cbn. by rewrite <- !app_assoc.
Qed.

(** The answers to a successful [proxy_request]: the peer takes the packet and
    sends the chunks [cs], the client takes the answer. *)
Definition proxy_answers (a : sockaddr) (fd n : Z) (cs : list (list Z)) (m : Z) : list answer :=
  forward_answers a fd n ++ chunks cs ++ [ARecv (Some []); ASend m].

Definition proxy_trace (p : peer) (a : sockaddr) (fd : Z) (buf : list cell) (csocket : Z)
    (ans : list Z) : list event :=
  connect_trace p a fd ++ [ESend fd buf; EClose fd; ESend csocket (cells ans); EClose fd].

Lemma proxy_request_ok csocket pack p a fd n cs m w rest buf :
  packet_serialize pack = Ok (buf, zlen buf) -> 0 < zlen buf <= MAX_RW_COUNT -> zlen buf <= n ->
  0 <= fd -> is_ctrl (flags pack) = false ->
  Forall (fun x => x <> []) cs -> 0 < zlen (concat cs) <= MAX_RW_COUNT -> zlen (concat cs) <= m ->
  script w = proxy_answers a fd n cs m ++ rest ->
  exists q, proxy_request csocket pack p w =
    Ok ((CB_REMOVE_CLIENT, q),
        mkIo rest (trace w ++ proxy_trace p a fd buf csocket (concat cs))) /\
    peer_node_id q = peer_node_id p /\ hostname q = hostname p /\ port q = port p.
Proof.
  intros Hs Hb Hn Hfd Hc Hne Ha Hm Hw. unfold proxy_answers in Hw. rewrite <- !app_assoc in Hw.
  destruct (forward_ok p pack a fd n w _ buf Hs Hb Hn Hfd Hw) as (q & E & Q1 & Q2 & Q3 & Q4).
  rewrite Hc in E. unfold proxy_request. erewrite st_bind_Ok by exact E. cbn beta iota.
  rewrite Q4 by done.
  match type of E with _ = Ok (_, ?x) => set (w1 := x) in * end.
  destruct (recvall_stream fd w1 cs (ASend m :: rest)) as (buffer & w2 & E2 & Hl & _ & Hsc & Htr);
    [done|done|unfold MAX_RW_COUNT in *; lia|].
  erewrite st_bind_Ok by exact E2. cbn beta iota.
  assert (load_block buffer 0 (zlen (cells (concat cs))) = Ok (cells (concat cs))) as Hlb.
  { apply load_bytes_inv in Hl as (Hl & _). rewrite zlen_cells. exact Hl. }
  assert (sendall csocket buffer (zlen (concat cs)) w2 =
    Ok (0, mkIo rest (trace w2 ++ [ESend csocket (cells (concat cs))]))) as E3.
  { rewrite <- (zlen_cells (concat cs)).
    eapply sendall_prefix; [exact Hlb|exact Hsc|rewrite zlen_cells; lia..]. }
  erewrite st_bind_Ok by exact E3.
  unfold peer_disconnect, sys_close. erewrite st_bind_Ok by reflexivity.
  exists (mkPeer (peer_node_id q) (hostname q) (port q) (-1)
            (if 0 <? addr_len q then no_addr else addr q) 0).
  split; [|done]. rewrite Q4 by done. unfold emit. cbn. rewrite Htr. unfold w1. cbn.
  unfold proxy_trace, connect_trace. by rewrite <- !app_assoc.
Qed.

(** ** Properties *)

Lemma zlen_wire_data fl k v : zlen (wire_data fl k v) = 7 + zlen k + zlen v.
Proof. unfold wire_data, be16, be32, zlen. cbn. rewrite length_app. lia. Qed.

Lemma own_reply_bound {T} `{KeyTableSpec T} (s : store T) m fl k v :
  bytes_rep s m -> zlen k < 2 ^ 16 ->
  0 < zlen (cells (own_spec m fl k v).2) < 2 ^ 63.
Proof.
  intros [_ Hv] Hk. pose proof (zlen_nonneg k). rewrite zlen_cells. unfold own_spec.
  destruct (kind_of fl); cbn [snd]; try (rewrite zlen_wire_data; change (zlen []) with 0; lia).
  destruct (m !! k) as [x|] eqn:Ex; rewrite zlen_wire_data; [|change (zlen []) with 0; lia].
  pose proof (Hv k x Ex). pose proof (zlen_nonneg x).
  unfold zlen in *. rewrite !length_cstr. lia.
Qed.

Lemma handle_own_request_any {T1 T2} `{KeyTableSpec T1} `{KeyTableSpec T2}
    (w : world (node T1 T2)) c cl m p k v :
  points_to w c cl -> bytes_rep (n_ht (w_node w)) m -> byte_ok (flags p) ->
  load_bytes (key p) (key_len p) = Ok k -> load_bytes (value p) (value_len p) = Ok v ->
  key_len p < 2 ^ 16 -> value_len p < 2 ^ 32 ->
  (kind_of (flags p) = KSet -> kt_room (ht (n_ht (w_node w))) = true) ->
  let reply := cells (own_spec m (flags p) k v).2 in
  match handle_own_request c p w with
  | Ok (r, w') =>
      r = CB_REMOVE_CLIENT /\ bytes_rep (n_ht (w_node w')) (own_spec m (flags p) k v).1 /\
      w_srv w' = w_srv w /\
      exists evs used, trace (w_io w') = trace (w_io w) ++ evs /\
        script (w_io w) = used ++ script (w_io w') /\ transferred (c_socket cl) reply used evs
  | Block => keeps_waiting (script (w_io w))
  | _ => False
  end.
Proof.
  intros Hp Hs Hb Hk Hv Hkl Hvl Hroom reply.
  pose proof (load_bytes_copy _ _ _ Hk) as [_ Hkl'].
  destruct (handle_own_request_ok w c cl m p k v Hp Hs Hb Hk Hv Hkl Hvl Hroom) as (s' & Hs' & E).
  cbv zeta in E. rewrite E. fold reply.
  pose proof (own_reply_bound _ m (flags p) k v Hs ltac:(lia)) as Hlen. fold reply in Hlen.
  unfold mbind, st_bind, on_io. cbn [w_io].
  pose proof (sendall_transfers (c_socket cl) reply (w_io w) ltac:(lia)) as Ho.
  destruct (sendall (c_socket cl) reply (zlen reply) (w_io w)) as [[r w1]| | |]; try done.
  destruct Ho as (evs & used & Ht & Hu & Htr & _). cbn. split; [done|]. split; [done|].
  split; [done|]. by exists evs, used.
Qed.

(** C23. What a node does with a request it owns, for every flag byte and
    whatever the client's socket does: no undefined behaviour; GET (first), SET
    (second) or DEL (everything else) is applied to the map the store stands
    for; the client is to be removed; and the acknowledgement of [own_spec] is
    sent.  [used] are the answers of the socket the handler consumes: when every
    one of them accepts something the whole acknowledgement has been written,
    and the handler stops before that only when the socket refuses, with a
    proper prefix written, or when the socket has not answered yet. *)
Theorem own_request_semantics {T1 T2} `{KeyTableSpec T1} `{KeyTableSpec T2}
    (w : world (node T1 T2)) c cl m p k v :
  points_to w c cl -> bytes_rep (n_ht (w_node w)) m -> byte_ok (flags p) ->
  load_bytes (key p) (key_len p) = Ok k -> load_bytes (value p) (value_len p) = Ok v ->
  key_len p < 2 ^ 16 -> value_len p < 2 ^ 32 ->
  (kind_of (flags p) = KSet -> kt_room (ht (n_ht (w_node w))) = true) ->
  let reply := cells (own_spec m (flags p) k v).2 in
  match handle_own_request c p w with
  | Ok (r, w') =>
      r = CB_REMOVE_CLIENT /\ bytes_rep (n_ht (w_node w')) (own_spec m (flags p) k v).1 /\
      w_srv w' = w_srv w /\
      exists evs used, trace (w_io w') = trace (w_io w) ++ evs /\
        script (w_io w) = used ++ script (w_io w') /\ transferred (c_socket cl) reply used evs
  | Block => keeps_waiting (script (w_io w))
  | _ => False
  end.
Proof. apply handle_own_request_any. Qed.

(** A node of identifier 300 between 200 and 400. *)
Definition example_node : node uthash uthash :=
  mkNode store_empty rtables_empty (mkPeer 300 "a" 4711 (-1) no_addr 0)
    (mkPeer 200 "b" 4712 (-1) no_addr 0) (mkPeer 400 "c" 4713 (-1) no_addr 0).

Lemma bytes_rep_empty : bytes_rep (store_empty : store uthash) ∅.
Proof.
  split; [rewrite fmap_empty; apply store_rep_empty|]. intros k v. by rewrite lookup_empty.
Qed.

Lemma own_request_semantics_witness :
  let w := mkWorld (one_client 9) example_node (mkIo [ASend 4; ASend 9] []) in
  let p := mkPacket 2 2 1 (Some (cells [1; 40])) (Some (cells [65])) 0 0 0 0 in
  match handle_own_request 1%positive p w with
  | Ok (r, w') =>
      r = CB_REMOVE_CLIENT /\ bytes_rep (n_ht (w_node w')) {[ [1; 40] := [65] ]} /\
      w_srv w' = w_srv w /\
      exists evs used, trace (w_io w') = [] ++ evs /\
        [ASend 4; ASend 9] = used ++ script (w_io w') /\
        transferred 9 (cells [10; 0; 0; 0; 0; 0; 0]) used evs
  | Block => keeps_waiting [ASend 4; ASend 9]
  | _ => False
  end.
Proof.
  intros w p.
  apply (own_request_semantics w 1%positive (mkClient 9 IDLE (rb_new PKT_HEADER_LEN) None None)
           ∅ p [1; 40] [65]); try reflexivity.
  - exact bytes_rep_empty.
  - split; [discriminate|reflexivity].
Defined.

(** A GET after a SET of the same key (whatever else the flag bytes say):
    the acknowledgement carries the key and value as [strncpy] copies them, so
    exactly the bytes stored when neither contains a NUL byte; a NUL byte
    blanks out what follows it. *)
Theorem set_then_get {T} `{KeyTableSpec T} (s : store T) m p g k v x :
  bytes_rep s m -> byte_ok (flags p) -> byte_ok (flags g) ->
  kind_of (flags p) = KSet -> kind_of (flags g) = KGet ->
  load_bytes (key p) (key_len p) = Ok k -> load_bytes (value p) (value_len p) = Ok v ->
  load_bytes (key g) (key_len g) = Ok k -> load_bytes (value g) (value_len g) = Ok x ->
  zlen k < 2 ^ 16 -> zlen v < 2 ^ 32 -> zlen x < 2 ^ 32 -> kt_room (ht s) = true ->
  exists s1 ack1 s2 ack2, own_request s p = Ok (s1, ack1) /\
    own_request s1 g = Ok (s2, ack2) /\
    packet_serialize ack2 = Ok (cells (wire_data 12 (cstr k) (cstr v)), 7 + zlen k + zlen v) /\
    (Forall (fun b => b <> 0) k -> Forall (fun b => b <> 0) v ->
     wire_data 12 (cstr k) (cstr v) = wire_data 12 k v).
Proof.
  intros Hs Hb Hb' Hkp Hkg Hk Hv Hk' Hx Hkl Hvl Hxl Hroom.
  pose proof (load_bytes_copy _ _ _ Hk) as [_ E1]. pose proof (load_bytes_copy _ _ _ Hv) as [_ E2].
  pose proof (load_bytes_copy _ _ _ Hk') as [_ E3]. pose proof (load_bytes_copy _ _ _ Hx) as [_ E4].
  destruct (own_request_ok s m p k v Hs Hb Hk Hv) as (s1 & ack1 & R1 & Hs1 & _); [lia|lia|done|].
  unfold own_spec in Hs1. rewrite Hkp in Hs1. cbn [fst] in Hs1.
  destruct (own_request_ok s1 _ g k x Hs1 Hb' Hk' Hx) as (s2 & ack2 & R2 & _ & S2);
    [lia|lia|congruence|].
  unfold own_spec in S2. rewrite Hkg in S2. cbn [snd] in S2. rewrite lookup_insert_eq in S2.
  exists s1, ack1, s2, ack2. split; [done|]. split; [done|]. split.
  - rewrite S2, zlen_wire_data. unfold zlen. by rewrite !length_cstr.
  - intros H1 H2. by rewrite !cstr_id.
Qed.

Lemma set_then_get_witness :
  let p := mkPacket 2 1 3 (Some (cells [97])) (Some (cells [1; 0; 7])) 0 0 0 0 in
  let g := mkPacket 4 1 0 (Some (cells [97])) None 0 0 0 0 in
  exists s1 ack1 s2 ack2, own_request (store_empty : store uthash) p = Ok (s1, ack1) /\
    own_request s1 g = Ok (s2, ack2) /\
    packet_serialize ack2 = Ok (cells [12; 0; 1; 0; 0; 0; 3; 97; 1; 0; 0], 11).
Proof.
  intros p g.
  destruct (set_then_get (store_empty : store uthash) ∅ p g [97] [1; 0; 7] [])
    as (s1 & a1 & s2 & a2 & E1 & E2 & E3 & _); try reflexivity.
  - exact bytes_rep_empty.
  - split; [discriminate|reflexivity].
  - split; [discriminate|reflexivity].
  - exists s1, a1, s2, a2. split; [exact E1|]. split; [exact E2|exact E3].
Defined.

(** The header and body of a data packet on the wire, as the server's decoders
    take them. *)
Lemma wire_data_split fl k v :
  is_ctrl fl = false -> zlen k < 2 ^ 16 -> zlen k + zlen v < 2 ^ 31 ->
  exists h p, wire_data fl k v = h ++ (k ++ v) /\ zlen h = 7 /\
    packet_decode_hdr (cells h) 7 = Ok (Some p) /\ packet_body_size p = zlen (k ++ v) /\
    packet_decode_body p (cells (k ++ v)) (zlen (k ++ v)) = Ok (Some (data_packet fl k v)).
Proof.
  intros Hfl Hk Hkv. pose proof (zlen_nonneg k). pose proof (zlen_nonneg v).
  exists [fl; byte_at (zlen k) 8; byte_at (zlen k) 0; byte_at (zlen v) 24;
          byte_at (zlen v) 16; byte_at (zlen v) 8; byte_at (zlen v) 0],
    (mkPacket fl (zlen k) (zlen v) None None 0 0 0 0).
  split; [done|]. split; [done|]. split; [|split].
  - rewrite <- (app_nil_r (cells _)), packet_decode_hdr_bytes, Hfl by lia.
    by rewrite dec_u16_be, dec_u32_be by lia.
  - unfold packet_body_size. unfold is_ctrl in Hfl. cbn [flags key_len value_len].
    rewrite Hfl. cbn [negb]. rewrite u32_small, u64_small, zlen_app; lia.
  - rewrite cells_app, <- (app_nil_r (cells v)), zlen_app.
    by rewrite (packet_decode_body_data _ k v) by (done || cbn; lia).
Qed.

Lemma handle_packet_own {T1 T2} `{KeyTableSpec T1} `{KeyTableSpec T2}
    (w : world (node T1 T2)) c fl k v :
  is_ctrl fl = false -> Forall byte_ok k ->
  peer_is_responsible (peer_node_id (pred (w_node w))) (peer_node_id (self (w_node w)))
    (hash_spec k) = 1 ->
  handle_packet c (Some (data_packet fl k v)) w = handle_own_request c (data_packet fl k v) w.
Proof.
  intros Hfl Hk Hr. unfold handle_packet. erewrite st_bind_Ok by (by apply st_lift_Ok).
  unfold is_ctrl in Hfl. cbn [flags data_packet]. rewrite Hfl. unfold handle_packet_data.
  erewrite st_bind_Ok
    by (apply st_lift_Ok; apply (pseudo_hash_bytes _ _ k); [apply load_nullable|done]).
  erewrite st_bind_Ok by done. by rewrite Hr.
Qed.

(** The world after a request that was served: the node with another store, the
    client gone, the reply and the close in the trace. *)
Definition served_world {T1 T2} (w : world (node T1 T2)) (c : ptr) (s' : store T1)
    (fd : Z) (reply : list cell) (rest : list answer) : world (node T1 T2) :=
  let s := w_srv w in
  let n := w_node w in
  mkWorld (mkServer (srv_socket s) (i32 (n_clients s - 1)) (active s)
             (filter (fun x => x <> c) (clients s)) (delete c (client_heap s)))
    (mkNode s' (n_rt n) (self n) (pred n) (succ n))
    (mkIo rest (trace (w_io w) ++ [ESend fd reply; EClose fd])).

Lemma request_served_world {T1 T2} `{KeyTableSpec T1} `{KeyTableSpec T2}
    (w : world (node T1 T2)) fd c cl cs n rest m fl k v :
  srv_ok (w_srv w) -> c ∈ clients (w_srv w) -> points_to w c cl -> collecting cl [] ->
  script (w_io w) = chunks cs ++ ASend n :: rest -> Forall (fun x => x <> []) cs ->
  concat cs = wire_data fl k v ->
  is_ctrl fl = false -> byte_ok fl -> Forall byte_ok k ->
  zlen k < 2 ^ 16 -> 0 < zlen k + zlen v < 2 ^ 31 ->
  peer_is_responsible (peer_node_id (pred (w_node w))) (peer_node_id (self (w_node w)))
    (hash_spec k) = 1 ->
  bytes_rep (n_ht (w_node w)) m -> kt_room (ht (n_ht (w_node w))) = true ->
  let reply := cells (own_spec m fl k v).2 in
  zlen reply <= MAX_RW_COUNT -> zlen reply <= n ->
  exists j s', client_inputs handle_packet j fd c w
                 = Ok (tt, served_world w c s' (c_socket cl) reply rest) /\
    bytes_rep s' (own_spec m fl k v).1.
Proof.
  intros Hok Hc Hp Hcol Hw Hne Hcat Hfl Hb Hk Hkl Hkv Hr Hs Hroom reply Hmax Hn.
  destruct (wire_data_split fl k v Hfl Hkl ltac:(lia)) as (h & p & Ew & Hh & Hdh & Hsz & Hdb).
  rewrite Ew in Hcat. rewrite zlen_app in Hsz.
  destruct (header_run handle_packet w fd c cl [] cs (ASend n :: rest) h (k ++ v) p
    (Some (data_packet fl k v))) as (j & w1 & E & _ & cl1 & -> & Hs1 & Hpk & _ & _);
    try done; [by rewrite zlen_app|lia|].
  set (w1 := with_client c cl1 _) in E.
  assert (points_to w1 c cl1) as Hp1 by apply points_to_with_client.
  destruct (handle_own_request_ok w1 c cl1 m (data_packet fl k v) k v Hp1 Hs) as (s' & Hs' & Eh);
    try apply load_nullable; try done; [pose proof (zlen_nonneg k); cbn; lia|].
  cbv zeta in Eh. cbn [flags data_packet] in Hs', Eh. fold reply in Eh.
  pose proof (own_reply_bound _ m fl k v Hs Hkl) as Hpos. fold reply in Hpos.
  set (w2 := mkWorld _ _ _) in Eh.
  assert (on_io (sendall (c_socket cl1) reply (zlen reply)) w2 =
    Ok (0, with_io (mkIo rest (trace (w_io w) ++ [ESend (c_socket cl1) reply])) w2)) as Es.
  { apply on_io_ok. apply (sendall_once (c_socket cl1) reply n (w_io w2) rest); [done|lia|lia]. }
  exists j, s'. split; [|exact Hs']. rewrite E. unfold server_deliver_packet.
  erewrite st_bind_Ok by (apply get_client_ok; exact Hp1). rewrite Hpk.
  rewrite <- handle_packet_own in Eh by done.
  erewrite st_bind_Ok by (rewrite Eh; by erewrite st_bind_Ok by exact Es).
  change (CB_REMOVE_CLIENT =? CB_REMOVE_CLIENT) with true. cbv iota.
  erewrite server_remove_client_ok; [|exact Hc|exact Hp1].
  unfold removed, served_world, emit. cbn. by rewrite Hs1, <- app_assoc, delete_insert_eq.
Qed.

(** C7. A client's request from the wire to the answer, at a node that owns the
    key: however the bytes of a request arrive, after as many readable rounds
    as it takes the operation has been applied to the store, the
    acknowledgement has been written to the client's socket, the socket is
    closed and the client structure freed; every other client is untouched. *)
Theorem request_served {T1 T2} `{KeyTableSpec T1} `{KeyTableSpec T2}
    (w : world (node T1 T2)) fd c cl cs n rest m fl k v :
  srv_ok (w_srv w) -> c ∈ clients (w_srv w) -> points_to w c cl -> collecting cl [] ->
  script (w_io w) = chunks cs ++ ASend n :: rest -> Forall (fun x => x <> []) cs ->
  concat cs = wire_data fl k v ->
  is_ctrl fl = false -> byte_ok fl -> Forall byte_ok k ->
  zlen k < 2 ^ 16 -> 0 < zlen k + zlen v < 2 ^ 31 ->
  peer_is_responsible (peer_node_id (pred (w_node w))) (peer_node_id (self (w_node w)))
    (hash_spec k) = 1 ->
  bytes_rep (n_ht (w_node w)) m -> kt_room (ht (n_ht (w_node w))) = true ->
  let reply := cells (own_spec m fl k v).2 in
  zlen reply <= MAX_RW_COUNT -> zlen reply <= n ->
  exists j w', client_inputs handle_packet j fd c w = Ok (tt, w') /\
    bytes_rep (n_ht (w_node w')) (own_spec m fl k v).1 /\
    trace (w_io w') = trace (w_io w) ++ [ESend (c_socket cl) reply; EClose (c_socket cl)] /\
    script (w_io w') = rest /\
    clients (w_srv w') = filter (fun x => x <> c) (clients (w_srv w)) /\
    (forall x, x <> c -> client_heap (w_srv w') !! x = client_heap (w_srv w) !! x) /\
    client_heap (w_srv w') !! c = None.
Proof.
  intros Hok Hc Hp Hcol Hw Hne Hcat Hfl Hb Hk Hkl Hkv Hr Hs Hroom reply Hmax Hn.
  destruct (request_served_world w fd c cl cs n rest m fl k v) as (j & s' & E & Hs'); try done.
  exists j. eexists. split; [exact E|]. cbn. split_and!; try done.
  - intros x Hx. by rewrite lookup_delete_ne.
  - by rewrite lookup_delete_eq.
Qed.

Lemma request_served_witness :
  let w := mkWorld (one_client 9) example_node
             (mkIo (chunks [[2; 0; 2]; [0; 0; 0; 1; 1]; [40; 65]] ++ [ASend 64; APoll 0 []]) []) in
  exists j w', client_inputs handle_packet j 9 1%positive w = Ok (tt, w') /\
    bytes_rep (n_ht (w_node w')) {[ [1; 40] := [65] ]} /\
    trace (w_io w') = [ESend 9 (cells [10; 0; 0; 0; 0; 0; 0]); EClose 9] /\
    script (w_io w') = [APoll 0 []] /\ clients (w_srv w') = [].
Proof.
  intros w.
  destruct (request_served w 9 1%positive (mkClient 9 IDLE (rb_new PKT_HEADER_LEN) None None)
    [[2; 0; 2]; [0; 0; 0; 1; 1]; [40; 65]] 64 [APoll 0 []] ∅ 2 [1; 40] [65])
    as (j & w' & E & R & Tr & Sc & Cl & _); try reflexivity.
  - apply one_client_ok.
  - apply list_elem_of_singleton. reflexivity.
  - destruct (rb_new_ok 7) as (H1 & H2 & H3); [split; [discriminate|reflexivity]|].
    split; [reflexivity|]. split; [exact H1|]. split; [exact H2|]. split; [exact H3|reflexivity].
  - repeat (apply List.Forall_cons; [discriminate|]). apply List.Forall_nil.
  - split; [discriminate|reflexivity].
  - repeat (apply List.Forall_cons; [split; [discriminate|reflexivity]|]). apply List.Forall_nil.
  - split; vm_compute; reflexivity.
  - exact bytes_rep_empty.
  - vm_compute. discriminate.
  - vm_compute. discriminate.
  - exists j, w'. split; [exact E|]. split; [exact R|]. split; [exact Tr|].
    split; [exact Sc|exact Cl].
Defined.

(** The whole node keeps the server's invariant: with [handle_packet] as the
    callback, over any number of rounds, any input and any behaviour of the
    network, the client list stays well formed and no marked client survives a
    round. *)
Theorem node_keeps_clients {T1 T2} `{KeyTableSpec T1} `{KeyTableSpec T2}
    fuel (w w' : world (node T1 T2)) :
  srv_ok (w_srv w) -> unmarked (w_srv w) -> server_loop handle_packet fuel w = Ok (tt, w') ->
  srv_ok (w_srv w') /\ unmarked (w_srv w').
Proof.
  intros Hok Hu E. exact (server_loop_ok _ handle_packet_keeps fuel w tt w' Hok Hu E).
Qed.

Lemma node_keeps_clients_witness :
  let w := mkWorld (one_client 9) example_node
             (mkIo [APoll 1 [false; false; true]; ARecv (Some [2; 0; 2; 0; 0; 0; 1]);
                    APoll 2 [false; true; true]; ARecv (Some [1; 40; 65]); ASend 64; AAccept 11;
                    APoll 1 [true]] []) in
  exists w', server_loop handle_packet 3 w = Ok (tt, w') /\
    (c_socket <$> (snd <$> map_to_list (client_heap (w_srv w')))) = [11] /\
    srv_ok (w_srv w') /\ unmarked (w_srv w').
Proof.
  intros w.
  destruct (server_loop handle_packet 3 w) as [[[] w']| | |] eqn:E;
    [|exfalso; vm_compute in E; discriminate E..].
  exists w'. split; [reflexivity|]. split.
  - vm_compute in E. injection E as <-. vm_compute. reflexivity.
  - apply (node_keeps_clients 3 w w'); [apply one_client_ok| |exact E].
    intros c. unfold marked. cbn. destruct (decide (c = 1%positive)) as [->|Hne].
    + reflexivity.
    + rewrite lookup_singleton_ne by (intros <-; by apply Hne). reflexivity.
Defined.

(** The bytes of a control packet. *)
Lemma serialize_ctrl p :
  is_ctrl (flags p) = true ->
  packet_serialize p = Ok (cells (wire_ctrl p), zlen (cells (wire_ctrl p))).
Proof.
  intros Hp. unfold packet_serialize. unfold is_ctrl in Hp. rewrite Hp.
  by rewrite packet_serialize_ctrl_wire.
Qed.

Lemma zlen_wire_ctrl p : zlen (cells (wire_ctrl p)) = 11.
Proof. done. Qed.

Lemma forward_ctrl_ok p pack a fd n w rest :
  is_ctrl (flags pack) = true -> 0 <= fd -> 11 <= n ->
  script w = forward_answers a fd n ++ rest ->
  exists q, forward p pack w =
    Ok ((0, q), mkIo rest (trace w ++ connect_trace p a fd ++
                           [ESend fd (cells (wire_ctrl pack)); EClose fd])) /\
    peer_node_id q = peer_node_id p /\ hostname q = hostname p /\ port q = port p.
Proof.
  intros Hc Hfd Hn Hw.
  destruct (forward_ok p pack a fd n w rest (cells (wire_ctrl pack))) as (q & E & Q1 & Q2 & Q3 & _);
    rewrite ?zlen_wire_ctrl; try done; [by apply serialize_ctrl|].
  exists q. rewrite E, Hc. done.
Qed.

(** Two states of a node agree on who it is and who its neighbours are. *)
Definition keeps_place {T1 T2} (nd nd' : node T1 T2) : Prop :=
  names (self nd') = names (self nd) /\ names (pred nd') = names (pred nd) /\
  names (succ nd') = names (succ nd).

(** A key nobody nearby owns: the request is queued, in order, under its
    hash id with the client's socket; a lookup for that id goes to the
    successor, carrying the node's own id, address and port; the connection of
    the lookup is closed and the client stays connected. *)
Theorem lookup_started {T1 T2} `{KeyTableSpec T1} `{KeyTableSpec T2}
    (w : world (node T1 T2)) c cl p k d q a0 a fd n rest :
  let nd := w_node w in
  let h := hash_spec k in
  points_to w c cl -> load_bytes (key p) (key_len p) = Ok k -> Forall byte_ok k ->
  packet_dup p = Ok d ->
  peer_is_responsible (peer_node_id (pred nd)) (peer_node_id (self nd)) h = 0 ->
  peer_is_responsible (peer_node_id (self nd)) (peer_node_id (succ nd)) h = 0 ->
  rq_rep (n_rt nd) q -> kt_room (rt (n_rt nd)) = true ->
  script (w_io w) = AAddrinfo (Some [a0]) :: forward_answers a fd n ++ rest ->
  0 <= fd -> 11 <= n ->
  exists w', handle_packet_data c p w = Ok (CB_OK, w') /\ w_srv w' = w_srv w /\
    n_ht (w_node w') = n_ht nd /\ keeps_place nd (w_node w') /\
    rq_rep (n_rt (w_node w')) (<[h := default [] (q !! h) ++ [(d, c_socket cl)]]> q) /\
    script (w_io w') = rest /\
    trace (w_io w') = trace (w_io w) ++
      [EResolve (hostname (self nd)) (port (self nd))] ++ connect_trace (succ nd) a fd ++
      [ESend fd (cells (wire_ctrl (ctrl_packet 129 h (peer_node_id (self nd)) (sin_addr a0)
                                     (port (self nd))))); EClose fd].
Proof.
  intros nd h Hp Hk Hb Hd Hr1 Hr2 Hq Hroom Hw Hfd Hn.
  destruct (add_request_ok (n_rt nd) q h (c_socket cl) p d Hq) as (t & Et & Hq'); try done.
  { by apply hash_spec_range. }
  unfold handle_packet_data.
  erewrite st_bind_Ok by (apply st_lift_Ok; by apply (pseudo_hash_bytes _ _ k)).
  erewrite st_bind_Ok by done. fold nd. fold h. rewrite Hr1, Hr2. cbn [Z.eqb negb].
  erewrite st_bind_Ok by (by apply get_client_ok).
  erewrite st_bind_Ok by (apply st_lift_Ok; exact Et).
  erewrite st_bind_Ok by done. unfold lookup_peer.
  set (w1 := mkWorld (w_srv w) _ (w_io w)).
  destruct (forward_ctrl_ok (succ nd)
    (ctrl_packet 129 h (peer_node_id (self nd)) (sin_addr a0) (port (self nd))) a fd n
    (mkIo (forward_answers a fd n ++ rest)
       (trace (w_io w) ++ [EResolve (hostname (self nd)) (port (self nd))])) rest)
    as (s & Es & Q1 & Q2 & Q3); try done.
  eexists. split; [|split; [|split; [|split; [|split; [|split]]]]].
  - erewrite st_bind_Ok; [reflexivity|].
    erewrite st_bind_Ok by done.
    erewrite st_bind_Ok by (apply on_io_ok, peer_get_ip_one; exact Hw).
    erewrite st_bind_Ok by (apply on_io_ok; exact Es). cbn beta iota.
    by erewrite st_bind_Ok by done.
  - done.
  - done.
  - split_and!; try done. unfold names. cbn [w_node succ]. by rewrite Q1, Q2, Q3.
  - done.
  - done.
  - cbn. by rewrite <- !app_assoc.
Qed.

Lemma lookup_started_witness :
  let w := mkWorld (one_client 9) example_node
             (mkIo (AAddrinfo (Some [mkAddr 2130706433 4711]) ::
                    forward_answers (mkAddr 2130706433 4713) 12 64 ++ []) []) in
  let p := mkPacket 4 2 0 (Some (cells [9; 9])) None 0 0 0 0 in
  exists w', handle_packet_data 1%positive p w = Ok (CB_OK, w') /\ w_srv w' = w_srv w /\
    rq_rep (n_rt (w_node w'))
      {[ 2313 := [(mkPacket 4 2 0 (Some (cells [9; 9])) (Some []) 0 0 0 0, 9)] ]} /\
    trace (w_io w') =
      [EResolve "a" 4711; EResolve "c" 4713; ESocket 12; EConnect 12 (mkAddr 2130706433 4713);
       ESend 12 (cells [129; 9; 9; 1; 44; 127; 0; 0; 1; 18; 103]); EClose 12].
Proof.
  intros w p.
  destruct (lookup_started w 1%positive (mkClient 9 IDLE (rb_new PKT_HEADER_LEN) None None) p
    [9; 9] (mkPacket 4 2 0 (Some (cells [9; 9])) (Some []) 0 0 0 0) ∅
    (mkAddr 2130706433 4711) (mkAddr 2130706433 4713) 12 64 [])
    as (w' & E & Es & _ & _ & R & _ & Tr); try reflexivity.
  - repeat (apply List.Forall_cons; [split; [discriminate|reflexivity]|]). apply List.Forall_nil.
  - exact rq_rep_empty.
  - discriminate.
  - discriminate.
  - exists w'. split; [exact E|]. split; [exact Es|]. split; [exact R|].
    rewrite Tr. vm_compute. reflexivity.
Defined.

(** A lookup that reaches the node before the responsible one is answered:
    a reply naming the successor (id, address, port) goes to the address and
    port in the lookup packet; if the node itself is responsible it names
    itself. *)
Theorem lookup_answered {T1 T2} `{KeyTableSpec T1} `{KeyTableSpec T2}
    (w : world (node T1 T2)) c p a0 a fd n rest :
  let nd := w_node w in
  let own := peer_is_responsible (peer_node_id (pred nd)) (peer_node_id (self nd)) (hash_id p) in
  let target := if own =? 1 then self nd else succ nd in
  has_flag (flags p) PKT_FLAG_LKUP = true ->
  own = 1 \/
    peer_is_responsible (peer_node_id (self nd)) (peer_node_id (succ nd)) (hash_id p) = 1 ->
  script (w_io w) = AAddrinfo (Some [a0]) :: forward_answers a fd n ++ rest ->
  0 <= fd -> 11 <= n ->
  exists w', handle_packet_ctrl c p w = Ok (CB_REMOVE_CLIENT, w') /\ w_srv w' = w_srv w /\
    w_node w' = nd /\ script (w_io w') = rest /\
    trace (w_io w') = trace (w_io w) ++ [EResolve (hostname target) (port target)] ++
      [EResolve (dotted (node_ip p)) (node_port p); ESocket fd; EConnect fd a] ++
      [ESend fd (cells (wire_ctrl (ctrl_packet 130 (hash_id p) (peer_node_id target)
                                     (sin_addr a0) (port target)))); EClose fd].
Proof.
  intros nd own target Hfl Hr Hw Hfd Hn.
  assert (handle_packet_ctrl c p w = answer_lookup p target w) as ->.
  { unfold handle_packet_ctrl. erewrite st_bind_Ok by done. fold nd. fold own. rewrite Hfl.
    assert (own = 0 \/ own = 1) as Ho.
    { unfold own. rewrite peer_is_responsible_cases. repeat case_match; auto. }
    unfold target. destruct Hr as [Hr|Hr], Ho as [Ho|Ho]; rewrite Ho, ?Hr; congruence || done. }
  unfold answer_lookup.
  erewrite st_bind_Ok by (apply on_io_ok, peer_get_ip_one; exact Hw).
  match goal with |- context [forward _ ?pk] => set (rply := pk) end.
  destruct (forward_ctrl_ok (peer_from_packet p) rply a fd n
    (mkIo (forward_answers a fd n ++ rest)
       (trace (w_io w) ++ [EResolve (hostname target) (port target)])) rest)
    as (s & Es & _); try done.
  eexists. split; [by erewrite st_bind_Ok by (apply on_io_ok; exact Es)|].
  split; [done|]. split; [done|]. split; [done|]. cbn. by rewrite <- !app_assoc.
Qed.

Lemma lookup_answered_witness :
  let w := mkWorld (one_client 9) example_node
             (mkIo (AAddrinfo (Some [mkAddr 2130706433 4713]) ::
                    forward_answers (mkAddr 167772161 5000) 12 64 ++ []) []) in
  exists w', handle_packet_ctrl 1%positive (ctrl_packet 129 350 7 167772161 5000) w
      = Ok (CB_REMOVE_CLIENT, w') /\ w_srv w' = w_srv w /\
    trace (w_io w') =
      [EResolve "c" 4713; EResolve "10.0.0.1" 5000; ESocket 12; EConnect 12 (mkAddr 167772161 5000);
       ESend 12 (cells [130; 1; 94; 1; 144; 127; 0; 0; 1; 18; 105]); EClose 12].
Proof.
  intros w.
  destruct (lookup_answered w 1%positive (ctrl_packet 129 350 7 167772161 5000)
    (mkAddr 2130706433 4713) (mkAddr 167772161 5000) 12 64 [])
    as (w' & E & Es & _ & _ & Tr).
  - reflexivity.
  - right. reflexivity.
  - reflexivity.
  - discriminate.
  - discriminate.
  - exists w'. split; [exact E|]. split; [exact Es|]. rewrite Tr. vm_compute. reflexivity.
Defined.

(** Every other lookup is passed on unchanged to the successor, and the
    connection it came over is closed. *)
Theorem lookup_forwarded {T1 T2} `{KeyTableSpec T1} `{KeyTableSpec T2}
    (w : world (node T1 T2)) c p a fd n rest :
  let nd := w_node w in
  is_ctrl (flags p) = true -> has_flag (flags p) PKT_FLAG_LKUP = true ->
  peer_is_responsible (peer_node_id (pred nd)) (peer_node_id (self nd)) (hash_id p) = 0 ->
  peer_is_responsible (peer_node_id (self nd)) (peer_node_id (succ nd)) (hash_id p) = 0 ->
  script (w_io w) = forward_answers a fd n ++ rest -> 0 <= fd -> 11 <= n ->
  exists w', handle_packet c (Some p) w = Ok (CB_REMOVE_CLIENT, w') /\ w_srv w' = w_srv w /\
    n_ht (w_node w') = n_ht nd /\ n_rt (w_node w') = n_rt nd /\ keeps_place nd (w_node w') /\
    script (w_io w') = rest /\
    trace (w_io w') = trace (w_io w) ++ connect_trace (succ nd) a fd ++
      [ESend fd (cells (wire_ctrl p)); EClose fd].
Proof.
  intros nd Hc Hfl Hr1 Hr2 Hw Hfd Hn. unfold handle_packet.
  erewrite st_bind_Ok by (by apply st_lift_Ok). unfold is_ctrl in Hc. rewrite Hc.
  unfold handle_packet_ctrl. erewrite st_bind_Ok by done. fold nd. rewrite Hfl, Hr1, Hr2.
  cbn [Z.eqb negb].
  destruct (forward_ctrl_ok (succ nd) p a fd n (w_io w) rest) as (s & Es & Q1 & Q2 & Q3); try done.
  erewrite st_bind_Ok by (apply on_io_ok; exact Es). cbn beta iota.
  erewrite st_bind_Ok by done. eexists. split; [done|]. split_and!; try done.
  unfold keeps_place, names. cbn [w_node self pred succ]. by rewrite Q1, Q2, Q3.
Qed.

Lemma lookup_forwarded_witness :
  let w := mkWorld (one_client 9) example_node
             (mkIo (forward_answers (mkAddr 2130706433 4713) 12 64 ++ []) []) in
  exists w', handle_packet 1%positive (Some (ctrl_packet 129 700 7 1 2)) w
      = Ok (CB_REMOVE_CLIENT, w') /\
    trace (w_io w') =
      [EResolve "c" 4713; ESocket 12; EConnect 12 (mkAddr 2130706433 4713);
       ESend 12 (cells [129; 2; 188; 0; 7; 0; 0; 0; 1; 0; 2]); EClose 12].
Proof.
  intros w.
  destruct (lookup_forwarded w 1%positive (ctrl_packet 129 700 7 1 2)
    (mkAddr 2130706433 4713) 12 64 []) as (w' & E & _ & _ & _ & _ & _ & Tr); try reflexivity.
  - discriminate.
  - discriminate.
  - exists w'. split; [exact E|]. rewrite Tr. vm_compute. reflexivity.
Defined.

(** ** The reply to a lookup *)

(** What the network does for one proxied request. *)
Record proxy_item : Type := mkItem {
  pi_addr : sockaddr;
  pi_fd : Z;
  pi_accept : Z;
  pi_chunks : list (list Z);
  pi_client_accept : Z;
}.

Definition item_answers (i : proxy_item) : list answer :=
  proxy_answers (pi_addr i) (pi_fd i) (pi_accept i) (pi_chunks i) (pi_client_accept i).

Definition serial (p : packet) : list cell :=
  match packet_serialize p with Ok (b, _) => b | _ => [] end.

Definition item_ok (i : proxy_item) (r : packet * Z) : Prop :=
  packet_serialize r.1 = Ok (serial r.1, zlen (serial r.1)) /\
  0 < zlen (serial r.1) <= MAX_RW_COUNT /\ zlen (serial r.1) <= pi_accept i /\
  0 <= pi_fd i /\ is_ctrl (flags r.1) = false /\
  Forall (fun x => x <> []) (pi_chunks i) /\
  0 < zlen (concat (pi_chunks i)) <= MAX_RW_COUNT /\
  zlen (concat (pi_chunks i)) <= pi_client_accept i.

(** The queued packet goes to the peer, its answer to the client that asked. *)
Definition item_events (n : peer) (i : proxy_item) (r : packet * Z) : list event :=
  proxy_trace n (pi_addr i) (pi_fd i) (serial r.1) r.2 (concat (pi_chunks i)).

Lemma proxy_loop_ok {T1 T2} `{KeyTableSpec T1} `{KeyTableSpec T2}
    (w : world (node T1 T2)) fuel n n0 re xs q items rest :
  rseg (rq_nodes (n_rt (w_node w))) re xs q -> (length xs <= fuel)%nat ->
  Forall2 item_ok items q -> srv_ok (w_srv w) ->
  script (w_io w) = (items ≫= item_answers) ++ rest ->
  hostname n = hostname n0 -> port n = port n0 ->
  proxy_loop fuel n re w =
    Ok (tt, mkWorld (foldl mark_socket (w_srv w) (snd <$> q)) (w_node w)
              (mkIo rest (trace (w_io w) ++ concat (zip_with (item_events n0) items q)))).
Proof.
  revert w fuel n re q items. induction xs as [|x xs IH]; intros w fuel n re q items Hs Hf Hit Hok
    Hw Hh Hpt; destruct q as [|[pk s] q]; try done.
  - cbn in Hs. subst re. inversion Hit; subst. destruct fuel; destruct w as [sv nd [sc tr]];
      cbn in *; subst sc; by rewrite app_nil_r.
  - destruct Hs as (-> & nx & Hx & Hs). destruct fuel as [|fuel]; [cbn in Hf; lia|].
    inversion Hit as [|i ? items' ? Hi Hit']; subst. cbn [proxy_loop].
    erewrite st_bind_Ok by done.
    erewrite st_bind_Ok by (apply st_lift_Ok; by rewrite Hx). cbn [rq_socket rq_packet rq_next].
    destruct Hi as (I1 & I2 & I3 & I4 & I5 & I6 & I7 & I8). cbn [fst] in *.
    cbn in Hw. rewrite <- app_assoc in Hw.
    destruct (proxy_request_ok s pk n (pi_addr i) (pi_fd i) (pi_accept i) (pi_chunks i)
      (pi_client_accept i) (w_io w) ((items' ≫= item_answers) ++ rest) (serial pk))
      as (n' & E & _ & Q2 & Q3); try done.
    erewrite st_bind_Ok by (apply on_io_ok; exact E). cbn beta iota.
    erewrite st_bind_Ok by (apply server_close_socket_ok; exact Hok).
    erewrite IH; [|exact Hs|cbn in Hf; lia|exact Hit'|by apply mark_socket_ok|reflexivity|congruence
      |congruence].
    cbn. do 3 f_equal. unfold item_events at 2. rewrite <- app_assoc.
    unfold proxy_trace, connect_trace. by rewrite Hh, Hpt.
Qed.

Lemma reply_handled {T1 T2} `{KeyTableSpec T1} `{KeyTableSpec T2}
    (w : world (node T1 T2)) c p q reqs items rest :
  let nd := w_node w in
  default [] (q !! hash_id p) = reqs ->
  is_ctrl (flags p) = true -> has_flag (flags p) PKT_FLAG_LKUP = false ->
  has_flag (flags p) PKT_FLAG_RPLY = true -> id_ok (hash_id p) ->
  rq_rep (n_rt nd) q -> srv_ok (w_srv w) -> Forall2 item_ok items reqs ->
  script (w_io w) = (items ≫= item_answers) ++ rest ->
  exists w', handle_packet c (Some p) w = Ok (CB_REMOVE_CLIENT, w') /\
    w_srv w' = foldl mark_socket (w_srv w) (snd <$> reqs) /\
    n_ht (w_node w') = n_ht nd /\ keeps_place nd (w_node w') /\
    rq_rep (n_rt (w_node w')) (delete (hash_id p) q) /\
    script (w_io w') = rest /\
    trace (w_io w') =
      trace (w_io w) ++ concat (zip_with (item_events (peer_from_packet p)) items reqs).
Proof.
  intros nd Hreqs Hc Hl Hr Hid Hq Hok Hit Hw. unfold handle_packet.
  erewrite st_bind_Ok by (by apply st_lift_Ok). unfold is_ctrl in Hc. rewrite Hc.
  unfold handle_packet_ctrl. erewrite st_bind_Ok by done. fold nd. rewrite Hl, Hr.
  destruct (get_requests_seg (n_rt nd) q (hash_id p) Hq Hid) as (re & xs & Eg & Hs & Hlen).
  rewrite Hreqs in Hs.
  erewrite st_bind_Ok by (apply st_lift_Ok; exact Eg).
  erewrite st_bind_Ok by (eapply (proxy_loop_ok w); [exact Hs|lia|exact Hit|done|exact Hw|done|done]).
  erewrite st_bind_Ok by done. cbn [w_node].
  destruct (clear_requests_ok (n_rt nd) q (hash_id p) Hq Hid) as (t & Et & Hq' & _).
  erewrite st_bind_Ok by (apply st_lift_Ok; exact Et). erewrite st_bind_Ok by done.
  eexists. split; [done|]. done.
Qed.

(** C24. The reply to a lookup: every request queued under the hash id, oldest
    first, is sent to the peer named in the reply and the peer's answer is
    written to the client that asked; those clients are marked for removal and
    the queue is empty afterwards. *)
Theorem reply_proxied {T1 T2} `{KeyTableSpec T1} `{KeyTableSpec T2}
    (w : world (node T1 T2)) c p q items rest :
  let nd := w_node w in
  let reqs := default [] (q !! hash_id p) in
  is_ctrl (flags p) = true -> has_flag (flags p) PKT_FLAG_LKUP = false ->
  has_flag (flags p) PKT_FLAG_RPLY = true -> id_ok (hash_id p) ->
  rq_rep (n_rt nd) q -> srv_ok (w_srv w) -> Forall2 item_ok items reqs ->
  script (w_io w) = (items ≫= item_answers) ++ rest ->
  exists w', handle_packet c (Some p) w = Ok (CB_REMOVE_CLIENT, w') /\
    w_srv w' = foldl mark_socket (w_srv w) (snd <$> reqs) /\
    n_ht (w_node w') = n_ht nd /\ rq_rep (n_rt (w_node w')) (delete (hash_id p) q) /\
    script (w_io w') = rest /\
    trace (w_io w') =
      trace (w_io w) ++ concat (zip_with (item_events (peer_from_packet p)) items reqs).
Proof.
  intros nd reqs Hc Hl Hr Hid Hq Hok Hit Hw.
  destruct (reply_handled w c p q reqs items rest) as (w' & E & S1 & S2 & _ & S3); try done.
  by exists w'.
Qed.

Lemma reply_proxied_witness :
  let pk := mkPacket 4 2 0 (Some (cells [9; 9])) None 0 0 0 0 in
  exists t w', add_request (rtables_empty : rtables uthash) 2313 9 pk = Ok t /\
    handle_packet 1%positive (Some (ctrl_packet 130 2313 7 167772161 5000))
      (mkWorld (one_client 9)
         (mkNode (store_empty : store uthash) t (self example_node) (pred example_node)
            (succ example_node))
         (mkIo (proxy_answers (mkAddr 167772161 5000) 12 64 [[12; 0]; [0; 0; 0; 0; 0]] 64 ++ []) []))
      = Ok (CB_REMOVE_CLIENT, w') /\
    (state <$> client_heap (w_srv w') !! 1%positive) = Some REMOVE /\
    trace (w_io w') =
      [EResolve "10.0.0.1" 5000; ESocket 12; EConnect 12 (mkAddr 167772161 5000);
       ESend 12 (cells [4; 0; 2; 0; 0; 0; 0; 9; 9]); EClose 12;
       ESend 9 (cells [12; 0; 0; 0; 0; 0; 0]); EClose 12].
Proof.
  intros pk.
  destruct (add_request_ok (rtables_empty : rtables uthash) ∅ 2313 9 pk
    (mkPacket 4 2 0 (Some (cells [9; 9])) (Some []) 0 0 0 0) rq_rep_empty)
    as (t & Et & Ht); [split; [discriminate|reflexivity]|reflexivity|reflexivity|].
  destruct (reply_proxied
    (mkWorld (one_client 9)
       (mkNode (store_empty : store uthash) t (self example_node) (pred example_node)
          (succ example_node))
       (mkIo (proxy_answers (mkAddr 167772161 5000) 12 64 [[12; 0]; [0; 0; 0; 0; 0]] 64 ++ []) []))
    1%positive (ctrl_packet 130 2313 7 167772161 5000)
    (<[2313 := [(mkPacket 4 2 0 (Some (cells [9; 9])) (Some []) 0 0 0 0, 9)]]> ∅)
    [mkItem (mkAddr 167772161 5000) 12 64 [[12; 0]; [0; 0; 0; 0; 0]] 64] []) as
    (w' & E & Es & _ & _ & _ & Tr); try reflexivity.
  - split; [discriminate|reflexivity].
  - exact Ht.
  - apply one_client_ok.
  - constructor; [|constructor]. split; [reflexivity|]. split; [split; [reflexivity|discriminate]|].
    split; [discriminate|]. split; [discriminate|]. split; [reflexivity|].
    split; [repeat (apply List.Forall_cons; [discriminate|]); apply List.Forall_nil|].
    split; [split; [reflexivity|discriminate]|discriminate].
  - exists t, w'. split; [exact Et|]. split; [exact E|]. split.
    + rewrite Es. reflexivity.
    + rewrite Tr. vm_compute. reflexivity.
Defined.
