(* ===== verification/NodeRun.v ===== *)
(** * NodeRun: the node always gets on

    [ServerRun.v] shows that the poll loop gets on whenever its callback does.
    This file shows it of the node's callback, [handle_packet]: whatever packets
    arrive and whatever the network answers, no loop of the transfers, of the
    hash tables or of the request lists reaches its bound, and the store and the
    open requests stay well formed. *)

From stdpp Require Import base tactics list numbers option gmap strings.
From S2P Require Import Prelude Sys Packet RingBuffer Util Neighbour KeyTable UtHash HashTable Requests Server ServerRun Peer.

(** ** Computations without effects *)

Lemma fuel_free_store m i b : fuel_free (Prelude.store m i b).
Proof. unfold Prelude.store. by destruct (_ && _). Qed.
Lemma fuel_free_store_block m off bs : fuel_free (store_block m off bs).
Proof. unfold store_block. by destruct (_ && _). Qed.
Lemma fuel_free_memcpy_src p n : fuel_free (memcpy_src p n).
Proof. unfold memcpy_src. destruct p; [auto with fuel|]. by destruct (_ =? _). Qed.
#[export] Hint Resolve fuel_free_store fuel_free_store_block fuel_free_memcpy_src : fuel.

Lemma fuel_free_load_bytes p n : fuel_free (load_bytes p n).
Proof. unfold load_bytes. repeat fuel_step. Qed.
Lemma fuel_free_strncpy m n : fuel_free (strncpy m n).
Proof.
  revert m. induction n as [|n IH]; intros [|[b|] m]; try done. cbn. destruct (b =? 0); [done|].
  apply fuel_free_bind; [apply IH|done].
Qed.
#[export] Hint Resolve fuel_free_load_bytes fuel_free_strncpy : fuel.

Lemma fuel_free_serialize p : fuel_free (packet_serialize p).
Proof.
  unfold packet_serialize, packet_serialize_ctrl, packet_serialize_data. cbv zeta.
  repeat fuel_step.
Qed.
Lemma fuel_free_dup p : fuel_free (packet_dup p).
Proof. unfold packet_dup. repeat fuel_step. Qed.
Lemma fuel_free_pseudo_hash p n : fuel_free (pseudo_hash p n).
Proof. unfold pseudo_hash. repeat fuel_step. Qed.
#[export] Hint Resolve fuel_free_serialize fuel_free_dup fuel_free_pseudo_hash : fuel.

(** [m] does not run out of fuel, and what it returns satisfies [Q]. *)
Definition yields {A} (Q : A -> Prop) (m : res A) : Prop :=
  match m with Ok a => Q a | NoFuel => False | _ => True end.

Lemma yields_fuel_free {A} (m : res A) : fuel_free m -> yields (fun _ => True) m.
Proof. by destruct m. Qed.
Lemma yields_bind {A B} (Q : A -> Prop) (R : B -> Prop) (m : res A) (f : A -> res B) :
  yields Q m -> (forall a, Q a -> yields R (f a)) -> yields R (m ≫= f).
Proof. intros Hm Hf. destruct m; cbn; [by apply Hf|done..]. Qed.

(** ** Transfers take answers and end *)

Lemma takes_bind {A B} (m : ST io A) (f : A -> ST io B) :
  takes m -> (forall a, takes (f a)) -> takes (m ≫= f).
Proof.
  intros Hm Hf i. specialize (Hm i). unfold mbind, st_bind. destruct (m i) as [[a i1]| | |]; [|done..].
  specialize (Hf a i1). destruct (f a i1) as [[b i2]| | |]; [lia|done..].
Qed.
Lemma takes_ret {A} (a : A) : takes (mret a).
Proof. intros i. cbn. lia. Qed.
Lemma takes_lift {A} (m : res A) : fuel_free m -> takes (st_lift m).
Proof. intros Hm i. unfold st_lift. destruct m; [lia|done..]. Qed.
#[export] Hint Resolve takes_ret takes_lift : fuel.

(** A call that takes one answer. *)
Ltac takes_answer :=
  let i := fresh "i" in let x := fresh "x" in let E := fresh "E" in
  intros i; destruct (script i) as [|x ?] eqn:E; [done|]; destruct x; try done;
  repeat (match goal with |- context [if ?b then _ else _] => destruct b end);
  cbn; rewrite ?E; cbn; lia.

Lemma takes_send fd b : takes (sys_send fd b).
Proof. unfold sys_send. takes_answer. Qed.
Lemma takes_socket : takes sys_socket.
Proof. unfold sys_socket. takes_answer. Qed.
Lemma takes_connect fd a : takes (sys_connect fd a).
Proof. unfold sys_connect. takes_answer. Qed.
Lemma takes_getaddrinfo h p : takes (sys_getaddrinfo h p).
Proof. unfold sys_getaddrinfo. takes_answer. Qed.
#[export] Hint Resolve takes_send takes_socket takes_connect takes_getaddrinfo : fuel.

(** Decompose along binds and case distinctions. *)
Ltac takes_step :=
  match goal with
  | |- forall _, _ => intro
  | |- takes (_ ≫= _) => apply takes_bind
  | |- takes (match ?x with _ => _ end) => destruct x
  | |- _ => progress auto 4 with fuel
  end.

(** Every round of [sendall] uses up an answer. *)
Lemma sendall_loop_takes s b n : forall fuel sent i, (length (script i) < fuel)%nat ->
  match sendall_loop fuel s b n sent i with
  | Ok (_, i') => (length (script i') <= length (script i))%nat
  | NoFuel => False
  | _ => True
  end.
Proof.
  induction fuel as [|fuel IH]; intros sent i Hf; [lia|]. cbn [sendall_loop].
  destruct (sent <? n); [|cbn; lia]. unfold mbind, st_bind.
  pose proof (takes_lift (load_block b sent (n - sent)) ltac:(auto with fuel) i) as Hl.
  destruct (st_lift _ i) as [[chunk i1]| | |] eqn:El; [|done..].
  assert (i1 = i) as ->.
  { unfold st_lift in El. destruct (load_block _ _ _); congruence. }
  unfold sys_send. destruct (script i) as [|a sc] eqn:E; [done|]. destruct a; try done.
  assert (forall i' k, script i' = sc ->
    match (if i32 k <? 1 then mret (-1) else sendall_loop fuel s b n (u64 (sent + i32 k))) i' with
    | Ok (_, i'') => (length (script i'') <= S (length sc))%nat
    | NoFuel => False
    | _ => True
    end) as Hk.
  { intros i' k Hi. destruct (_ <? 1); [cbn; rewrite Hi; lia|].
    specialize (IH (u64 (sent + i32 k)) i' ltac:(rewrite Hi; cbn in Hf; lia)).
    destruct (sendall_loop _ _ _ _ _ _) as [[? ?]| | |]; [|done..]. rewrite Hi in IH. cbn. lia. }
  destruct (n0 <? 0); apply Hk; cbn; by rewrite E.
Qed.

Lemma takes_sendall s b n : takes (sendall s b n).
Proof. intros i. apply sendall_loop_takes. lia. Qed.

(** A [recv] that returns something uses up bytes. *)
Lemma recv_uses fd n i :
  match sys_recv fd n i with
  | Ok ((r, _), i') =>
      (length (script i') <= length (script i))%nat /\
      (0 < r -> (script_size i' < script_size i)%nat) /\ -1 <= r
  | NoFuel => False
  | _ => True
  end.
Proof.
  pose proof (takes_recv fd n i) as Hl. revert Hl. unfold sys_recv.
  destruct (Z.leb_spec n 0); [intros; split; [done|split; lia]|].
  destruct (script i) as [|a sc] eqn:E; [done|]. destruct a as [|[bs|]| | | | | | |]; try done.
  assert (0 < Z.min n MAX_RW_COUNT) as Hm by (unfold MAX_RW_COUNT; lia).
  destruct (Z.leb_spec (zlen bs) (Z.min n MAX_RW_COUNT)) as [Hle|Hlt];
    intros Hl; (split; [done|]); unfold script_size, zlen in *; cbn; rewrite ?E; cbn;
    rewrite ?length_drop; split; lia.
Qed.

(** The sizes of the block: they never reach [2^64 - 1], so that an error of
    [recv] always leads out of it. *)
Definition block_size (n : Z) : Prop := 0 <= n < 2 ^ 64 /\ n mod 2 = 0.

Lemma block_size_double n : 0 <= n -> block_size (u64 (n * 2)).
Proof.
  intros Hn. split; [apply u64_range|]. unfold u64. change (2 ^ 64) with (2 * 2 ^ 63).
  rewrite Z.mul_comm, Zmult_mod_distr_l, Z.mul_comm. by rewrite Z.mod_mul.
Qed.

Lemma recvall_loop_takes s : forall fuel buffer buf_size pos i,
  (script_size i < fuel)%nat -> block_size buf_size -> 0 <= pos ->
  match recvall_loop fuel s buffer buf_size pos i with
  | Ok (_, i') => (length (script i') <= length (script i))%nat
  | NoFuel => False
  | _ => True
  end.
Proof.
  induction fuel as [|fuel IH]; intros buffer buf_size pos i Hf Hb Hp; [lia|]. cbn [recvall_loop].
  assert (block_size (if buf_size - pos <? 1
     then (buffer ++ malloc (u64 (buf_size * 2) - buf_size), u64 (buf_size * 2))
     else (buffer, buf_size)).2) as Hb1.
  { destruct (_ <? 1); [|done]. apply block_size_double. apply Hb. }
  destruct (if _ <? 1 then _ else _) as [buffer1 buf_size1]. cbn [snd] in Hb1.
  pose proof (recv_uses s (buf_size1 - pos) i) as Hr. unfold mbind at 1, st_bind at 1.
  destruct (sys_recv _ _ i) as [[[r data] i1]| | |]; [|done..]. destruct Hr as (Hl & Hu & Hr).
  unfold mbind, st_bind, st_lift.
  pose proof (fuel_free_store_block buffer1 pos (cells data)) as Hs.
  destruct (store_block buffer1 pos (cells data)) as [buffer2| | |]; [|done..].
  destruct (Z.ltb_spec (u64 r) 1) as [|Hge]; [cbn; lia|].
  destruct (Z.ltb_spec buf_size1 (pos + u64 r)) as [|Hin]; [done|].
  assert (0 < r) as Hpos.
  { destruct (Z.lt_ge_cases 0 r) as [|Hneg]; [done|]. exfalso.
    assert (r = 0 \/ r = -1) as [-> | ->] by lia; [by apply Hge|].
    change (u64 (-1)) with (2 ^ 64 - 1) in Hin. destruct Hb1 as [Hb1 Hev].
    assert (buf_size1 = 2 ^ 64 - 1) as Hx by lia. rewrite Hx in Hev. discriminate. }
  specialize (Hu Hpos). pose proof (u64_range r).
  specialize (IH buffer2 buf_size1 (pos + u64 r) i1 ltac:(lia) Hb1 ltac:(lia)).
  destruct (recvall_loop _ _ _ _ _ _) as [[? ?]| | |]; [lia|done..].
Qed.

Lemma takes_recvall s : takes (recvall s).
Proof.
  intros i. unfold recvall, mbind, st_bind.
  pose proof (recvall_loop_takes s (S (script_size i)) (malloc 1024) 1024 0 i ltac:(lia)
    ltac:(done) ltac:(done)) as Hl.
  by destruct (recvall_loop _ _ _ _ _ _) as [[? ?]| | |].
Qed.
#[export] Hint Resolve takes_sendall takes_recvall : fuel.

Lemma takes_peer_lookup p : takes (peer_lookup p).
Proof. unfold peer_lookup. repeat takes_step. Qed.
#[export] Hint Resolve takes_peer_lookup : fuel.
Lemma takes_peer_get_ip p : takes (peer_get_ip p).
Proof. unfold peer_get_ip. repeat takes_step. Qed.
Lemma takes_peer_connect_loop pas a p connected : takes (peer_connect_loop pas a p connected).
Proof.
  revert a p connected. induction pas as [|x pas IH]; intros a p connected; cbn [peer_connect_loop].
  - auto with fuel.
  - repeat first [apply IH | takes_step].
Qed.
#[export] Hint Resolve takes_peer_get_ip takes_peer_connect_loop : fuel.
Lemma takes_peer_connect p : takes (peer_connect p).
Proof. unfold peer_connect. repeat takes_step. Qed.
Lemma takes_peer_disconnect p : takes (peer_disconnect p).
Proof. unfold peer_disconnect. repeat takes_step. Qed.
#[export] Hint Resolve takes_peer_connect takes_peer_disconnect : fuel.
Lemma takes_forward p pack : takes (forward p pack).
Proof. unfold forward. repeat takes_step. Qed.
#[export] Hint Resolve takes_forward : fuel.
Lemma takes_proxy_request s p n : takes (proxy_request s p n).
Proof. unfold proxy_request. repeat takes_step. Qed.
#[export] Hint Resolve takes_proxy_request : fuel.

(** ** The handlers *)

Section Handlers.
Context {T1 T2 : Type} `{KTS1 : KeyTableSpec T1} `{KTS2 : KeyTableSpec T2}.
Implicit Types (w : world (node T1 T2)) (nd : node T1 T2) (c : ptr).

(** Who the node is, and who comes before it. *)
Context (me before : Z * string * Z).

(** A key the node is responsible for. *)
Definition own_key (k : list Z) : Prop :=
  Forall byte_ok k -> peer_is_responsible before.1.1 me.1.1 (hash_spec k) = 1.

(** The store is well formed and holds keys of the node only. *)
Definition stored (s : store T1) : Prop :=
  exists m, store_rep s m /\ forall k, is_Some (m !! k) -> own_key k.

Definition waiting (t : rtables T2) : Prop := exists q, rq_rep t q.

(** The invariant of the node. *)
Definition tables_ok nd : Prop :=
  names (self nd) = me /\ names (pred nd) = before /\ stored (n_ht nd) /\ waiting (n_rt nd).

Definition has_room nd : bool := kt_room (ht (n_ht nd)) && kt_room (rt (n_rt nd)).

(** The invariant of packets: [key_len] is a [uint16_t]. *)
Definition key_len_ok (p : option packet) : Prop :=
  match p with Some p => 0 <= key_len p < 2 ^ 16 | None => True end.

Lemma decode_hdr_key_len buffer n p : packet_decode_hdr buffer n = Ok p -> key_len_ok p.
Proof.
  unfold packet_decode_hdr. destruct (n <? PKT_HEADER_LEN); [by intros [= <-]|].
  intros E. inv_res. destruct (has_flag _ _); cbn [negb] in E; inv_res; cbn; [lia|apply u16_range].
Qed.

Lemma decode_body_key_len p buffer n p' :
  key_len_ok (Some p) -> packet_decode_body p buffer n = Ok p' -> key_len_ok p'.
Proof.
  intros Hk. unfold packet_decode_body. cbv zeta. intros E.
  repeat case_match; inv_res; try done.
Qed.

Abbreviation calm := (calm (N := node T1 T2) tables_ok key_len_ok).

Lemma calm_get_node_bind {A} J (f : node T1 T2 -> ST (world (node T1 T2)) A) :
  (forall nd, J nd -> ServerRun.calm J key_len_ok (f nd)) ->
  ServerRun.calm J key_len_ok (get_node ≫= f).
Proof. intros Hf w Hw. apply (Hf (w_node w)); [apply Hw|done]. Qed.

Lemma calm_set_node nd : tables_ok nd -> calm (set_node nd).
Proof. intros Hn w [Hj Hk]. cbn. by split. Qed.
Lemma calm_set_ht s : stored s -> calm (set_ht s).
Proof. intros Hs. apply calm_get_node_bind. intros nd (? & ? & _ & ?). by apply calm_set_node. Qed.
Lemma calm_set_rt t : waiting t -> calm (set_rt t).
Proof. intros Hs. apply calm_get_node_bind. intros nd (? & ? & ? & _). by apply calm_set_node. Qed.
Lemma calm_set_succ p : calm (set_succ p).
Proof. apply calm_get_node_bind. intros nd Hr. by apply calm_set_node. Qed.

(** ** What the tables answer *)

Lemma load_bytes_len p n k : load_bytes p n = Ok k -> zlen k = n.
Proof. intros Hk. by destruct (load_bytes_copy _ _ _ Hk). Qed.

Lemma htable_get_yields s k n : stored s -> n < 2 ^ 16 -> fuel_free (htable_get s k n).
Proof.
  intros (m & Hs & _) Hn. unfold fuel_free. destruct (load_bytes k n) as [bs| | |] eqn:E.
  - assert (key_fits bs) as Hf by (apply load_bytes_len in E; unfold key_fits; lia).
    by destruct (htable_get_ok s m k n bs Hs E Hf) as (o & -> & _).
  - unfold htable_get. by rewrite E.
  - unfold htable_get. by rewrite E.
  - by destruct (fuel_free_load_bytes k n).
Qed.

Lemma htable_set_yields s k n v l :
  stored s -> kt_room (ht s) = true -> n < 2 ^ 16 ->
  (forall bs, load_bytes k n = Ok bs -> own_key bs) -> yields stored (htable_set s k n v l).
Proof.
  intros (m & Hs & Hm) Hroom Hn Hk.
  destruct (load_bytes k n) as [bs| | |] eqn:E;
    [|unfold htable_set; by rewrite E..|by destruct (fuel_free_load_bytes k n)].
  assert (key_fits bs) as Hf by (apply load_bytes_len in E; unfold key_fits; lia).
  destruct (memcpy_src v l) as [vs| | |] eqn:Ev; [|shelve..|by destruct (fuel_free_memcpy_src v l)].
  - destruct (htable_set_ok s m k n v l bs vs) as (s' & -> & Hs'); try done; [by eapply memcpy_src_wf|].
    eexists. split; [exact Hs'|]. intros k' [x Hx].
    apply lookup_insert_Some in Hx as [[<- _]|[_ Hx]]; [by apply Hk|]. apply Hm. by eexists.
    Unshelve.
    + by rewrite (htable_set_bad_value s m k n v l bs).
    + exfalso. unfold memcpy_src, load_block in Ev. repeat case_match; done.
Qed.

Lemma htable_delete_yields s k n :
  stored s -> n < 2 ^ 16 -> yields (fun r => stored r.2) (htable_delete s k n).
Proof.
  intros (m & Hs & Hm) Hn.
  destruct (load_bytes k n) as [bs| | |] eqn:E;
    [|unfold htable_delete; by rewrite E..|by destruct (fuel_free_load_bytes k n)].
  assert (key_fits bs) as Hf by (apply load_bytes_len in E; unfold key_fits; lia).
  destruct (htable_delete_ok s m k n bs Hs E Hf) as (s' & -> & Hs' & _).
  exists (delete bs m). split; [done|]. intros k' [x [_ Hx]%lookup_delete_Some].
  apply Hm. by eexists.
Qed.

Lemma own_request_yields s p :
  stored s -> kt_room (ht s) = true -> key_len p < 2 ^ 16 ->
  (forall k, load_bytes (key p) (key_len p) = Ok k -> own_key k) ->
  yields (fun r => stored r.1) (own_request s p).
Proof.
  intros Hs Hroom Hp Hk. unfold own_request. repeat case_match; [| | |done].
  - apply (yields_bind (fun _ => True)); [|done]. apply yields_fuel_free. unfold get_ack.
    apply fuel_free_bind; [by apply htable_get_yields|]. intros o _. repeat fuel_step.
  - eapply yields_bind; [by apply htable_set_yields|]. intros s' Hs'.
    eapply (yields_bind (fun _ => True)); [|done]. by apply yields_fuel_free, htable_get_yields.
  - eapply yields_bind; [by apply htable_delete_yields|]. by intros [? s'] Hs'.
Qed.

(** Only the low sixteen bits of a hash id are looked at. *)
Lemma hash_id_key_u16 h : hash_id_key h = hash_id_key (u16 h).
Proof.
  unfold hash_id_key, byte_at, u8, u16. change 255 with (Z.ones 8). rewrite !Z.land_ones by lia.
  rewrite !Z.shiftr_div_pow2 by lia. change (2 ^ 16) with 65536. change (2 ^ 8) with 256.
  change (2 ^ 0) with 1. f_equal; [|f_equal]; Z.to_euclidean_division_equations; lia.
Qed.

Lemma get_requests_yields t h :
  waiting t -> exists re xs q, get_requests t h = Ok re /\ rseg (rq_nodes t) re xs q /\
    (length xs <= size (rq_nodes t))%nat.
Proof.
  intros [m Hm]. destruct (get_requests_seg t m (u16 h) Hm (u16_range h)) as (re & xs & E & Hs & Hl).
  exists re, xs, (default [] (m !! u16 h)). split; [|done].
  unfold get_requests in *. by rewrite hash_id_key_u16.
Qed.

Lemma clear_requests_yields t h : waiting t -> yields waiting (clear_requests t h).
Proof.
  intros [m Hm]. destruct (clear_requests_ok t m (u16 h) Hm (u16_range h)) as (t' & E & Hm' & _).
  unfold clear_requests in *. rewrite hash_id_key_u16, E. by eexists.
Qed.

Lemma add_request_yields t h s p :
  waiting t -> id_ok h -> kt_room (rt t) = true -> yields waiting (add_request t h s p).
Proof.
  intros [m Hm] Hh Hroom. destruct (packet_dup p) as [d| | |] eqn:E;
    [|unfold add_request; by rewrite E..|by destruct (fuel_free_dup p)].
  destruct (add_request_ok t m h s p d Hm Hh E Hroom) as (t' & -> & Hm'). by eexists.
Qed.

Lemma pseudo_hash_id p n h : pseudo_hash p n = Ok h -> id_ok h.
Proof.
  unfold pseudo_hash. intros E. repeat case_match; inv_res; [apply u16_range..|done].
Qed.

(** ** The handlers *)

Lemma calm_close_socket J s : ServerRun.calm (N := node T1 T2) J key_len_ok (server_close_socket s).
Proof.
  apply calm_bind; [auto with fuel|]. intros srv. induction (clients srv) as [|x cs IH];
    cbn [close_socket_loop]; [auto with fuel|]. apply calm_get_client_bind. intros cl Hcl.
  destruct (_ =? _); [by apply calm_set_client|apply IH].
Qed.

(** Nothing touches the list while it is walked. *)
Lemma proxy_loop_calm t : forall xs fuel re q n,
  rseg (rq_nodes t) re xs q -> (length xs <= fuel)%nat ->
  ServerRun.calm (fun nd => tables_ok nd /\ n_rt nd = t) key_len_ok (proxy_loop fuel n re).
Proof.
  induction xs as [|x xs IH]; intros fuel re [|[p s] q] n Hs Hf; try done.
  - cbn in Hs. subst re. destruct fuel; cbn; auto with fuel.
  - destruct Hs as (-> & nx & Hx & Hs). destruct fuel as [|fuel]; [cbn in Hf; lia|].
    cbn [proxy_loop]. apply calm_get_node_bind. intros nd [_ ->].
    rewrite Hx. apply calm_lift_bind; [done|]. intros r [= <-]. cbn [rq_packet rq_socket rq_next].
    apply calm_bind; [auto with fuel|]. intros [? n1].
    apply calm_bind; [apply calm_close_socket|]. intros _. apply (IH fuel nx q); [done|].
    cbn in Hf. lia.
Qed.

Lemma calm_release p :
  calm (nd ← get_node; r ← st_lift (get_requests (n_rt nd) (hash_id p));
        proxy_loop (S (size (rq_nodes (n_rt nd)))) (peer_from_packet p) r).
Proof.
  intros w [Hj Hk].
  destruct (get_requests_yields (n_rt (w_node w)) (hash_id p)) as (re & xs & q & E & Hs & Hl);
    [apply Hj|].
  erewrite st_bind_Ok by done. erewrite st_bind_Ok by (apply st_lift_Ok; exact E).
  pose proof (proxy_loop_calm (n_rt (w_node w)) xs (S (size (rq_nodes (n_rt (w_node w))))) re q
    (peer_from_packet p) Hs ltac:(lia) w (conj (conj Hj eq_refl) Hk)) as Hp.
  destruct (proxy_loop _ _ _ w) as [[[] w']| | |]; [|done..].
  destruct Hp as ([[Hj' _] Hk'] & Hc & Hsc). split; [by split|done].
Qed.

(** ** [handle_packet] *)

Lemma calm_yields_bind {A B} (Q : A -> Prop) (m : res A) (f : A -> ST (world (node T1 T2)) B) :
  yields Q m -> (forall a, Q a -> calm (f a)) -> calm (st_lift m ≫= f).
Proof.
  intros Hm Hf. apply calm_lift_bind; [by destruct m|]. intros a ->. by apply Hf.
Qed.

Lemma calm_own_request c p nd :
  tables_ok nd -> has_room nd = true -> key_len p < 2 ^ 16 ->
  (forall k, load_bytes (key p) (key_len p) = Ok k -> own_key k) ->
  calm ('(s, ack) ← st_lift (own_request (n_ht nd) p);
        set_ht s;;
        '(serialized_pack, packet_size) ← st_lift (packet_serialize ack);
        cl ← get_client c;
        _ ← on_io (sendall (c_socket cl) serialized_pack packet_size);
        mret CB_REMOVE_CLIENT).
Proof.
  intros (_ & _ & Hs & _) [Hr _]%andb_true_iff Hp Hk.
  apply (calm_yields_bind (fun r => stored r.1)); [by apply own_request_yields|].
  intros [s ack] Hs'. apply calm_bind; [by apply calm_set_ht|]. repeat calm_step.
Qed.

Lemma calm_lookup_peer h : calm (lookup_peer h).
Proof.
  apply calm_get_node_bind. intros nd _.
  repeat first [apply calm_set_succ | calm_step | cbv zeta].
Qed.

Lemma calm_answer_lookup p n : calm (answer_lookup p n).
Proof. unfold answer_lookup. repeat first [calm_step | cbv zeta]. Qed.

Lemma calm_ctrl c p : calm (handle_packet_ctrl c p).
Proof.
  unfold handle_packet_ctrl. destruct (has_flag (flags p) PKT_FLAG_LKUP) eqn:El.
  - apply calm_get_node_bind. intros nd _.
    repeat first [apply calm_answer_lookup | apply calm_set_succ | calm_step].
  - destruct (has_flag (flags p) PKT_FLAG_RPLY) eqn:Er;
      [|apply calm_get_node_bind; auto with fuel].
    intros w Hw. pose proof (calm_release p w Hw) as Hp. revert Hp. unfold mbind, st_bind, get_node.
    destruct (st_lift (get_requests _ _) w) as [[r w1]| | |]; [|done..].
    destruct (proxy_loop _ _ _ w1) as [[[] w2]| | |]; [|done..]. intros (Hw2 & Hc2 & Hl2).
    assert (calm (nd ← get_node; t ← st_lift (clear_requests (n_rt nd) (hash_id p));
                  set_rt t;; mret CB_REMOVE_CLIENT)) as Hrest.
    { apply calm_get_node_bind. intros nd (_ & _ & _ & Hr). eapply calm_yields_bind;
        [by apply clear_requests_yields|]. intros t Ht.
      apply calm_bind; [by apply calm_set_rt|]. auto with fuel. }
    specialize (Hrest w2 Hw2). revert Hrest. unfold mbind, st_bind, get_node.
    destruct (st_lift (clear_requests _ _) w2) as [[t w3]| | |]; [|done..].
    destruct (set_rt t w3) as [[[] w4]| | |]; [|done..]. cbn. rewrite Hc2.
    intros (? & ? & ?). split; [done|]. split; [done|lia].
Qed.

(** The tables have room whenever a packet is delivered: [uthash_malloc] would fail
    long before, and [uthash_fatal] ends the process. *)
Definition until_full : callback (node T1 T2) := fun c p w =>
  if has_room (w_node w) then handle_packet c p w else Block.

Lemma until_full_keeps c p : keeps_at c (until_full c p).
Proof.
  intros w a w' Hok Hal. unfold until_full. destruct (has_room _); [|done].
  by apply handle_packet_keeps.
Qed.

Lemma calm_data c p w :
  key_len p < 2 ^ 16 -> settled tables_ok key_len_ok w -> has_room (w_node w) = true ->
  match handle_packet_data c p w with
  | Ok (_, w') => settled tables_ok key_len_ok w' /\ clients (w_srv w') = clients (w_srv w) /\
      (length (script (w_io w')) <= length (script (w_io w)))%nat
  | NoFuel => False
  | _ => True
  end.
Proof.
  intros Hp Hw Hr. unfold handle_packet_data.
  destruct (pseudo_hash (key p) (key_len p)) as [h| | |] eqn:Eh;
    [|unfold mbind, st_bind, st_lift; by rewrite ?Eh..
     |by destruct (fuel_free_pseudo_hash (key p) (key_len p))].
  erewrite st_bind_Ok by (by apply st_lift_Ok). erewrite st_bind_Ok by done.
  destruct (negb (peer_is_responsible (peer_node_id (pred _)) _ _ =? 0)) eqn:Eo;
    [|destruct (negb (peer_is_responsible (peer_node_id (self _)) _ _ =? 0))].
  - unfold handle_own_request. erewrite st_bind_Ok by done.
    apply (calm_own_request c p (w_node w)); try done; [apply Hw|]. intros k Hk Hb.
    rewrite (pseudo_hash_bytes _ _ k) in Eh by done. injection Eh as <-.
    destruct Hw as [(Hs & Hb' & _) _]. rewrite <- Hs, <- Hb'. cbn [names fst].
    by rewrite (test_01 _ _ _ _ Eo).
  - generalize (succ (w_node w)) as sc. intros sc. clear Hr Eo. revert w Hw.
    change (calm (cl ← get_client c;
      '(r, s) ← on_io (proxy_request (c_socket cl) p sc); set_succ s;; mret r)).
    repeat first [apply calm_set_succ | calm_step].
  - pose proof Hw as [(_ & _ & _ & Ht) _]. pose proof Hr as [_ Hr2]%andb_true_iff.
    pose proof (pseudo_hash_id _ _ _ Eh) as Hh. revert Ht Hr2. generalize (n_rt (w_node w)) as t.
    intros t Ht Hr2. clear Hr Eo. revert w Hw.
    change (calm (cl ← get_client c; t ← st_lift (add_request t h (c_socket cl) p);
      set_rt t;; _ ← lookup_peer h; mret CB_OK)).
    apply calm_get_client_bind. intros cl _.
    eapply calm_yields_bind; [by apply add_request_yields|]. intros t' Ht'.
    apply calm_bind; [by apply calm_set_rt|]. intros _.
    apply calm_bind; [apply calm_lookup_peer|]. auto with fuel.
Qed.

Lemma calm_until_full c p : key_len_ok p -> calm (until_full c p).
Proof.
  intros Hp w Hw. unfold until_full. destruct (has_room (w_node w)) eqn:Hr; [|done].
  destruct p as [p|]; [|done]. unfold handle_packet. erewrite st_bind_Ok by done.
  destruct (has_flag (flags p) PKT_FLAG_CTRL); [by apply calm_ctrl|].
  apply calm_data; [apply Hp|done..].
Qed.
End Handlers.

(** ** Properties *)

(** C6. The node always gets on.  A running node, as long as its tables have room
    for another entry, never loops: for every behaviour of the network and of the
    other nodes (any connections, any bytes in any pieces, any failures of
    resolving, connecting, sending and receiving) no loop of the poll loop, the
    transfers, the hash tables or the request lists reaches its bound.  When the
    node stops no client is left in its list or in memory (that each is closed:
    [server_stop_closes_all]), its store and its open requests are well formed, every key stored is one the node is responsible
    for, and it is still who it was. *)
Theorem node_run_terminates {T1 T2} `{KeyTableSpec T1} `{KeyTableSpec T2} me before
    (w : world (node T1 T2)) :
  srv_ok (w_srv w) -> unmarked (w_srv w) -> settled (tables_ok me before) key_len_ok w ->
  match server_run until_full w with
  | Ok (_, w') =>
      clients (w_srv w') = [] /\ client_heap (w_srv w') = ∅ /\ tables_ok me before (w_node w')
  | NoFuel => False
  | _ => True
  end.
Proof.
  intros Hok Hu Hw. apply (server_run_terminates (tables_ok me before) key_len_ok until_full);
    try done.
  - apply until_full_keeps.
  - intros c p. apply calm_until_full.
  - intros buffer n p. apply decode_hdr_key_len.
  - intros p buffer n p'. apply decode_body_key_len.
Qed.

(** A client sends SET in three pieces to the node that owns the key and is
    answered; then standard input ends the run. *)
Lemma node_run_terminates_witness :
  let w := mkWorld (mkServer 3 0 false [] ∅) example_node
             (mkIo [AListen 0; APoll 1 [false; true]; AAccept 9;
                    APoll 1 [false; false; true]; ARecv (Some [2; 0; 2]);
                    APoll 1 [false; false; true]; ARecv (Some [0; 0; 0; 1]);
                    APoll 1 [false; false; true]; ARecv (Some [1; 40; 65]); ASend 64;
                    APoll 1 [true]] []) in
  let inv := tables_ok (names (self example_node)) (names (pred example_node)) in
  exists w', server_run until_full w = Ok (tt, w') /\ inv (w_node w') /\
    clients (w_srv w') = [] /\ client_heap (w_srv w') = ∅.
Proof.
  intros w inv.
  assert (match server_run until_full w with
          | Ok (_, w') => clients (w_srv w') = [] /\ client_heap (w_srv w') = ∅ /\
                          inv (w_node w')
          | NoFuel => False
          | _ => True
          end) as H.
  { apply (node_run_terminates (names (self example_node)) (names (pred example_node)) w).
    - split; [constructor|]. split; [|reflexivity]. intros x. cbn. rewrite lookup_empty.
      split; [intros Hx; by apply not_elem_of_nil in Hx|by intros [? ?]].
    - intros c. reflexivity.
    - split; [|intros c cl; cbn; rewrite lookup_empty; discriminate].
      split; [reflexivity|]. split; [reflexivity|]. split; [|exists ∅; apply rq_rep_empty].
      exists ∅. split; [apply store_rep_empty|]. intros k [x Hx]. rewrite lookup_empty in Hx.
      discriminate. }
  assert (match server_run until_full w with Ok _ => true | _ => false end = true) as E
    by (vm_compute; reflexivity).
  destruct (server_run until_full w) as [[[] w']| | |]; [|discriminate E..].
  destruct H as (H1 & H2 & H3). exists w'. split; [reflexivity|]. split; [exact H3|].
  split; [exact H1|exact H2].
Defined.
