(* ===== verification/Lookup.v ===== *)
(** * Lookup: what one node does with the bytes of a request or a lookup

    The single steps of a request on its way: a node keeps it and sends a lookup,
    or hands it to the successor that owns the key; a node answers a lookup; a
    node uses the reply.  Each starts with the bytes a node reads, cut anew by the
    network.  [Routing.v] puts the steps together around a ring. *)

From stdpp Require Import base tactics list numbers option gmap strings sorting.
From S2P Require Import Prelude Packet Sys RingBuffer Util Neighbour KeyTable UtHash HashTable.
From S2P Require Import Requests Server Peer.

(** The bytes [bs], cut into pieces that arrive one by one. *)
Definition pieces (bs : list Z) (cs : list (list Z)) : Prop :=
  concat cs = bs /\ Forall (fun x => x <> []) cs.

(** [c] is connected and between two packets. *)
Definition ready {N} (w : world N) (c : ptr) (cl : client) : Prop :=
  srv_ok (w_srv w) /\ c ∈ clients (w_srv w) /\ points_to w c cl /\ collecting cl [].

(** The bytes [bs] are read as the packet [pk]. *)
Definition framed (bs : list Z) (pk : packet) : Prop :=
  exists h b p, bs = h ++ b /\ zlen h = 7 /\ packet_decode_hdr (cells h) 7 = Ok (Some p) /\
    zlen b = packet_body_size p /\ 0 < packet_body_size p < 2 ^ 31 /\
    packet_decode_body p (cells b) (zlen b) = Ok (Some pk).

Lemma framed_data fl k v :
  is_ctrl fl = false -> zlen k < 2 ^ 16 -> 0 < zlen k + zlen v < 2 ^ 31 ->
  framed (wire_data fl k v) (data_packet fl k v).
Proof.
  intros Hfl Hk Hkv. destruct (wire_data_split fl k v Hfl Hk ltac:(lia)) as (h & p & E & H1 & H2 & H3 & H4).
  exists h, (k ++ v), p. rewrite H3, zlen_app in *. rewrite <- zlen_app in *. split_and!; try done; lia.
Qed.

Lemma framed_ctrl fl hid nid ip port :
  is_ctrl fl = true -> 0 <= hid < 2 ^ 16 -> 0 <= nid < 2 ^ 16 -> 0 <= ip < 2 ^ 32 ->
  0 <= port < 2 ^ 16 ->
  framed (wire_ctrl (ctrl_packet fl hid nid ip port)) (ctrl_packet fl hid nid ip port).
Proof.
  intros Hfl Hh Hi Hip Hpt.
  exists [fl; byte_at hid 8; byte_at hid 0; byte_at nid 8; byte_at nid 0; byte_at ip 24;
          byte_at ip 16], [byte_at ip 8; byte_at ip 0; byte_at port 8; byte_at port 0].
  eexists. split; [done|]. split; [done|].
  split; [rewrite <- (app_nil_r (cells _)), packet_decode_hdr_bytes, Hfl by lia; reflexivity|].
  assert (packet_body_size (ctrl_packet fl (dec_u16 (byte_at hid 8) (byte_at hid 0))
    (dec_u16 (byte_at nid 8) (byte_at nid 0))
    (u32 (Z.lor (i32 (Z.shiftl (byte_at ip 24) 24)) (Z.shiftl (byte_at ip 16) 16))) 0) = 4) as ->.
  { unfold packet_body_size. unfold is_ctrl in Hfl. cbn [flags ctrl_packet]. by rewrite Hfl. }
  split; [done|]. split; [lia|].
  rewrite <- (app_nil_r (cells [byte_at ip 8; _; _; _])), packet_decode_body_ctrl by done.
  unfold ctrl_packet. cbn [flags key_len value_len key value hash_id node_id node_ip].
  by rewrite dec_ip_halves, dec_u32_be, !dec_u16_be by (apply byte_at_range || done).
Qed.

(** A data packet that is read from bytes is one a sender could have written. *)
Lemma framed_data_inv bs pk :
  framed bs pk -> Forall byte_ok bs -> is_ctrl (flags pk) = false ->
  exists fl k v, pk = data_packet fl k v /\ byte_ok fl /\ Forall byte_ok k /\
    zlen k < 2 ^ 16 /\ zlen k + zlen v < 2 ^ 31.
Proof.
  intros (h & b & p & -> & Hh & Hd & Hb & Hsz & Hdb) [Hhb Hbb]%Forall_app Hc.
  do 7 (destruct h as [|? h]; [done|]). destruct h; [|unfold zlen in Hh; cbn in Hh; lia].
  rewrite <- (app_nil_r (cells _)), packet_decode_hdr_bytes in Hd by lia. injection Hd as <-.
  destruct (is_ctrl z) eqn:Hz.
  { destruct b as [|b0 [|b1 [|b2 [|b3 b]]]];
      try (rewrite packet_decode_body_ctrl_short in Hdb by done; done).
    change (cells (b0 :: b1 :: b2 :: b3 :: b)) with (cells [b0; b1; b2; b3] ++ cells b) in Hdb.
    rewrite packet_decode_body_ctrl in Hdb by done. injection Hdb as <-. cbn in Hc. congruence. }
  set (kl := dec_u16 z0 z1) in *. set (vl := dec_u32 z2 z3 z4 z5) in *.
  assert (0 <= kl < 2 ^ 16) as Hkl by apply u16_range.
  assert (0 <= vl < 2 ^ 32) as Hvl by apply u32_range.
  rewrite packet_decode_body_data_cases in Hdb; [|done..|cbn; lia|cbn; lia].
  cbn [key_len value_len flags] in Hdb.
  destruct (zlen b <? u32 (kl + vl)); [done|]. rewrite zlen_cells in Hdb.
  destruct (Z.leb_spec (kl + vl) (zlen b)) as [Hle|]; [|done]. injection Hdb as <-.
  exists z, (take (Z.to_nat kl) b), (take (Z.to_nat vl) (drop (Z.to_nat kl) b)).
  assert (zlen (take (Z.to_nat kl) b) = kl) as Hk1.
  { unfold zlen in *. rewrite length_take. lia. }
  assert (zlen (take (Z.to_nat vl) (drop (Z.to_nat kl) b)) = vl) as Hv1.
  { unfold zlen in *. rewrite length_take, length_drop. lia. }
  assert (forall (n : Z) (l : list Z), zlen l = n ->
    (if 0 <? n then Some (cells l) else None) = nullable l) as Hnull.
  { intros n l <-. destruct l; [done|]. by rewrite (proj2 (Z.ltb_lt _ _)) by (unfold zlen; cbn; lia). }
  unfold data_packet. rewrite Hk1, Hv1. rewrite <- Hb in Hsz. split_and!.
  - unfold cells. rewrite <- fmap_drop, <- !fmap_take. fold (cells (take (Z.to_nat kl) b)).
    fold (cells (take (Z.to_nat vl) (drop (Z.to_nat kl) b))). by rewrite !Hnull.
  - by apply Forall_cons in Hhb as [? _].
  - by apply Forall_take.
  - lia.
  - lia.
Qed.

Section Receive.
Context {N : Type} (cb : callback N).
Implicit Types (w : world N) (c : ptr).

(** A packet arrives: the loop comes to the delivery, nothing else happens. *)
Lemma received w fd c cl bs cs rest pk :
  ready w c cl -> framed bs pk -> pieces bs cs -> script (w_io w) = chunks cs ++ rest ->
  exists j cl1, let w1 := with_client c cl1 (with_io (mkIo rest (trace (w_io w))) w) in
    client_inputs cb j fd c w = server_deliver_packet cb c w1 /\
    c_socket cl1 = c_socket cl /\ pack cl1 = Some pk /\ ready w1 c cl1.
Proof.
  intros (Hok & Hc & Hp & Hcol) (h & b & p & -> & Hh & Hd & Hb & Hsz & Hdb) [Hcat Hne] Hs.
  destruct (header_run cb w fd c cl [] cs rest h b p (Some pk)) as (j & w1 & E & _ & Hdel);
    try done.
  destruct Hdel as (cl1 & -> & Hs1 & Hpk & _ & Hcol1). exists j, cl1.
  split; [exact E|]. split; [done|]. split; [done|]. split; [|split; [done|split; [|done]]].
  - destruct Hok as (Hnd & Hdom & Hn). split; [done|]. split; [|done]. intros x. cbn.
    destruct (decide (c = x)) as [<-|Hx]; [|rewrite lookup_insert_ne by done; apply Hdom].
    rewrite lookup_insert_eq. split; [by eexists|done].
  - apply points_to_with_client.
Qed.

(** A delivery after which the client goes. *)
Lemma delivered_removed c cl p w w2 cl2 :
  points_to w c cl -> pack cl = Some p -> cb c (Some p) w = Ok (CB_REMOVE_CLIENT, w2) ->
  c ∈ clients (w_srv w2) -> points_to w2 c cl2 ->
  server_deliver_packet cb c w = Ok (tt, removed c cl2 w2).
Proof.
  intros Hp Hpk E Hc Hp2. unfold server_deliver_packet.
  erewrite st_bind_Ok by (by apply get_client_ok). rewrite Hpk.
  erewrite st_bind_Ok by exact E.
  change (CB_REMOVE_CLIENT =? CB_REMOVE_CLIENT) with true. cbv iota.
  by apply server_remove_client_ok.
Qed.
End Receive.

(** Marking changes no socket and no list. *)
Lemma marked_same cs s :
  srv_ok s -> srv_ok (foldl mark_socket s cs) /\ clients (foldl mark_socket s cs) = clients s /\
    forall c, c_socket <$> client_heap (foldl mark_socket s cs) !! c = c_socket <$> client_heap s !! c.
Proof.
  revert s. induction cs as [|x cs IH]; intros s Hok; [done|]. cbn.
  destruct (IH (mark_socket s x) (mark_socket_ok s x Hok)) as (H1 & H2 & H3).
  split; [done|]. unfold mark_socket in *.
  destruct (first_with (client_heap s) x (clients s)) as [[y cy]|] eqn:E; [|done].
  split; [done|]. intros c. rewrite H3. cbn. destruct (decide (y = c)) as [->|Hne];
    [|by rewrite lookup_insert_ne].
  rewrite lookup_insert_eq. revert E. generalize (clients s).
  induction l as [|z l IHl]; [done|]. cbn. destruct (client_heap s !! z) as [cz|] eqn:Ez; [|done].
  destruct (c_socket cz =? x); [|done]. intros [= -> ->]. by rewrite Ez.
Qed.

(** A request as it is kept while the owner is looked up. *)
Definition queued (fl : Z) (k v : list Z) : packet :=
  mkPacket fl (zlen k) (zlen v) (Some (cells k)) (Some (cells v)) 0 0 0 0.

Lemma dup_data fl k v : packet_dup (data_packet fl k v) = Ok (queued fl k v).
Proof.
  unfold packet_dup, data_packet. cbn [key key_len value value_len].
  destruct (load_bytes_inv _ _ _ (load_nullable k)) as (-> & _ & _).
  by destruct (load_bytes_inv _ _ _ (load_nullable v)) as (-> & _ & _).
Qed.

Lemma serialize_queued fl k v :
  is_ctrl fl = false -> zlen k < 2 ^ 16 -> zlen v < 2 ^ 32 ->
  packet_serialize (queued fl k v) =
    Ok (cells (wire_data fl k v), zlen (cells (wire_data fl k v))).
Proof.
  intros Hfl Hk Hv. unfold packet_serialize. unfold is_ctrl in Hfl. cbn [flags queued]. rewrite Hfl.
  rewrite (packet_serialize_data_wire _ k v) by (done || by apply load_bytes_exact).
  rewrite zlen_cells, zlen_wire_data. done.
Qed.

Lemma serialize_request fl k v :
  is_ctrl fl = false -> zlen k < 2 ^ 16 -> zlen v < 2 ^ 32 ->
  packet_serialize (data_packet fl k v) =
    Ok (cells (wire_data fl k v), zlen (cells (wire_data fl k v))).
Proof.
  intros Hfl Hk Hv. unfold packet_serialize. unfold is_ctrl in Hfl. cbn [flags data_packet]. rewrite Hfl.
  rewrite (packet_serialize_data_wire _ k v) by (done || apply load_nullable).
  by rewrite zlen_cells, zlen_wire_data.
Qed.

Section Stages.
Context {T1 T2 : Type} `{KTS1 : KeyTableSpec T1} `{KTS2 : KeyTableSpec T2}.
Implicit Types (w : world (node T1 T2)) (nd : node T1 T2).

(** The answers of the responsibility test at a node: for itself and for its
    successor. *)
Definition owns nd (h : Z) : Z :=
  peer_is_responsible (peer_node_id (pred nd)) (peer_node_id (self nd)) h.
Definition succ_owns nd (h : Z) : Z :=
  peer_is_responsible (peer_node_id (self nd)) (peer_node_id (succ nd)) h.

(** The packets of the protocol: the node at [ip] asks, and is told of the
    successor at [ip]. *)
Definition lookup_packet nd (h ip : Z) : packet :=
  ctrl_packet 129 h (peer_node_id (self nd)) ip (port (self nd)).
Definition reply_packet nd (h ip : Z) : packet :=
  ctrl_packet 130 h (peer_node_id (succ nd)) ip (port (succ nd)).

Definition peer_wf (p : peer) : Prop := 0 <= peer_node_id p < 2 ^ 16 /\ 0 <= port p < 2 ^ 16.

Lemma request_queued w c cl cs fl k v q a0 a fd n rest :
  let nd := w_node w in
  let h := hash_spec k in
  ready w c cl -> pieces (wire_data fl k v) cs -> is_ctrl fl = false -> Forall byte_ok k ->
  zlen k < 2 ^ 16 -> 0 < zlen k + zlen v < 2 ^ 31 -> owns nd h = 0 -> succ_owns nd h = 0 ->
  rq_rep (n_rt nd) q -> kt_room (rt (n_rt nd)) = true ->
  script (w_io w) = chunks cs ++ AAddrinfo (Some [a0]) :: forward_answers a fd n ++ rest ->
  0 <= fd -> 11 <= n ->
  exists j w' cl', client_inputs handle_packet j (c_socket cl) c w = Ok (tt, w') /\
    n_ht (w_node w') = n_ht nd /\ keeps_place nd (w_node w') /\ ready w' c cl' /\ c_socket cl' = c_socket cl /\
    rq_rep (n_rt (w_node w'))
      (<[h := default [] (q !! h) ++ [(queued fl k v, c_socket cl)]]> q) /\
    script (w_io w') = rest /\
    trace (w_io w') = trace (w_io w) ++
      [EResolve (hostname (self nd)) (port (self nd))] ++ connect_trace (succ nd) a fd ++
      [ESend fd (cells (wire_ctrl (lookup_packet nd h (sin_addr a0)))); EClose fd].
Proof.
  intros nd h Hr Hcs Hfl Hb Hk Hkv Ho1 Ho2 Hq Hroom Hs Hfd Hn.
  destruct (received handle_packet w (c_socket cl) c cl _ cs _ _ Hr
    (framed_data fl k v Hfl Hk Hkv) Hcs Hs) as (j & cl1 & E & Hs1 & Hpk & Hr1).
  set (w1 := with_client c cl1 _) in *. pose proof Hr1 as (_ & _ & Hp1 & _).
  destruct (lookup_started w1 c cl1 (data_packet fl k v) k (queued fl k v) q a0 a fd n rest)
    as (w' & E' & S1 & S2 & S2' & S3 & S4 & S5); try done.
  { apply load_nullable. }
  { apply dup_data. }
  exists j, w', cl1. split.
  - rewrite E. unfold server_deliver_packet. erewrite st_bind_Ok by (apply get_client_ok; exact Hp1).
    rewrite Hpk. erewrite (st_bind_Ok _ _ _ CB_OK w'); [reflexivity|].
    unfold handle_packet. erewrite st_bind_Ok by (by apply st_lift_Ok).
    unfold is_ctrl in Hfl. cbn [flags data_packet]. by rewrite Hfl.
  - rewrite Hs1 in S3. unfold ready, points_to in Hr1 |- *. rewrite S1. done.
Qed.

Lemma lookup_replied w c cl cs L h nid ip pt a0 a fd n rest :
  let nd := w_node w in
  L = ctrl_packet 129 h nid ip pt ->
  ready w c cl -> framed (wire_ctrl L) L -> pieces (wire_ctrl L) cs ->
  owns nd h = 0 -> succ_owns nd h = 1 ->
  script (w_io w) = chunks cs ++ AAddrinfo (Some [a0]) :: forward_answers a fd n ++ rest ->
  0 <= fd -> 11 <= n ->
  exists j w', client_inputs handle_packet j (c_socket cl) c w = Ok (tt, w') /\
    w_node w' = nd /\ clients (w_srv w') = filter (fun x => x <> c) (clients (w_srv w)) /\
    script (w_io w') = rest /\
    trace (w_io w') = trace (w_io w) ++
      [EResolve (hostname (succ nd)) (port (succ nd));
       EResolve (dotted ip) pt; ESocket fd; EConnect fd a;
       ESend fd (cells (wire_ctrl (reply_packet nd h (sin_addr a0)))); EClose fd;
       EClose (c_socket cl)].
Proof.
  intros nd HL Hr Hfr Hcs Ho1 Ho2 Hs Hfd Hn.
  destruct (received handle_packet w (c_socket cl) c cl _ cs _ L Hr Hfr Hcs Hs)
    as (j & cl1 & E & Hs1 & Hpk & Hr1).
  set (w1 := with_client c cl1 _) in *. pose proof Hr1 as (_ & Hc1 & Hp1 & _).
  unfold owns, succ_owns in *.
  destruct (lookup_answered w1 c L a0 a fd n rest) as (w' & E' & S1 & S2 & S3 & S4);
    try (subst L; done).
  { subst L. right. exact Ho2. }
  exists j, (removed c cl1 w'). split.
  - rewrite E. apply (delivered_removed handle_packet c cl1 L); try done; rewrite ?S1; try done.
    + unfold handle_packet. erewrite st_bind_Ok by (by apply st_lift_Ok).
      assert (has_flag (flags L) PKT_FLAG_CTRL = true) as -> by (by subst L). exact E'.
    + unfold points_to. by rewrite S1.
  - cbn. rewrite S1, S2, S3, S4. split_and!; try done. subst L.
    cbn [hash_id node_ip node_port ctrl_packet]. change (w_node w1) with nd. rewrite Ho1.
    cbn. rewrite Hs1, <- app_assoc. done.
Qed.

Lemma reply_used w c cl cs P h nid ip pt q reqs items rest :
  let nd := w_node w in
  P = ctrl_packet 130 h nid ip pt -> id_ok h ->
  ready w c cl -> framed (wire_ctrl P) P -> pieces (wire_ctrl P) cs ->
  rq_rep (n_rt nd) (<[h := reqs]> q) -> q !! h = None -> Forall2 item_ok items reqs ->
  script (w_io w) = chunks cs ++ (items ≫= item_answers) ++ rest ->
  exists j w', client_inputs handle_packet j (c_socket cl) c w = Ok (tt, w') /\
    n_ht (w_node w') = n_ht nd /\ keeps_place nd (w_node w') /\
    rq_rep (n_rt (w_node w')) q /\
    clients (w_srv w') = filter (fun x => x <> c) (clients (w_srv w)) /\
    script (w_io w') = rest /\
    trace (w_io w') = trace (w_io w) ++
      concat (zip_with (item_events (peer_from_packet P)) items reqs) ++ [EClose (c_socket cl)].
Proof.
  intros nd HP Hid Hr Hfr Hcs Hq Hqh Hit Hs.
  destruct (received handle_packet w (c_socket cl) c cl _ cs _ P Hr Hfr Hcs Hs)
    as (j & cl1 & E & Hs1 & Hpk & Hr1).
  set (w1 := with_client c cl1 _) in *. pose proof Hr1 as (Hok1 & Hc1 & Hp1 & _).
  assert (hash_id P = h) as Hh by (by subst P).
  destruct (reply_handled w1 c P (<[h := reqs]> q) reqs items rest)
    as (w' & E' & S1 & S2 & S2' & S3 & S4 & S5); try (subst P; done).
  { by rewrite Hh, lookup_insert_eq. }
  destruct (marked_same (snd <$> reqs) (w_srv w1) Hok1) as (Hok2 & Hcl2 & Hso2).
  rewrite <- S1 in Hok2, Hcl2. specialize (Hso2 c). rewrite <- S1 in Hso2.
  unfold points_to in Hp1. rewrite Hp1 in Hso2.
  destruct (client_heap (w_srv w') !! c) as [cl2|] eqn:Hp2; [|done]. injection Hso2 as Hso2.
  exists j, (removed c cl2 w'). split.
  - rewrite E. apply (delivered_removed handle_packet c cl1 P); try done. by rewrite Hcl2.
  - cbn. rewrite S2, Hcl2, S4, S5, Hso2, Hs1, Hh, delete_insert_id in *; [|done..].
    rewrite <- app_assoc. done.
Qed.
(** A request for a key of the successor goes there, and its answer back. *)
Lemma request_relayed w c cl cs fl k v it rest :
  let nd := w_node w in
  let req := wire_data fl k v in
  ready w c cl -> pieces req cs -> is_ctrl fl = false -> Forall byte_ok k ->
  zlen k < 2 ^ 16 -> 0 < zlen k + zlen v < 2 ^ 30 ->
  owns nd (hash_spec k) = 0 -> succ_owns nd (hash_spec k) = 1 ->
  item_ok it (data_packet fl k v, c_socket cl) ->
  script (w_io w) = chunks cs ++ item_answers it ++ rest ->
  exists j w', client_inputs handle_packet j (c_socket cl) c w = Ok (tt, w') /\
    n_ht (w_node w') = n_ht nd /\ n_rt (w_node w') = n_rt nd /\ keeps_place nd (w_node w') /\
    clients (w_srv w') = filter (fun x => x <> c) (clients (w_srv w)) /\
    script (w_io w') = rest /\
    trace (w_io w') = trace (w_io w) ++
      item_events (succ nd) it (data_packet fl k v, c_socket cl) ++ [EClose (c_socket cl)].
Proof.
  intros nd req Hr Hcs Hfl Hb Hk Hkv Ho1 Ho2 Hit Hs.
  destruct (received handle_packet w (c_socket cl) c cl _ cs _ _ Hr
    (framed_data fl k v Hfl Hk ltac:(lia)) Hcs Hs) as (j & cl1 & E & Hs1 & Hpk & Hr1).
  set (w1 := with_client c cl1 _) in *. pose proof Hr1 as (_ & Hc1 & Hp1 & _).
  destruct Hit as (I1 & I2 & I3 & I4 & I5 & I6 & I7 & I8). cbn [fst snd] in *.
  destruct (proxy_request_ok (c_socket cl) (data_packet fl k v) (succ nd) (pi_addr it) (pi_fd it)
    (pi_accept it) (pi_chunks it) (pi_client_accept it) (w_io w1) rest _ I1 I2 I3 I4 I5 I6 I7 I8
    eq_refl) as (s & Es & Q1 & Q2 & Q3).
  eexists j, (removed c cl1 _). split.
  - rewrite E. eapply delivered_removed; [exact Hp1|exact Hpk| |..].
    unfold handle_packet. erewrite st_bind_Ok by (by apply st_lift_Ok).
    unfold is_ctrl in Hfl. cbn [flags data_packet]. rewrite Hfl. unfold handle_packet_data.
    erewrite st_bind_Ok by (apply st_lift_Ok, (pseudo_hash_bytes _ _ k); [apply load_nullable|done]).
    erewrite st_bind_Ok by done. change (w_node w1) with nd. unfold owns, succ_owns in *.
    rewrite Ho1, Ho2. cbn [Z.eqb negb]. erewrite st_bind_Ok by (by apply get_client_ok).
    rewrite Hs1. erewrite st_bind_Ok by (apply on_io_ok; exact Es). cbn beta iota.
    by erewrite st_bind_Ok by done. all: done.
  - cbn. rewrite Hs1, <- app_assoc. split_and!; try done.
    unfold keeps_place, names. cbn [w_node succ]. by rewrite Q1, Q2, Q3.
Qed.
End Stages.

Lemma own_reply_pos m fl k v : 0 < zlen (own_spec m fl k v).2.
Proof.
  assert (forall a k v, 0 < zlen (wire_data a k v)) as Hw.
  { intros a k' v'. rewrite zlen_wire_data. pose proof (zlen_nonneg k').
    pose proof (zlen_nonneg v'). lia. }
  unfold own_spec. repeat case_match; apply Hw.
Qed.

(** ** Concrete nodes *)

Lemma one_client_ready (fd : Z) (nd : node uthash uthash) (i : io) :
  ready (mkWorld (one_client fd) nd i) 1%positive
    (mkClient fd IDLE (rb_new PKT_HEADER_LEN) None None).
Proof.
  split; [apply one_client_ok|]. split; [apply list_elem_of_singleton; reflexivity|].
  split; [reflexivity|]. destruct (rb_new_ok 7) as (H1 & H2 & H3); [split; [discriminate|reflexivity]|].
  split; [reflexivity|]. split; [exact H1|]. split; [exact H2|]. split; [exact H3|reflexivity].
Qed.

(** The hypotheses of the theorems below at concrete inputs. *)
Ltac concrete :=
  match goal with
  | |- ready _ _ _ => apply one_client_ready
  | |- rq_rep _ _ => exact rq_rep_empty
  | |- bytes_rep _ _ => exact bytes_rep_empty
  | |- StronglySorted _ [] => apply SSorted_nil
  | |- StronglySorted _ (_ :: _) => apply SSorted_cons; concrete
  | |- StronglySorted ?P ?l =>
      let l' := eval cbv in l in progress change (StronglySorted P l'); concrete
  | |- Forall _ [] => apply List.Forall_nil
  | |- Forall _ (_ :: _) => apply List.Forall_cons; concrete
  | |- Forall ?P ?l => let l' := eval cbv in l in progress change (Forall P l'); concrete
  | |- (_ <= _)%nat => apply leb_complete; reflexivity
  | |- (_ < _)%nat => apply leb_complete; reflexivity
  | |- _ /\ _ => split; concrete
  | |- byte_ok _ => split; concrete
  | |- pieces _ _ => split; concrete
  | |- _ => first [reflexivity | discriminate]
  end.

(** ** A peer that cannot be reached *)

(** The answers of the system to a [peer_connect] that fails: no address, no
    socket, or no connection. *)
Definition connect_fails (answers : list answer) : Prop :=
  answers = [AAddrinfo None] \/
  (exists a fd, fd < 0 /\ answers = [AAddrinfo (Some [a]); ASocket fd]) \/
  exists a fd status, 0 <= fd /\ status < 0 /\
    answers = [AAddrinfo (Some [a]); ASocket fd; AConnect status].

Lemma peer_connect_fails p answers i rest :
  connect_fails answers -> script i = answers ++ rest ->
  exists q i', peer_connect p i = Ok ((-1, q), i') /\ script i' = rest.
Proof.
  intros Hf Hs. unfold peer_connect, peer_lookup, sys_getaddrinfo, mbind, st_bind, mret, st_ret.
  destruct Hf as [-> | [(a & fd & Hfd & ->) | (a & fd & st & Hfd & Hst & ->)]]; cbn in Hs.
  - rewrite Hs. do 2 eexists. split; [done|]. cbn. by rewrite Hs.
  - rewrite Hs. cbn. unfold mbind, st_bind, sys_socket. cbn. rewrite Hs. cbn.
    rewrite (proj2 (Z.ltb_lt fd 0) Hfd). do 2 eexists. split; [done|]. cbn. by rewrite Hs.
  - rewrite Hs. cbn. unfold mbind, st_bind, sys_socket, sys_connect. cbn. rewrite Hs. cbn.
    rewrite (proj2 (Z.ltb_ge fd 0) Hfd). cbn. rewrite Hs. cbn.
    rewrite (proj2 (Z.ltb_lt st 0) Hst). do 2 eexists. split; [done|]. cbn. by rewrite Hs.
Qed.

Lemma proxy_request_unreachable csocket p n answers i rest buf :
  packet_serialize p = Ok (buf, zlen buf) -> connect_fails answers ->
  script i = answers ++ ARecv None :: rest -> proxy_request csocket p n i = Ub.
Proof.
  intros Hp Hf Hs. destruct (peer_connect_fails n answers i _ Hf Hs) as (q & i' & E & Hs').
  unfold proxy_request, forward. unfold mbind at 1, st_bind at 1.
  erewrite st_bind_Ok by (by apply st_lift_Ok). cbn beta iota.
  erewrite st_bind_Ok by exact E. cbn beta iota.
  change (-1 <? 0) with true. cbv iota. unfold mret at 1, st_ret at 1.
  unfold mbind, st_bind. rewrite (recvall_error_ub (socket q) i' [] rest); done.
Qed.

(** C25. A request for a key of the successor, when the successor cannot be reached
    (its name does not resolve, no socket can be made, or the connection is
    refused).  The failure that [forward] reports is not looked at: the node
    goes on to receive the answer from a socket that is not connected, [recv]
    fails, and what follows is undefined behaviour.  A node goes down with its
    successor as soon as a client asks for a key of the latter. *)
Theorem unreachable_peer_ub {T1 T2} `{KeyTableSpec T1} `{KeyTableSpec T2}
    (w : world (node T1 T2)) c cl cs fl k v answers rest :
  ready w c cl -> pieces (wire_data fl k v) cs -> is_ctrl fl = false -> Forall byte_ok k ->
  zlen k < 2 ^ 16 -> 0 < zlen k + zlen v < 2 ^ 30 ->
  owns (w_node w) (hash_spec k) = 0 -> succ_owns (w_node w) (hash_spec k) = 1 ->
  connect_fails answers -> script (w_io w) = chunks cs ++ answers ++ ARecv None :: rest ->
  exists j, client_inputs handle_packet j (c_socket cl) c w = Ub.
Proof.
  intros Hr Hcs Hfl Hb Hk Hkv Ho1 Ho2 Hf Hs.
  pose proof (zlen_nonneg k). pose proof (zlen_nonneg v).
  destruct (received handle_packet w (c_socket cl) c cl _ cs _ _ Hr
    (framed_data fl k v Hfl Hk ltac:(lia)) Hcs Hs) as (j & cl1 & E & _ & Hpk & Hr1).
  set (w1 := with_client c cl1 _) in *. pose proof Hr1 as (_ & _ & Hp1 & _).
  exists j. rewrite E. unfold server_deliver_packet.
  erewrite st_bind_Ok by (by apply get_client_ok). rewrite Hpk.
  unfold handle_packet. unfold mbind at 1, st_bind at 1.
  erewrite st_bind_Ok by (by apply st_lift_Ok).
  unfold is_ctrl in Hfl. cbn [flags data_packet]. rewrite Hfl. unfold handle_packet_data.
  erewrite st_bind_Ok by (apply st_lift_Ok, (pseudo_hash_bytes _ _ k); [apply load_nullable|done]).
  erewrite st_bind_Ok by done. change (w_node w1) with (w_node w). unfold owns, succ_owns in *.
  rewrite Ho1, Ho2. cbn [Z.eqb negb]. erewrite st_bind_Ok by (by apply get_client_ok).
  unfold mbind, st_bind, on_io.
  rewrite (proxy_request_unreachable _ _ _ answers _ rest (cells (wire_data fl k v))); try done.
  apply serialize_request; done || lia.
Qed.

Lemma unreachable_peer_ub_witness :
  let peer_at n host := mkPeer n host 4711 (-1) no_addr 0 in
  let nd : node uthash uthash :=
    mkNode store_empty rtables_empty (peer_at 2000 "b") (peer_at 300 "a") (peer_at 3000 "c") in
  exists j, client_inputs handle_packet j 9 1%positive
    (mkWorld (one_client 9) nd
       (mkIo (chunks [[4; 0; 2; 0; 0]; [0; 0; 9; 9]] ++
              [AAddrinfo (Some [mkAddr 167772163 4711]); ASocket 12; AConnect (-1)] ++
              ARecv None :: []) [])) = Ub.
Proof.
  intros peer_at nd.
  apply (unreachable_peer_ub _ 1%positive (mkClient 9 IDLE (rb_new PKT_HEADER_LEN) None None)
    [[4; 0; 2; 0; 0]; [0; 0; 9; 9]] 4 [9; 9] []
    [AAddrinfo (Some [mkAddr 167772163 4711]); ASocket 12; AConnect (-1)] []); try concrete.
  right. right. exists (mkAddr 167772163 4711), 12, (-1). concrete.
Defined.

(** ** Three nodes *)

(** A request for a key that neither the node asked nor its successor owns.
    Node [A] keeps it and sends a lookup; a node [B] whose successor owns the
    key, when it reads these bytes (directly or passed on by other nodes), tells
    [A] the successor's address; the owner [C], when it reads the request,
    applies it to its map and answers; and [A], when it reads the reply, opens a
    connection to the address named, sends exactly the bytes of the request,
    relays exactly the bytes of the owner's answer to the client that asked, and
    forgets the request.  All four hold however the network cuts the bytes. *)
Theorem lookup_exchange {T1 T2} `{KeyTableSpec T1} `{KeyTableSpec T2} fl k v m
    (wA : world (node T1 T2)) c cl cs q a0 a fd n rest :
  let h := hash_spec k in
  let req := wire_data fl k v in
  let reply := (own_spec m fl k v).2 in
  let lookup := wire_ctrl (lookup_packet (w_node wA) h (sin_addr a0)) in
  (* the request, and the size of its answer *)
  is_ctrl fl = false -> byte_ok fl -> Forall byte_ok k ->
  zlen k < 2 ^ 16 -> 0 < zlen k + zlen v < 2 ^ 30 -> zlen reply <= MAX_RW_COUNT ->
  (* node A receives it and can reach its successor *)
  ready wA c cl -> pieces req cs -> owns (w_node wA) h = 0 -> succ_owns (w_node wA) h = 0 ->
  peer_wf (self (w_node wA)) -> 0 <= sin_addr a0 < 2 ^ 32 ->
  rq_rep (n_rt (w_node wA)) q -> q !! h = None -> kt_room (rt (n_rt (w_node wA))) = true ->
  script (w_io wA) = chunks cs ++ AAddrinfo (Some [a0]) :: forward_answers a fd n ++ rest ->
  0 <= fd -> 11 <= n ->
  exists j wA1,
    client_inputs handle_packet j (c_socket cl) c wA = Ok (tt, wA1) /\
    trace (w_io wA1) = trace (w_io wA) ++
      [EResolve (hostname (self (w_node wA))) (port (self (w_node wA)))] ++
      connect_trace (succ (w_node wA)) a fd ++ [ESend fd (cells lookup); EClose fd] /\
    (* node B reads the lookup *)
    (forall (wB : world (node T1 T2)) cB clB csB b0 b fdB nB restB,
       let told := wire_ctrl (reply_packet (w_node wB) h (sin_addr b0)) in
       ready wB cB clB -> pieces lookup csB ->
       owns (w_node wB) h = 0 -> succ_owns (w_node wB) h = 1 ->
       peer_wf (succ (w_node wB)) -> 0 <= sin_addr b0 < 2 ^ 32 ->
       script (w_io wB) =
         chunks csB ++ AAddrinfo (Some [b0]) :: forward_answers b fdB nB ++ restB ->
       0 <= fdB -> 11 <= nB ->
       exists jB wB1,
         client_inputs handle_packet jB (c_socket clB) cB wB = Ok (tt, wB1) /\
         trace (w_io wB1) = trace (w_io wB) ++
           [EResolve (hostname (succ (w_node wB))) (port (succ (w_node wB)));
            EResolve (dotted (sin_addr a0)) (port (self (w_node wA))); ESocket fdB;
            EConnect fdB b; ESend fdB (cells told); EClose fdB; EClose (c_socket clB)] /\
         (* node A reads the reply *)
         (forall wA2 cR clR csR it restA,
            w_node wA2 = w_node wA1 -> ready wA2 cR clR -> pieces told csR ->
            pieces reply (pi_chunks it) -> 0 <= pi_fd it -> zlen req <= pi_accept it ->
            zlen reply <= pi_client_accept it ->
            script (w_io wA2) = chunks csR ++ item_answers it ++ restA ->
            exists jR wA3,
              client_inputs handle_packet jR (c_socket clR) cR wA2 = Ok (tt, wA3) /\
              n_ht (w_node wA3) = n_ht (w_node wA) /\ rq_rep (n_rt (w_node wA3)) q /\
              trace (w_io wA3) = trace (w_io wA2) ++
                [EResolve (dotted (sin_addr b0)) (port (succ (w_node wB))); ESocket (pi_fd it);
                 EConnect (pi_fd it) (pi_addr it); ESend (pi_fd it) (cells req);
                 EClose (pi_fd it); ESend (c_socket cl) (cells reply); EClose (pi_fd it);
                 EClose (c_socket clR)])) /\
    (* the owner reads the request *)
    (forall (wC : world (node T1 T2)) cC clC csC nC restC,
       ready wC cC clC -> pieces req csC -> owns (w_node wC) h = 1 ->
       bytes_rep (n_ht (w_node wC)) m -> kt_room (ht (n_ht (w_node wC))) = true ->
       script (w_io wC) = chunks csC ++ ASend nC :: restC -> zlen reply <= nC ->
       exists jC s, client_inputs handle_packet jC (c_socket clC) cC wC
           = Ok (tt, served_world wC cC s (c_socket clC) (cells reply) restC) /\
         bytes_rep s (own_spec m fl k v).1).
Proof.
  intros h req reply lookup Hfl Hb Hbk Hk Hkv Hmax Hr Hcs Ho1 Ho2 Hself Ha0 Hq Hqh Hroom Hs Hfd Hn.
  pose proof (zlen_nonneg k). pose proof (zlen_nonneg v).
  assert (id_ok h) as Hh by (by apply hash_spec_range).
  destruct (request_queued wA c cl cs fl k v q a0 a fd n rest)
    as (j & wA1 & cl1 & E1 & N1 & _ & _ & _ & Q1 & _ & Tr1); try done; [lia|].
  change (default [] (q !! hash_spec k)) with (default [] (q !! h)) in Q1.
  pose proof (f_equal (default []) Hqh : default [] (q !! h) = []) as Hq0.
  rewrite Hq0 in Q1. cbn [app] in Q1. fold h in Q1, Tr1.
  exists j, wA1.
  split; [exact E1|]. split; [exact Tr1|]. split.
  - intros wB cB clB csB b0 b fdB nB restB told Hr2 Hcs2 Ho3 Ho4 Hsucc Hb0 Hs2 Hfd2 Hn2.
    destruct (lookup_replied wB cB clB csB (lookup_packet (w_node wA) h (sin_addr a0)) h _ _ _
      b0 b fdB nB restB eq_refl Hr2) as (jB & wB1 & E2 & _ & _ & _ & Tr2); try done.
    { apply framed_ctrl; try done; apply Hself. }
    exists jB, wB1.
    split; [exact E2|]. split; [exact Tr2|].
    intros wA2 cR clR csR it restA HwA2 Hr3 Hcs3 [Hrp Hne] Hfd3 Hacc Hcacc Hs3.
    destruct (reply_used wA2 cR clR csR (reply_packet (w_node wB) h (sin_addr b0)) h _ _ _ q
      [(queued fl k v, c_socket cl)] [it] restA eq_refl Hh Hr3) as
      (jR & wA3 & E3 & N3 & _ & Q3 & _ & _ & Tr3); try done.
    + apply framed_ctrl; try done; apply Hsucc.
    + by rewrite HwA2.
    + constructor; [|constructor]. unfold item_ok, serial. cbn [fst].
      rewrite (serialize_queued fl k v) by (done || lia). fold req reply.
      rewrite Hrp, zlen_cells. pose proof (own_reply_pos m fl k v).
      assert (zlen req = 7 + zlen k + zlen v) by apply zlen_wire_data.
      unfold MAX_RW_COUNT in *. split_and!; done || lia.
    + cbn [mbind list_bind]. by rewrite app_nil_r.
    + exists jR, wA3. split; [exact E3|]. split; [by rewrite N3, HwA2|]. split; [exact Q3|].
      rewrite Tr3. cbn [zip_with concat]. unfold item_events, proxy_trace, connect_trace, serial.
      cbn [fst snd]. rewrite (serialize_queued fl k v) by (done || lia). fold req.
      rewrite Hrp, app_nil_r. done.
  - intros wC cC clC csC nC restC (Hok4 & Hc4 & Hp4 & Hcol4) [Hcat4 Hne4] Ho5 Hm Hroom4 Hs4 Hn4.
    destruct (request_served_world wC (c_socket clC) cC clC csC nC restC m fl k v)
      as (jC & s & E4 & Hm4); try done; rewrite ?zlen_cells; try done; [lia|].
    by exists jC, s.
Qed.
