(* ===== verification/Ring.v ===== *)
(** * Ring: the responsibility test around the whole ring

    [peer_is_responsible] decides at every node whether the node answers a
    lookup, its successor is named, or the lookup moves on ([peer.c],
    [handle_packet_ctrl] and [handle_packet_data]).  This file takes the nodes of
    a ring together: which keys have an owner, that it is unique, and where a
    lookup ends that starts anywhere. *)

From stdpp Require Import base tactics list numbers option sorting.
From S2P Require Import Prelude Neighbour.

Section Ring.
(** The identifiers of the nodes, smallest first; every node knows its two
    neighbours in this order, the last one's successor being the first. *)
Context (ids : list Z).

Let n : nat := length ids.

Definition id_at (i : nat) : Z := default 0 (ids !! i).
Definition succ_of (i : nat) : nat := if decide (S i = n) then O else S i.
Definition pred_of (i : nat) : nat := match i with O => (n - 1)%nat | S i => i end.

(** The test node [i] applies to itself. *)
Definition responsible (i : nat) (h : Z) : bool :=
  negb (peer_is_responsible (id_at (pred_of i)) (id_at i) h =? 0).

(** The test node [i] applies to its successor. *)
Definition successor_responsible (i : nat) (h : Z) : bool :=
  negb (peer_is_responsible (id_at i) (id_at (succ_of i)) h =? 0).

(** A lookup for [h] at node [i]: the node named in the reply, or [None] when
    the lookup is still travelling after [hops] hops. *)
Fixpoint lookup_route (hops : nat) (i : nat) (h : Z) : option nat :=
  if responsible i h then Some i
  else if successor_responsible i h then Some (succ_of i)
  else match hops with
       | O => None
       | S hops => lookup_route hops (succ_of i) h
       end.

Context (sorted : StronglySorted Z.lt ids).

Lemma id_at_lt i j : (i < j < n)%nat -> id_at i < id_at j.
Proof using sorted.
  intros Hij. unfold id_at. unfold n in Hij.
  destruct (lookup_lt_is_Some_2 ids i) as [a Ha]; [lia|].
  destruct (lookup_lt_is_Some_2 ids j) as [b Hb]; [lia|].
  rewrite Ha, Hb. cbn. clear n.
  revert i j Hij Ha Hb. induction sorted as [|x l Hs IH Hx]; intros i j Hij Ha Hb; [done|].
  destruct j as [|j]; [lia|]. cbn in Hb. destruct i as [|i].
  - injection Ha as <-. rewrite Forall_forall in Hx. apply Hx. by eapply list_elem_of_lookup_2.
  - cbn in Hij. apply (IH Hs i j); [lia|done|done].
Qed.

Lemma successor_responsible_eq i h :
  (i < n)%nat -> successor_responsible i h = responsible (succ_of i) h.
Proof using.
  intros Hi. unfold successor_responsible, responsible, succ_of, pred_of.
  destruct (decide (S i = n)) as [E|E]; [|done]. by replace (n - 1)%nat with i by lia.
Qed.

(** The first node owns what lies above the last one, any other node what lies
    between its predecessor and itself. *)
Lemma responsible_cases i h :
  (2 <= n)%nat -> (i < n)%nat ->
  responsible i h = true <->
  match i with
  | O => id_at (n - 1) < h
  | S j => id_at j < h <= id_at i
  end.
Proof using sorted.
  intros Hn Hi. unfold responsible. rewrite peer_is_responsible_cases.
  destruct i as [|j]; cbn [pred_of].
  - pose proof (id_at_lt 0 (n - 1) ltac:(lia)).
    destruct (Z.ltb_spec (id_at (n - 1)) (id_at 0)); [lia|].
    destruct (Z.ltb_spec (id_at 0) (id_at (n - 1))); [|lia].
    destruct (Z.ltb_spec (id_at (n - 1)) h); cbn; split; intros; (done || lia).
  - pose proof (id_at_lt j (S j) ltac:(lia)).
    destruct (Z.ltb_spec (id_at j) (id_at (S j))); [|lia].
    destruct (Z.ltb_spec (id_at j) h), (Z.leb_spec h (id_at (S j))); cbn; split; intros;
      (done || lia).
Qed.

Lemma first_above k h :
  (k <= n)%nat ->
  (forall i, (i < k)%nat -> id_at i < h) \/
  exists j, (j < k)%nat /\ h <= id_at j /\ forall i, (i < j)%nat -> id_at i < h.
Proof using.
  induction k as [|k IH]; intros Hk; [left; lia|].
  destruct IH as [Hall|(j & Hj & Hle & Hlt)]; [lia| |right; exists j; auto with lia].
  destruct (Z.lt_ge_cases (id_at k) h) as [Hlt|Hge].
  - left. intros i Hi. destruct (decide (i = k)) as [->|]; [done|]. apply Hall. lia.
  - right. exists k. auto with lia.
Qed.

Lemma owner_exists h :
  (2 <= n)%nat -> id_at 0 < h -> exists j, (j < n)%nat /\ responsible j h = true.
Proof using sorted.
  intros Hn H0. destruct (first_above n h ltac:(lia)) as [Hall|(j & Hj & Hle & Hlt)].
  - exists O. split; [lia|]. apply responsible_cases; [done|lia|]. apply Hall. lia.
  - destruct j as [|j]; [lia|]. exists (S j). split; [done|].
    apply responsible_cases; [done|done|]. split; [apply Hlt; lia|done].
Qed.

Lemma owner_unique h i j :
  (2 <= n)%nat -> (i < n)%nat -> (j < n)%nat ->
  responsible i h = true -> responsible j h = true -> i = j.
Proof using sorted.
  intros Hn Hi Hj Ri%responsible_cases Rj%responsible_cases; try done.
  assert (forall a b, (a < n)%nat -> (b < n)%nat -> id_at a < h -> h <= id_at b -> (a < b)%nat) as Hab.
  { intros a b Ha Hb H1 H2. destruct (Nat.lt_ge_cases a b) as [|Hba]; [done|].
    destruct (decide (a = b)) as [->|]; [lia|]. pose proof (id_at_lt b a ltac:(lia)). lia. }
  destruct i as [|i], j as [|j]; [done| | |].
  - pose proof (Hab (n - 1)%nat (S j) ltac:(lia) Hj Ri ltac:(lia)). lia.
  - pose proof (Hab (n - 1)%nat (S i) ltac:(lia) Hi Rj ltac:(lia)). lia.
  - pose proof (Hab i (S j) ltac:(lia) Hj ltac:(lia) ltac:(lia)).
    pose proof (Hab j (S i) ltac:(lia) Hi ltac:(lia) ltac:(lia)). lia.
Qed.

Lemma no_owner i h :
  (i < n)%nat -> (n = 1)%nat \/ h <= id_at 0 -> responsible i h = false.
Proof using sorted.
  intros Hi Hh. destruct (decide (n = 1)%nat) as [E|E].
  - assert (i = 0)%nat as -> by lia. unfold responsible, pred_of. rewrite E.
    rewrite peer_is_responsible_cases. by rewrite !Z.ltb_irrefl.
  - destruct Hh as [?|Hh]; [done|]. apply not_true_is_false.
    rewrite responsible_cases by lia. destruct i as [|i].
    + pose proof (id_at_lt 0 (n - 1) ltac:(lia)). lia.
    + destruct (decide (i = 0)%nat) as [->|]; [lia|]. pose proof (id_at_lt 0 i ltac:(lia)). lia.
Qed.

(** Hops from [i] to [j]. *)
Definition distance (i j : nat) : nat := if (i <=? j)%nat then (j - i)%nat else (n - i + j)%nat.

Lemma succ_of_lt i : (i < n)%nat -> (succ_of i < n)%nat.
Proof using. unfold succ_of. destruct (decide _); lia. Qed.

Lemma distance_succ i j :
  (i < n)%nat -> (j < n)%nat -> i <> j -> distance i j = S (distance (succ_of i) j).
Proof using.
  intros Hi Hj Hij. unfold distance, succ_of.
  destruct (decide (S i = n)) as [E|E]; repeat case_match;
    rewrite ?Nat.leb_le, ?Nat.leb_gt in *; lia.
Qed.

Lemma lookup_route_finds hops i j h :
  (2 <= n)%nat -> (i < n)%nat -> (j < n)%nat -> responsible j h = true ->
  (distance i j <= hops)%nat -> lookup_route hops i h = Some j.
Proof using sorted.
  intros Hn. revert i. induction hops as [|hops IH]; intros i Hi Hj Hr Hd; cbn [lookup_route];
    rewrite (successor_responsible_eq i h Hi).
  - destruct (decide (i = j)) as [->|Hij]; [by rewrite Hr|].
    rewrite distance_succ in Hd by done. lia.
  - destruct (responsible i h) eqn:Ri; [f_equal; by eapply owner_unique|].
    assert (i <> j) as Hij by congruence. pose proof (succ_of_lt i Hi).
    destruct (responsible (succ_of i) h) eqn:Rs; [f_equal; by eapply owner_unique|].
    apply IH; try done. rewrite distance_succ in Hd by done. lia.
Qed.

Lemma lookup_route_lost hops i h :
  (i < n)%nat -> (n = 1)%nat \/ h <= id_at 0 -> lookup_route hops i h = None.
Proof using sorted.
  intros Hi Hh. revert i Hi. induction hops as [|hops IH]; intros i Hi; cbn [lookup_route];
    rewrite (successor_responsible_eq i h Hi), !no_owner by (done || by apply succ_of_lt);
    [done|]. apply IH. by apply succ_of_lt.
Qed.
End Ring.

(** ** Properties *)

(** Lookups in a ring of at least two nodes: a hash above the smallest
    identifier has exactly one responsible node, and a lookup started at any
    node ends, after fewer hops than there are nodes, with that node. *)
Theorem lookup_finds_owner ids h :
  StronglySorted Z.lt ids -> (2 <= length ids)%nat -> id_at ids 0 < h ->
  exists j, (j < length ids)%nat /\ responsible ids j h = true /\
    (forall i, (i < length ids)%nat -> responsible ids i h = true -> i = j) /\
    forall i, (i < length ids)%nat -> lookup_route ids (length ids - 1) i h = Some j.
Proof.
  intros Hs Hn H0. destruct (owner_exists ids Hs h Hn H0) as (j & Hj & Hr).
  exists j. split; [done|]. split; [done|]. split.
  - intros i Hi Hri. by eapply owner_unique.
  - intros i Hi. apply lookup_route_finds; try done. unfold distance.
    destruct (Nat.leb_spec i j); lia.
Qed.

Lemma lookup_finds_owner_witness :
  exists j, (j < 3)%nat /\ responsible [10; 500; 60000] j 60001 = true /\
    (forall i, (i < 3)%nat -> responsible [10; 500; 60000] i 60001 = true -> i = j) /\
    forall i, (i < 3)%nat -> lookup_route [10; 500; 60000] 2 i 60001 = Some j.
Proof.
  apply (lookup_finds_owner [10; 500; 60000] 60001).
  - repeat (apply SSorted_cons;
      [|repeat (apply List.Forall_cons; [reflexivity|]); apply List.Forall_nil]).
    apply SSorted_nil.
  - apply leb_complete. reflexivity.
  - reflexivity.
Defined.

(** C26. The keys nobody owns: a hash at or below the smallest identifier, and
    every hash in a ring of one node, is refused by every node, so that a lookup
    for it is never answered however long it travels. *)
Theorem lookup_never_answered ids h :
  StronglySorted Z.lt ids -> length ids = 1%nat \/ h <= id_at ids 0 ->
  forall hops i, (i < length ids)%nat ->
    responsible ids i h = false /\ lookup_route ids hops i h = None.
Proof. intros Hs Hh hops i Hi. split; [by apply no_owner|by apply lookup_route_lost]. Qed.

Lemma lookup_never_answered_witness :
  responsible [10; 500; 60000] 1 10 = false /\ lookup_route [10; 500; 60000] 1000 1 10 = None.
Proof.
  apply (lookup_never_answered [10; 500; 60000] 10).
  - repeat (apply SSorted_cons;
      [|repeat (apply List.Forall_cons; [reflexivity|]); apply List.Forall_nil]).
    apply SSorted_nil.
  - right. discriminate.
  - apply leb_complete. reflexivity.
Defined.
