(* ===== verification/Routing.v ===== *)
(** * Routing: a lookup travels round the ring

    [Ring.v] follows the responsibility test round a ring of identifiers, and
    [Lookup.v] shows what single nodes do with the bytes of a lookup.  This
    file puts them together: in a ring of nodes that know their neighbours, the
    lookup a node sends is passed on, byte for byte, from node to node, until
    the node before the owner names the owner. *)

From stdpp Require Import base tactics list numbers option gmap strings sorting.
From S2P Require Import Prelude Packet Sys RingBuffer Util Neighbour KeyTable UtHash HashTable Requests Server Peer Lookup Ring.

Section Routing.
Context {T1 T2 : Type} `{KTS1 : KeyTableSpec T1} `{KTS2 : KeyTableSpec T2}.
Implicit Types (w : world (node T1 T2)) (nd : node T1 T2).

(** The nodes of the ring, smallest id first. *)
Context (ring : list (Z * string * Z)).

Definition ids : list Z := (fun x => x.1.1) <$> ring.

(** A node at position [i] knows itself and its two neighbours. *)
Record at_place (i : nat) nd : Prop := {
  place_self : ring !! i = Some (names (self nd));
  place_pred : ring !! pred_of ids i = Some (names (pred nd));
  place_succ : ring !! succ_of ids i = Some (names (succ nd));
}.

Lemma at_place_id i x : ring !! i = Some x -> id_at ids i = x.1.1.
Proof using. intros E. unfold id_at, ids. by rewrite list_lookup_fmap, E. Qed.

(** The node's own tests are those of its position. *)
Lemma owns_place i nd h :
  at_place i nd -> owns nd h = if responsible ids i h then 1 else 0.
Proof using.
  intros [Hs Hp _]. apply test_01. unfold responsible.
  by rewrite (at_place_id _ _ Hs), (at_place_id _ _ Hp).
Qed.

Lemma succ_owns_place i nd h :
  at_place i nd -> succ_owns nd h = if successor_responsible ids i h then 1 else 0.
Proof using.
  intros [Hs _ Hn]. apply test_01. unfold successor_responsible.
  by rewrite (at_place_id _ _ Hs), (at_place_id _ _ Hn).
Qed.

(** Names of the node at a position. *)
Definition host_at (i : nat) : string := default "" ((fun x => x.1.2) <$> ring !! i).
Definition port_at (i : nat) : Z := default 0 (snd <$> ring !! i).

Lemma at_place_names i p :
  ring !! i = Some (names p) ->
  id_at ids i = peer_node_id p /\ host_at i = hostname p /\ port_at i = port p.
Proof using. intros E. rewrite (at_place_id _ _ E). unfold host_at, port_at. by rewrite E. Qed.

Lemma at_place_kept i nd nd' : keeps_place nd nd' -> at_place i nd -> at_place i nd'.
Proof using. intros (K1 & K2 & K3) [P1 P2 P3]. by split; rewrite ?K1, ?K2, ?K3. Qed.

(** The lookup of the node at [i], whose address is [ip], and the reply that
    names the node at [j]. *)
Definition lookup_of (i : nat) (h ip : Z) : packet := ctrl_packet 129 h (id_at ids i) ip (port_at i).
Definition reply_of (j : nat) (h ip : Z) : packet := ctrl_packet 130 h (id_at ids j) ip (port_at j).

(** A connection to [host], over which [bytes] are sent. *)
Definition dials (host : string) (pt : Z) (a : sockaddr) (fd : Z) (bytes : list Z) : list event :=
  [EResolve host pt; ESocket fd; EConnect fd a; ESend fd (cells bytes); EClose fd].

(** Whatever way the bytes [input] arrive in pieces on the connection of client
    [c], and given the [answers] of the system, the node reads them, does what
    [events] say and ends in a state with [post]. *)
Definition handles w (c : ptr) (cl : client) (input : list Z) (answers : list answer)
    (events : list event) (post : world (node T1 T2) -> Prop) : Prop :=
  forall cs rest, pieces input cs -> script (w_io w) = chunks cs ++ answers ++ rest ->
    exists j w', client_inputs handle_packet j (c_socket cl) c w = Ok (tt, w') /\
      script (w_io w') = rest /\ trace (w_io w') = trace (w_io w) ++ events /\ post w'.

(** The client is gone, the other clients are still there. *)
Definition gone (c : ptr) w w' : Prop :=
  clients (w_srv w') = filter (fun x => x <> c) (clients (w_srv w)).

(** The node passes a lookup on: its bytes go to the successor unchanged. *)
Definition passes (i : nat) (h : Z) : Prop :=
  forall w c cl src ip a fd n,
    at_place i (w_node w) -> ready w c cl -> (src < length ring)%nat -> 0 <= ip < 2 ^ 32 ->
    0 <= fd -> 11 <= n ->
    let bytes := wire_ctrl (lookup_of src h ip) in
    handles w c cl bytes (forward_answers a fd n)
      (dials (host_at (succ_of ids i)) (port_at (succ_of ids i)) a fd bytes ++
       [EClose (c_socket cl)])
      (fun w' => at_place i (w_node w') /\ n_ht (w_node w') = n_ht (w_node w) /\
         n_rt (w_node w') = n_rt (w_node w) /\ gone c w w').

(** The node tells the one that asked who its successor is. *)
Definition tells (i : nat) (h : Z) : Prop :=
  forall w c cl src ip (a0 a : sockaddr) fd n,
    at_place i (w_node w) -> ready w c cl -> (src < length ring)%nat -> 0 <= ip < 2 ^ 32 ->
    0 <= fd -> 11 <= n ->
    let j := succ_of ids i in
    handles w c cl (wire_ctrl (lookup_of src h ip))
      (AAddrinfo (Some [a0]) :: forward_answers a fd n)
      (EResolve (host_at j) (port_at j) ::
       dials (dotted ip) (port_at src) a fd (wire_ctrl (reply_of j h (sin_addr a0))) ++
       [EClose (c_socket cl)])
      (fun w' => w_node w' = w_node w /\ gone c w w').

(** The ids and ports are 16-bit numbers. *)
Context (wf : Forall (fun x => 0 <= x.1.1 < 2 ^ 16 /\ 0 <= x.2 < 2 ^ 16) ring).

Lemma place_wf i : (i < length ring)%nat -> 0 <= id_at ids i < 2 ^ 16 /\ 0 <= port_at i < 2 ^ 16.
Proof using wf.
  intros Hi. destruct (lookup_lt_is_Some_2 ring i Hi) as [x E]. rewrite (at_place_id _ _ E).
  unfold port_at. rewrite E. exact (Forall_lookup_1 _ _ _ _ wf E).
Qed.

Lemma framed_lookup src h ip :
  (src < length ring)%nat -> 0 <= h < 2 ^ 16 -> 0 <= ip < 2 ^ 32 ->
  framed (wire_ctrl (lookup_of src h ip)) (lookup_of src h ip).
Proof using wf. intros Hs Hh Hip. destruct (place_wf src Hs). by apply framed_ctrl. Qed.

Lemma framed_reply j h ip :
  (j < length ring)%nat -> 0 <= h < 2 ^ 16 -> 0 <= ip < 2 ^ 32 ->
  framed (wire_ctrl (reply_of j h ip)) (reply_of j h ip).
Proof using wf. intros Hs Hh Hip. destruct (place_wf j Hs). by apply framed_ctrl. Qed.

Lemma node_passes i h :
  0 <= h < 2 ^ 16 -> responsible ids i h = false -> successor_responsible ids i h = false ->
  passes i h.
Proof.
  intros Hh Ho1 Ho2 w c cl src ip a fd n Hpl Hr Hsrc Hip Hfd Hn bytes cs rest Hcs Hs.
  set (L := lookup_of src h ip). set (nd := w_node w) in *.
  destruct (received handle_packet w (c_socket cl) c cl _ cs _ L Hr
    (framed_lookup src h ip Hsrc Hh Hip) Hcs Hs) as (j & cl1 & E & Hs1 & Hpk & Hr1).
  set (w1 := with_client c cl1 _) in *. pose proof Hr1 as (_ & Hc1 & Hp1 & _).
  pose proof (owns_place i nd h Hpl) as T1'. pose proof (succ_owns_place i nd h Hpl) as T2'.
  rewrite Ho1 in T1'. rewrite Ho2 in T2'. unfold owns, succ_owns in *.
  destruct (lookup_forwarded w1 c L a fd n rest)
    as (w' & E' & S1 & S2 & S3 & S4 & S5 & S6); try done.
  exists j, (removed c cl1 w'). split; [|split; [exact S5|split]].
  - rewrite E. apply (delivered_removed handle_packet c cl1 L); try done; rewrite ?S1; try done.
    unfold points_to. by rewrite S1.
  - cbn. rewrite S6. unfold connect_trace, dials.
    destruct (at_place_names _ _ (place_succ _ _ Hpl)) as (_ & -> & ->).
    by rewrite Hs1, <- !app_assoc.
  - split_and!; [by eapply at_place_kept|exact S2|exact S3|]. unfold gone. cbn. by rewrite S1.
Qed.

Lemma node_tells i h :
  0 <= h < 2 ^ 16 -> responsible ids i h = false -> successor_responsible ids i h = true ->
  tells i h.
Proof.
  intros Hh Ho1 Ho2 w c cl src ip a0 a fd n Hpl Hr Hsrc Hip Hfd Hn j cs rest Hcs Hs.
  pose proof (owns_place i _ h Hpl) as T1'. pose proof (succ_owns_place i _ h Hpl) as T2'.
  rewrite Ho1 in T1'. rewrite Ho2 in T2'.
  destruct (lookup_replied w c cl cs _ h _ _ _ a0 a fd n rest eq_refl Hr
    (framed_lookup src h ip Hsrc Hh Hip) Hcs T1' T2' Hs Hfd Hn)
    as (jj & w' & E & S1 & S2 & S3 & S4).
  exists jj, w'. split; [exact E|]. split; [exact S3|]. split; [|done]. rewrite S4.
  destruct (at_place_names _ _ (place_succ _ _ Hpl)) as (N1 & N2 & N3). unfold reply_of, reply_packet.
  fold j in N1, N2, N3. by rewrite N1, N2, N3.
Qed.

(** ** The whole way *)

(** The position after [m] hops. *)
Definition hop (m i : nat) : nat := Nat.iter m (succ_of ids) i.

Section Way.

Lemma hop_succ m i : hop (S m) i = hop m (succ_of ids i).
Proof using. unfold hop. by rewrite Nat.iter_succ_r. Qed.

Context (sorted : StronglySorted Z.lt ids).
Let n : nat := length ids.

Lemma distance_0 i j : (i < n)%nat -> (j < n)%nat -> distance ids i j = 0%nat -> i = j.
Proof using. intros Hi Hj. unfold distance. fold n. destruct (Nat.leb_spec i j); lia. Qed.

(** On the way from [i] to the owner [j]: nobody is or knows the owner before
    the node in front of it. *)
Lemma way_to_owner j h k : (2 <= n)%nat -> (j < n)%nat -> responsible ids j h = true ->
  forall i, (i < n)%nat -> distance ids i j = S k ->
    (forall m, (m < k)%nat -> responsible ids (hop m i) h = false /\
       successor_responsible ids (hop m i) h = false) /\
    responsible ids (hop k i) h = false /\ successor_responsible ids (hop k i) h = true /\
    succ_of ids (hop k i) = j /\ (forall m, (m <= k)%nat -> (hop m i < n)%nat).
Proof using sorted.
  intros Hn Hj Hr. induction k as [|k IH]; intros i Hi Hd.
  - assert (i <> j) as Hij.
    { intros ->. unfold distance in Hd. rewrite Nat.leb_refl in Hd. lia. }
    rewrite distance_succ in Hd by done. injection Hd as Hd.
    apply distance_0 in Hd; [|by apply succ_of_lt|done]. cbn.
    rewrite (successor_responsible_eq ids i h Hi), Hd. split; [lia|]. split_and!; try done.
    + apply not_true_is_false. intros Hri. apply Hij. by eapply owner_unique.
    + intros m Hm. by assert (m = 0)%nat as -> by lia.
  - assert (i <> j) as Hij.
    { intros ->. unfold distance in Hd. rewrite Nat.leb_refl in Hd. lia. }
    rewrite distance_succ in Hd by done. injection Hd as Hd.
    pose proof (succ_of_lt ids i Hi) as Hs.
    assert (succ_of ids i <> j) as Hsj.
    { intros E. rewrite E in Hd. unfold distance in Hd. rewrite Nat.leb_refl in Hd. lia. }
    destruct (IH (succ_of ids i) Hs Hd) as (Hway & Hk1 & Hk2 & Hk3 & Hlt).
    rewrite !hop_succ. split_and!; try done.
    + intros [|m] Hm; [cbn|by rewrite hop_succ; apply Hway; lia].
      rewrite (successor_responsible_eq ids i h Hi).
      split; apply not_true_is_false; intros E; [apply Hij|apply Hsj]; by eapply owner_unique.
    + intros [|m] Hm; [done|]. rewrite hop_succ. apply Hlt. lia.
Qed.
End Way.

(** ** The request *)

Section Request.
Context (fl : Z) (k v : list Z).
Let h : Z := hash_spec k.
Let req : list Z := wire_data fl k v.

(** The node that owns the key applies the request to its map and answers. *)
Definition serves (i : nat) : Prop :=
  forall w c cl m n,
    at_place i (w_node w) -> ready w c cl -> bytes_rep (n_ht (w_node w)) m ->
    kt_room (ht (n_ht (w_node w))) = true ->
    let answer := (own_spec m fl k v).2 in
    zlen answer <= MAX_RW_COUNT -> zlen answer <= n ->
    handles w c cl req [ASend n] [ESend (c_socket cl) (cells answer); EClose (c_socket cl)]
      (fun w' => at_place i (w_node w') /\ bytes_rep (n_ht (w_node w')) (own_spec m fl k v).1 /\
         n_rt (w_node w') = n_rt (w_node w) /\ gone c w w').

(** What the network does while a request goes to another node, whose answer is
    [answer]. *)
Definition relay_ok (it : proxy_item) (answer : list Z) : Prop :=
  pieces answer (pi_chunks it) /\ 0 <= pi_fd it /\ zlen req <= pi_accept it /\
  0 < zlen answer <= MAX_RW_COUNT /\ zlen answer <= pi_client_accept it.

(** The request goes out, the answer comes back to the client at [sock]; the
    connection is closed twice. *)
Definition relayed (host : string) (pt : Z) (it : proxy_item) (sock : Z) (answer : list Z)
    : list event :=
  dials host pt (pi_addr it) (pi_fd it) req ++ [ESend sock (cells answer); EClose (pi_fd it)].

(** The node relays the request to its successor. *)
Definition relays (i : nat) : Prop :=
  forall w c cl it answer,
    at_place i (w_node w) -> ready w c cl -> relay_ok it answer ->
    let j := succ_of ids i in
    handles w c cl req (item_answers it)
      (relayed (host_at j) (port_at j) it (c_socket cl) answer ++ [EClose (c_socket cl)])
      (fun w' => at_place i (w_node w') /\ n_ht (w_node w') = n_ht (w_node w) /\
         n_rt (w_node w') = n_rt (w_node w) /\ gone c w w').

(** The node keeps the request, the client stays connected, and a lookup goes to
    the successor. *)
Definition asks (i : nat) : Prop :=
  forall w c cl q (a0 a : sockaddr) fd n,
    at_place i (w_node w) -> ready w c cl -> rq_rep (n_rt (w_node w)) q ->
    kt_room (rt (n_rt (w_node w))) = true -> 0 <= fd -> 11 <= n ->
    let j := succ_of ids i in
    handles w c cl req (AAddrinfo (Some [a0]) :: forward_answers a fd n)
      (EResolve (host_at i) (port_at i) ::
       dials (host_at j) (port_at j) a fd (wire_ctrl (lookup_of i h (sin_addr a0))))
      (fun w' => at_place i (w_node w') /\ n_ht (w_node w') = n_ht (w_node w) /\
         rq_rep (n_rt (w_node w'))
           (<[h := default [] (q !! h) ++ [(queued fl k v, c_socket cl)]]> q) /\
         exists cl', ready w' c cl' /\ c_socket cl' = c_socket cl).

(** The node that keeps the request of the client at [sock] reads that the node
    at [j], with the address [ip], is the owner: the request goes there, the
    answer to the client, and the request is forgotten. *)
Definition uses (i j : nat) : Prop :=
  forall w c cl q sock ip it answer,
    at_place i (w_node w) -> ready w c cl -> 0 <= ip < 2 ^ 32 -> relay_ok it answer ->
    q !! h = None -> rq_rep (n_rt (w_node w)) (<[h := [(queued fl k v, sock)]]> q) ->
    handles w c cl (wire_ctrl (reply_of j h ip)) (item_answers it)
      (relayed (dotted ip) (port_at j) it sock answer ++ [EClose (c_socket cl)])
      (fun w' => at_place i (w_node w') /\ n_ht (w_node w') = n_ht (w_node w) /\
         rq_rep (n_rt (w_node w')) q /\ gone c w w').

Context (data : is_ctrl fl = false) (fl_ok : byte_ok fl) (k_ok : Forall byte_ok k).
Context (k_short : zlen k < 2 ^ 16) (kv_short : 0 < zlen k + zlen v < 2 ^ 30).

Lemma zlen_req : zlen req = 7 + zlen k + zlen v.
Proof using. apply zlen_wire_data. Qed.

(** A relay of the request, whether just read or kept. *)
Lemma relay_item it answer p sock :
  packet_serialize p = Ok (cells req, zlen (cells req)) -> flags p = fl -> relay_ok it answer ->
  item_ok it (p, sock) /\
  forall nx, item_events nx it (p, sock) = relayed (hostname nx) (port nx) it sock answer.
Proof using data k_short kv_short.
  intros Hp Hfl ((Ha & Hne) & Hfd & Hacc & Hans & Hcl).
  assert (serial p = cells req) as Hser by (unfold serial; by rewrite Hp).
  pose proof zlen_req. pose proof (zlen_nonneg k). pose proof (zlen_nonneg v).
  split.
  - unfold item_ok. cbn [fst]. rewrite Hser, Ha, zlen_cells, Hfl. rewrite zlen_cells in Hp.
    unfold MAX_RW_COUNT in *. split_and!; done || lia.
  - intros nx. unfold item_events, proxy_trace, connect_trace, relayed, dials. cbn [fst snd].
    by rewrite Hser, Ha.
Qed.

Lemma node_serves i : responsible ids i h = true -> serves i.
Proof.
  intros Ho w c cl m n Hpl (Hok & Hc & Hp & Hcol) Hm Hroom answer Hmax Hn cs rest [Hcat Hne] Hs.
  pose proof (owns_place i _ h Hpl) as T1'. rewrite Ho in T1'.
  destruct (request_served_world w (c_socket cl) c cl cs n rest m fl k v)
    as (j & s & E & Hm'); try done; rewrite ?zlen_cells; try done; [lia|].
  exists j. eexists. split; [exact E|]. split; [done|]. split; [done|].
  split; [by destruct Hpl|]. split; [exact Hm'|done].
Qed.

Lemma node_relays i :
  responsible ids i h = false -> successor_responsible ids i h = true -> relays i.
Proof.
  intros Ho1 Ho2 w c cl it answer Hpl Hr Hit j cs rest Hcs Hs. subst j.
  pose proof (owns_place i _ h Hpl) as T1'. pose proof (succ_owns_place i _ h Hpl) as T2'.
  rewrite Ho1 in T1'. rewrite Ho2 in T2'.
  pose proof (zlen_nonneg k). pose proof (zlen_nonneg v).
  destruct (relay_item it answer (data_packet fl k v) (c_socket cl)) as [Hok Hev]; try done.
  { apply serialize_request; done || lia. }
  destruct (request_relayed w c cl cs fl k v it rest Hr Hcs)
    as (jj & w' & E & S1 & S2 & S3 & S4 & S5 & S6); try done.
  exists jj, w'. split; [exact E|]. split; [exact S5|]. split.
  - rewrite S6, Hev. destruct (at_place_names _ _ (place_succ _ _ Hpl)) as (_ & -> & ->). done.
  - split_and!; [by eapply at_place_kept|done..].
Qed.

Lemma node_asks i :
  responsible ids i h = false -> successor_responsible ids i h = false -> asks i.
Proof.
  intros Ho1 Ho2 w c cl q a0 a fd n Hpl Hr Hq Hroom Hfd Hn j cs rest Hcs Hs. subst j.
  pose proof (owns_place i _ h Hpl) as T1'. pose proof (succ_owns_place i _ h Hpl) as T2'.
  rewrite Ho1 in T1'. rewrite Ho2 in T2'.
  destruct (request_queued w c cl cs fl k v q a0 a fd n rest Hr Hcs)
    as (jj & w' & cl' & E & S1 & S2 & S3 & S4 & S5 & S6 & S7); try done; [lia|].
  exists jj, w'. split; [exact E|]. split; [exact S6|]. split.
  - rewrite S7. unfold lookup_packet, lookup_of, connect_trace, dials.
    destruct (at_place_names _ _ (place_self _ _ Hpl)) as (-> & -> & ->).
    by destruct (at_place_names _ _ (place_succ _ _ Hpl)) as (_ & -> & ->).
  - split_and!; [by eapply at_place_kept|done|done|]. by exists cl'.
Qed.

Lemma node_uses i j : (j < length ring)%nat -> uses i j.
Proof.
  intros Hj w c cl q sock ip it answer Hpl Hr Hip Hit Hqh Hq cs rest Hcs Hs.
  assert (id_ok h) as Hh by (by apply hash_spec_range).
  pose proof (zlen_nonneg k). pose proof (zlen_nonneg v).
  destruct (relay_item it answer (queued fl k v) sock) as [Hok Hev]; try done.
  { apply serialize_queued; done || lia. }
  destruct (reply_used w c cl cs (reply_of j h ip) h _ _ _ q [(queued fl k v, sock)] [it] rest
    eq_refl Hh Hr) as (jj & w' & E & S1 & S2 & S3 & S4 & S5 & S6); try done.
  { by apply framed_reply. }
  { constructor; [exact Hok|constructor]. }
  { cbn [mbind list_bind]. by rewrite app_nil_r. }
  exists jj, w'. split; [exact E|]. split; [exact S5|]. split.
  - rewrite S6. cbn [zip_with concat]. by rewrite Hev, app_nil_r.
  - split_and!; [by eapply at_place_kept|done..].
Qed.
End Request.

(** ** The way of a request *)

(** How the request comes from the node at [i] to its owner, the node at [j]. *)
Definition request_way (fl : Z) (k v : list Z) (i j : nat) : Prop :=
  match distance ids i j with
  | O => i = j
  | 1%nat => succ_of ids i = j /\ relays fl k v i
  | S (S d) =>
      asks fl k v i /\
      (forall m, (m < d)%nat -> passes (hop (S m) i) (hash_spec k)) /\
      tells (hop (S d) i) (hash_spec k) /\ succ_of ids (hop (S d) i) = j /\
      uses fl k v i j
  end.

Lemma request_way_ok fl k v i j :
  StronglySorted Z.lt ids -> (2 <= length ring)%nat -> (i < length ring)%nat ->
  (j < length ring)%nat ->
  is_ctrl fl = false -> Forall byte_ok k -> zlen k < 2 ^ 16 -> 0 < zlen k + zlen v < 2 ^ 30 ->
  responsible ids j (hash_spec k) = true -> request_way fl k v i j.
Proof.
  intros Hs Hn Hi Hj Hfl Hk Hkl Hkv Hr. unfold request_way.
  assert (length ring = length ids) as Hlen by (unfold ids; by rewrite length_fmap).
  pose proof Hj as Hj'. rewrite Hlen in Hn, Hi, Hj.
  assert (id_ok (hash_spec k)) as Hh by (by apply hash_spec_range).
  destruct (distance ids i j) as [|d] eqn:Hd; [by apply distance_0|].
  destruct (way_to_owner Hs j (hash_spec k) d Hn Hj Hr i Hi Hd) as (H1 & H2 & H3 & H4 & H5).
  destruct d as [|d]; [split; [done|by apply node_relays]|].
  split_and!; [|intros m Hm|by apply node_tells|done|by apply node_uses].
  - destruct (H1 0%nat) as [A1 A2]; [lia|]. by apply node_asks.
  - destruct (H1 (S m)) as [A1 A2]; [lia|]. by apply node_passes.
Qed.
End Routing.

(** ** Properties *)

(** C3. A ring of at least two nodes, each knowing itself and its neighbours, and
    a request for a key whose hash lies above the smallest id.  Exactly one node
    [j] is responsible for the key, and applies the request to its map and
    answers it when it reads it.  Whatever node [i] a client asks, the request
    finds its way to [j]: the node in front of [j] relays it directly; a node
    further away, by fewer hops than there are nodes, keeps it and sends a lookup,
    every node on the way passes the bytes of the lookup on unchanged, the node in
    front of [j] tells the asking node the address of [j], and the asking node,
    when it reads that reply, sends [j] exactly the bytes of the request, gives
    the client exactly the bytes of the answer and forgets the request.  All of it
    holds however the network cuts the bytes that are read. *)
Theorem ring_request {T1 T2} `{KeyTableSpec T1} `{KeyTableSpec T2}
    (ring : list (Z * string * Z)) fl k v :
  StronglySorted Z.lt (ids ring) -> (2 <= length ring)%nat ->
  Forall (fun x => 0 <= x.1.1 < 2 ^ 16 /\ 0 <= x.2 < 2 ^ 16) ring ->
  is_ctrl fl = false -> byte_ok fl -> Forall byte_ok k ->
  zlen k < 2 ^ 16 -> 0 < zlen k + zlen v < 2 ^ 30 ->
  id_at (ids ring) 0 < hash_spec k ->
  exists j, (j < length ring)%nat /\ responsible (ids ring) j (hash_spec k) = true /\
    (forall i, (i < length ring)%nat -> responsible (ids ring) i (hash_spec k) = true -> i = j) /\
    serves (T1 := T1) (T2 := T2) ring fl k v j /\
    forall i, (i < length ring)%nat ->
      (distance (ids ring) i j < length ring)%nat /\
      request_way (T1 := T1) (T2 := T2) ring fl k v i j.
Proof.
  intros Hs Hn Hwf Hfl Hfb Hk Hkl Hkv Hlo.
  assert (length ring = length (ids ring)) as Hlen by (unfold ids; by rewrite length_fmap).
  destruct (owner_exists (ids ring) Hs (hash_spec k)) as (j & Hj & Hr); [lia|done|].
  exists j. split; [lia|]. split; [done|]. split; [|split].
  - intros i Hi Hri. eapply owner_unique; try done; lia.
  - by apply node_serves.
  - intros i Hi. split; [|apply request_way_ok; try done; lia].
    unfold distance. destruct (Nat.leb_spec i j); lia.
Qed.

(** Four nodes; the key 9, 9 hashes to 2313 and belongs to the last one. *)
Definition four_nodes : list (Z * string * Z) :=
  [(100, "a", 4711); (300, "b", 4712); (2000, "c", 4713); (3000, "d", 4714)].

Definition node_of (i : nat) : node uthash uthash :=
  let peer_at j := mkPeer (id_at (ids four_nodes) j) (host_at four_nodes j)
                     (port_at four_nodes j) (-1) no_addr 0 in
  mkNode store_empty rtables_empty (peer_at i) (peer_at (pred_of (ids four_nodes) i))
    (peer_at (succ_of (ids four_nodes) i)).

Ltac concrete :=
  match goal with
  | |- at_place _ _ _ => split; reflexivity
  | |- relay_ok _ _ _ _ _ => split; concrete
  | |- _ /\ _ => split; concrete
  | |- _ => Lookup.concrete
  end.

Lemma ring_request_witness :
  let req := [2; 0; 2; 0; 0; 0; 2; 9; 9; 72; 105] in
  let look := [129; 9; 9; 0; 100; 10; 0; 0; 1; 18; 103] in
  let told := [130; 9; 9; 11; 184; 10; 0; 0; 3; 18; 106] in
  let reply := [10; 0; 0; 0; 0; 0; 0] in
  let cl := fun fd => mkClient fd IDLE (rb_new PKT_HEADER_LEN) None None in
  let w := fun nd i => mkWorld (one_client 9) nd (mkIo i []) in
  let a := mkAddr 167772162 4712 in
  let fwd := forward_answers a 12 64 in
  let it := mkItem (mkAddr 167772163 4714) 12 64 [[10; 0; 0]; [0; 0; 0; 0]] 64 in
  let own := AAddrinfo (Some [mkAddr 167772161 4711]) in
  let named := AAddrinfo (Some [mkAddr 167772163 4714]) in
  exists j0 w0 j1 w1 j2 w2 j3 w3 j4 w4,
    (* the first node keeps the request and asks *)
    client_inputs handle_packet j0 9 1%positive
      (w (node_of 0) (chunks [[2; 0; 2; 0]; [0; 0; 2; 9; 9; 72; 105]] ++ (own :: fwd) ++ []))
      = Ok (tt, w0) /\
    trace (w_io w0) = EResolve "a" 4711 :: dials "b" 4712 a 12 look /\
    (* the second passes the lookup on *)
    client_inputs handle_packet j1 9 1%positive (w (node_of 1) (chunks [look] ++ fwd ++ []))
      = Ok (tt, w1) /\
    trace (w_io w1) = dials "c" 4713 a 12 look ++ [EClose 9] /\
    (* the third names the fourth *)
    client_inputs handle_packet j2 9 1%positive
      (w (node_of 2) (chunks [look] ++ (named :: fwd) ++ [])) = Ok (tt, w2) /\
    trace (w_io w2) = EResolve "d" 4714 :: dials "10.0.0.1" 4711 a 12 told ++ [EClose 9] /\
    (* the first relays the request and the answer *)
    client_inputs handle_packet j3 9 1%positive
      (w (w_node w0) (chunks [told] ++ item_answers it ++ [])) = Ok (tt, w3) /\
    trace (w_io w3) = relayed 2 [9; 9] [72; 105] "10.0.0.3" 4714 it 9 reply ++ [EClose 9] /\
    (* the fourth serves it *)
    client_inputs handle_packet j4 9 1%positive (w (node_of 3) (chunks [req] ++ [ASend 64] ++ []))
      = Ok (tt, w4) /\
    trace (w_io w4) = [ESend 9 (cells reply); EClose 9] /\
    bytes_rep (n_ht (w_node w4)) {[ [9; 9] := [72; 105] ]}.
Proof.
  intros req look told reply cl w a fwd it own named.
  destruct (ring_request (T1 := uthash) (T2 := uthash) four_nodes 2 [9; 9] [72; 105])
    as (j & Hj & Hr & _ & Hserve & Hway); try concrete.
  assert (j = 3%nat) as ->.
  { do 4 (destruct j as [|j]; [first [discriminate | reflexivity]|]). exfalso.
    apply Nat.ltb_lt in Hj. discriminate. }
  destruct (Hway 0%nat) as [_ (Hask & Hpass & Htell & _ & Huse)]; [concrete|].
  specialize (Hpass 0%nat ltac:(concrete)).
  destruct (Hask (w (node_of 0) _) 1%positive (cl 9) ∅ (mkAddr 167772161 4711) a 12 64
    ltac:(concrete) ltac:(concrete) ltac:(concrete) ltac:(concrete) ltac:(concrete)
    ltac:(concrete) [[2; 0; 2; 0]; [0; 0; 2; 9; 9; 72; 105]] [] ltac:(concrete) eq_refl)
    as (j0 & w0 & E0 & _ & T0 & P0 & _ & Q0 & _).
  destruct (Hpass (w (node_of 1) _) 1%positive (cl 9) 0%nat 167772161 a 12 64
    ltac:(concrete) ltac:(concrete) ltac:(concrete) ltac:(concrete) ltac:(concrete)
    ltac:(concrete) [look] [] ltac:(concrete) eq_refl) as (j1 & w1 & E1 & _ & T1 & _).
  destruct (Htell (w (node_of 2) _) 1%positive (cl 9) 0%nat 167772161
    (mkAddr 167772163 4714) a 12 64 ltac:(concrete) ltac:(concrete) ltac:(concrete)
    ltac:(concrete) ltac:(concrete) ltac:(concrete) [look] [] ltac:(concrete) eq_refl)
    as (j2 & w2 & E2 & _ & T2 & _).
  destruct (Huse (w (w_node w0) _) 1%positive (cl 9) ∅ 9 167772163 it reply
    P0 ltac:(concrete) ltac:(concrete) ltac:(concrete) ltac:(concrete) Q0 [told] []
    ltac:(concrete) eq_refl) as (j3 & w3 & E3 & _ & T3 & _).
  destruct (Hserve (w (node_of 3) _) 1%positive (cl 9) ∅ 64
    ltac:(concrete) ltac:(concrete) ltac:(concrete) ltac:(concrete) ltac:(concrete)
    ltac:(concrete) [req] [] ltac:(concrete) eq_refl) as (j4 & w4 & E4 & _ & T4 & _ & Q4 & _).
  exists j0, w0, j1, w1, j2, w2, j3, w3, j4, w4.
  split; [exact E0|]. split; [exact T0|]. split; [exact E1|]. split; [exact T1|].
  split; [exact E2|]. split; [exact T2|]. split; [exact E3|]. split; [exact T3|].
  split; [exact E4|]. split; [exact T4|exact Q4].
Defined.
