(* ===== verification/Network.v ===== *)
(** * Network: the ring of nodes is one map

    All nodes of a ring together, as a transition system: a step is one packet
    delivered to one node ([handle_packet] runs to its end), whatever the other
    clients of that node, the network and the other nodes do meanwhile.  The
    stores of the nodes are shards of a single finite map, and every step is
    either one operation on that map, with the map's answer, or none. *)

From stdpp Require Import base tactics list numbers option gmap strings sorting.
From S2P Require Import Prelude Sys Packet RingBuffer Util Neighbour KeyTable UtHash HashTable Requests Server Peer NodeRun Lookup Ring Routing.

(** ** What does not touch the store *)

Section Keeps.
Context {T1 T2 : Type} `{KTS1 : KeyTableSpec T1} `{KTS2 : KeyTableSpec T2}.
Implicit Types (w : world (node T1 T2)) (nd : node T1 T2).

(** [m] keeps an invariant of the node. *)
Definition holds {A} (I : node T1 T2 -> Prop) (m : ST (world (node T1 T2)) A) : Prop :=
  forall w a w', I (w_node w) -> m w = Ok (a, w') -> I (w_node w').

Lemma holds_bind {A B} I (m : ST (world (node T1 T2)) A) (f : A -> ST (world (node T1 T2)) B) :
  holds I m -> (forall a, holds I (f a)) -> holds I (m ≫= f).
Proof. intros Hm Hf w b w' Hw (a & w1 & E1 & E2)%st_bind_inv. eapply Hf; [|exact E2]. by eapply Hm. Qed.

Lemma holds_ret {A} I (a : A) : holds I (mret a).
Proof. by intros w b w' Hw [= _ <-]. Qed.
Lemma holds_lift {A} I (m : res A) : holds I (st_lift m).
Proof. intros w b w' Hw. unfold st_lift. destruct m; by intros [= _ <-]. Qed.
Lemma holds_on_io {A} I (m : ST io A) : holds I (on_io m).
Proof. intros w b w' Hw. unfold on_io. destruct (m (w_io w)) as [[? ?]| | |]; by intros [= _ <-]. Qed.
Lemma holds_get_client I c : holds I (get_client c).
Proof. intros w b w' Hw. unfold get_client. destruct (_ !! c); by intros [= _ <-]. Qed.
Lemma holds_set_client I c cl : holds I (set_client c cl).
Proof. by intros w b w' Hw [= _ <-]. Qed.
Lemma holds_get_srv I : holds I get_srv.
Proof. by intros w b w' Hw [= _ <-]. Qed.

(** What is known of a value that was read. *)
Lemma holds_get_node_bind {B} (I : node T1 T2 -> Prop) (f : node T1 T2 -> ST (world (node T1 T2)) B) :
  (forall nd, I nd -> holds I (f nd)) -> holds I (get_node ≫= f).
Proof. intros Hf w b w' Hw E. exact (Hf (w_node w) Hw w b w' Hw E). Qed.
Lemma holds_io_bind {A B} I (m : ST io A) (f : A -> ST (world (node T1 T2)) B) :
  (forall a i i', m i = Ok (a, i') -> holds I (f a)) -> holds I (on_io m ≫= f).
Proof.
  intros Hf w b w' Hw (a & w1 & E1 & E2)%st_bind_inv. unfold on_io in E1.
  destruct (m (w_io w)) as [[a' i]| | |] eqn:Em; try done. injection E1 as -> <-.
  by eapply (Hf _ _ _ Em); [|exact E2].
Qed.
End Keeps.

Create HintDb holds.
#[export] Hint Resolve holds_ret holds_lift holds_on_io holds_get_client holds_set_client
  holds_get_srv : holds.

(** The peer given to a transfer is still the same peer afterwards. *)
Lemma peer_connect_loop_names pas a p b i r q i' :
  peer_connect_loop pas a p b i = Ok ((r, q), i') -> names q = names p.
Proof.
  revert a p b i. induction pas as [|x pas IH]; intros a p b i; cbn [peer_connect_loop].
  - by intros [= _ <- _].
  - intros (fd & i1 & _ & E)%st_bind_inv. destruct (fd <? 0); [by apply IH in E|].
    apply st_bind_inv in E as (st & i2 & _ & E). by destruct (st <? 0); apply IH in E.
Qed.

Lemma peer_connect_names p i r q i' : peer_connect p i = Ok ((r, q), i') -> names q = names p.
Proof.
  intros (o & i1 & _ & E)%st_bind_inv. destruct o as [[|a l]|]; try (by injection E as _ <- _).
  apply st_bind_inv in E as ([c q1] & i2 & E1 & E). apply peer_connect_loop_names in E1.
  destruct (negb c); by injection E as _ <- _.
Qed.

Lemma forward_names p pk i r q i' : forward p pk i = Ok ((r, q), i') -> names q = names p.
Proof.
  intros ([b n] & i1 & _ & E)%st_bind_inv.
  apply st_bind_inv in E as ([r1 q1] & i2 & E1 & E). apply peer_connect_names in E1 as <-.
  destruct (r1 <? 0); [by injection E as _ <- _|].
  apply st_bind_inv in E as (r2 & i3 & _ & E). destruct (r2 <? 0); [by injection E as _ <- _|].
  apply st_bind_inv in E as (q2 & i4 & E4 & E). injection E as _ <- _.
  destruct (has_flag _ _); [|by injection E4 as <- _].
  apply st_bind_inv in E4 as ([] & i5 & _ & E4). by injection E4 as <- _.
Qed.

Lemma proxy_request_names s pk p i r q i' :
  proxy_request s pk p i = Ok ((r, q), i') -> names q = names p.
Proof.
  intros ([r1 q1] & i1 & E1 & E)%st_bind_inv. apply forward_names in E1 as <-.
  apply st_bind_inv in E as ([b n] & i2 & _ & E). apply st_bind_inv in E as (r2 & i3 & _ & E).
  apply st_bind_inv in E as (q2 & i4 & E4 & E). injection E as _ <- _.
  apply st_bind_inv in E4 as ([] & i5 & _ & E4). by injection E4 as <- _.
Qed.

Ltac holds_step :=
  match goal with
  | |- forall _, _ => intro
  | |- holds _ (get_node ≫= _) => apply holds_get_node_bind; intros ? ?
  | |- holds _ (_ ≫= _) => apply holds_bind
  | |- holds _ (match ?x with _ => _ end) => destruct x
  | |- _ => progress auto with holds
  end.

Section Steady.
Context {T1 T2 : Type} `{KTS1 : KeyTableSpec T1} `{KTS2 : KeyTableSpec T2}.
Implicit Types (w : world (node T1 T2)) (nd : node T1 T2).

(** The store and the place in the ring are those of [nd0]. *)
Definition steady (nd0 nd : node T1 T2) : Prop := n_ht nd = n_ht nd0 /\ keeps_place nd0 nd.

Lemma steady_refl nd : steady nd nd.
Proof. by repeat split. Qed.

Lemma steady_set_rt nd0 t : holds (steady nd0) (set_rt t).
Proof. intros w a w' Hw [= _ <-]. exact Hw. Qed.

Lemma steady_set_succ nd0 p : names p = names (succ nd0) -> holds (steady nd0) (set_succ p).
Proof. intros Hp w a w' (Hh & Hs & Hb & _) [= _ <-]. by repeat split. Qed.

Lemma steady_forward nd0 nd pk : steady nd0 nd -> forall i r q i',
  forward (succ nd) pk i = Ok ((r, q), i') -> names q = names (succ nd0).
Proof. intros (_ & _ & _ & Hs) i r q i' E. by apply forward_names in E as ->. Qed.

Lemma steady_close nd0 s : holds (steady nd0) (server_close_socket s).
Proof.
  apply holds_bind; [auto with holds|]. intros srv. induction (clients srv); cbn [close_socket_loop];
    repeat first [assumption | holds_step].
Qed.

Lemma steady_proxy_loop nd0 fuel n r : holds (steady nd0) (proxy_loop fuel n r).
Proof.
  revert n r. induction fuel as [|fuel IH]; intros n [r|]; cbn [proxy_loop];
    repeat first [apply IH | apply steady_close | holds_step].
Qed.

Lemma steady_lookup_peer nd0 h : holds (steady nd0) (lookup_peer h).
Proof.
  apply holds_get_node_bind. intros nd Hn. apply holds_bind; [auto with holds|]. intros ip. cbv zeta.
  apply holds_io_bind. intros [r q] i i' E. apply (steady_forward nd0) in E; [|done].
  apply holds_bind; [by apply steady_set_succ|]. repeat holds_step.
Qed.

Lemma steady_answer_lookup nd0 p n : holds (steady nd0) (answer_lookup p n).
Proof. unfold answer_lookup. repeat first [holds_step | cbv zeta]. Qed.

Lemma steady_ctrl nd0 c p : holds (steady nd0) (handle_packet_ctrl c p).
Proof.
  apply holds_get_node_bind. intros nd Hn.
  destruct (has_flag _ _); [destruct (negb _); [|destruct (negb _)]|destruct (has_flag _ _)].
  - apply steady_answer_lookup.
  - apply steady_answer_lookup.
  - apply holds_io_bind. intros [r q] i i' E. apply (steady_forward nd0) in E; [|done].
    apply holds_bind; [by apply steady_set_succ|]. repeat holds_step.
  - cbv zeta. repeat first [apply steady_proxy_loop | apply steady_set_rt | holds_step].
  - auto with holds.
Qed.

(** A request for the key of another node. *)
Lemma steady_data c p w r w' h :
  pseudo_hash (key p) (key_len p) = Ok h -> owns (w_node w) h = 0 ->
  handle_packet_data c p w = Ok (r, w') -> steady (w_node w) (w_node w').
Proof.
  intros Eh Ho. unfold handle_packet_data. erewrite st_bind_Ok by (by apply st_lift_Ok).
  erewrite st_bind_Ok by done. unfold owns in Ho. rewrite Ho. cbn [Z.eqb negb].
  pose proof (steady_refl (w_node w)) as Hw. destruct (negb _); intros E; revert E; revert Hw.
  - apply holds_bind; [auto with holds|]. intros cl.
    apply holds_io_bind. intros [q s] i i' E. apply proxy_request_names in E.
    apply holds_bind; [by apply steady_set_succ|]. repeat holds_step.
  - apply holds_bind; [auto with holds|]. intros cl. apply holds_bind; [auto with holds|]. intros t.
    apply holds_bind; [apply steady_set_rt|]. intros _.
    apply holds_bind; [apply steady_lookup_peer|]. auto with holds.
Qed.
End Steady.

(** ** The network *)

Section Network.
Context {T1 T2 : Type} `{KTS1 : KeyTableSpec T1} `{KTS2 : KeyTableSpec T2}.
Implicit Types (w : world (node T1 T2)) (nd : node T1 T2) (net : list (node T1 T2)).
Implicit Types (M : gmap (list Z) (list Z)).

(** What a delivery does that can be seen: a request carried out by the node that
    owns the key, what was sent to the client, and whether a socket refused. *)
Inductive net_event : Type :=
  | Internal
  | Served (fl : Z) (k v : list Z) (refused : bool) (sent : list cell).

Definition event_of nd (pk : packet) (refused : bool) (sent : list cell) : net_event :=
  if is_ctrl (flags pk) then Internal
  else match load_bytes (key pk) (key_len pk), load_bytes (value pk) (value_len pk) with
       | Ok k, Ok v =>
           if owns nd (hash_spec k) =? 1 then Served (flags pk) k v refused sent else Internal
       | _, _ => Internal
       end.

(** The answers of the system used up between [i] and [i'], and whether one of
    them was that of a socket that failed or took nothing. *)
Definition taken (i i' : io) : list answer :=
  take (length (script i) - length (script i')) (script i).
Definition refused (i i' : io) : bool := existsb refuses (taken i i').

Lemma taken_app i i' used : script i = used ++ script i' -> taken i i' = used.
Proof.
  intros E. unfold taken. rewrite E, length_app.
  replace (length used + length (script i') - length (script i'))%nat with (length used) by lia.
  apply take_app_length.
Qed.

(** One packet, read from bytes, is delivered to the node, which does [tr].  The
    connections of the node and the answers of the system are any. *)
Inductive delivery nd (tr : list event) : net_event -> node T1 T2 -> Prop :=
  | delivers w c cl bs pk r w' :
      w_node w = nd -> points_to w c cl -> has_room nd = true ->
      framed bs pk -> Forall byte_ok bs ->
      handle_packet c (Some pk) w = Ok (r, w') -> trace (w_io w') = trace (w_io w) ++ tr ->
      delivery nd tr
        (event_of nd pk (refused (w_io w) (w_io w')) (sent_to (c_socket cl) tr)) (w_node w').

(** A delivery to one of the nodes. *)
Inductive net_step net : net_event -> list (node T1 T2) -> Prop :=
  | net_delivers i nd tr ev nd' :
      net !! i = Some nd -> delivery nd tr ev nd' -> net_step net ev (<[i := nd']> net).

(** Any number of deliveries, to any nodes in any order. *)
Inductive net_run : list (node T1 T2) -> list net_event -> list (node T1 T2) -> Prop :=
  | net_run_nil net : net_run net [] net
  | net_run_cons net ev net1 evs net2 :
      net_step net ev net1 -> net_run net1 evs net2 -> net_run net (ev :: evs) net2.

(** ** The map *)

Definition map_after M (ev : net_event) : gmap (list Z) (list Z) :=
  match ev with Served fl k v _ _ => (own_spec M fl k v).1 | Internal => M end.

(** The client got the answer of the map, all of it unless its socket refused. *)
Definition answer_right M (ev : net_event) : Prop :=
  match ev with
  | Served fl k v refused sent => conveyed refused sent (cells (own_spec M fl k v).2)
  | Internal => True
  end.

Fixpoint answers_right M (evs : list net_event) : Prop :=
  match evs with
  | [] => True
  | ev :: evs => answer_right M ev /\ answers_right (map_after M ev) evs
  end.

Context (ring : list (Z * string * Z)).

(** The part of the map the node at [i] is responsible for. *)
Definition shard (i : nat) M : gmap (list Z) (list Z) :=
  filter (fun kv => responsible (ids ring) i (hash_spec kv.1) = true) M.

(** The stores of the nodes are the shards of [M], and nothing of [M] is lost. *)
Record net_holds net M : Prop := {
  holds_ring : length net = length ring;
  holds_node i nd : net !! i = Some nd -> at_place ring i nd /\ bytes_rep (n_ht nd) (shard i M);
  holds_all k : is_Some (M !! k) ->
    exists i, (i < length ring)%nat /\ responsible (ids ring) i (hash_spec k) = true;
}.

Lemma shard_lookup i M k :
  responsible (ids ring) i (hash_spec k) = true -> shard i M !! k = M !! k.
Proof.
  intros Hr. unfold shard. destruct (M !! k) as [v|] eqn:E.
  - by apply map_lookup_filter_Some.
  - apply map_lookup_filter_None. by left.
Qed.

(** The owner answers for the whole map. *)
Lemma own_spec_shard i M fl k v :
  responsible (ids ring) i (hash_spec k) = true ->
  (own_spec (shard i M) fl k v).2 = (own_spec M fl k v).2 /\
  (own_spec (shard i M) fl k v).1 = shard i (own_spec M fl k v).1.
Proof.
  intros Hr. unfold own_spec. destruct (kind_of fl); cbn [fst snd].
  - by rewrite shard_lookup.
  - split; [done|]. unfold shard. by rewrite map_filter_insert_True.
  - split; [done|]. unfold shard. by rewrite map_filter_delete.
Qed.

(** The other shards stay as they are. *)
Lemma own_spec_other i M fl k v :
  responsible (ids ring) i (hash_spec k) = false -> shard i (own_spec M fl k v).1 = shard i M.
Proof.
  intros Hr. unfold own_spec, shard. destruct (kind_of fl); cbn [fst].
  - done.
  - apply map_filter_insert_not. intros y. cbn. by rewrite Hr.
  - apply map_filter_delete_not. intros y _. cbn. by rewrite Hr.
Qed.

Lemma own_spec_keys i M fl k v :
  (i < length ring)%nat -> responsible (ids ring) i (hash_spec k) = true ->
  (forall k, is_Some (M !! k) -> exists i, (i < length ring)%nat /\
     responsible (ids ring) i (hash_spec k) = true) ->
  forall k', is_Some ((own_spec M fl k v).1 !! k') -> exists i, (i < length ring)%nat /\
     responsible (ids ring) i (hash_spec k') = true.
Proof.
  intros Hi Hr Hall k'. unfold own_spec. destruct (kind_of fl); cbn [fst].
  - apply Hall.
  - intros [x [[<- _]|[_ Hx]]%lookup_insert_Some]; [by exists i|]. apply Hall. by eexists.
  - intros [x [_ Hx]%lookup_delete_Some]. apply Hall. by eexists.
Qed.

(** A delivery that is no request of this node leaves its store alone. *)
Lemma internal_step nd tr nd' : delivery nd tr Internal nd' -> steady nd nd'.
Proof.
  intros Hd. inversion Hd as [w c cl bs pk r w' Hw _ _ Hf Hb E _ Hev Hw']. subst nd nd'.
  unfold handle_packet in E. erewrite st_bind_Ok in E by (by apply st_lift_Ok).
  unfold event_of, is_ctrl in Hev. destruct (has_flag (flags pk) PKT_FLAG_CTRL) eqn:Hc.
  { by eapply (steady_ctrl (w_node w)); [apply steady_refl|exact E]. }
  destruct (framed_data_inv bs pk Hf Hb Hc) as (fl & k & v & -> & _ & Hk & _).
  cbn [key key_len value value_len data_packet] in Hev. rewrite !load_nullable in Hev.
  destruct (Z.eqb_spec (owns (w_node w) (hash_spec k)) 1) as [|Ho]; [done|].
  apply (steady_data c (data_packet fl k v) w r w' (hash_spec k));
    [apply pseudo_hash_bytes; [apply load_nullable|exact Hk]| |exact E].
  unfold owns in *.
  by destruct (responsible_01 (peer_node_id (pred (w_node w))) (peer_node_id (self (w_node w)))
    (hash_spec k)).
Qed.

(** A request of this node goes to its part of the map. *)
Lemma served_step nd tr nd' m fl k v b sent :
  delivery nd tr (Served fl k v b sent) nd' -> bytes_rep (n_ht nd) m ->
  owns nd (hash_spec k) = 1 /\ keeps_place nd nd' /\
  bytes_rep (n_ht nd') (own_spec m fl k v).1 /\
  conveyed b sent (cells (own_spec m fl k v).2).
Proof.
  intros Hd Hm. inversion Hd as [w c cl bs pk r w' Hw Hp Hroom Hf Hby E Ht Hev Hw']. subst nd nd'.
  apply andb_true_iff in Hroom as [Hroom _].
  unfold event_of, is_ctrl in Hev. destruct (has_flag (flags pk) PKT_FLAG_CTRL) eqn:Hc; [done|].
  destruct (framed_data_inv bs pk Hf Hby Hc) as (fl' & k' & v' & -> & Hfl & Hk & Hkl & Hkv).
  cbn [key key_len value value_len flags data_packet] in Hev, Hc. rewrite !load_nullable in Hev.
  destruct (Z.eqb_spec (owns (w_node w) (hash_spec k')) 1) as [Ho|]; [|done].
  injection Hev as -> -> -> <- <-. pose proof (zlen_nonneg k). rewrite handle_packet_own in E by done.
  assert (value_len (data_packet fl k v) < 2 ^ 32) as Hvl by (cbn; lia).
  pose proof (load_nullable k) as Lk. pose proof (load_nullable v) as Lv.
  destruct (handle_own_request_ok w c cl m (data_packet fl k v) k v) as (s & _ & Eo); try done.
  pose proof (handle_own_request_any w c cl m (data_packet fl k v) k v) as Hany.
  rewrite E in Hany. destruct Hany as (_ & Hm' & _ & evs' & used & Ht' & Hu & Htr); try done.
  split; [done|]. split; [|split; [done|]].
  - rewrite Eo in E. revert E. eapply (holds_bind (keeps_place (w_node w)));
      [apply holds_on_io|intros; apply holds_ret|by repeat split].
  - rewrite Ht in Ht'. apply app_inv_head in Ht' as ->. unfold refused.
    rewrite (taken_app _ _ used Hu). by apply transferred_conveyed.
Qed.

Context (sorted : StronglySorted Z.lt (ids ring)) (two : (2 <= length ring)%nat).

Lemma owner_of i nd h :
  at_place ring i nd -> owns nd h = 1 -> responsible (ids ring) i h = true.
Proof using. intros Hp Ho. rewrite (owns_place _ _ _ _ Hp) in Ho. by destruct responsible. Qed.

(** A delivery is one step of the map. *)
Lemma net_step_ok net M ev net' :
  net_holds net M -> net_step net ev net' ->
  answer_right M ev /\ net_holds net' (map_after M ev).
Proof using All.
  intros [Hlen Hnode Hall] [i nd tr ev' nd' Hi Hd]. clear ev.
  destruct (Hnode _ _ Hi) as [Hpl Hm]. pose proof (lookup_lt_Some _ _ _ Hi) as Hlt.
  rewrite Hlen in Hlt. assert (length (ids ring) = length ring) as Hids by apply length_fmap.
  destruct ev' as [|fl k v b sent].
  - destruct (internal_step _ _ _ Hd) as (Hht & Hkeep).
    split; [done|]. split; [by rewrite length_insert| |done].
    intros i' nd1 [(<- & <- & _)|(_ & Hi')]%list_lookup_insert_Some; [|by apply Hnode].
    rewrite Hht. split; [by eapply at_place_kept|done].
  - destruct (served_step _ _ _ _ _ _ _ _ _ Hd Hm) as (Ho & Hkeep & Hm' & Hc).
    pose proof (owner_of _ _ _ Hpl Ho) as Hr. destruct (own_spec_shard i M fl k v Hr) as [E2 E1].
    rewrite E1 in Hm'. rewrite E2 in Hc. split; [exact Hc|].
    split; [by rewrite length_insert| |by eapply own_spec_keys].
    intros i' nd1 [(<- & <- & _)|(Hne & Hi')]%list_lookup_insert_Some.
    + split; [by eapply at_place_kept|done].
    + pose proof (lookup_lt_Some _ _ _ Hi'). cbn [map_after]. rewrite own_spec_other; [by apply Hnode|].
      apply not_true_is_false. intros Hr'. apply Hne. eapply (owner_unique (ids ring)); try done; lia.
Qed.

(** The empty map, held by nodes that have just started. *)
Lemma net_holds_empty net :
  length net = length ring ->
  (forall i nd, net !! i = Some nd -> at_place ring i nd /\ bytes_rep (n_ht nd) ∅) -> net_holds net ∅.
Proof using.
  intros Hl Hn. split; [done| |by intros k [x ?]].
  intros i nd Hi. unfold shard. rewrite map_filter_empty. by apply Hn.
Qed.
End Network.

(** ** The ring refines one map *)

Lemma net_run_ok {T1 T2} `{KeyTableSpec T1} `{KeyTableSpec T2}
    (ring : list (Z * string * Z)) (net net' : list (node T1 T2)) M evs :
  StronglySorted Z.lt (ids ring) -> (2 <= length ring)%nat ->
  net_holds ring net M -> net_run net evs net' ->
  answers_right M evs /\ net_holds ring net' (foldl map_after M evs).
Proof.
  intros Hs Hn Hh Hrun. revert M Hh. induction Hrun as [net|net ev net1 evs net2 Hstep _ IH];
    intros M Hh; [by split|].
  destruct (net_step_ok ring Hs Hn net M ev net1 Hh Hstep) as [Ha Hh1].
  destruct (IH _ Hh1) as [Has Hh2]. by split.
Qed.

(** C5. A ring of two or more nodes that know their neighbours, whose stores hold
    the shards of one finite map [M]: the part of a node is what it is responsible
    for.  Packets, as read from any bytes, are delivered to any nodes in any order,
    from any clients, with anything going on in the network.  The whole then behaves
    as the single map [M]: each request a node carries out as the owner of its key
    takes effect on [M] and the client is sent exactly what [M] answers (a proper
    beginning of it only if one of the answers that the handler got from the socket
    was a refusal), every other delivery leaves [M] alone, and afterwards the stores
    of the nodes are again the shards of the map, with no key in two of them and none
    lost. *)
Theorem ring_is_one_map {T1 T2} `{KeyTableSpec T1} `{KeyTableSpec T2}
    (ring : list (Z * string * Z)) (net net' : list (node T1 T2)) M evs :
  StronglySorted Z.lt (ids ring) -> (2 <= length ring)%nat ->
  net_holds ring net M -> net_run net evs net' ->
  answers_right M evs /\ net_holds ring net' (foldl map_after M evs).
Proof. apply net_run_ok. Qed.

(** A delivery that can be evaluated. *)
Definition deliver (pk : packet) (i : nat) (answers : list answer) (net : list (node uthash uthash))
    : option (net_event * list (node uthash uthash)) :=
  nd ← net !! i;
  if has_room nd then
    match handle_packet 1%positive (Some pk) (mkWorld (one_client 9) nd (mkIo answers [])) with
    | Ok (_, w') => Some (event_of nd pk (refused (mkIo answers []) (w_io w')) (sent_to 9 (trace (w_io w'))),
             <[i := w_node w']> net)
    | _ => None
    end
  else None.

Lemma deliver_step bs pk i answers net ev net' :
  framed bs pk -> Forall byte_ok bs ->
  deliver pk i answers net = Some (ev, net') -> net_step net ev net'.
Proof.
  intros Hf Hb E. unfold deliver in E. apply bind_Some in E as (nd & Hi & E).
  destruct (has_room nd) eqn:Hroom; [|done].
  set (w := mkWorld (one_client 9) nd (mkIo answers [])) in *.
  destruct (handle_packet _ _ w) as [[r w']| | |] eqn:Eh; try done. injection E as <- <-.
  refine (net_delivers net i nd (trace (w_io w')) _ _ Hi _).
  by apply (delivers nd _ w 1%positive (mkClient 9 IDLE (rb_new PKT_HEADER_LEN) None None)
    bs pk r w').
Qed.

(** What the deliveries of a list do that can be seen. *)
Fixpoint deliveries (l : list (packet * nat * list answer)) (net : list (node uthash uthash))
    : option (list net_event * list (node uthash uthash)) :=
  match l with
  | [] => Some ([], net)
  | (pk, i, answers) :: l =>
      '(ev, net) ← deliver pk i answers net;
      '(evs, net) ← deliveries l net;
      Some (ev :: evs, net)
  end.

Lemma deliveries_run l net evs net' :
  Forall (fun x => exists bs, framed bs x.1.1 /\ Forall byte_ok bs) l ->
  deliveries l net = Some (evs, net') -> net_run net evs net'.
Proof.
  intros Hl. revert net evs. induction Hl as [|[[pk i] answers] l (bs & Hf & Hb) Hl IH]; intros net evs E.
  - injection E as <- <-. constructor.
  - cbn [deliveries] in E. apply bind_Some in E as ([ev net1] & E1 & E).
    apply bind_Some in E as ([evs1 net2] & E2 & E). injection E as <- ->.
    econstructor; [by eapply deliver_step|by apply IH].
Qed.

(** The value "Hi" is put under the key 9, 9 at its owner; the key is asked for at
    the first node, which starts a lookup, and at the owner. *)
Definition three_deliveries : list (packet * nat * list answer) :=
  [(data_packet 2 [9; 9] [72; 105], 3%nat, [ASend 64]);
   (data_packet 4 [9; 9] [], 0%nat,
     AAddrinfo (Some [mkAddr 167772161 4711]) :: forward_answers (mkAddr 167772162 4712) 12 64);
   (data_packet 4 [9; 9] [], 3%nat, [ASend 64])].

Lemma four_nodes_hold : net_holds four_nodes (node_of <$> seq 0 4) ∅.
Proof.
  apply net_holds_empty; [done|]. intros i nd Hi.
  do 4 (destruct i as [|i];
    [injection Hi as <-; split; [split; reflexivity|exact bytes_rep_empty]|]). done.
Qed.

Lemma three_deliveries_framed :
  Forall (fun x => exists bs, framed bs x.1.1 /\ Forall byte_ok bs) three_deliveries.
Proof.
  repeat constructor.
  - exists (wire_data 2 [9; 9] [72; 105]). split; [by apply framed_data|by repeat constructor].
  - exists (wire_data 4 [9; 9] []). split; [by apply framed_data|by repeat constructor].
  - exists (wire_data 4 [9; 9] []). split; [by apply framed_data|by repeat constructor].
Qed.

Definition three_events : list net_event :=
  [Served 2 [9; 9] [72; 105] false (cells [10; 0; 0; 0; 0; 0; 0]); Internal;
   Served 4 [9; 9] [] false (cells [12; 0; 2; 0; 0; 0; 2; 9; 9; 72; 105])].

Lemma three_deliveries_events :
  fst <$> deliveries three_deliveries (node_of <$> seq 0 4) = Some three_events.
Proof. vm_compute. reflexivity. Qed.

Lemma ring_is_one_map_witness :
  exists net', net_run (node_of <$> seq 0 4) three_events net' /\ answers_right ∅ three_events /\
    net_holds four_nodes net' {[ [9; 9] := [72; 105] ]}.
Proof.
  destruct (deliveries three_deliveries (node_of <$> seq 0 4)) as [[evs net']|] eqn:E;
    pose proof three_deliveries_events as Hev; rewrite E in Hev; [|discriminate Hev].
  injection Hev as ->.
  pose proof (deliveries_run _ _ _ _ three_deliveries_framed E) as Hrun.
  destruct (ring_is_one_map four_nodes (node_of <$> seq 0 4) net' ∅ three_events)
    as [Ha Hh]; [| |exact four_nodes_hold|exact Hrun|].
  - concrete.
  - concrete.
  - exists net'. split; [exact Hrun|]. split; [exact Ha|exact Hh].
Defined.
