(* ===== verification/History.v ===== *)
(** * History: a running node is a sequence of deliveries

    [Network.v] treats a delivered packet as one step.  This file shows that this is
    all a running node does.  An abstract machine ([server_step]) keeps, for every
    connection, its socket and the bytes received on it since its last packet; it
    receives, and hands on a packet when those bytes make one.  Whatever the
    environment answers, the poll loop of [server.c] over the handlers of [peer.c],
    with its ring buffers, its client structures and its array of sockets, follows
    that machine ([advances]).  The runs of all nodes of a ring, interleaved in any
    way, are then runs of one map. *)

From stdpp Require Import base tactics list numbers option gmap strings sorting.
From S2P Require Import Prelude Sys Packet RingBuffer Util Neighbour KeyTable UtHash HashTable Requests Server ServerRun Peer NodeRun Lookup Ring Routing Network.

(** ** Computations along a preorder *)

(** Every result of [m] is reached along [R]. *)
Definition along {S A} (R : S -> S -> Prop) (m : ST S A) : Prop :=
  forall s a s', m s = Ok (a, s') -> R s s'.

Section Along.
Context {S : Type} (R : S -> S -> Prop) `{!PreOrder R}.

Lemma along_bind {A B} (m : ST S A) (f : A -> ST S B) :
  along R m -> (forall a, along R (f a)) -> along R (m ≫= f).
Proof.
  intros Hm Hf s b s' (a & s1 & E1 & E2)%st_bind_inv. etrans; [by eapply Hm|by eapply Hf].
Qed.
Lemma along_ret {A} (a : A) : along R (mret a).
Proof. by intros s b s' [= _ <-]. Qed.
Lemma along_lift {A} (m : res A) : along R (st_lift m).
Proof. intros s b s'. unfold st_lift. destruct m; by intros [= _ <-]. Qed.
Lemma along_no_fuel {A} : along R (fun _ : S => @NoFuel (A * S)).
Proof. by intros s a s'. Qed.
Lemma along_ub {A} : along R (fun _ : S => @Ub (A * S)).
Proof. by intros s a s'. Qed.
End Along.

Create HintDb along.
#[export] Hint Resolve along_ret along_lift along_no_fuel along_ub : along.

(** Decompose along binds and case distinctions. *)
Ltac along_step :=
  match goal with
  | |- forall _, _ => intro
  | |- along _ (_ ≫= _) => apply along_bind; [typeclasses eauto| |]
  | |- along _ (match ?x with _ => _ end) => destruct x
  | |- _ => progress auto 3 with along typeclass_instances
  end.

(** ** The operating system *)

(** What arrives are bytes. *)
Definition answer_bytes (a : answer) : Prop :=
  match a with ARecv (Some bs) => Forall byte_ok bs | _ => True end.
Definition script_bytes (i : io) : Prop := Forall answer_bytes (script i).

(** Time passes: the trace grows, what is still to come are bytes as before. *)
Definition later (i i' : io) : Prop :=
  (exists tr, trace i' = trace i ++ tr) /\ (script_bytes i -> script_bytes i').

#[export] Instance later_preorder : PreOrder later.
Proof.
  split.
  - intros i. split; [exists []; by rewrite app_nil_r|done].
  - intros i1 i2 i3 [[tr1 E1] H1] [[tr2 E2] H2]. split; [|by auto].
    exists (tr1 ++ tr2). by rewrite E2, E1, app_assoc.
Qed.

Lemma later_consume i : later i (consume i).
Proof.
  split; [exists []; by rewrite app_nil_r|]. unfold script_bytes. cbn.
  destruct (script i); [done|]. by intros [_ ?]%List.Forall_cons_iff.
Qed.
Lemma later_emit e i : later i (emit e i).
Proof. split; [by exists [e]|done]. Qed.
Lemma later_both e i : later i (emit e (consume i)).
Proof. etrans; [apply later_consume|apply later_emit]. Qed.

(** A call that takes one answer. *)
Ltac later_answer :=
  let i := fresh "i" in let x := fresh "x" in let E := fresh "E" in
  intros i ? ?; destruct (script i) as [|x ?] eqn:E; [done|]; destruct x; try done;
  repeat (match goal with |- context [if ?b then _ else _] => destruct b end);
  intros [= _ <-]; auto using later_consume, later_emit, later_both.

Lemma later_send fd b : along later (sys_send fd b).
Proof. unfold sys_send. later_answer. Qed.
Lemma later_close fd : along later (sys_close fd).
Proof. intros i a i' [= _ <-]. apply later_emit. Qed.
Lemma later_getaddrinfo h p : along later (sys_getaddrinfo h p).
Proof. unfold sys_getaddrinfo. later_answer. Qed.
Lemma later_socket : along later sys_socket.
Proof. unfold sys_socket. later_answer. Qed.
Lemma later_connect fd a : along later (sys_connect fd a).
Proof. unfold sys_connect. later_answer. Qed.

(** What [recv] gives, and what it leaves. *)
Lemma sys_recv_inv fd n i r data i' :
  sys_recv fd n i = Ok ((r, data), i') ->
  trace i' = trace i /\ (script_bytes i -> script_bytes i' /\ Forall byte_ok data) /\
  ((r = -1 /\ data = []) \/ (r = zlen data /\ zlen data <= Z.max 0 n)).
Proof.
  unfold sys_recv. destruct (Z.leb_spec n 0).
  { intros [= <- <- <-]. split; [done|]. split; [done|]. right. change (zlen []) with 0. lia. }
  unfold script_bytes. destruct (script i) as [|a sc] eqn:E; [done|].
  destruct a as [|[bs|]| | | | | | |]; try done.
  - destruct (Z.leb_spec (zlen bs) (Z.min n MAX_RW_COUNT)); intros [= <- <- <-]; cbn [trace script consume].
    + split; [done|]. rewrite E. split; [|right; lia].
      by intros [? ?]%List.Forall_cons_iff.
    + split; [done|]. split.
      * intros [Hb Hsc]%List.Forall_cons_iff. cbn in Hb. split; [|by apply Forall_take].
        constructor; [|done]. cbn. by apply Forall_drop.
      * right. assert (0 < Z.min n MAX_RW_COUNT) by (unfold MAX_RW_COUNT; lia).
        unfold zlen in *. rewrite length_take. lia.
  - intros [= <- <- <-]. cbn [trace script consume]. rewrite E. split; [done|]. split; [|by left].
    by intros [? ?]%List.Forall_cons_iff.
Qed.

Lemma later_recv fd n : along later (sys_recv fd n).
Proof.
  intros i [r data] i' E. destruct (sys_recv_inv _ _ _ _ _ _ E) as (Ht & Hb & _).
  split; [exists []; by rewrite app_nil_r|]. intros Hi. by destruct (Hb Hi).
Qed.
#[export] Hint Resolve later_send later_close later_getaddrinfo later_socket later_connect
  later_recv : along.

Lemma later_sendall_loop s fuel b n sent : along later (sendall_loop fuel s b n sent).
Proof.
  revert sent. induction fuel as [|fuel IH]; intros sent; cbn [sendall_loop];
    repeat first [apply IH | along_step | cbv zeta].
Qed.

Lemma later_sendall s b n : along later (sendall s b n).
Proof. intros i a i'. apply later_sendall_loop. Qed.

Lemma later_recvall_loop s fuel buffer n pos : along later (recvall_loop fuel s buffer n pos).
Proof.
  revert buffer n pos. induction fuel as [|fuel IH]; intros buffer n pos; cbn [recvall_loop];
    repeat first [apply IH | along_step | cbv zeta].
Qed.

Lemma later_recvall s : along later (recvall s).
Proof.
  intros i a i'. unfold recvall. apply along_bind; [typeclasses eauto|apply later_recvall_loop|].
  repeat along_step.
Qed.
#[export] Hint Resolve later_sendall later_recvall : along.

Lemma later_peer_lookup p : along later (peer_lookup p).
Proof. unfold peer_lookup. repeat along_step. Qed.
#[export] Hint Resolve later_peer_lookup : along.
Lemma later_peer_get_ip p : along later (peer_get_ip p).
Proof. unfold peer_get_ip. repeat along_step. Qed.
Lemma later_peer_connect_loop pas a p b : along later (peer_connect_loop pas a p b).
Proof.
  revert a p b. induction pas as [|x pas IH]; intros a p b; cbn [peer_connect_loop];
    repeat first [apply IH | along_step | cbv zeta].
Qed.
#[export] Hint Resolve later_peer_get_ip later_peer_connect_loop : along.
Lemma later_peer_connect p : along later (peer_connect p).
Proof. unfold peer_connect. repeat along_step. Qed.
Lemma later_peer_disconnect p : along later (peer_disconnect p).
Proof. unfold peer_disconnect. repeat along_step. Qed.
#[export] Hint Resolve later_peer_connect later_peer_disconnect : along.
Lemma later_forward p pack : along later (forward p pack).
Proof. unfold forward. repeat along_step. Qed.
#[export] Hint Resolve later_forward : along.
Lemma later_proxy_request s p n : along later (proxy_request s p n).
Proof. unfold proxy_request. repeat along_step. Qed.
#[export] Hint Resolve later_proxy_request : along.

(** ** The handlers *)

(** At most the mark for removal of some clients differs. *)
Definition marked_only (s s' : server) : Prop :=
  srv_socket s' = srv_socket s /\ clients s' = clients s /\ n_clients s' = n_clients s /\
  forall c, match client_heap s !! c, client_heap s' !! c with
            | Some cl, Some cl' => cl' = cl \/ cl' = with_state REMOVE cl
            | None, None => True
            | _, _ => False
            end.

#[export] Instance marked_only_preorder : PreOrder marked_only.
Proof.
  split.
  - intros s. split_and!; try done. intros c. destruct (client_heap s !! c); [by left|done].
  - intros s1 s2 s3 (A1 & A2 & A3 & A4) (B1 & B2 & B3 & B4). split_and!; [congruence..|].
    intros c. specialize (A4 c). specialize (B4 c).
    destruct (client_heap s1 !! c), (client_heap s2 !! c), (client_heap s3 !! c); try done.
    destruct A4 as [->| ->], B4 as [->| ->]; auto.
Qed.

Lemma marked_only_insert s c cl :
  client_heap s !! c = Some cl ->
  marked_only s (mkServer (srv_socket s) (n_clients s) (active s) (clients s)
                   (<[c := with_state REMOVE cl]> (client_heap s))).
Proof.
  intros Hc. split_and!; try done. intros x. cbn. destruct (decide (c = x)) as [<-|Hne].
  - rewrite Hc, lookup_insert_eq. by right.
  - rewrite lookup_insert_ne by done. destruct (client_heap s !! x); [by left|done].
Qed.

Section Beside.
Context {N : Type}.
Implicit Types (w : world N).

(** Time passes, and clients are marked for removal. *)
Definition beside w w' : Prop :=
  later (w_io w) (w_io w') /\ marked_only (w_srv w) (w_srv w').

#[export] Instance beside_preorder : PreOrder beside.
Proof.
  split; [by intros w|]. intros w1 w2 w3 [A1 B1] [A2 B2]. split; by etrans.
Qed.

Lemma beside_on_io {A} (m : ST io A) : along later m -> along beside (on_io m).
Proof.
  intros Hm w a w'. unfold on_io. destruct (m (w_io w)) as [[b i]| | |] eqn:E; try done.
  intros [= _ <-]. split; [|done]. by eapply Hm.
Qed.
Lemma beside_get_srv : along beside get_srv.
Proof. by intros w a w' [= _ <-]. Qed.
Lemma beside_get_client c : along beside (get_client c).
Proof. intros w a w'. unfold get_client. destruct (_ !! c); by intros [= _ <-]. Qed.

Lemma beside_close_loop fd cs : along beside (close_socket_loop fd cs).
Proof.
  induction cs as [|c cs IH]; cbn [close_socket_loop]; [auto with along typeclass_instances|].
  intros w a w' (cl & w1 & E1 & E)%st_bind_inv. unfold get_client in E1.
  destruct (client_heap (w_srv w) !! c) as [clx|] eqn:Hc; [|done]. injection E1 as -> <-.
  destruct (c_socket cl =? fd); [|by eapply IH]. injection E as _ <-.
  split; [done|]. by apply marked_only_insert.
Qed.
End Beside.
#[export] Hint Resolve beside_on_io beside_get_srv beside_get_client beside_close_loop : along.

Section Handlers.
Context {T1 T2 : Type} `{KTS1 : KeyTableSpec T1} `{KTS2 : KeyTableSpec T2}.

Lemma beside_get_node : along beside (get_node (T1 := T1) (T2 := T2)).
Proof. by intros w a w' [= _ <-]. Qed.
Lemma beside_set_node (nd : node T1 T2) : along beside (set_node nd).
Proof. by intros w a w' [= _ <-]. Qed.
Local Hint Resolve beside_get_node beside_set_node : along.

Lemma beside_close fd : along beside (server_close_socket (N := node T1 T2) fd).
Proof. unfold server_close_socket. repeat along_step. Qed.

Lemma beside_proxy_loop fuel n r : along beside (proxy_loop (T1 := T1) (T2 := T2) fuel n r).
Proof.
  revert n r. induction fuel as [|fuel IH]; intros n [r|]; cbn [proxy_loop];
    repeat first [apply IH | apply beside_close | along_step].
Qed.

Lemma beside_handle_packet c p : along beside (handle_packet (T1 := T1) (T2 := T2) c p).
Proof.
  unfold handle_packet, handle_packet_ctrl, handle_packet_data, handle_own_request,
    answer_lookup, lookup_peer, set_rt, set_succ, set_ht.
  repeat first [apply beside_proxy_loop | along_step | cbv zeta].
Qed.
End Handlers.

(** ** What a running node does

    A running server as its environment sees it: the socket it listens to, the
    node, the system, and for every connection its socket and the bytes that have
    been received on it since the last packet. *)

Section Machine.
Context {T1 T2 : Type} `{KTS1 : KeyTableSpec T1} `{KTS2 : KeyTableSpec T2}.
Implicit Types (w : world (node T1 T2)) (nd : node T1 T2) (cs : gmap ptr (Z * list Z)).

Record running : Type := mkRunning {
  r_listen : Z;
  r_node : node T1 T2;
  r_io : io;
  r_conns : gmap ptr (Z * list Z);
}.

(** The bytes that are missing: of the header, then of the body it announces. *)
Definition wanted (bs : list Z) : Z :=
  if zlen bs <? 7 then 7 - zlen bs
  else match packet_decode_hdr (cells (take 7 bs)) 7 with
       | Ok (Some p) => packet_body_size p - (zlen bs - 7)
       | _ => 0
       end.

(** One step: a system call of the server, or one packet.  A connection gets the
    bytes that [recv] on its own socket yields, appended to those it has; the
    packet handled is the one that exactly these bytes make, in the state the node
    and the system are in at that moment, and the bytes are used up by that; a
    connection on which a complete packet waits is not closed. *)
Inductive server_step : running -> option net_event -> running -> Prop :=
  | step_listen lfd nd i cs st i' :
      sys_listen lfd i = Ok (st, i') ->
      server_step (mkRunning lfd nd i cs) None (mkRunning lfd nd i' cs)
  | step_poll lfd nd i cs r i' :
      sys_poll i = Ok (r, i') ->
      server_step (mkRunning lfd nd i cs) None (mkRunning lfd nd i' cs)
  | step_accept lfd nd i cs fd i' c :
      sys_accept lfd i = Ok (fd, i') -> cs !! c = None ->
      server_step (mkRunning lfd nd i cs) None (mkRunning lfd nd i' (<[c := (fd, [])]> cs))
  | step_receive lfd nd i cs c fd bs r data i' :
      cs !! c = Some (fd, bs) -> 0 < wanted bs ->
      sys_recv fd (wanted bs) i = Ok ((r, data), i') ->
      server_step (mkRunning lfd nd i cs) None (mkRunning lfd nd i' (<[c := (fd, bs ++ data)]> cs))
  | step_packet lfd nd i cs c fd bs pk w r w' tr :
      cs !! c = Some (fd, bs) -> framed bs pk -> Forall byte_ok bs ->
      w_node w = nd -> w_io w = i -> c_socket <$> client_heap (w_srv w) = fst <$> cs ->
      has_room nd = true -> handle_packet c (Some pk) w = Ok (r, w') ->
      trace (w_io w') = trace i ++ tr ->
      server_step (mkRunning lfd nd i cs)
        (Some (event_of nd pk (refused i (w_io w')) (sent_to fd tr)))
        (mkRunning lfd (w_node w') (w_io w') (<[c := (fd, [])]> cs))
  | step_close lfd nd i cs c fd bs i' :
      cs !! c = Some (fd, bs) -> (forall pk, framed bs pk -> False) ->
      sys_close fd i = Ok (tt, i') ->
      server_step (mkRunning lfd nd i cs) None (mkRunning lfd nd i' (delete c cs)).

(** Any number of steps, and the events of the packets among them, in order. *)
Inductive server_steps : running -> list net_event -> running -> Prop :=
  | steps_nil st : server_steps st [] st
  | steps_cons st o st1 evs st2 :
      server_step st o st1 -> server_steps st1 evs st2 ->
      server_steps st (option_list o ++ evs) st2.

Lemma server_steps_app st1 evs st2 evs' st3 :
  server_steps st1 evs st2 -> server_steps st2 evs' st3 -> server_steps st1 (evs ++ evs') st3.
Proof. intros H1 H2. induction H1; [done|]. rewrite <- app_assoc. by econstructor; [|auto]. Qed.

Lemma server_steps_one st o st' : server_step st o st' -> server_steps st (option_list o) st'.
Proof. intros H1. rewrite <- (app_nil_r (option_list o)). by econstructor; [|constructor]. Qed.

(** A packet step is a delivery in the sense of the network. *)
Lemma server_step_node st o st' :
  server_step st o st' ->
  match o with
  | Some ev => exists tr, delivery (r_node st) tr ev (r_node st')
  | None => r_node st' = r_node st
  end.
Proof.
  intros Hs. destruct Hs as [| | | |lfd nd i cs c fd bs pk w r w' tr Hc Hf Hb <- <- Hsock Hr E Ht|];
    try done. exists tr. cbn [r_node].
  assert (exists cl, points_to w c cl /\ c_socket cl = fd) as (cl & Hp & <-).
  { apply (f_equal (fun m => m !! c)) in Hsock. rewrite !lookup_fmap, Hc in Hsock.
    unfold points_to. destruct (client_heap (w_srv w) !! c) as [cl|]; [|done].
    injection Hsock as Hsock. by exists cl. }
  by eapply delivers.
Qed.

(** ** The server follows the machine *)

(** The client structure holds the bytes [bs]: the beginning of a header, or a
    header and the beginning of the body it announces. *)
Definition holds_bytes (cl : client) (bs : list Z) : Prop :=
  Forall byte_ok bs /\
  match pkt_buf cl with
  | None => rb_ok (header_buf cl) /\ rb_capacity (header_buf cl) = 7 /\
      rb_contents (header_buf cl) = cells bs /\ zlen bs < 7
  | Some _ => state cl <> IDLE /\ exists h p b, bs = h ++ b /\ zlen h = 7 /\
      packet_decode_hdr (cells h) 7 = Ok (Some p) /\ body_buffered cl p b /\
      (b = [] \/ zlen b < packet_body_size p < 2 ^ 31)
  end.

Definition tracks (s : server) cs : Prop :=
  forall c, match client_heap s !! c, cs !! c with
            | Some cl, Some (fd, bs) => c_socket cl = fd /\ holds_bytes cl bs
            | None, None => True
            | _, _ => False
            end.

Definition running_as w cs : running := mkRunning (srv_socket (w_srv w)) (w_node w) (w_io w) cs.

Definition follows w cs : Prop := tracks (w_srv w) cs /\ script_bytes (w_io w).

(** From [w] the server came to [w'] by steps of the machine. *)
Definition advances w w' : Prop := forall cs, follows w cs ->
  exists evs cs', follows w' cs' /\ server_steps (running_as w cs) evs (running_as w' cs').

#[export] Instance advances_preorder : PreOrder advances.
Proof.
  split.
  - intros w cs Hw. exists [], cs. split; [done|constructor].
  - intros w1 w2 w3 A1 A2 cs Hw. destruct (A1 cs Hw) as (evs & cs2 & Hw2 & Hs).
    destruct (A2 cs2 Hw2) as (evs' & cs3 & Hw3 & Hs'). exists (evs ++ evs'), cs3.
    split; [done|]. by eapply server_steps_app.
Qed.

(** Nothing happens that can be seen from outside. *)
Lemma advances_quiet w w' :
  (forall cs, follows w cs -> follows w' cs) ->
  srv_socket (w_srv w') = srv_socket (w_srv w) -> w_node w' = w_node w -> w_io w' = w_io w ->
  advances w w'.
Proof.
  intros Hf Hs Hn Hi cs Hw. exists [], cs. split; [by auto|].
  unfold running_as. rewrite Hs, Hn, Hi. constructor.
Qed.

Lemma advances_step w w' :
  (forall cs, follows w cs -> exists o cs', follows w' cs' /\
     server_step (running_as w cs) o (running_as w' cs')) -> advances w w'.
Proof.
  intros Hf cs Hw. destruct (Hf cs Hw) as (o & cs' & Hw' & Hs). exists (option_list o), cs'.
  split; [done|by apply server_steps_one].
Qed.

Lemma holds_bytes_marked cl bs : holds_bytes cl bs -> holds_bytes (with_state REMOVE cl) bs.
Proof.
  intros [Hb Hcl]. split; [done|]. cbn. destruct (pkt_buf cl); [|done]. by destruct Hcl.
Qed.

Lemma tracks_marked s s' cs : tracks s cs -> marked_only s s' -> tracks s' cs.
Proof.
  intros Ht (_ & _ & _ & Hm) c. specialize (Ht c). specialize (Hm c).
  destruct (client_heap s !! c), (client_heap s' !! c), (cs !! c) as [[fd bs]|]; try done.
  destruct Ht as [<- Ht]. destruct Hm as [->| ->]; [done|]. by split; [|apply holds_bytes_marked].
Qed.

Lemma tracks_insert s cs c cl bs :
  tracks s cs -> holds_bytes cl bs ->
  tracks (mkServer (srv_socket s) (n_clients s) (active s) (clients s)
            (<[c := cl]> (client_heap s))) (<[c := (c_socket cl, bs)]> cs).
Proof.
  intros Ht Hb x. cbn. destruct (decide (c = x)) as [<-|Hne].
  - by rewrite !lookup_insert_eq.
  - rewrite !lookup_insert_ne by done. apply Ht.
Qed.

Lemma tracks_lookup s cs c cl :
  tracks s cs -> client_heap s !! c = Some cl ->
  exists bs, cs !! c = Some (c_socket cl, bs) /\ holds_bytes cl bs.
Proof.
  intros Ht Hc. specialize (Ht c). rewrite Hc in Ht. destruct (cs !! c) as [[fd bs]|]; [|done].
  destruct Ht as [<- Hb]. by exists bs.
Qed.

Lemma tracks_sockets s cs : tracks s cs -> c_socket <$> client_heap s = fst <$> cs.
Proof.
  intros Ht. apply map_eq. intros c. rewrite !lookup_fmap. specialize (Ht c).
  destruct (client_heap s !! c), (cs !! c) as [[fd bs]|]; try done. destruct Ht as [<- _]. done.
Qed.

(** What is held is never a whole packet. *)
Lemma holds_bytes_incomplete cl bs pk : holds_bytes cl bs -> framed bs pk -> False.
Proof.
  intros [_ Hcl] (h & b & p & -> & Hh & Hd & Hb & Hsz & _). destruct (pkt_buf cl).
  - destruct Hcl as (_ & h' & p' & b' & E & Hh' & Hd' & _ & Hsz').
    apply app_inj_1 in E as [<- <-]; [|unfold zlen in *; lia]. rewrite Hd in Hd'.
    injection Hd' as <-. destruct Hsz' as [->|]; [change (zlen []) with 0 in Hb|]; lia.
  - destruct Hcl as (_ & _ & _ & Hl). rewrite zlen_app in Hl. pose proof (zlen_nonneg b). lia.
Qed.

Lemma wanted_body h b p :
  zlen h = 7 -> packet_decode_hdr (cells h) 7 = Ok (Some p) ->
  wanted (h ++ b) = packet_body_size p - zlen b.
Proof.
  intros Hh Hd. unfold wanted. rewrite zlen_app, Hh. pose proof (zlen_nonneg b).
  rewrite (proj2 (Z.ltb_ge _ _)) by lia.
  replace (take 7 (h ++ b)) with h; [rewrite Hd; lia|].
  symmetry. replace 7%nat with (length h) by (unfold zlen in Hh; lia). apply take_app_length.
Qed.

(** A packet: the client structure is empty again when the handler gets it. *)
Lemma packet_step w c fd bs pk r w' cs :
  follows w (<[c := (fd, [])]> cs) -> framed bs pk -> Forall byte_ok bs ->
  until_full c (Some pk) w = Ok (r, w') ->
  follows w' (<[c := (fd, [])]> cs) /\
  exists ev, server_step (running_as w (<[c := (fd, bs)]> cs)) (Some ev)
    (running_as w' (<[c := (fd, [])]> cs)).
Proof.
  intros [Ht Hs] Hf Hbs E. unfold until_full in E.
  destruct (has_room (w_node w)) eqn:Hroom; [|done].
  destruct (beside_handle_packet _ _ _ _ _ E) as [[[tr Htr] Hs'] Hm].
  split; [split; [by eapply tracks_marked|by auto]|]. eexists.
  unfold running_as. destruct Hm as (-> & _).
  rewrite <- (insert_insert_eq cs c (fd, []) (fd, bs)).
  eapply step_packet; try done; [by rewrite lookup_insert_eq|].
  rewrite (tracks_sockets _ _ Ht), !fmap_insert. done.
Qed.
End Machine.

(** ** The server *)

Lemma body_size_range p : 0 <= packet_body_size p < 2 ^ 32.
Proof.
  unfold packet_body_size. destruct (negb _); [|lia]. pose proof (u32_range (key_len p + value_len p)).
  rewrite u64_small; lia.
Qed.

Lemma recv_block_inv {N} (w : world N) fd n nbytes buffer w1 :
  recv_block fd n w = Ok ((nbytes, buffer), w1) ->
  0 < n /\ exists r data i, sys_recv fd n (w_io w) = Ok ((r, data), i) /\ w1 = with_io i w /\
    nbytes = i32 r /\ buffer = cells data ++ malloc (n - zlen data).
Proof.
  unfold recv_block. destruct (Z.leb_spec n 0); [done|]. intros E. split; [done|].
  apply st_bind_inv in E as ([r data] & w2 & E1 & E). injection E as <- <- <-.
  unfold on_io in E1. destruct (sys_recv fd n (w_io w)) as [[[r1 data1] i]| | |] eqn:Er; [|done..].
  injection E1 as -> -> <-. by exists r, data, i.
Qed.

(** [recv] of what a ring buffer has room for: nothing, or bytes that [rb_write]
    takes. *)
Lemma fill_inv {N} (w : world N) fd rb d nbytes buffer w1 :
  rb_ok rb -> rb_contents rb = cells d -> rb_capacity rb < 2 ^ 32 ->
  recv_block fd (i32 (rb_can_write rb)) w = Ok ((nbytes, buffer), w1) ->
  let n := rb_capacity rb - zlen d in
  0 < n < 2 ^ 31 /\ exists r data i, sys_recv fd n (w_io w) = Ok ((r, data), i) /\
    w1 = with_io i w /\ zlen data <= n /\
    (0 < nbytes -> 0 < zlen data /\ forall a rb', rb_write rb buffer nbytes = Ok (a, rb') ->
       rb_ok rb' /\ rb_capacity rb' = rb_capacity rb /\ rb_contents rb' = cells (d ++ data)) /\
    (nbytes <= 0 -> data = []).
Proof.
  intros Hok Hc Hcap (Hpos & r & data & i & Er & -> & -> & ->)%recv_block_inv n.
  destruct (rb_free_space rb d Hok Hc) as [Hfree _]. fold n in Hfree.
  assert (0 <= n) as Hn0.
  { rewrite <- Hfree, rb_can_write_eq by done. pose proof (rb_can_read_range rb Hok). lia. }
  pose proof (zlen_nonneg d). rewrite Hfree in *.
  assert (n < 2 ^ 31) as Hlt by (unfold i32 in Hpos; unfold n in *; zlia).
  assert (i32 n = n) as En by (apply i32_small; lia). rewrite En in *.
  split; [lia|]. exists r, data, i. split; [done|]. split; [done|].
  pose proof (zlen_nonneg data).
  destruct (sys_recv_inv _ _ _ _ _ _ Er) as (_ & _ & [[-> ->]|[-> Hl]]).
  { change (zlen []) with 0. change (i32 (-1)) with (-1). split; [lia|]. split; [lia|done]. }
  rewrite Z.max_r in Hl by lia. rewrite i32_small by lia. split; [done|]. split.
  - intros Hd. split; [done|]. intros a rb' Ew.
    destruct (rb_write_spec rb (cells data ++ malloc (n - zlen data)) (zlen data) Hok)
      as (rb1 & Ew' & Hok' & Hcap' & Hc'); [lia| |].
    { rewrite zlen_app, zlen_cells. pose proof (zlen_nonneg (malloc (n - zlen data))). lia. }
    rewrite Ew in Ew'. injection Ew' as -> <-. split; [done|]. split; [done|].
    rewrite Hc', Hc, Hfree. rewrite Z.min_r by lia. unfold zlen. rewrite Nat2Z.id.
    by rewrite <- (length_cells data), take_app_length, cells_app.
  - intros Hd. apply zlen_nil_inv. lia.
Qed.

Section ServerSteps.
Context {T1 T2 : Type} `{KTS1 : KeyTableSpec T1} `{KTS2 : KeyTableSpec T2}.
Implicit Types (w : world (node T1 T2)) (cs : gmap ptr (Z * list Z)).

Lemma advances_get_srv : along advances (get_srv (N := node T1 T2)).
Proof. by intros w a w' [= _ <-]. Qed.

Lemma advances_remove c : along advances (server_remove_client (N := node T1 T2) c).
Proof.
  intros w a w' E. unfold server_remove_client in E. erewrite st_bind_Ok in E by done.
  destruct (bool_decide _); [|by injection E as _ <-].
  apply st_bind_inv in E as (cl & w1 & E1 & E). unfold get_client in E1.
  destruct (client_heap (w_srv w) !! c) as [cl'|] eqn:Hc; [|done]. injection E1 as -> <-.
  injection E as _ <-. apply advances_step. intros cs [Ht Hs].
  destruct (tracks_lookup _ _ _ _ Ht Hc) as (bs & Hcs & Hb).
  exists None, (delete c cs). split; [split; [|exact Hs]|].
  - intros x. cbn. destruct (decide (c = x)) as [<-|Hne]; [by rewrite !lookup_delete_eq|].
    rewrite !lookup_delete_ne by done. apply Ht.
  - eapply step_close; [exact Hcs|intros pk; by eapply holds_bytes_incomplete|done].
Qed.

(** Bytes arrive. *)
Lemma receive_step w cs c fd bs r data i :
  follows w cs -> cs !! c = Some (fd, bs) -> 0 < wanted bs -> Forall byte_ok bs ->
  sys_recv fd (wanted bs) (w_io w) = Ok ((r, data), i) ->
  server_step (running_as w cs) None (running_as (with_io i w) (<[c := (fd, bs ++ data)]> cs)) /\
  script_bytes i /\ Forall byte_ok (bs ++ data).
Proof.
  intros [_ Hs] Hc Hw Hb E. split; [by eapply step_receive|].
  destruct (sys_recv_inv _ _ _ _ _ _ E) as (_ & Hi & _). destruct (Hi Hs) as [Hi' Hd].
  split; [done|by apply Forall_app].
Qed.

(** Nothing arrived. *)
Lemma advances_nothing w c cl bs r i w' cs :
  follows w cs -> cs !! c = Some (c_socket cl, bs) -> 0 < wanted bs -> Forall byte_ok bs ->
  sys_recv (c_socket cl) (wanted bs) (w_io w) = Ok ((r, []), i) ->
  advances (with_io i w) w' ->
  exists evs cs', follows w' cs' /\ server_steps (running_as w cs) evs (running_as w' cs').
Proof.
  intros Hw Hc Hn Hb E Ha. destruct (receive_step _ _ _ _ _ _ _ _ Hw Hc Hn Hb E) as (Hs & Hi & _).
  rewrite app_nil_r, insert_id in Hs by done.
  destruct (Ha cs) as (evs & cs' & Hw' & Hs'); [split; [apply Hw|done]|].
  exists evs, cs'. split; [done|]. by eapply (steps_cons _ None).
Qed.

Lemma header_decoded w c cl h w' :
  points_to w c cl -> rb_ok (header_buf cl) -> rb_capacity (header_buf cl) = 7 ->
  rb_contents (header_buf cl) = cells h -> zlen h = 7 -> Forall byte_ok h ->
  client_decode_hdr c w = Ok (tt, w') ->
  exists cl', w' = with_client c cl' w /\ c_socket cl' = c_socket cl /\ holds_bytes cl' h.
Proof.
  intros Hp Hok Hcap Hc Hh Hb E.
  assert (exists p, packet_decode_hdr (cells h) 7 = Ok (Some p)) as [p Hd].
  { do 7 (destruct h as [|? h]; [done|]). destruct h; [|unfold zlen in Hh; cbn in Hh; lia].
    eexists. rewrite <- (app_nil_r (cells _)). apply packet_decode_hdr_bytes. lia. }
  assert (0 <= packet_body_size p < 2 ^ 64 - 1) as Hsz by (pose proof (body_size_range p); lia).
  destruct (decode_hdr_step w c cl h p Hp Hok Hcap Hc Hh Hd Hsz) as (cl' & E' & Hsock & Hst & Hbuf).
  rewrite E' in E. injection E as <-. exists cl'. split; [done|]. split; [done|].
  pose proof Hbuf as (_ & _ & _ & _ & pb & Hpb & _). split; [done|]. rewrite Hpb, Hst.
  split; [done|]. exists h, p, []. rewrite app_nil_r. by split_and!; auto.
Qed.

(** Receiving the beginning of a packet. *)
Lemma advances_header w c cl w' :
  points_to w c cl -> state cl = IDLE ->
  client_input until_full (c_socket cl) c w = Ok (tt, w') -> advances w w'.
Proof.
  intros Hp Hst E cs Hw. destruct (tracks_lookup _ _ _ _ (proj1 Hw) Hp) as (bs & Hcs & Hb & Hcl).
  destruct (pkt_buf cl) eqn:Hpb; [by destruct Hcl|]. destruct Hcl as (Hok & Hcap & Hc & Hl).
  assert (wanted bs = rb_capacity (header_buf cl) - zlen bs) as Hwant.
  { unfold wanted. by rewrite (proj2 (Z.ltb_lt _ _) Hl), Hcap. }
  unfold client_input in E. erewrite st_bind_Ok in E by (by apply get_client_ok).
  rewrite decide_True in E by done. apply st_bind_inv in E as ([nbytes buffer] & w1 & E1 & E).
  destruct (fill_inv w (c_socket cl) (header_buf cl) bs nbytes buffer w1 Hok Hc) as
    (Hn & r & data & i & Er & -> & Hle & Hsome & Hnone); [lia|done|]. rewrite <- Hwant in Er, Hn, Hle.
  destruct (Z.ltb_spec 0 nbytes) as [Hpos|Hpos].
  2: { rewrite (Hnone Hpos) in Er. eapply advances_nothing; try done; [lia|].
       destruct (nbytes =? 0); [by eapply advances_remove|by injection E as <-]. }
  destruct (receive_step _ _ _ _ _ _ _ _ Hw Hcs ltac:(lia) Hb Er) as (Hstep & Hi & Hdd).
  apply st_bind_inv in E as ([a rb'] & w2 & E2 & E).
  unfold st_lift in E2. destruct (rb_write _ _ _) as [x| | |] eqn:Ew; try done. injection E2 as -> <-.
  destruct (Hsome Hpos) as [Hd Hrb]. destruct (Hrb _ _ eq_refl) as (Hok' & Hcap' & Hc').
  erewrite st_bind_Ok in E by apply set_client_ok.
  destruct (rb_free_space rb' (bs ++ data) Hok' Hc') as [_ Hr].
  rewrite Hr in E. rewrite Hcap in *. unfold PKT_HEADER_LEN in E.
  match type of E with context [with_client c ?x _] => set (cl1 := x) in E end.
  enough (exists cl2, w' = with_client c cl2 (with_io i w) /\ c_socket cl2 = c_socket cl /\
    holds_bytes cl2 (bs ++ data)) as (cl2 & -> & Hs2 & Hb2).
  { exists [], (<[c := (c_socket cl, bs ++ data)]> cs). split; [|by eapply (server_steps_one _ None)].
    split; [|exact Hi]. rewrite <- Hs2. by apply tracks_insert; [apply Hw|]. }
  destruct (Z.eqb_spec (zlen (bs ++ data)) 7) as [H7|H7].
  - destruct (header_decoded (with_client c cl1 (with_io i w)) c cl1 (bs ++ data) w')
      as (cl2 & -> & Hs2 & Hb2); try done; [apply points_to_with_client|].
    exists cl2. by rewrite with_client_twice.
  - injection E as <-. exists cl1. split; [done|]. split; [done|]. split; [done|]. cbn. rewrite Hpb.
    rewrite zlen_app in *. split_and!; try done. lia.
Qed.

(** What is delivered is what the bytes received make. *)
Lemma body_delivered w c cl h b p w' cs :
  points_to w c cl -> Forall byte_ok (h ++ b) -> zlen h = 7 ->
  packet_decode_hdr (cells h) 7 = Ok (Some p) -> body_buffered cl p b ->
  zlen b = packet_body_size p -> 0 < packet_body_size p < 2 ^ 31 ->
  (forall cl', c_socket cl' = c_socket cl -> holds_bytes cl' [] ->
     follows (with_client c cl' w) (<[c := (c_socket cl, [])]> cs)) ->
  (client_decode_body c;; server_deliver_packet until_full c) w = Ok (tt, w') ->
  exists evs cs', follows w' cs' /\
    server_steps (running_as w (<[c := (c_socket cl, h ++ b)]> cs)) evs (running_as w' cs').
Proof.
  intros Hp Hbs Hh Hd Hbuf Hsz Hrange Hfol ([] & w1 & E1 & E)%st_bind_inv.
  rewrite (decode_body_eq w c cl p b Hp Hbuf Hsz) in E1.
  apply st_bind_inv in E1 as (pk & w2 & E0 & E1). unfold st_lift in E0.
  destruct (packet_decode_body _ _ _) as [pk'| | |] eqn:Eb; try done. injection E0 as -> <-.
  rewrite set_client_ok in E1. injection E1 as <-.
  match type of E with context [with_client c ?x _] => set (cl1 := x) in E end.
  assert (follows (with_client c cl1 w) (<[c := (c_socket cl, [])]> cs)) as Hw.
  { apply Hfol; [done|]. split; [constructor|]. cbn. by destruct Hbuf as (? & ? & ? & _). }
  unfold server_deliver_packet in E.
  erewrite st_bind_Ok in E by (apply get_client_ok, points_to_with_client).
  apply st_bind_inv in E as (rsp & w3 & E1 & E). cbn [pack cl1] in E1.
  destruct pk as [pk|]; [|unfold until_full in E1; by destruct (has_room _)].
  assert (framed (h ++ b) pk) as Hf by (exists h, b, p; split_and!; done || lia).
  destruct (packet_step _ c (c_socket cl) (h ++ b) pk rsp w3 cs Hw Hf Hbs E1) as (Hw3 & ev & Hstep).
  assert (advances w3 w') as Ha.
  { destruct (rsp =? CB_REMOVE_CLIENT); [by eapply advances_remove|by injection E as <-]. }
  destruct (Ha _ Hw3) as (evs & cs' & Hw' & Hs). exists (option_list (Some ev) ++ evs), cs'.
  split; [done|]. by eapply steps_cons.
Qed.

(** Receiving the rest of a packet. *)
Lemma advances_body w c cl w' :
  points_to w c cl -> state cl <> IDLE ->
  client_input until_full (c_socket cl) c w = Ok (tt, w') -> advances w w'.
Proof.
  intros Hp Hst E cs Hw. destruct (tracks_lookup _ _ _ _ (proj1 Hw) Hp) as (bs & Hcs & Hb & Hcl).
  unfold client_input in E. erewrite st_bind_Ok in E by (by apply get_client_ok).
  rewrite decide_False in E by done.
  destruct (pkt_buf cl) as [pb|] eqn:Hpb; [|done].
  destruct Hcl as (_ & h & p & b & -> & Hh & Hd & Hbuf & Hsz).
  pose proof Hbuf as (Hok & Hcap & Hc & Hpk & pb' & Hpb' & Hpok & Hpcap & Hpc).
  rewrite Hpb in Hpb'. injection Hpb' as <-.
  erewrite st_bind_Ok in E by (by apply st_lift_Ok).
  apply st_bind_inv in E as ([nbytes buffer] & w1 & E1 & E).
  pose proof (body_size_range p). pose proof (zlen_nonneg b).
  destruct (fill_inv w (c_socket cl) pb b nbytes buffer w1 Hpok Hpc) as
    (Hn & r & data & i & Er & -> & Hle & Hsome & Hnone); [lia|done|].
  rewrite Hpcap, <- (wanted_body h b p Hh Hd) in Er, Hn, Hle.
  destruct (Z.ltb_spec 0 nbytes) as [Hpos|Hpos].
  2: { rewrite (Hnone Hpos) in Er. eapply advances_nothing; try done; [lia|].
       destruct (nbytes =? 0); [by eapply advances_remove|by injection E as <-]. }
  destruct (receive_step _ _ _ _ _ _ _ _ Hw Hcs ltac:(lia) Hb Er) as (Hstep & Hi & Hdd).
  rewrite (wanted_body h b p Hh Hd) in Hn, Hle.
  apply st_bind_inv in E as ([a rb'] & w2 & E2 & E).
  unfold st_lift in E2. destruct (rb_write _ _ _) as [x| | |] eqn:Ew; try done. injection E2 as -> <-.
  destruct (Hsome Hpos) as [Hd0 Hrb]. destruct (Hrb _ _ eq_refl) as (Hok' & Hcap' & Hc').
  erewrite st_bind_Ok in E by apply set_client_ok.
  destruct (rb_free_space rb' (b ++ data) Hok' Hc') as [Hfree _].
  rewrite Hfree, Hcap', Hpcap in E. rewrite <- app_assoc in Hstep, Hdd.
  assert (0 < packet_body_size p < 2 ^ 31) as Hrange.
  { destruct Hsz as [-> |]; [change (zlen []) with 0 in *|]; lia. }
  match type of E with context [with_client c ?x _] => set (cl1 := x) in E end.
  assert (body_buffered cl1 p (b ++ data)) as Hbuf1.
  { split_and!; try done. exists rb'. by rewrite Hcap'. }
  assert (forall cl' bs, c_socket cl' = c_socket cl -> holds_bytes cl' bs ->
    follows (with_client c cl' (with_io i w)) (<[c := (c_socket cl, bs)]> cs)) as Hfol.
  { intros cl' bs <- Hb'. split; [|exact Hi]. apply tracks_insert; [apply Hw|done]. }
  destruct (Z.eqb_spec (packet_body_size p - zlen (b ++ data)) 0) as [Hfull|Hmore].
  - destruct (body_delivered (with_client c cl1 (with_io i w)) c cl1 h (b ++ data) p w' cs)
      as (evs & cs' & Hw' & Hs); try done; [apply points_to_with_client|lia| |].
    { intros cl' Hs' Hb'. rewrite with_client_twice. by apply Hfol. }
    exists evs, cs'. split; [done|]. by eapply (steps_cons _ None).
  - injection E as <-. exists [], (<[c := (c_socket cl, h ++ b ++ data)]> cs).
    split; [|by eapply (server_steps_one _ None)]. apply (Hfol cl1); [done|].
    split; [done|]. cbn. split; [done|]. exists h, p, (b ++ data). split_and!; try done.
    right. rewrite zlen_app in *. lia.
Qed.

(** A client that is in use. *)
Lemma advances_input w c cl w' :
  points_to w c cl -> client_input until_full (c_socket cl) c w = Ok (tt, w') -> advances w w'.
Proof.
  intros Hp E. destruct (decide (state cl = IDLE)).
  - by eapply advances_header.
  - by eapply advances_body.
Qed.
End ServerSteps.

(** ** The poll loop

    The array for [poll] is filled before the clients are served, and clients are
    removed meanwhile: the entry looked at is still that of the client served. *)

Section Frame.
Context {N : Type}.
Implicit Types (w : world N) (c : ptr).

(** The list of clients and the sockets, apart from that of [c], stay. *)
Definition still c w w' : Prop :=
  clients (w_srv w') = clients (w_srv w) /\ n_clients (w_srv w') = n_clients (w_srv w) /\
  forall x, x <> c -> socket_of (w_srv w') x = socket_of (w_srv w) x.

#[export] Instance still_preorder c : PreOrder (still c).
Proof.
  split; [by intros w|]. intros w1 w2 w3 (A1 & A2 & A3) (B1 & B2 & B3).
  split_and!; [congruence..|]. intros x Hx. by rewrite B3, A3.
Qed.

(** [c] may also be gone. *)
Definition frame c w w' : Prop :=
  exists w0, still c w w0 /\ (w' = w0 \/ exists cl, w' = removed c cl w0).

Lemma frame_bind {A B} c (m : ST (world N) A) (f : A -> ST (world N) B) :
  along (still c) m -> (forall a, along (frame c) (f a)) -> along (frame c) (m ≫= f).
Proof.
  intros Hm Hf w b w' (a & w1 & E1 & E2)%st_bind_inv. destruct (Hf a _ _ _ E2) as (w0 & Hs & Hw).
  exists w0. split; [|done]. etrans; [by eapply Hm|done].
Qed.
Lemma frame_still {A} c (m : ST (world N) A) : along (still c) m -> along (frame c) m.
Proof. intros Hm w a w' E. exists w'. split; [by eapply Hm|by left]. Qed.

Lemma still_on_io {A} c (m : ST io A) : along (still c) (on_io m).
Proof.
  intros w a w'. unfold on_io. destruct (m (w_io w)) as [[b i]| | |]; try done. by intros [= _ <-].
Qed.
Lemma still_get_client c c' : along (still c) (get_client c').
Proof. intros w a w'. unfold get_client. destruct (_ !! c'); by intros [= _ <-]. Qed.
Lemma still_set_client c cl : along (still c) (set_client c cl).
Proof.
  intros w a w' [= _ <-]. split_and!; try done. intros x Hx. unfold socket_of. cbn.
  by rewrite lookup_insert_ne.
Qed.
Lemma frame_remove c : along (frame c) (server_remove_client c).
Proof.
  intros w a w' E. unfold server_remove_client in E. erewrite st_bind_Ok in E by done.
  destruct (bool_decide _).
  - apply st_bind_inv in E as (cl & w1 & E1 & E). unfold get_client in E1.
    destruct (_ !! c); [|done]. injection E1 as -> <-. injection E as _ <-.
    exists w. split; [done|]. right. by exists cl.
  - injection E as _ <-. exists w. split; [done|by left].
Qed.
Lemma beside_still c w w' : beside w w' -> still c w w'.
Proof.
  intros (_ & _ & Hc & Hn & Hm). split_and!; try done. intros x _. specialize (Hm x).
  unfold socket_of. destruct (client_heap (w_srv w) !! x), (client_heap (w_srv w') !! x); try done.
  by destruct Hm as [->| ->].
Qed.
End Frame.
#[export] Hint Resolve still_on_io still_get_client still_set_client frame_remove : along.
#[export] Hint Resolve frame_still | 5 : along.

Ltac frame_step :=
  match goal with
  | |- forall _, _ => intro
  | |- along (frame _) (_ ≫= _) => apply frame_bind
  | |- along (frame _) (match ?x with _ => _ end) => destruct x
  | |- along (still _) _ => along_step
  | |- _ => progress auto 3 with along typeclass_instances
  end.

Section Loop.
Context {T1 T2 : Type} `{KTS1 : KeyTableSpec T1} `{KTS2 : KeyTableSpec T2}.
Implicit Types (w : world (node T1 T2)) (cs : gmap ptr (Z * list Z)).

Lemma still_until_full c p : along (still c) (until_full (T1 := T1) (T2 := T2) c p).
Proof.
  intros w a w'. unfold until_full. destruct (has_room (w_node w)); [|done].
  intros E. eapply beside_still, beside_handle_packet, E.
Qed.

Lemma frame_input fd c : along (frame c) (client_input (N := node T1 T2) until_full fd c).
Proof.
  unfold client_input, recv_block, client_decode_hdr, client_decode_body, server_deliver_packet.
  repeat first [apply still_until_full | frame_step].
Qed.

(** From the entry [k] on, [fds] are the sockets of the clients [b]. *)
Definition aligned (fds : list Z) (k : nat) (b : list ptr) (s : server) : Prop :=
  forall j x, b !! j = Some x -> (k + j < length fds)%nat ->
    fds !! (k + j)%nat = Some (socket_of s x).

Lemma client_fds_sockets n cl w fds w' :
  client_fds n cl w = Ok (fds, w') ->
  length fds = Nat.min n (length cl) /\ aligned fds 0 cl (w_srv w).
Proof.
  revert cl fds. induction n as [|n IH]; intros [|c cl] fds; cbn; try (by intros [= <- _]).
  - intros [= <- _]. split; [done|]. intros j x _ Hj. cbn in Hj. lia.
  - intros (clx & w1 & E1 & (fds' & w2 & E2 & [= <- <-])%st_bind_inv)%st_bind_inv.
    unfold get_client in E1. destruct (client_heap (w_srv w) !! c) eqn:Hc; [|done].
    injection E1 as -> <-. destruct (IH _ _ E2) as [Hl Ha]. split; [cbn; by rewrite Hl|].
    intros [|j] x Hx Hj; [|by apply Ha; cbn in *; [|lia]].
    injection Hx as <-. cbn. unfold socket_of. by rewrite Hc.
Qed.

Lemma aligned_next fds k x b s s' :
  aligned fds k (x :: b) s -> (forall y, y ∈ b -> socket_of s' y = socket_of s y) ->
  aligned fds (S k) b s'.
Proof.
  intros Ha Hs j y Hy Hj. replace (S k + j)%nat with (k + S j)%nat in * by lia.
  rewrite Hs by (by eapply list_elem_of_lookup_2). by apply Ha.
Qed.

Lemma i32_le z : - 2 ^ 31 <= z -> i32 z <= z.
Proof. intros. unfold i32. zlia. Qed.

Lemma advances_serve_loop fuel fds revents i w w' a b :
  srv_ok (w_srv w) -> clients (w_srv w) = a ++ b -> n_clients (w_srv w) <= zlen fds ->
  aligned fds i b (w_srv w) ->
  serve_loop until_full fuel fds revents (S (S i)) (hd_error b) w = Ok (tt, w') -> advances w w'.
Proof.
  revert i w a b. induction fuel as [|fuel IH]; intros i w a [|x b] Hok Hcl Hn Ha E;
    try (by injection E as <-); [done|].
  cbn [hd_error serve_loop] in E. erewrite st_bind_Ok in E by done.
  pose proof Hok as (Hnd & _ & Hnc). rewrite Hcl in Hnd.
  assert (- 2 ^ 31 <= n_clients (w_srv w)) as Hlow by (rewrite Hnc; unfold i32; zlia).
  pose proof (i32_le (n_clients (w_srv w) + 2) ltac:(lia)) as Hle.
  destruct (Z.ltb_spec (Z.of_nat (S (S i))) (i32 (n_clients (w_srv w) + 2))) as [Hi|]; [|by injection E as <-].
  assert (i + 0 < length fds)%nat as Hlt by (unfold zlen in Hn; lia).
  rewrite Hcl, next_of_middle in E by done. apply st_bind_inv in E as ([] & w1 & E1 & E).
  destruct (srv_ok_lookup w x Hok) as [cl Hp]; [rewrite Hcl; set_solver|].
  replace (S (S i) - 2)%nat with i in E1 by lia.
  pose proof (Ha 0%nat x eq_refl Hlt) as Hfd. rewrite Nat.add_0_r in Hfd. rewrite Hfd in E1.
  assert (socket_of (w_srv w) x = c_socket cl) as Es.
  { unfold socket_of. unfold points_to in Hp. by rewrite Hp. }
  cbn [default] in E1. rewrite Es in E1.
  assert (advances w w1 /\ frame x w w1 /\ srv_ok (w_srv w1)) as (Hadv & Hfr & Hok1).
  { destruct (default false _); [|by injection E1 as <-; split; [|split; [exists w; split; [|left]|]]].
    split; [by eapply advances_input|]. split; [by eapply frame_input|].
    eapply (client_input_keeps until_full); [apply until_full_keeps|exact Hok|exact E1]. }
  transitivity w1; [done|]. destruct Hfr as (w0 & (Hc0 & Hn0 & Hs0) & Hw1).
  assert (x ∉ b) as Hxb.
  { rewrite <- Permutation_middle in Hnd. apply NoDup_cons in Hnd as [Hx _]. set_solver. }
  assert (forall y, y ∈ b -> socket_of (w_srv w0) y = socket_of (w_srv w) y) as Hs.
  { intros y Hy. apply Hs0. intros ->. by apply Hxb. }
  destruct Hw1 as [->|[cl' ->]].
  - apply (IH (S i) w0 (a ++ [x]) b); [done|by rewrite Hc0, <- app_assoc|lia| |exact E].
    by eapply aligned_next.
  - apply (IH (S i) (removed x cl' w0) a b); [done| | | |exact E].
    + cbn. rewrite Hc0, Hcl. by apply filter_ne_middle.
    + cbn. rewrite Hn0. pose proof (i32_le (n_clients (w_srv w) - 1) ltac:(lia)). lia.
    + eapply aligned_next; [exact Ha|]. intros y Hy. rewrite <- Hs by done. unfold socket_of. cbn.
      rewrite lookup_delete_ne; [done|]. intros ->. by apply Hxb.
Qed.
End Loop.

Section Run.
Context {T1 T2 : Type} `{KTS1 : KeyTableSpec T1} `{KTS2 : KeyTableSpec T2}.
Implicit Types (w : world (node T1 T2)) (cs : gmap ptr (Z * list Z)).

Lemma advances_get_client c : along advances (get_client (N := node T1 T2) c).
Proof. intros w a w'. unfold get_client. destruct (_ !! c); by intros [= _ <-]. Qed.

Lemma advances_reap_loop fuel c : along advances (reap_loop (N := node T1 T2) fuel c).
Proof.
  revert c. induction fuel as [|fuel IH]; intros [c|]; cbn [reap_loop];
    repeat first [apply IH | apply advances_remove | apply advances_get_srv
      | apply advances_get_client | along_step | cbv zeta].
Qed.

Lemma advances_stop_loop fuel c : along advances (stop_loop (N := node T1 T2) fuel c).
Proof.
  revert c. induction fuel as [|fuel IH]; intros [c|]; cbn [stop_loop];
    repeat first [apply IH | apply advances_remove | apply advances_get_srv | along_step | cbv zeta].
Qed.

(** A call of the system that changes nothing else. *)
Lemma advances_call w i :
  later (w_io w) i ->
  (forall cs, server_step (running_as w cs) None (running_as (with_io i w) cs)) ->
  advances w (with_io i w).
Proof.
  intros [_ Hi] Hs. apply advances_step. intros cs [Ht Hb]. exists None, cs.
  split; [|apply Hs]. split; [exact Ht|by apply Hi].
Qed.

Lemma advances_add_client : along advances (server_add_client (N := node T1 T2)).
Proof.
  intros w a w'. unfold server_add_client. erewrite st_bind_Ok by done.
  intros (fd & w1 & E1 & E)%st_bind_inv. unfold on_io in E1.
  destruct (sys_accept (srv_socket (w_srv w)) (w_io w)) as [[fd' i]| | |] eqn:Ea; try done.
  injection E1 as -> <-. injection E as _ <-. apply advances_step. intros cs [Ht Hb].
  set (c := fresh (dom (client_heap (w_srv w))) : ptr).
  assert (client_heap (w_srv w) !! c = None) as Hc by apply not_elem_of_dom, is_fresh.
  exists None, (<[c := (fd, [])]> cs). split.
  - split.
    + intros x. cbn. fold c. destruct (decide (c = x)) as [<-|Hne].
      * rewrite !lookup_insert_eq. split; [done|]. split; [constructor|]. cbn.
        by destruct (rb_new_ok 7) as (H1 & H2 & H3).
      * rewrite !lookup_insert_ne by done. apply Ht.
    + unfold sys_accept, script_bytes in *. destruct (script (w_io w)) as [|x sc] eqn:Es; [done|].
      destruct x; try done. injection Ea as _ <-. cbn. rewrite Es.
      by apply List.Forall_cons_iff in Hb as [_ Hb].
  - eapply step_accept; [exact Ea|]. specialize (Ht c). rewrite Hc in Ht. by destruct (cs !! c).
Qed.

Lemma advances_round w b w' :
  srv_ok (w_srv w) -> server_round until_full w = Ok (b, w') -> advances w w'.
Proof.
  intros Hok E. apply st_bind_inv in E as (s & w1 & [= <- <-] & E).
  apply st_bind_inv in E as (fds & w1 & E1 & E). pose proof E1 as ->%client_fds_same.
  apply client_fds_sockets in E1 as [Hl Ha].
  apply st_bind_inv in E as ([ready revents] & w1 & E1 & E). unfold on_io in E1.
  destruct (sys_poll (w_io w)) as [[r i]| | |] eqn:Ep; try done. injection E1 as -> <-.
  change (mkWorld (w_srv w) (w_node w) i) with (with_io i w) in E.
  transitivity (with_io i w).
  { apply advances_call; [|intros cs; by eapply step_poll]. unfold sys_poll in Ep.
    destruct (script (w_io w)) as [|x sc]; [done|]. destruct x; try done.
    injection Ep as _ _ <-. apply later_consume. }
  destruct (ready <? 0); [by injection E as _ <-|].
  destruct (0 <? ready); [|by injection E as _ <-].
  destruct (default false (revents !! 0%nat)); [by injection E as _ <-|].
  apply st_bind_inv in E as ([] & w2 & E2 & E). transitivity w2.
  - apply (advances_serve_loop (length (clients (w_srv w))) fds revents 0 (with_io i w) w2 [] (clients (w_srv w)) Hok); try done.
    cbn [w_srv with_io]. pose proof Hok as (_ & _ & Hnc). rewrite Hnc in *. pose proof (zlen_nonneg (clients (w_srv w))).
    pose proof (i32_le (zlen (clients (w_srv w))) ltac:(lia)). unfold zlen in *. lia.
  - revert E. clear. revert w'. revert b. revert w2.
    change (along advances (s ← get_srv (N := node T1 T2);
      reap_loop (length (clients s)) (hd_error (clients s));;
      (if default false (revents !! 1%nat) then server_add_client else mret tt);; mret true)).
    repeat first [apply advances_reap_loop | apply advances_get_srv | apply advances_add_client
      | along_step].
Qed.

Lemma advances_loop fuel w w' :
  srv_ok (w_srv w) -> unmarked (w_srv w) -> server_loop until_full fuel w = Ok (tt, w') ->
  advances w w'.
Proof.
  revert w. induction fuel as [|fuel IH]; intros w Hok Hu E; cbn [server_loop] in E;
    erewrite st_bind_Ok in E by done; (destruct (active (w_srv w)); [|by injection E as <-]); [done|].
  apply st_bind_inv in E as ([] & w1 & E1 & E); [|injection E as <-; by eapply advances_round].
  destruct (server_round_ok until_full until_full_keeps w true w1 Hok Hu E1) as [Hok1 Hu1].
  transitivity w1; [by eapply advances_round|by apply IH].
Qed.

(** The node is about to serve: nobody is connected, and what will arrive are
    bytes. *)
Definition fresh_start w : Prop :=
  clients (w_srv w) = [] /\ client_heap (w_srv w) = ∅ /\ n_clients (w_srv w) = 0 /\
  script_bytes (w_io w).

Lemma run_steps w w' :
  fresh_start w -> server_run until_full w = Ok (tt, w') ->
  exists evs, server_steps (running_as w ∅) evs (running_as w' ∅).
Proof.
  intros (Hc & Hh & Hn & Hb). unfold server_run.
  generalize (S (length (script (w_io w)))) as fuel. intros fuel.
  erewrite st_bind_Ok by done. intros (st & w1 & E1 & E)%st_bind_inv. unfold on_io in E1.
  destruct (sys_listen (srv_socket (w_srv w)) (w_io w)) as [[st' i]| | |] eqn:El; try done.
  injection E1 as -> <-. erewrite st_bind_Ok in E by done.
  match type of E with (server_loop _ _;; _) ?x = _ => set (w2 := x) in E end.
  assert (srv_ok (w_srv w2)) as Hok.
  { unfold srv_ok. cbn. rewrite Hc, Hh, Hn. split; [constructor|]. split; [|done]. intros c.
    rewrite lookup_empty. split; [by intros ?%not_elem_of_nil|by intros [? ?]]. }
  assert (unmarked (w_srv w2)) as Hu.
  { intros c. unfold marked. cbn. by rewrite Hh, lookup_empty. }
  apply st_bind_inv in E as ([] & w3 & E3 & E).
  destruct (server_loop_ok until_full until_full_keeps fuel w2 tt w3 Hok Hu E3) as [Hok3 _].
  unfold server_stop in E. erewrite st_bind_Ok in E by done.
  destruct (stop_loop_spec w3 Hok3) as (w4 & E4 & _ & Hh4 & _). cbv zeta in E4.
  rewrite E4 in E. injection E as ->.
  assert (advances w2 w') as Ha.
  { etrans; [by eapply advances_loop|by eapply advances_stop_loop]. }
  assert (follows w2 ∅) as Hw2.
  { split; [intros c; cbn; by rewrite Hh, !lookup_empty|]. cbn. unfold sys_listen, script_bytes in *.
    destruct (script (w_io w)) as [|x sc] eqn:Es; [done|]. destruct x; try done.
    injection El as _ <-. cbn. rewrite Es. by apply List.Forall_cons_iff in Hb as [_ Hb]. }
  destruct (Ha ∅ Hw2) as (evs & cs' & [Ht' _] & Hs).
  assert (cs' = ∅) as ->.
  { apply map_empty. intros c. specialize (Ht' c). rewrite Hh4, lookup_empty in Ht'.
    by destruct (cs' !! c). }
  exists evs. change evs with (option_list None ++ evs). eapply steps_cons; [|exact Hs].
  by eapply step_listen.
Qed.
End Run.

(** ** Histories and maps *)

Lemma Forall3_insert_lm {A B C} (P : A -> B -> C -> Prop) l k k' i x y z :
  Forall3 P l k k' -> k' !! i = Some z -> P x y z -> Forall3 P (<[i := x]> l) (<[i := y]> k) k'.
Proof.
  intros Hall. revert i. induction Hall as [|a b c l k k' Habc Hall IH]; intros [|i] Hi Hp; try done.
  - injection Hi as ->. by constructor.
  - constructor; [done|by apply IH].
Qed.

Section Maps.
Context {T1 T2 : Type} `{KTS1 : KeyTableSpec T1} `{KTS2 : KeyTableSpec T2}.
Implicit Types (nd : node T1 T2) (net : list (node T1 T2)).

(** The deliveries to one node, one by one. *)
Inductive deliveries_of nd : list net_event -> node T1 T2 -> Prop :=
  | deliveries_nil : deliveries_of nd [] nd
  | deliveries_cons tr ev nd1 evs nd' :
      delivery nd tr ev nd1 -> deliveries_of nd1 evs nd' -> deliveries_of nd (ev :: evs) nd'.

Lemma steps_deliveries (st st' : running (T1 := T1) (T2 := T2)) evs :
  server_steps st evs st' -> deliveries_of (r_node st) evs (r_node st').
Proof.
  induction 1 as [st|st o st1 evs st2 Hs _ IH]; [constructor|].
  apply server_step_node in Hs. destruct o as [ev|]; cbn.
  - destruct Hs as [tr Hd]. by econstructor.
  - by rewrite <- Hs.
Qed.

(** One node alone, without a ring: its deliveries act on its own map. *)
Lemma deliveries_map nd evs nd' m :
  deliveries_of nd evs nd' -> bytes_rep (n_ht nd) m ->
  answers_right m evs /\ bytes_rep (n_ht nd') (foldl map_after m evs) /\ keeps_place nd nd'.
Proof.
  intros Hh. revert m. induction Hh as [nd|nd tr ev nd1 evs nd' Hd _ IH]; intros m Hm.
  { split; [done|]. split; [exact Hm|by split_and!]. }
  destruct ev as [|fl k v b sent].
  - destruct (internal_step _ _ _ Hd) as (Hht & K1 & K2 & K3). rewrite <- Hht in Hm.
    destruct (IH _ Hm) as (Ha & Hm' & L1 & L2 & L3). split; [by split|].
    split; [exact Hm'|]. split_and!; congruence.
  - destruct (served_step _ _ _ _ _ _ _ _ _ Hd Hm) as (_ & (K1 & K2 & K3) & Hm1 & Hans).
    destruct (IH _ Hm1) as (Ha & Hm' & L1 & L2 & L3). split; [by split|].
    split; [exact Hm'|]. split_and!; congruence.
Qed.

(** The list [l] takes the elements of the lists [ls] in some order that respects
    each of them. *)
Inductive interleaves {A} : list (list A) -> list A -> Prop :=
  | interleaves_nil ls : Forall (fun l => l = []) ls -> interleaves ls []
  | interleaves_cons ls i x l xs :
      ls !! i = Some (x :: l) -> interleaves (<[i := l]> ls) xs -> interleaves ls (x :: xs).

(** However the deliveries of several nodes interleave, they are a run of the network. *)
Lemma interleaved_run net hs net' evs :
  Forall3 (fun nd h nd' => deliveries_of nd h nd') net hs net' -> interleaves hs evs ->
  net_run net evs net'.
Proof.
  intros Hall Hi. revert net Hall.
  induction Hi as [hs Hnil|hs i x l xs Hx _ IH]; intros net Hall.
  - assert (net = net') as ->; [|constructor].
    induction Hall as [|nd h nd' net hs net' Hd Hall IH]; [done|].
    apply List.Forall_cons_iff in Hnil as [-> Hnil]. inversion Hd. f_equal. by apply IH.
  - destruct (Forall3_lookup_m _ _ _ _ _ _ Hall Hx) as (nd & nd' & Hnd & Hnd' & Hd).
    inversion Hd as [|tr ev nd1 evs nd2 Hd1 Hd2]; subst.
    econstructor; [by econstructor|]. apply IH.
    by eapply Forall3_insert_lm.
Qed.
End Maps.

(** ** Properties *)

(** C4. A running node is a machine that hands on what it receives.  The node starts
    serving with a store that stands for the map [m]; clients come and go, requests
    arrive in pieces, the network and the other nodes do anything; the tables have
    room.  When the node has stopped, its run was a sequence of steps
    ([server_step]), from the first state of the node and the system to the last: the
    system calls of the server, and packets.  A packet is made of exactly the bytes
    that have been received on one connection since its last packet, it is handled
    once, in the state the node and the system are in at that moment, and no
    connection is given up, at the end neither, while a complete packet waits on it.
    The requests among the packets that the node owned were applied to [m] one after
    the other, each was answered with all of what the map held then (a proper
    beginning only where its socket refused), and the store stands for the map they
    leave. *)
Theorem node_run_is_history {T1 T2} `{KeyTableSpec T1} `{KeyTableSpec T2}
    (w w' : world (node T1 T2)) m :
  fresh_start w -> bytes_rep (n_ht (w_node w)) m -> server_run until_full w = Ok (tt, w') ->
  exists evs, server_steps (running_as w ∅) evs (running_as w' ∅) /\
    answers_right m evs /\ bytes_rep (n_ht (w_node w')) (foldl map_after m evs) /\
    keeps_place (w_node w) (w_node w').
Proof.
  intros Hw Hm E. destruct (run_steps _ _ Hw E) as (evs & Hs).
  destruct (deliveries_map _ _ _ _ (steps_deliveries _ _ _ Hs) Hm) as (Ha & Hm' & Hk).
  exists evs. by split_and!.
Qed.

(** C2. All nodes of a ring run, each its own poll loop, with anything going on in
    the network.  Each run is a sequence of steps of the machine of
    [node_run_is_history], which ties the packets handled to the bytes received.  In
    whatever way the packets of the nodes interleave, the ring behaved as one map:
    every request that came to its owner was answered with all of what that one map
    held at that moment (a proper beginning only where the client's socket refused),
    and the stores the nodes are left with are the shards of the map the requests
    leave. *)
Theorem ring_runs_are_one_map {T1 T2} `{KeyTableSpec T1} `{KeyTableSpec T2}
    (ring : list (Z * string * Z)) (ws ws' : list (world (node T1 T2))) M :
  StronglySorted Z.lt (ids ring) -> (2 <= length ring)%nat -> net_holds ring (w_node <$> ws) M ->
  Forall2 (fun w w' => fresh_start w /\ server_run until_full w = Ok (tt, w')) ws ws' ->
  exists hs : list (list net_event),
    Forall3 (fun w h w' => server_steps (running_as w ∅) h (running_as w' ∅)) ws hs ws' /\
    forall evs, interleaves hs evs ->
      answers_right M evs /\ net_holds ring (w_node <$> ws') (foldl map_after M evs).
Proof.
  intros Hs Hn Hh Hruns.
  assert (exists hs : list (list net_event), Forall3 (fun w h w' =>
    server_steps (running_as w ∅) h (running_as w' ∅)) ws hs ws') as [hs Hhs].
  { clear Hh. induction Hruns as [|w w' ws ws' [Hw E] _ [hs IH]]; [by exists []; constructor|].
    destruct (run_steps _ _ Hw E) as (evs & Hst). exists (evs :: hs). by constructor. }
  exists hs. split; [done|]. intros evs Hi. eapply net_run_ok; try done.
  eapply interleaved_run; [|exact Hi]. clear Hi Hh Hruns.
  induction Hhs as [|w h w' ws hs ws' Hw _ IH]; cbn; constructor; [|done].
  by eapply (steps_deliveries (running_as w ∅) (running_as w' ∅)).
Qed.

(** A node of the ring of four that has just started. *)
Definition started (i : nat) (answers : list answer) : world (node uthash uthash) :=
  mkWorld (mkServer 3 0 false [] ∅) (node_of i) (mkIo (AListen 0 :: answers) []).

Lemma started_fresh i answers : Forall answer_bytes answers -> fresh_start (started i answers).
Proof. intros Ha. split; [done|]. split; [done|]. split; [done|]. by constructor. Qed.

(** The run, when it ends. *)
Definition stopped (w : world (node uthash uthash)) : option (world (node uthash uthash)) :=
  match server_run until_full w with Ok (_, w') => Some w' | _ => None end.

Lemma stopped_run w w' : stopped w = Some w' -> server_run until_full w = Ok (tt, w').
Proof.
  unfold stopped. destruct (server_run until_full w) as [[[] w1]| | |]; try discriminate.
  intros E. injection E as ->. reflexivity.
Qed.

(** SET of the key 9, 9 to "Hi", in three pieces, at its owner; GET of it at the first
    node, which starts a lookup; the other two nodes are stopped at once. *)
Definition set_run : world (node uthash uthash) :=
  started 3 [APoll 1 [false; true]; AAccept 9; APoll 1 [false; false; true]; ARecv (Some [2; 0; 2]);
             APoll 1 [false; false; true]; ARecv (Some [0; 0; 0; 2]);
             APoll 1 [false; false; true]; ARecv (Some [9; 9; 72; 105]); ASend 64;
             APoll 1 [true]].
Definition get_run : world (node uthash uthash) :=
  started 0 ([APoll 1 [false; true]; AAccept 9; APoll 1 [false; false; true];
              ARecv (Some [4; 0; 2; 0; 0; 0; 0]); APoll 1 [false; false; true];
              ARecv (Some [9; 9]); AAddrinfo (Some [mkAddr 167772161 4711])] ++
             forward_answers (mkAddr 167772162 4712) 12 64 ++ [APoll 1 [true]]).
Definition idle_run (i : nat) : world (node uthash uthash) := started i [APoll 1 [true]].

Lemma set_run_fresh : fresh_start set_run.
Proof. apply started_fresh. by repeat constructor. Qed.
Lemma get_run_fresh : fresh_start get_run.
Proof. apply started_fresh. by repeat constructor. Qed.
Lemma idle_run_fresh i : fresh_start (idle_run i).
Proof. apply started_fresh. by repeat constructor. Qed.

Lemma node_run_is_history_witness :
  exists w' evs, server_run until_full set_run = Ok (tt, w') /\
    trace (w_io w') = [EListen 3; ESend 9 (cells [10; 0; 0; 0; 0; 0; 0]); EClose 9] /\
    server_steps (running_as set_run ∅) evs (running_as w' ∅) /\ answers_right ∅ evs /\
    bytes_rep (n_ht (w_node w')) (foldl map_after ∅ evs).
Proof.
  assert ((fun w' => trace (w_io w')) <$> stopped set_run =
    Some [EListen 3; ESend 9 (cells [10; 0; 0; 0; 0; 0; 0]); EClose 9]) as Ht
    by (vm_compute; reflexivity).
  destruct (stopped set_run) as [w'|] eqn:E; [|discriminate Ht]. apply stopped_run in E.
  injection Ht as Ht.
  destruct (node_run_is_history set_run w' ∅ set_run_fresh bytes_rep_empty E)
    as (evs & E2 & E3 & E4 & _).
  exists w', evs. split; [exact E|]. split; [exact Ht|].
  split; [exact E2|]. split; [exact E3|exact E4].
Defined.

Lemma ring_runs_are_one_map_witness :
  exists ws' hs, Forall2 (fun w w' => server_run until_full w = Ok (tt, w'))
      [get_run; idle_run 1; idle_run 2; set_run] ws' /\
    length hs = 4%nat /\
    forall evs, interleaves hs evs ->
      answers_right ∅ evs /\ net_holds four_nodes (w_node <$> ws') (foldl map_after ∅ evs).
Proof.
  assert (forallb (fun w => match stopped w with Some _ => true | None => false end)
    [get_run; idle_run 1; idle_run 2; set_run] = true) as Ht by (vm_compute; reflexivity).
  cbn [forallb] in Ht.
  destruct (stopped get_run) as [w0|] eqn:E0; [|discriminate Ht].
  destruct (stopped (idle_run 1)) as [w1|] eqn:E1; [|discriminate Ht].
  destruct (stopped (idle_run 2)) as [w2|] eqn:E2; [|discriminate Ht].
  destruct (stopped set_run) as [w3|] eqn:E3; [|discriminate Ht].
  apply stopped_run in E0, E1, E2, E3.
  destruct (ring_runs_are_one_map four_nodes [get_run; idle_run 1; idle_run 2; set_run]
    [w0; w1; w2; w3] ∅) as (hs & Hhs & Hall).
  - concrete.
  - concrete.
  - exact four_nodes_hold.
  - apply Forall2_cons. split; [split; [exact get_run_fresh|exact E0]|].
    apply Forall2_cons. split; [split; [exact (idle_run_fresh 1)|exact E1]|].
    apply Forall2_cons. split; [split; [exact (idle_run_fresh 2)|exact E2]|].
    apply Forall2_cons. split; [split; [exact set_run_fresh|exact E3]|]. constructor.
  - exists [w0; w1; w2; w3], hs. split; [|split; [|exact Hall]].
    + repeat (apply Forall2_cons; split; [assumption|]). constructor.
    + symmetry. exact (Forall3_length_lm _ _ _ _ Hhs).
Defined.
