(* ===== verification/Setup.v ===== *)
(** * Setup: starting a node ([server_setup] of [praxis2/src/server.c], [main] of
    [praxis2/src/peer.c])

    The command line, the three peers, the listening socket; then the poll loop
    of [Server.v] with the callback of [Peer.v]. *)

From Stdlib Require Import Strings.Ascii.
From stdpp Require Import base tactics list numbers option gmap strings.
From S2P Require Import Prelude Packet Sys Neighbour KeyTable UtHash HashTable Requests Server Peer.

(** ** [server_setup] *)

(** The loop over the addresses: a failing [socket] ends the function (the list
    is not freed), a failing [bind] closes and goes on.  [status] starts as the
    0 of [getaddrinfo]. *)
Fixpoint setup_loop (rs : list sockaddr) (s status : Z) : ST io (option (Z * Z)) :=
  match rs with
  | [] => mret (Some (s, status))
  | r :: rs =>
      s ← sys_socket;
      if s <? 0 then mret None
      else
        status ← sys_bind s r;
        if status <? 0 then sys_close s;; setup_loop rs s status
        else mret (Some (s, status))
  end.

(** After a failing [getaddrinfo] the list [res] is read uninitialised. *)
Definition server_setup (port : string) : ST io (option server) :=
  r ← sys_getaddrinfo_passive port;
  res ← st_lift (deref r);
  o ← setup_loop res (-1) 0;
  mret (match o with
        | None => None
        | Some (s, status) =>
            if status <? 0 then None else Some (mkServer s 0 false [] ∅)
        end).

(** ** [main] *)

Definition ULONG_MAX : Z := 2 ^ 64 - 1.

(** [strtoul(s, NULL, 10)]: the value, and whether [errno] is set to [ERANGE].
    A minus sign negates in the unsigned type. *)
Definition strtoul (s : string) : Z * bool :=
  let '(neg, v) :=
    match skip_space s with
    | String.String "-"%char s' => (true, digits_value 0 s')
    | String.String "+"%char s' => (false, digits_value 0 s')
    | s' => (false, digits_value 0 s')
    end in
  if ULONG_MAX <? v then (ULONG_MAX, true)
  else (if neg : bool then u64 (- v) else v, false).

(** A call of [strtoul] that leaves [errno] alone unless it fails. *)
Definition strtoul_errno (errno : Z) (s : string) : Z * Z :=
  let '(v, erange) := strtoul s in (v, if erange then ERANGE else errno).

(** The three peers, from the nine arguments.  [errno] is 0 at the start of the
    program and never cleared; a peer that could not be made is NULL, and is
    not looked at. *)
Definition init_peers (idSelf hostSelf portSelf idPred hostPred portPred
    idSucc hostSucc portSucc : string) : option peer * option peer * option peer :=
  let '(idSelf, errno) := strtoul_errno 0 idSelf in
  let '(idPred, errno) := strtoul_errno errno idPred in
  let '(idSucc, errno) := strtoul_errno errno idSucc in
  let '(self, errno) := peer_init errno (u16 idSelf) hostSelf portSelf in
  let '(pred, errno) := peer_init errno (u16 idPred) hostPred portPred in
  let '(succ, errno) := peer_init errno (u16 idSucc) hostSucc portSucc in
  (self, pred, succ).

(** [main] up to the call of [server_run]: NULL when the server could not be set
    up.  Missing arguments are reported and then read all the same. *)
Definition peer_setup (argv : list string)
    : ST io (option (server * (option peer * option peer * option peer))) :=
  match argv with
  | _ :: idSelf :: hostSelf :: portSelf :: idPred :: hostPred :: portPred
      :: idSucc :: hostSucc :: portSucc :: _ =>
      let peers := init_peers idSelf hostSelf portSelf idPred hostPred portPred
                     idSucc hostSucc portSucc in
      srv ← server_setup portSelf;
      mret ((fun srv => (srv, peers)) <$> srv)
  | _ => st_lift Ub
  end.

(** The rest of [main], for peers that are not NULL: the poll loop from the empty
    store and the empty table of requests, and the close of the server's
    socket. *)
Definition peer_serve {T1 T2} `{KeyTable T1} `{KeyTable T2}
    (srv : server) (self pred succ : peer) : io -> res (world (node T1 T2)) := fun i =>
  r ← (server_run handle_packet;;
       s ← get_srv;
       on_io (sys_close (srv_socket s)))
      (mkWorld srv (mkNode store_empty rtables_empty self pred succ) i);
  Ok r.2.

(** ** Setting up *)

(** A run of addresses that cannot be bound, each with the socket and the status
    of [bind]. *)
Definition bind_answers (bs : list (sockaddr * (Z * Z))) : list answer :=
  bs ≫= (fun b => [ASocket b.2.1; ABind b.2.2]).
Definition bind_failed (bs : list (sockaddr * (Z * Z))) : list event :=
  bs ≫= (fun b => [ESocket b.2.1; EBind b.2.1 b.1; EClose b.2.1]).

Lemma setup_loop_fails bs rs s st w rest :
  Forall (fun b => 0 <= b.2.1 /\ b.2.2 < 0) bs -> script w = bind_answers bs ++ rest ->
  exists s' st', (st < 0 \/ bs <> [] -> st' < 0) /\ (bs = [] -> st' = st) /\
    setup_loop (bs.*1 ++ rs) s st w
    = setup_loop rs s' st' (mkIo rest (trace w ++ bind_failed bs)).
Proof.
  revert s st w. induction bs as [|[a [fd b]] bs IH]; intros s st w Hbs Hw.
  { exists s, st. cbn in *. rewrite app_nil_r, <- Hw. split; [naive_solver|]. by destruct w. }
  apply List.Forall_cons_iff in Hbs as [[Hfd Hb] Hbs]. cbn in Hfd, Hb.
  destruct w as [sc tr]. cbn in Hw. subst sc. cbn [fmap list_fmap fst app setup_loop].
  erewrite st_bind_Ok by reflexivity. rewrite (proj2 (Z.ltb_ge fd 0)) by done.
  unfold emit, consume. cbn [script trace tail].
  erewrite st_bind_Ok by reflexivity. rewrite (proj2 (Z.ltb_lt b 0)) by done.
  erewrite st_bind_Ok by reflexivity. unfold emit, consume. cbn [script trace tail].
  match goal with |- context [setup_loop _ fd b (mkIo _ ?t)] =>
    destruct (IH fd b (mkIo (bind_answers bs ++ rest) t) Hbs eq_refl) as (s' & st' & H1 & _ & E)
  end.
  exists s', st'. split; [by eauto|]. split; [done|]. etrans; [exact E|].
  unfold bind_failed. cbn. by rewrite <- !app_assoc.
Qed.

Lemma server_setup_bound port bs a more fd st w rest :
  Forall (fun b => 0 <= b.2.1 /\ b.2.2 < 0) bs -> 0 <= fd -> 0 <= st ->
  script w = AAddrinfo (Some (bs.*1 ++ a :: more)) ::
             bind_answers bs ++ ASocket fd :: ABind st :: rest ->
  server_setup port w
  = Ok (Some (mkServer fd 0 false [] ∅),
        mkIo rest (trace w ++ EResolvePassive port :: bind_failed bs ++ [ESocket fd; EBind fd a])).
Proof.
  intros Hbs Hfd Hst Hw. destruct w as [sc tr]. cbn in Hw. subst sc. unfold server_setup.
  erewrite st_bind_Ok by reflexivity. erewrite st_bind_Ok by reflexivity.
  unfold emit, consume. cbn [script trace tail].
  match goal with |- context [mkIo ?sc ?t] =>
    edestruct (setup_loop_fails bs (a :: more) (-1) 0 (mkIo sc t) _ Hbs eq_refl)
      as (s' & st' & _ & _ & E) end.
  assert (forall i, script i = ASocket fd :: ABind st :: rest ->
    setup_loop (a :: more) s' st' i
    = Ok (Some (fd, st), mkIo rest (trace i ++ [ESocket fd; EBind fd a]))) as E2.
  { intros [sc tr'] Hi. cbn in Hi. subst sc. cbn [setup_loop].
    erewrite st_bind_Ok by reflexivity. rewrite (proj2 (Z.ltb_ge fd 0)) by done.
    erewrite st_bind_Ok by reflexivity. rewrite (proj2 (Z.ltb_ge st 0)) by done.
    unfold emit, consume. cbn. unfold mret, st_ret. by rewrite <- app_assoc. }
  erewrite st_bind_Ok by (rewrite E; by apply E2). cbn [trace].
  rewrite (proj2 (Z.ltb_ge st 0)) by done. unfold mret, st_ret. cbn. by rewrite <- !app_assoc.
Qed.

(** A peer made from a valid id and port. *)
Definition started (id host port : string) : peer :=
  mkPeer ((strtoul id).1 mod 2 ^ 16) host (u16 (strtol port).1) (-1) no_addr 0.

Definition port_ok (port : string) : Prop :=
  snd (strtol port) = false /\ fst (strtol port) <= UINT16_MAX.

Lemma u16_idem z : u16 (u16 z) = z mod 2 ^ 16.
Proof. unfold u16. by rewrite Z.mod_mod. Qed.

Lemma peer_init_valid id host port :
  port_ok port ->
  peer_init 0 (u16 (strtoul id).1) host port = (Some (started id host port), 0).
Proof.
  intros [He Hm]. unfold peer_init, started. destruct (strtol port) as [v e]. cbn in *. subst e.
  rewrite (proj2 (Z.ltb_ge _ _)) by done. cbn. by rewrite u16_idem.
Qed.

Lemma peer_init_errno errno id host port :
  errno <> 0 -> exists errno', errno' <> 0 /\ peer_init errno id host port = (None, errno').
Proof.
  intros He. unfold peer_init. destruct (strtol port) as [v []]; cbn.
  - by exists ERANGE.
  - rewrite (proj2 (Z.eqb_neq errno 0)) by done. by exists errno.
Qed.

(** C40. Starting a node on addresses of which the first ones cannot be bound:
    those sockets are closed and the first address that can be bound is used.
    With ids that fit an [unsigned long] and valid ports the three peers carry
    the ids modulo [2^16], the hosts and the ports; one id that does not fit
    leaves [errno] set, none of the three peers is made, and the server starts
    all the same. *)
Theorem peer_setup_outcome prog id1 h1 p1 id2 h2 p2 id3 h3 p3 args bs a more fd st w rest :
  Forall (fun b => 0 <= b.2.1 /\ b.2.2 < 0) bs -> 0 <= fd -> 0 <= st ->
  script w = AAddrinfo (Some (bs.*1 ++ a :: more)) ::
             bind_answers bs ++ ASocket fd :: ABind st :: rest ->
  exists peers,
    peer_setup (prog :: id1 :: h1 :: p1 :: id2 :: h2 :: p2 :: id3 :: h3 :: p3 :: args) w
    = Ok (Some (mkServer fd 0 false [] ∅, peers),
          mkIo rest (trace w ++ EResolvePassive p1 :: bind_failed bs ++ [ESocket fd; EBind fd a]))
    /\ (Forall (fun s => snd (strtoul s) = false) [id1; id2; id3] ->
        Forall port_ok [p1; p2; p3] ->
        peers = (Some (started id1 h1 p1), Some (started id2 h2 p2), Some (started id3 h3 p3)))
    /\ (Exists (fun s => snd (strtoul s) = true) [id1; id2; id3] -> peers = (None, None, None)).
Proof.
  intros Hbs Hfd Hst Hw. eexists. split; [|split].
  - unfold peer_setup. by erewrite st_bind_Ok by (by eapply (server_setup_bound _ _ _ _ fd st)).
  - intros Hi Hp. split_forall.
    pose proof (peer_init_valid id1 h1 p1) as E1. pose proof (peer_init_valid id2 h2 p2) as E2.
    pose proof (peer_init_valid id3 h3 p3) as E3. unfold init_peers, strtoul_errno.
    destruct (strtoul id1) as [v1 e1], (strtoul id2) as [v2 e2], (strtoul id3) as [v3 e3].
    cbn [fst snd] in *. subst. cbv iota beta. by rewrite E1, E2, E3.
  - intros He. unfold init_peers, strtoul_errno.
    destruct (strtoul id1) as [v1 e1] eqn:F1, (strtoul id2) as [v2 e2] eqn:F2,
      (strtoul id3) as [v3 e3] eqn:F3.
    assert ((if e3 then ERANGE else if e2 then ERANGE else if e1 then ERANGE else 0) <> 0) as Hne.
    { destruct e1, e2, e3; try done. rewrite !List.Exists_cons, List.Exists_nil, F1, F2, F3 in He.
      cbn in He. naive_solver. }
    destruct (peer_init_errno _ (u16 v1) h1 p1 Hne) as (n1 & Hn1 & ->).
    destruct (peer_init_errno _ (u16 v2) h2 p2 Hn1) as (n2 & Hn2 & ->).
    by destruct (peer_init_errno _ (u16 v3) h3 p3 Hn2) as (n3 & _ & ->).
Qed.

Lemma peer_setup_outcome_witness :
  let w := mkIo [AAddrinfo (Some [mkAddr 1 80; mkAddr 2 80; mkAddr 3 80]);
                 ASocket 3; ABind (-1); ASocket 3; ABind 0; AListen 0] [] in
  exists peers,
    peer_setup ["peer"; "65537"; "a"; "80"; "-1"; "b"; "81"; " 7"; "c"; "82"]%string w
    = Ok (Some (mkServer 3 0 false [] ∅, peers),
          mkIo [AListen 0] (trace w ++ [EResolvePassive "80"; ESocket 3; EBind 3 (mkAddr 1 80);
                 EClose 3; ESocket 3; EBind 3 (mkAddr 2 80)]))
    /\ peers = (Some (mkPeer 1 "a" 80 (-1) no_addr 0), Some (mkPeer 65535 "b" 81 (-1) no_addr 0),
                Some (mkPeer 7 "c" 82 (-1) no_addr 0)).
Proof.
  intros w.
  destruct (peer_setup_outcome "peer" "65537" "a" "80" "-1" "b" "81" " 7" "c" "82" []
    [(mkAddr 1 80, (3, -1))] (mkAddr 2 80) [mkAddr 3 80] 3 0 w [AListen 0])
    as (peers & E & P & _); try reflexivity; try discriminate.
  - repeat constructor; discriminate.
  - exists peers. split; [exact E|]. apply P.
    + repeat constructor.
    + repeat constructor; discriminate.
Defined.
