(* ===== verification/Client.v ===== *)
(** * Client: the command line client ([praxis2/src/client.c])

    Connecting to a node, building the request from the command line (and, for
    SET, from standard input), sending it, and decoding the response.  Standard
    input is descriptor 0 and standard output descriptor 1 of the scripted
    operating system. *)

From Stdlib Require Import Strings.Ascii.
From stdpp Require Import base tactics list numbers option strings.
From S2P Require Import Prelude Sys Util Packet.

(** The bytes of a C string, and its length. *)
Fixpoint bytes_of (s : string) : list Z :=
  match s with
  | String.EmptyString => []
  | String.String a s => Z.of_N (Ascii.N_of_ascii a) :: bytes_of s
  end.
Definition strlen (s : string) : Z := zlen (bytes_of s).

(** [fread(ptr, 1, len, stdin)]: an error counts as nothing read. *)
Definition fread_stdin (len : Z) : ST io (Z * list Z) :=
  '(r, data) ← sys_recv 0 len;
  mret (Z.max 0 r, data).

Fixpoint read_stdin_loop (fuel : nat) (buffer : list cell) (buf_size pos : Z)
    : ST io (list cell * Z) :=
  match fuel with
  | O => st_lift NoFuel
  | S fuel =>
      let '(buffer, buf_size) :=
        if buf_size - pos <? 1
        then (buffer ++ malloc (u64 (buf_size * 2) - buf_size), u64 (buf_size * 2))
        else (buffer, buf_size) in
      '(bytes, data) ← fread_stdin (buf_size - pos);
      buffer ← st_lift (store_block buffer pos (cells data));
      if bytes <? 1 then mret (buffer, pos)
      else read_stdin_loop fuel buffer buf_size (pos + bytes)
  end.

Definition read_stdin : ST io (list cell * Z) := fun w =>
  read_stdin_loop (S (script_size w)) (malloc 1024) 1024 0 w.

(** The loop over the addresses: failed sockets are closed, the first
    connection is kept.  The socket tried last and whether it is connected. *)
Fixpoint connect_loop (ps : list sockaddr) (sock : Z) : ST io (Z * bool) :=
  match ps with
  | [] => mret (sock, false)
  | p :: ps =>
      sock ← sys_socket;
      if sock <? 0 then connect_loop ps sock
      else
        status ← sys_connect sock p;
        if status <? 0 then sys_close sock;; connect_loop ps sock
        else mret (sock, true)
  end.

Definition connect_socket (hostname port : string) : ST io Z :=
  res ← sys_getaddrinfo_name hostname port;
  match res with
  | None => mret (-1)
  | Some res =>
      '(sock, connected) ← connect_loop res (-1);
      if connected : bool then mret sock else mret (-1)
  end.

(** The request: [p->key_len] is 16 bits wide, [p->value_len] 32. *)
Definition request_packet (fl : Z) (key : string) (data : option (list cell)) (data_len : Z)
    : packet :=
  mkPacket fl (u16 (strlen key)) (u32 data_len) (Some (cells (bytes_of key ++ [0]))) data 0 0 0 0.

Definition send_request (s : Z) (p : packet) : ST io Z :=
  '(raw_pkt, raw_size) ← st_lift (packet_serialize p);
  sendall s raw_pkt raw_size.

(** [fwrite] of the rest of the value to standard output, until all of it is
    written. *)
Fixpoint write_value (fuel : nat) (value : option (list cell)) (value_len written : Z)
    : ST io bool :=
  if written <? value_len then
    match fuel with
    | O => st_lift NoFuel
    | S fuel =>
        v ← st_lift (deref value);
        chunk ← st_lift (load_block v written (value_len - written));
        n ← sys_send 1 chunk;
        if n <? 1 then mret false
        else write_value fuel value value_len (u64 (written + n))
    end
  else mret true.

Definition write_stdout (value : option (list cell)) (value_len : Z) : ST io bool := fun w =>
  write_value (S (length (script w))) value value_len 0 w.

(** The exit status of [main]; [argv] holds the arguments from the program name
    on. *)
Definition client_main (argv : list string) : ST io Z :=
  match argv with
  | _ :: hostname :: port :: method :: key :: _ =>
      s ← connect_socket hostname port;
      if s <? 0 then mret (-1) else
      sent ← (if (method =? "SET")%string then
                '(data, data_len) ← read_stdin;
                send_request s (request_packet PKT_FLAG_SET key (Some data) data_len);;
                mret true
              else if (method =? "GET")%string then
                send_request s (request_packet PKT_FLAG_GET key None 0);; mret true
              else if (method =? "DELETE")%string then
                send_request s (request_packet PKT_FLAG_DEL key None 0);; mret true
              else mret false);
      if negb sent then mret (-1) else
      '(response, response_len) ← recvall s;
      rsp ← st_lift (packet_decode response response_len);
      match rsp with
      | None => mret (-1)
      | Some rsp =>
          if negb (has_flag (flags rsp) PKT_FLAG_ACK) then mret (-1)
          else if (method =? "GET")%string then
            ok ← write_stdout (value rsp) (value_len rsp);
            mret (if ok : bool then 0 else -1)
          else mret 0
      end
  | _ => mret (-1)
  end.

(** ** Reading standard input *)

Lemma sys_recv_eof fd len w rest :
  0 < len -> script w = ARecv (Some []) :: rest ->
  sys_recv fd len w = Ok ((0, []), mkIo rest (trace w)).
Proof.
  intros Hl Hw. unfold sys_recv. rewrite (proj2 (Z.leb_gt _ _)) by lia. rewrite Hw.
  change (zlen []) with 0. rewrite (proj2 (Z.leb_le 0 _)) by (unfold MAX_RW_COUNT; lia).
  unfold consume. by rewrite Hw.
Qed.

(** What is left to do for the two reading loops is the same. *)
Lemma read_stdin_loop_recv fuel buffer bs pos w cs rest r w' :
  script w = chunks cs ++ ARecv (Some []) :: rest -> Forall (fun x => x <> []) cs ->
  recvall_loop fuel 0 buffer bs pos w = Ok (r, w') ->
  read_stdin_loop fuel buffer bs pos w = Ok (r, w').
Proof.
  revert buffer bs pos w cs. induction fuel as [|fuel IH]; intros buffer bs pos w cs Hw Hne;
    [done|]. cbn [recvall_loop read_stdin_loop].
  destruct (if bs - pos <? 1 then _ else _) as [b1 bs1].
  assert (exists n data w1, sys_recv 0 (bs1 - pos) w = Ok ((n, data), w1) /\
    0 <= n < 2 ^ 64 /\ (n < 1 \/ exists cs1,
      script w1 = chunks cs1 ++ ARecv (Some []) :: rest /\ Forall (fun x => x <> []) cs1)) as
    (n & data & w1 & E & Hn & Hnext).
  { destruct (Z.le_gt_cases (bs1 - pos) 0) as [Hle|Hgt].
    { exists 0, [], w. unfold sys_recv. rewrite (proj2 (Z.leb_le _ _)) by lia.
      split; [done|]. split; [lia|]. left. lia. }
    destruct cs as [|c cs].
    { exists 0, [], (mkIo rest (trace w)). split; [by apply sys_recv_eof|]. split; [lia|].
      left. lia. }
    apply List.Forall_cons_iff in Hne as [Hc Hne].
    destruct (sys_recv_chunk 0 (bs1 - pos) w c cs _ Hgt Hc Hne Hw)
      as (data & cs1 & E & Hl & Hne1 & _).
    exists (zlen data), data, (mkIo (chunks cs1 ++ ARecv (Some []) :: rest) (trace w)).
    split; [done|]. pose proof (sys_recv_bound 0 (bs1 - pos) w) as Hb. rewrite E in Hb.
    split; [unfold MAX_RW_COUNT in Hb; lia|]. right. by exists cs1. }
  intros H. rewrite (st_bind_Ok _ _ _ _ _ E) in H. cbn beta iota in H.
  erewrite st_bind_Ok by (unfold fread_stdin; rewrite (st_bind_Ok _ _ _ _ _ E); reflexivity).
  cbn beta iota. rewrite u64_small in H by lia. rewrite Z.max_r by lia.
  apply st_bind_inv in H as (b2 & w2 & E2 & H).
  unfold st_lift in E2. destruct (store_block b1 pos (cells data)) eqn:Es; try done.
  injection E2 as -> <-. erewrite st_bind_Ok by (by apply st_lift_Ok).
  destruct (Z.ltb_spec n 1) as [Hn1|Hn1]; [done|].
  destruct (bs1 <? pos + n); [done|].
  destruct Hnext as [?|(cs1 & Hw1 & Hne1)]; [lia|]. by eapply IH.
Qed.

Lemma read_stdin_ok w cs rest :
  script w = chunks cs ++ ARecv (Some []) :: rest -> Forall (fun x => x <> []) cs ->
  zlen (concat cs) < 2 ^ 62 ->
  exists buffer, read_stdin w = Ok ((buffer, zlen (concat cs)), mkIo rest (trace w)) /\
    load_bytes (Some buffer) (zlen (concat cs)) = Ok (concat cs).
Proof.
  intros Hw Hne Hl.
  destruct (recvall_stream 0 w cs rest Hw Hne Hl) as (buffer & w' & E & Hb & _ & Hs & Ht).
  unfold recvall in E. apply st_bind_inv in E as (r & w1 & E1 & E).
  apply st_bind_inv in E as ([] & w2 & [= <-] & [= -> <-]). cbn in Hs, Ht.
  apply app_inj_tail in Ht as [Ht _]. exists buffer. split; [|done].
  unfold read_stdin. rewrite (read_stdin_loop_recv _ _ _ _ _ cs rest _ _ Hw Hne E1).
  destruct w1 as [sc tr]. cbn in *. by subst.
Qed.

(** ** Connecting *)

(** Why an address is passed over: no socket, or no connection. *)
Inductive failure : Type :=
  | NoSocket (fd : Z)
  | NoConnect (fd status : Z).

Definition failure_ok (f : failure) : Prop :=
  match f with NoSocket fd => fd < 0 | NoConnect fd status => 0 <= fd /\ status < 0 end.

Definition failure_answers (f : sockaddr * failure) : list answer :=
  match f.2 with
  | NoSocket fd => [ASocket fd]
  | NoConnect fd status => [ASocket fd; AConnect status]
  end.

Definition failure_events (f : sockaddr * failure) : list event :=
  match f.2 with
  | NoSocket _ => []
  | NoConnect fd _ => [ESocket fd; EConnect fd f.1; EClose fd]
  end.

Lemma connect_loop_fails (fs : list (sockaddr * failure)) ps sock w rest :
  Forall (fun f => failure_ok f.2) fs ->
  script w = (fs ≫= failure_answers) ++ rest ->
  exists sock', connect_loop (fs.*1 ++ ps) sock w
                = connect_loop ps sock' (mkIo rest (trace w ++ (fs ≫= failure_events))).
Proof.
  revert sock w. induction fs as [|[a f] fs IH]; intros sock w Hf Hw.
  { exists sock. cbn in *. rewrite app_nil_r, <- Hw. by destruct w. }
  apply List.Forall_cons_iff in Hf as [Hf Hfs]. destruct w as [sc tr]. cbn in Hw. subst sc.
  destruct f as [fd|fd st]; cbn in Hf; cbn [fmap list_fmap fst app connect_loop].
  - erewrite st_bind_Ok by reflexivity. cbn [failure_answers snd].
    rewrite (proj2 (Z.ltb_lt fd 0)) by done.
    destruct (IH fd (mkIo ((fs ≫= failure_answers) ++ rest) tr) Hfs eq_refl) as [s E].
    exists s. exact E.
  - destruct Hf as [Hfd Hst]. erewrite st_bind_Ok by reflexivity. cbn.
    rewrite (proj2 (Z.ltb_ge fd 0)) by done. erewrite st_bind_Ok by reflexivity.
    rewrite (proj2 (Z.ltb_lt st 0)) by done. cbn. erewrite st_bind_Ok by reflexivity.
    unfold emit, consume. cbn.
    match goal with |- context [connect_loop _ fd (mkIo _ ?t)] =>
      destruct (IH fd (mkIo ((fs ≫= failure_answers) ++ rest) t) Hfs eq_refl) as [s E] end.
    exists s. cbn in E. etrans; [exact E|]. by rewrite <- !app_assoc.
Qed.

Lemma connect_loop_first a ps sock w fd st rest :
  0 <= fd -> 0 <= st -> script w = ASocket fd :: AConnect st :: rest ->
  connect_loop (a :: ps) sock w
  = Ok ((fd, true), mkIo rest (trace w ++ [ESocket fd; EConnect fd a])).
Proof.
  intros Hfd Hst Hw. destruct w as [sc tr]. cbn in Hw. subst sc. cbn [connect_loop].
  erewrite st_bind_Ok by reflexivity. cbn. rewrite (proj2 (Z.ltb_ge fd 0)) by done.
  erewrite st_bind_Ok by reflexivity. rewrite (proj2 (Z.ltb_ge st 0)) by done.
  unfold emit, consume. cbn. by rewrite <- !app_assoc.
Qed.

(** The answers to a connection set-up that gets through to [a] after the
    failures [fs], and what it leaves in the trace. *)
Definition connect_answers (fs : list (sockaddr * failure)) (a : sockaddr)
    (more : list sockaddr) (fd st : Z) : list answer :=
  AAddrinfo (Some (fs.*1 ++ a :: more)) :: (fs ≫= failure_answers) ++ [ASocket fd; AConnect st].

Definition connect_events (host port : string) (fs : list (sockaddr * failure))
    (a : sockaddr) (fd : Z) : list event :=
  EResolveName host port :: (fs ≫= failure_events) ++ [ESocket fd; EConnect fd a].

Lemma connect_socket_ok host port fs a more fd st w rest :
  Forall (fun f => failure_ok f.2) fs -> 0 <= fd -> 0 <= st ->
  script w = connect_answers fs a more fd st ++ rest ->
  connect_socket host port w
  = Ok (fd, mkIo rest (trace w ++ connect_events host port fs a fd)).
Proof.
  intros Hfs Hfd Hst Hw. destruct w as [sc tr]. cbn in Hw. subst sc. unfold connect_socket.
  erewrite st_bind_Ok by reflexivity. cbn iota. unfold emit, consume. cbn [script trace tail].
  rewrite <- app_assoc.
  match goal with |- context [mkIo ?sc ?t] =>
    edestruct (connect_loop_fails fs (a :: more) (-1) (mkIo sc t) _ Hfs eq_refl) as [s E] end.
  erewrite st_bind_Ok by (rewrite E; by apply (connect_loop_first _ _ _ _ fd st rest)). cbn [trace].
  unfold connect_events. cbn. by rewrite <- !app_assoc.
Qed.

Lemma connect_socket_fails host port fs w rest :
  Forall (fun f => failure_ok f.2) fs ->
  script w = AAddrinfo (Some fs.*1) :: (fs ≫= failure_answers) ++ rest ->
  connect_socket host port w
  = Ok (-1, mkIo rest (trace w ++ EResolveName host port :: (fs ≫= failure_events))).
Proof.
  intros Hfs Hw. destruct w as [sc tr]. cbn in Hw. subst sc. unfold connect_socket.
  erewrite st_bind_Ok by reflexivity. cbn iota. unfold emit, consume. cbn [script trace tail].
  match goal with |- context [mkIo ?sc ?t] =>
    edestruct (connect_loop_fails fs [] (-1) (mkIo sc t) _ Hfs eq_refl) as [s E] end.
  rewrite app_nil_r in E. erewrite st_bind_Ok by (rewrite E; reflexivity). cbn.
  by rewrite <- app_assoc.
Qed.

(** Connecting: the addresses are tried in the order the resolver gives
    them; an address for which no socket can be made, or that refuses, is
    passed over and its socket closed; the first one that accepts is returned
    with no further attempt, and -1 is returned, with no socket left open,
    exactly when there is none. *)
Theorem connect_socket_first host port fs last w rest :
  Forall (fun f => failure_ok f.2) fs ->
  match last with Some (_, fd, st, _) => 0 <= fd /\ 0 <= st | None => True end ->
  script w = match last with
             | Some (a, fd, st, more) => connect_answers fs a more fd st ++ rest
             | None => AAddrinfo (Some fs.*1) :: (fs ≫= failure_answers) ++ rest
             end ->
  connect_socket host port w
  = match last with
    | Some (a, fd, _, _) => Ok (fd, mkIo rest (trace w ++ connect_events host port fs a fd))
    | None => Ok (-1, mkIo rest (trace w ++ EResolveName host port :: (fs ≫= failure_events)))
    end.
Proof.
  destruct last as [[[[a fd] st] more]|]; [intros Hfs [Hfd Hst] Hw|intros Hfs _ Hw].
  - by eapply connect_socket_ok.
  - by eapply connect_socket_fails.
Qed.

Lemma connect_socket_first_witness :
  let fs := [(mkAddr 1 80, NoSocket (-1)); (mkAddr 2 80, NoConnect 3 (-1))] in
  let w := mkIo (connect_answers fs (mkAddr 4 80) [mkAddr 5 80] 3 0 ++ [ASend 7]) [] in
  connect_socket "host" "80" w
  = Ok (3, mkIo [ASend 7] (trace w ++ connect_events "host" "80" fs (mkAddr 4 80) 3)).
Proof.
  intros fs w.
  apply (connect_socket_first "host" "80" fs
           (Some (mkAddr 4 80, 3, 0, [mkAddr 5 80])) w [ASend 7]);
    [|split; discriminate|reflexivity].
  repeat constructor; discriminate.
Defined.

(** ** A whole run *)

(** The key as it travels: its length is kept in 16 bits. *)
Definition wire_key (key : string) : list Z :=
  take (Z.to_nat (u16 (strlen key))) (bytes_of key).

Lemma wire_key_short key : strlen key < 2 ^ 16 -> wire_key key = bytes_of key.
Proof.
  intros H. unfold wire_key, strlen in *. pose proof (zlen_nonneg (bytes_of key)).
  rewrite u16_small by lia. unfold zlen. by rewrite Nat2Z.id, firstn_all.
Qed.

Lemma zlen_wire_key key : zlen (wire_key key) = u16 (strlen key).
Proof.
  pose proof (u16_range (strlen key)).
  assert (u16 (strlen key) <= strlen key) as Hle
    by (apply Z.mod_le; [apply zlen_nonneg|lia]).
  unfold wire_key, strlen, zlen in *. rewrite length_take. lia.
Qed.

Lemma load_wire_key key :
  load_bytes (Some (cells (bytes_of key ++ [0]))) (u16 (strlen key)) = Ok (wire_key key).
Proof.
  rewrite <- (take_drop (Z.to_nat (u16 (strlen key))) (bytes_of key)), <- app_assoc, cells_app.
  apply load_bytes_cells, zlen_wire_key.
Qed.

(** A block whose first bytes are known. *)
Lemma load_bytes_split buffer n bs :
  load_bytes (Some buffer) n = Ok bs -> exists rest, buffer = cells bs ++ rest /\ zlen bs = n.
Proof.
  intros H. apply load_bytes_inv in H as (H & Hl & _). cbn in H.
  apply load_block_inv in H as (_ & _ & _ & Hb & _). rewrite drop_0 in Hb.
  exists (drop (Z.to_nat n) buffer). by rewrite Hb, take_drop.
Qed.

(** The block holds [data] and its length is kept in 32 bits. *)
Lemma send_request_ok s fl key data data_len bs n w rest :
  load_bytes data data_len = Ok bs -> is_ctrl fl = false ->
  zlen (wire_key key) + zlen bs < 2 ^ 30 -> zlen (wire_data fl (wire_key key) bs) <= n ->
  script w = ASend n :: rest ->
  send_request s (request_packet fl key data data_len) w
  = Ok (0, mkIo rest (trace w ++ [ESend s (cells (wire_data fl (wire_key key) bs))])).
Proof.
  intros Hd Hfl Hb Hn Hw. pose proof (load_bytes_inv _ _ _ Hd) as (_ & Hl & _).
  pose proof (zlen_nonneg (wire_key key)). pose proof (zlen_nonneg bs).
  pose proof (u16_range (strlen key)).
  assert (zlen (wire_data fl (wire_key key) bs) = 7 + zlen (wire_key key) + zlen bs) as Hz.
  { unfold wire_data, be16, be32, zlen. cbn [length app]. rewrite length_app. lia. }
  unfold send_request, packet_serialize, request_packet. cbn [flags].
  unfold is_ctrl in Hfl. rewrite Hfl.
  rewrite (u32_small data_len) by lia.
  erewrite st_bind_Ok by (apply st_lift_Ok; apply (packet_serialize_data_wire _ (wire_key key) bs);
    cbn; [apply load_wire_key|done|lia|lia]).
  cbn beta iota. cbn [flags key_len value_len].
  rewrite <- (zlen_wire_key key), <- Hl, <- Hz, <- zlen_cells.
  apply (sendall_once _ _ n); rewrite ?zlen_cells; unfold MAX_RW_COUNT; [done|lia|lia].
Qed.

(** One [fwrite] takes the whole value. *)
Lemma write_stdout_ok v n w rest :
  zlen v <= MAX_RW_COUNT -> zlen v <= n ->
  script w = (if decide (v = []) then [] else [ASend n]) ++ rest ->
  write_stdout (nullable v) (zlen v) w
  = Ok (true, mkIo rest (trace w ++ if decide (v = []) then [] else [ESend 1 (cells v)])).
Proof.
  intros Hv Hn Hw. destruct w as [sc tr]. cbn in Hw. subst sc. unfold write_stdout.
  destruct (decide (v = [])) as [->|Hne]; [cbn; by rewrite app_nil_r|].
  assert (0 < zlen v) as Hpos by (destruct v; [done|unfold zlen; cbn; lia]).
  cbn [script length app write_value]. rewrite (proj2 (Z.ltb_lt 0 _)), Z.sub_0_r by lia.
  assert (nullable v = Some (cells v)) as -> by (by destruct v).
  erewrite st_bind_Ok by (by apply st_lift_Ok).
  erewrite st_bind_Ok by (apply st_lift_Ok, load_block_all, zlen_cells).
  unfold mbind, st_bind, sys_send. cbn [script]. rewrite (proj2 (Z.ltb_ge n 0)), zlen_cells by lia.
  replace (Z.min n (Z.min (zlen v) MAX_RW_COUNT)) with (zlen v) by lia.
  rewrite (proj2 (Z.ltb_ge _ 1)) by lia. unfold MAX_RW_COUNT in *. rewrite u64_small by lia.
  unfold emit, consume, zlen. cbn [write_value script trace tail].
  rewrite Nat2Z.id, <- (length_cells v), firstn_all, Z.add_0_l.
  by rewrite Z.ltb_irrefl.
Qed.

(** The three commands. *)
Inductive command : Type := GET | SET | DELETE.

Definition command_name (m : command) : string :=
  match m with GET => "GET" | SET => "SET" | DELETE => "DELETE" end.
Definition command_flag (m : command) : Z :=
  match m with GET => PKT_FLAG_GET | SET => PKT_FLAG_SET | DELETE => PKT_FLAG_DEL end.

(** What standard input holds for a command, as answers; only SET reads it. *)
Definition stdin_answers (m : command) (cs : list (list Z)) : list answer :=
  match m with SET => chunks cs ++ [ARecv (Some [])] | _ => [] end.
Definition request_value (m : command) (cs : list (list Z)) : list Z :=
  match m with SET => concat cs | _ => [] end.

(** What is printed: the value of an acknowledged GET. *)
Definition printed (m : command) (ack : bool) (v : list Z) : list Z :=
  match m with GET => if ack then v else [] | _ => [] end.
Definition stdout_answers (out : list Z) (n : Z) : list answer :=
  if decide (out = []) then [] else [ASend n].
Definition stdout_events (out : list Z) : list event :=
  if decide (out = []) then [] else [ESend 1 (cells out)].

(** Two results with the same trace, differently bracketed. *)
Ltac same_trace :=
  unfold connect_events, mret, st_ret; cbn;
  repeat (rewrite <- ?app_assoc; cbn [app]); rewrite ?app_nil_r; done.

(** The sending half of [client_main]. *)
Definition client_send (s : Z) (method key : string) : ST io bool :=
  if (method =? "SET")%string then
    '(data, data_len) ← read_stdin;
    send_request s (request_packet PKT_FLAG_SET key (Some data) data_len);;
    mret true
  else if (method =? "GET")%string then
    send_request s (request_packet PKT_FLAG_GET key None 0);; mret true
  else if (method =? "DELETE")%string then
    send_request s (request_packet PKT_FLAG_DEL key None 0);; mret true
  else mret false.

Lemma client_send_ok s m key cs n w rest :
  Forall (fun x => x <> []) cs ->
  let req := wire_data (command_flag m) (wire_key key) (request_value m cs) in
  zlen (wire_key key) + zlen (request_value m cs) < 2 ^ 30 -> zlen req <= n ->
  script w = stdin_answers m cs ++ ASend n :: rest ->
  client_send s (command_name m) key w = Ok (true, mkIo rest (trace w ++ [ESend s (cells req)])).
Proof.
  intros Hne req Hb Hn Hw. unfold client_send.
  pose proof (zlen_nonneg (wire_key key)).
  destruct m; cbn [command_name String.eqb Ascii.eqb Bool.eqb stdin_answers request_value
    command_flag] in *.
  - by erewrite st_bind_Ok by (by eapply (send_request_ok _ _ _ _ _ [])).
  - rewrite <- app_assoc in Hw.
    destruct (read_stdin_ok w cs (ASend n :: rest) Hw Hne ltac:(lia)) as (b & E & Hl).
    erewrite st_bind_Ok by exact E. cbn beta iota.
    by erewrite st_bind_Ok by (by eapply (send_request_ok _ _ _ _ _ (concat cs))).
  - by erewrite st_bind_Ok by (by eapply (send_request_ok _ _ _ _ _ [])).
Qed.

(** A run of the client for each command, however standard input and the
    answer of the node arrive in pieces: it connects, sends one request packet
    with the command's flag, the key and, for SET, everything on standard
    input; it reads the answer to its end and closes the socket; it exits with
    0 exactly when the answer carries the ACK flag, and then an acknowledged
    GET has written exactly the value of the answer to standard output. *)
Lemma client_run prog host port m key args fs a more fd st cs n rs fl k v n' w rest :
  Forall (fun f => failure_ok f.2) fs -> 0 <= fd -> 0 <= st ->
  Forall (fun x => x <> []) cs ->
  let req := wire_data (command_flag m) (wire_key key) (request_value m cs) in
  zlen (wire_key key) + zlen (request_value m cs) < 2 ^ 30 -> zlen req <= n ->
  Forall (fun x => x <> []) rs -> concat rs = wire_data fl k v ->
  is_ctrl fl = false -> zlen k < 2 ^ 16 -> zlen v < 2 ^ 30 -> zlen v <= n' ->
  let ack := has_flag fl PKT_FLAG_ACK in
  script w = connect_answers fs a more fd st ++ stdin_answers m cs ++
             ASend n :: chunks rs ++ ARecv (Some []) :: stdout_answers (printed m ack v) n' ++ rest ->
  client_main (prog :: host :: port :: command_name m :: key :: args) w
  = Ok (if ack then 0 else -1,
        mkIo rest (trace w ++ connect_events host port fs a fd ++
                   [ESend fd (cells req); EClose fd] ++ stdout_events (printed m ack v))).
Proof.
  intros Hfs Hfd Hst Hcs req Hreq Hn Hrs Hr Hctrl Hk Hv Hn' ack Hw.
  pose proof (zlen_nonneg k). pose proof (zlen_nonneg v).
  assert (zlen (wire_data fl k v) = 7 + zlen k + zlen v) as Hz.
  { unfold wire_data, be16, be32, zlen. cbn [length app]. rewrite length_app. lia. }
  unfold client_main. erewrite st_bind_Ok by (by eapply (connect_socket_ok _ _ fs a more fd st)).
  rewrite (proj2 (Z.ltb_ge fd 0)) by done. fold (client_send fd (command_name m) key).
  erewrite st_bind_Ok by (by eapply (client_send_ok _ m _ cs n)). cbn [negb].
  match goal with |- context [mkIo ?sc ?t] => destruct (recvall_stream fd (mkIo sc t) rs
    (stdout_answers (printed m ack v) n' ++ rest)) as (buffer & w' & E & Hl & _ & Hs & Ht);
    [reflexivity|done|rewrite Hr; lia|] end.
  erewrite st_bind_Ok by exact E. cbn beta iota.
  rewrite Hr in Hl |- *. apply load_bytes_split in Hl as (tl & -> & _).
  assert (packet_decode (cells (wire_data fl k v) ++ tl) (zlen (wire_data fl k v))
          = Ok (Some (data_packet fl k v))) as Hdec by (apply decode_wire_data; done || lia).
  erewrite st_bind_Ok by (by apply st_lift_Ok).
  cbn iota. cbn [flags data_packet value value_len]. fold ack.
  destruct w' as [sc tr]. cbn [script trace] in Hs, Ht. subst sc tr.
  destruct ack; cbn [negb].
  - destruct m; cbn [command_name String.eqb Ascii.eqb Bool.eqb printed] in *;
      [|unfold stdout_answers, stdout_events; rewrite !decide_True by done; same_trace..].
    erewrite st_bind_Ok by (apply (write_stdout_ok v n'); [unfold MAX_RW_COUNT; lia|done|done]).
    unfold stdout_events. same_trace.
  - assert (printed m false v = []) as -> by (by destruct m).
    unfold stdout_answers, stdout_events. rewrite !decide_True by done. same_trace.
Qed.
