(* ===== verification/IpStr.v ===== *)
(** * IpStr: printing an address ([praxis2/src/util.c], [get_ip_str])

    The client and the server print the addresses they talk to from a block of 46
    bytes.  How [inet_ntop] prints an IPv6 address is a parameter, of which only the
    documented length matters. *)

From Stdlib Require Import Strings.Ascii.
From stdpp Require Import base tactics list numbers strings pretty.
From S2P Require Import Prelude Packet Neighbour Peer Client.

(** [struct sockaddr], by its family. *)
Inductive any_addr : Type :=
  | AF_INET (ip : Z)
  | AF_INET6 (sin6_addr : list Z)
  | AF_OTHER.

Definition INET6_ADDRSTRLEN : Z := 46.

(** The beginning of a block is overwritten. *)
Definition overwrite (s : list cell) (bs : list Z) : list cell := cells bs ++ drop (length bs) s.

(** [inet_ntop] writes the string with its NUL, or nothing when it does not fit. *)
Definition inet_ntop (str : string) (s : list cell) (maxlen : Z) : list cell :=
  let bs := bytes_of str ++ [0] in
  if zlen bs <=? maxlen then overwrite s bs else s.

(** [strncpy] of a string: cut, or filled up with NULs. *)
Definition strncpy_str (s : list cell) (str : string) (maxlen : Z) : list cell :=
  let n := Z.to_nat maxlen in
  overwrite s (take n (bytes_of str ++ replicate n 0)).

Section IpStr.
(** How an IPv6 address is printed. *)
Context (ntop6 : list Z -> string).

(** Whether the result is not NULL, and the block. *)
Definition get_ip_str (sa : any_addr) (s : list cell) (maxlen : Z) : bool * list cell :=
  match sa with
  | AF_INET ip => (true, inet_ntop (dotted ip) s maxlen)
  | AF_INET6 a => (true, inet_ntop (ntop6 a) s maxlen)
  | AF_OTHER => (false, strncpy_str s "Unknown AF" maxlen)
  end.

(** The text that is printed. *)
Definition ip_text (sa : any_addr) : string :=
  match sa with AF_INET ip => dotted ip | AF_INET6 a => ntop6 a | AF_OTHER => "Unknown AF" end.

Lemma bytes_of_app a b : bytes_of (a +:+ b) = bytes_of a ++ bytes_of b.
Proof. induction a as [|x a IH]; [done|]. change (String x a +:+ b) with (String x (a +:+ b)). cbn [bytes_of app]. by rewrite IH. Qed.

Lemma strlen_app a b : strlen (a +:+ b) = strlen a + strlen b.
Proof. unfold strlen. by rewrite bytes_of_app, zlen_app. Qed.

Lemma strlen_byte ip s : strlen (pretty (Z.to_N (byte_at ip s))) <= 3.
Proof.
  apply Z.leb_le. apply (byte_forall (fun b => strlen (pretty (Z.to_N b)) <=? 3)); [|apply byte_at_range].
  by vm_compute.
Qed.

Lemma strlen_dotted ip : strlen (dotted ip) <= 15.
Proof.
  unfold dotted. rewrite !strlen_app. change (strlen ".") with 1.
  pose proof (strlen_byte ip 24). pose proof (strlen_byte ip 16).
  pose proof (strlen_byte ip 8). pose proof (strlen_byte ip 0). lia.
Qed.

(** What the documentation says: [INET6_ADDRSTRLEN] bytes are enough. *)
Context (ntop6_fits : forall a, strlen (ntop6 a) < INET6_ADDRSTRLEN).

(** The block of 46 bytes that the callers give, whatever it held before, holds the
    text and a NUL afterwards, so that it can be printed. *)
Theorem get_ip_str_terminated sa s :
  zlen s = INET6_ADDRSTRLEN ->
  exists rest, (get_ip_str sa s INET6_ADDRSTRLEN).2 = cells (bytes_of (ip_text sa) ++ [0]) ++ rest /\
    zlen (get_ip_str sa s INET6_ADDRSTRLEN).2 = INET6_ADDRSTRLEN.
Proof using All.
  intros Hs.
  assert (forall str, strlen str < INET6_ADDRSTRLEN -> exists rest,
    inet_ntop str s INET6_ADDRSTRLEN = cells (bytes_of str ++ [0]) ++ rest /\
    zlen (inet_ntop str s INET6_ADDRSTRLEN) = INET6_ADDRSTRLEN) as Hfit.
  { intros str Hstr. unfold inet_ntop, strlen in *. rewrite zlen_app. change (zlen [0]) with 1.
    rewrite (proj2 (Z.leb_le _ _)) by lia. eexists. split; [done|]. unfold overwrite.
    rewrite zlen_app, zlen_cells, zlen_app. unfold zlen in *. rewrite length_drop, length_app. cbn [length].
    lia. }
  destruct sa as [ip|a|]; cbn [get_ip_str snd ip_text].
  - apply Hfit. pose proof (strlen_dotted ip). unfold INET6_ADDRSTRLEN. lia.
  - apply Hfit, ntop6_fits.
  - assert (strncpy_str s "Unknown AF" INET6_ADDRSTRLEN = cells (bytes_of "Unknown AF" ++ replicate 36 0))
      as ->; [|by exists (cells (replicate 35 0))].
    unfold strncpy_str, overwrite. rewrite drop_ge; [reflexivity|].
    change (length (take _ _)) with 46%nat. unfold zlen, INET6_ADDRSTRLEN in Hs. lia.
Qed.

Example get_ip_str_localhost :
  take 10 (get_ip_str (AF_INET 2130706433) (malloc 46) 46).2 =
  cells [49; 50; 55; 46; 48; 46; 48; 46; 49; 0].
Proof. reflexivity. Qed.
End IpStr.

Example get_ip_str_v6 : exists rest,
  (get_ip_str (fun _ => "::1"%string) (AF_INET6 []) (malloc 46) 46).2 = cells [58; 58; 49; 0] ++ rest.
Proof.
  destruct (get_ip_str_terminated (fun _ => "::1"%string) ltac:(done) (AF_INET6 []) (malloc 46) eq_refl)
    as (rest & E & _).
  by exists rest.
Qed.
