(* ===== verification/EndToEnd.v ===== *)
(** * EndToEnd: a client and a node talking to each other

    The command line client of [Client.v] against the node of [Peer.v]: the
    bytes one writes are the bytes the other reads, cut differently. *)

From Stdlib Require Import Strings.Ascii.
From stdpp Require Import base tactics list numbers option gmap strings.
From S2P Require Import Prelude Packet Sys RingBuffer Util Neighbour KeyTable UtHash HashTable.
From S2P Require Import Requests Server Peer Client.

Lemma bytes_of_ok s : Forall byte_ok (bytes_of s).
Proof.
  induction s as [|a s IH]; [constructor|]. constructor; [|exact IH].
  pose proof (N_ascii_bounded a). unfold byte_ok. lia.
Qed.

Lemma wire_key_ok key : Forall byte_ok (wire_key key).
Proof. apply Forall_take, bytes_of_ok. Qed.

(** What a command does to the map of the node that owns the key, and what it
    prints. *)
Definition command_effect (m : gmap (list Z) (list Z)) (cmd : command) (k v : list Z)
    : gmap (list Z) (list Z) :=
  match cmd with GET => m | SET => <[k := v]> m | DELETE => delete k m end.

Definition command_output (m : gmap (list Z) (list Z)) (cmd : command) (k : list Z) : list Z :=
  match cmd with GET => cstr (default [] (m !! k)) | _ => [] end.

(** The flag byte, key and value of the node's reply. *)
Definition reply_parts (m : gmap (list Z) (list Z)) (cmd : command) (k : list Z)
    : Z * list Z * list Z :=
  match cmd with
  | GET => (12, match m !! k with Some _ => cstr k | None => [] end, command_output m GET k)
  | SET => (10, [], [])
  | DELETE => (9, [], [])
  end.

Lemma own_spec_command m cmd k v :
  own_spec m (command_flag cmd) k v =
  (command_effect m cmd k v,
   let '(fl, k', v') := reply_parts m cmd k in wire_data fl k' v').
Proof.
  destruct cmd; [|done..]. unfold own_spec. change (kind_of _) with KGet. cbn.
  by destruct (m !! k).
Qed.

Lemma reply_parts_ok m cmd k :
  let '(fl, k', v') := reply_parts m cmd k in
  is_ctrl fl = false /\ has_flag fl PKT_FLAG_ACK = true /\ zlen k' <= zlen k /\
  v' = command_output m cmd k.
Proof.
  pose proof (zlen_nonneg k). destruct cmd; cbn; split_and!; try done.
  destruct (m !! k); [|done]. unfold zlen. by rewrite length_cstr.
Qed.

(** C1. Client and node together.  A client runs GET, SET or DELETE for a key
    the node it reaches is responsible for.  However the network cuts the
    request on its way to the node ([cs]) and the reply on its way back ([rs]):
    the node applies the command to the map it stores, replies and forgets the
    client; the client sends exactly the bytes the node reads, takes exactly
    the bytes the node wrote, prints for GET the stored value up to its first
    NUL (nothing for an absent key) and exits with 0. *)
Theorem client_node_exchange {T1 T2} `{KeyTableSpec T1} `{KeyTableSpec T2}
    (node_w : world (node T1 T2)) c cl m cmd key ins (cs rs : list (list Z)) n node_rest
    client_w prog host port args fs a more fd st n1 n2 client_rest :
  let k := wire_key key in
  let v := request_value cmd ins in
  let req := wire_data (command_flag cmd) k v in
  let out := command_output m cmd k in
  (* the node has accepted the client and owns the key *)
  srv_ok (w_srv node_w) -> c ∈ clients (w_srv node_w) -> points_to node_w c cl ->
  collecting cl [] ->
  peer_is_responsible (peer_node_id (pred (w_node node_w))) (peer_node_id (self (w_node node_w)))
    (hash_spec k) = 1 ->
  bytes_rep (n_ht (w_node node_w)) m -> kt_room (ht (n_ht (w_node node_w))) = true ->
  (* it receives the request in the pieces [cs] and can reply *)
  concat cs = req -> Forall (fun x => x <> []) cs ->
  script (w_io node_w) = chunks cs ++ ASend n :: node_rest ->
  (* the client reaches it and receives what it sent in the pieces [rs] *)
  Forall (fun f => failure_ok f.2) fs -> 0 <= fd -> 0 <= st ->
  script client_w =
    connect_answers fs a more fd st ++ stdin_answers cmd ins ++ ASend n1 :: chunks rs ++
    ARecv (Some []) :: stdout_answers out n2 ++ client_rest ->
  Forall (fun x => x <> []) ins -> Forall (fun x => x <> []) rs ->
  concat rs = (own_spec m (command_flag cmd) k v).2 ->
  (* sizes *)
  0 < zlen k + zlen v < 2 ^ 30 -> zlen req <= n1 -> zlen out < 2 ^ 30 -> zlen out <= n2 ->
  zlen (concat rs) <= n ->
  exists j node_w',
    client_inputs handle_packet j (c_socket cl) c node_w = Ok (tt, node_w') /\
    bytes_rep (n_ht (w_node node_w')) (command_effect m cmd k v) /\
    trace (w_io node_w') = trace (w_io node_w) ++
      [ESend (c_socket cl) (cells (concat rs)); EClose (c_socket cl)] /\
    clients (w_srv node_w') = filter (fun x => x <> c) (clients (w_srv node_w)) /\
    client_main (prog :: host :: port :: command_name cmd :: key :: args) client_w
    = Ok (0, mkIo client_rest
              (trace client_w ++ connect_events host port fs a fd ++
               [ESend fd (cells (concat cs)); EClose fd] ++ stdout_events out)).
Proof.
  intros k v req out Hok Hc Hp Hcol Hresp Hs Hroom Hcs Hne Hnode Hfs Hfd Hst Hclient Hins Hrs
    Hreply Hkv Hn1 Hout Hn2 Hn.
  pose proof (zlen_nonneg k). pose proof (zlen_nonneg v). pose proof (zlen_nonneg out).
  assert (zlen k < 2 ^ 16) as Hk.
  { subst k. rewrite zlen_wire_key. pose proof (u16_range (strlen key)). lia. }
  rewrite own_spec_command in Hreply. cbn [snd] in Hreply.
  pose proof (reply_parts_ok m cmd k) as Hparts.
  destruct (reply_parts m cmd k) as [[fl k'] v'] eqn:Er. destruct Hparts as (Hctrl & Hack & Hk' & ->).
  assert (zlen (concat rs) = 7 + zlen k' + zlen out) as Hrl.
  { rewrite Hreply. apply zlen_wire_data. }
  destruct (request_served_world node_w (c_socket cl) c cl cs n node_rest m (command_flag cmd) k v)
    as (j & s' & E & Hs'); try done.
  - by destruct cmd.
  - by destruct cmd.
  - apply wire_key_ok.
  - lia.
  - rewrite own_spec_command, Er. cbn [snd]. rewrite <- Hreply, zlen_cells.
    unfold MAX_RW_COUNT. lia.
  - rewrite own_spec_command, Er. cbn [snd]. by rewrite <- Hreply, zlen_cells.
  - exists j. eexists. split; [exact E|]. rewrite own_spec_command, Er, <- Hreply in *.
    cbn [fst snd] in *. do 3 (split; [done|]).
    rewrite Hcs.
    rewrite (client_run prog host port cmd key args fs a more fd st ins n1 rs fl k' out n2
      client_w client_rest); try done; try (subst k v; lia);
      rewrite Hack; by destruct cmd.
Qed.

(** SET of the two-byte key 1, 40 to the bytes of "AB". *)
Definition example_key : string := String "001"%char "(".

Lemma client_node_exchange_witness :
  let node_w := mkWorld (one_client 9) example_node
    (mkIo (chunks [[2; 0; 2; 0; 0]; [0; 2; 1; 40]; [65; 66]] ++ [ASend 64]) []) in
  let client_w := mkIo (connect_answers [] (mkAddr 1 4711) [] 3 0 ++
      stdin_answers SET [[65]; [66]] ++ ASend 64 :: chunks [[10; 0]; [0; 0; 0; 0; 0]] ++
      [ARecv (Some [])]) [] in
  exists j node_w',
    client_inputs handle_packet j 9 1%positive node_w = Ok (tt, node_w') /\
    bytes_rep (n_ht (w_node node_w')) {[ [1; 40] := [65; 66] ]} /\
    client_main ["client"; "host"; "4711"; "SET"; example_key]%string client_w
    = Ok (0, mkIo [] (trace client_w ++ connect_events "host" "4711" [] (mkAddr 1 4711) 3 ++
               [ESend 3 (cells [2; 0; 2; 0; 0; 0; 2; 1; 40; 65; 66]); EClose 3] ++
               stdout_events [])).
Proof.
  intros node_w client_w.
  destruct (client_node_exchange node_w 1%positive (mkClient 9 IDLE (rb_new PKT_HEADER_LEN) None None)
    ∅ SET example_key [[65]; [66]] [[2; 0; 2; 0; 0]; [0; 2; 1; 40]; [65; 66]]
    [[10; 0]; [0; 0; 0; 0; 0]] 64 [] client_w "client" "host" "4711" [] [] (mkAddr 1 4711) [] 3 0
    64 64 []) as (j & w' & E & R & _ & _ & C);
    try reflexivity; try discriminate;
    try (repeat (apply List.Forall_cons; [discriminate|]); apply List.Forall_nil).
  - apply one_client_ok.
  - apply list_elem_of_singleton. reflexivity.
  - destruct (rb_new_ok 7) as (H1 & H2 & H3); [split; [discriminate|reflexivity]|].
    split; [reflexivity|]. split; [exact H1|]. split; [exact H2|]. split; [exact H3|reflexivity].
  - exact bytes_rep_empty.
  - split; [reflexivity|]. reflexivity.
  - exists j, w'. split; [exact E|]. split; [exact R|exact C].
Defined.
