(* ===== verification/Webserver.v ===== *)
(** * Webserver: the web server of the first exercise ([praxis1/webserver.c])

    A separate, single-connection program: it accepts one client, looks for the
    end of an HTTP header in what arrives and answers each request with a fixed
    message.  [main] never returns: it ends in [exit].  The record of a buffer is
    written into a block that was allocated for a pointer; how much more than the
    8 bytes asked for [malloc] gives is a parameter ([allocator]), and what the
    program does after that is shown for allocators that give the 24 it needs. *)

From stdpp Require Import base tactics list numbers option strings.
From S2P Require Import Prelude Sys Util.

(** Computations over the operating system that may end the program: [inl] is
    the status given to [exit]. *)
Definition web (A : Type) : Type := io -> res ((Z + A) * io).

#[global] Instance web_ret : MRet web := fun A a w => Ok (inr a, w).
#[global] Instance web_bind : MBind web := fun A B f m w =>
  match m w with
  | Ok (inr a, w') => f a w'
  | Ok (inl status, w') => Ok (inl status, w')
  | Ub => Ub
  | Block => Block
  | NoFuel => NoFuel
  end.

Definition exit {A} (status : Z) : web A := fun w => Ok (inl status, w).
Definition sys {A} (m : ST io A) : web A := fun w =>
  match m w with
  | Ok (a, w') => Ok (inr a, w')
  | Ub => Ub
  | Block => Block
  | NoFuel => NoFuel
  end.
Definition pure {A} (m : res A) : web A := sys (st_lift m).

(** ** Buffers *)

Definition BUFFER_SIZE : Z := 100.

Record buf_struct : Type := mkBuf {
  buffer : list cell;
  available_space : Z;
  used_space : Z;
  scanner_index : Z;
  req_begin_index : Z;
}.

Definition set_buffer (b : buf_struct) (m : list cell) : buf_struct :=
  mkBuf m (available_space b) (used_space b) (scanner_index b) (req_begin_index b).
Definition set_used (b : buf_struct) (n : Z) : buf_struct :=
  mkBuf (buffer b) (available_space b) n (scanner_index b) (req_begin_index b).
Definition set_scanner (b : buf_struct) (n : Z) : buf_struct :=
  mkBuf (buffer b) (available_space b) (used_space b) n (req_begin_index b).
Definition set_begin (b : buf_struct) (n : Z) : buf_struct :=
  mkBuf (buffer b) (available_space b) (used_space b) (scanner_index b) n.

(** What [malloc] gives: a block of at least the size asked for, [block_size n]
    bytes of which may be used (what [malloc_usable_size] tells).  An allocator
    may round up, as glibc does to 24 bytes, or not. *)
Class allocator : Type := {
  block_size : Z -> Z;
  block_size_ge : forall n, n <= block_size n;
}.

(** An assignment to a field of [width] bytes at [offset] in a block of [size]
    bytes. *)
Definition field_store (size offset width : Z) : res unit :=
  if offset + width <=? size then Ok tt else Ub.

Definition SIZEOF_POINTER : Z := 8.

(** The declaration [buf_struct* buf_struct = malloc(sizeof(buf_struct))] hides
    the type: [sizeof] is the size of the pointer.  The pointer field of the
    structure is at offset 0, the four [int]s at 8, 12, 16 and 20. *)
Definition buf_struct_init `{!allocator} (buf_size : Z) : web buf_struct :=
  if buf_size <=? 0 then exit 1
  else
    let size := block_size SIZEOF_POINTER in
    pure (field_store size 0 8);;
    let buffer := replicate (Z.to_nat buf_size) (Some 0) in
    pure (field_store size 8 4);;
    pure (field_store size 12 4);;
    pure (field_store size 16 4);;
    pure (field_store size 20 4);;
    mret (mkBuf buffer buf_size 0 0 0).

(** An [int] expression: undefined when it overflows. *)
Definition int_ok (z : Z) : res Z :=
  if (- 2 ^ 31 <=? z) && (z <? 2 ^ 31) then Ok z else Ub.

(** [strncpy(dst + off, src, n)] *)
Definition strncpy_to (dst : list cell) (off : Z) (src : list cell) (n : Z) : res (list cell) :=
  cs ← strncpy src (Z.to_nat n);
  store_block dst off cs.

Definition buf_struct_expand `{!allocator} (old_buf : buf_struct) : web buf_struct :=
  size ← pure (int_ok (available_space old_buf * 2));
  new_buf ← buf_struct_init size;
  m ← pure (strncpy_to (buffer new_buf) 0 (buffer old_buf) (used_space old_buf));
  let new_buf := set_scanner (set_used (set_buffer new_buf m) (used_space old_buf))
                   (scanner_index old_buf) in
  pure (print_str (buffer old_buf));;
  pure (print_str (buffer new_buf));;
  mret new_buf.

(** [strncmp(m + i, s, strlen(s)) == 0]: stops at the first difference; [s] has no
    NUL. *)
Fixpoint strncmp_eq (m : list cell) (i : Z) (s : list Z) : res bool :=
  match s with
  | [] => Ok true
  | x :: s =>
      b ← load m i;
      if b =? x then strncmp_eq m (i + 1) s else Ok false
  end.

(** Never called: the scans of [main] took its place.  [terminator_len] is the
    length of [terminator]. *)
Definition cmp_buffend_terminator (buffer : list cell) (valid_bytes : Z) (terminator : list Z)
    : res Z :=
  let terminator_len := zlen terminator in
  if valid_bytes <? terminator_len then Ub else
  last_bytes ← strncpy (drop (Z.to_nat (valid_bytes - terminator_len)) buffer)
                 (Z.to_nat terminator_len);
  strings_same ← strncmp_eq last_bytes 0 terminator;
  Ok (if strings_same : bool then 1 else 0).

Lemma strncmp_eq_app pre c t :
  strncmp_eq (pre ++ c) (zlen pre) t = strncmp_eq c 0 t.
Proof.
  assert (forall i, 0 <= i -> strncmp_eq (pre ++ c) (zlen pre + i) t = strncmp_eq c i t) as H.
  { induction t as [|x t IH]; intros i Hi; [done|]. cbn [strncmp_eq].
    assert (load (pre ++ c) (zlen pre + i) = load c i) as ->.
    { unfold load, zlen. destruct (Z.leb_spec 0 i); [|lia].
      destruct (Z.leb_spec 0 (Z.of_nat (length pre) + i)); [|lia].
      rewrite lookup_app_r by lia. by replace (_ - length pre)%nat with (Z.to_nat i) by lia. }
    destruct (load c i); cbn; [|done..]. rewrite <- Z.add_assoc, IH by lia. done. }
  rewrite <- (Z.add_0_r (zlen pre)). by apply H.
Qed.

(** A copy made by [strncpy], compared with a string of its length. *)
Lemma strncpy_compare l rest t :
  length l = length t -> Forall (fun x => x <> 0) t ->
  exists c, strncpy (cells l ++ rest) (length l) = Ok c /\
    strncmp_eq c 0 t = Ok (bool_decide (l = t)).
Proof.
  revert t. induction l as [|b l IH]; intros [|x t] Hl Ht; try done.
  { exists []. split; [by destruct rest|]. by rewrite bool_decide_eq_true_2. }
  apply Forall_cons in Ht as [Hx Ht]. destruct (IH t) as (c & Ec & Em); [cbn in Hl; lia|done|].
  cbn [cells fmap list_fmap app length strncpy]. change (Some <$> l) with (cells l).
  destruct (Z.eqb_spec b 0) as [->|Hb].
  - eexists. split; [done|]. cbn [strncmp_eq]. change (load _ 0) with (Ok 0).
    cbn [mbind res_bind]. destruct (Z.eqb_spec 0 x); [congruence|].
    by rewrite bool_decide_eq_false_2 by congruence.
  - rewrite Ec. cbn [mbind res_bind]. eexists. split; [done|]. cbn [strncmp_eq].
    change (load _ 0) with (Ok b). cbn [mbind res_bind].
    destruct (Z.eqb_spec b x) as [->|Hbx].
    + change (strncmp_eq (Some x :: c) (0 + 1) t) with (strncmp_eq ([Some x] ++ c) (zlen [Some x]) t).
      rewrite strncmp_eq_app, Em. f_equal. apply bool_decide_ext.
      split; [by intros ->|by intros [= ->]].
    + by rewrite bool_decide_eq_false_2 by congruence.
Qed.

(** What it would compute: whether the valid bytes end with the terminator. *)
Lemma cmp_buffend_terminator_spec bs rest t :
  zlen t <= zlen bs -> Forall (fun x => x <> 0) t ->
  cmp_buffend_terminator (cells bs ++ rest) (zlen bs) t =
    Ok (if decide (t `suffix_of` bs) then 1 else 0).
Proof.
  intros Hl Ht. unfold cmp_buffend_terminator. destruct (Z.ltb_spec (zlen bs) (zlen t)); [lia|].
  unfold zlen in *. set (k := (length bs - length t)%nat).
  replace (Z.to_nat (Z.of_nat (length bs) - Z.of_nat (length t))) with k by lia.
  rewrite Nat2Z.id. rewrite drop_app_le by (unfold cells; rewrite length_fmap; lia).
  assert (drop k (cells bs) = cells (drop k bs)) as -> by (unfold cells; by rewrite fmap_drop).
  destruct (strncpy_compare (drop k bs) rest t) as (c & Ec & Em);
    [rewrite length_drop; lia|done|].
  rewrite length_drop in Ec. replace (length bs - k)%nat with (length t) in Ec by lia.
  rewrite Ec. cbn [mbind res_bind]. rewrite Em. cbn [mbind res_bind]. f_equal.
  destruct (bool_decide_reflect (drop k bs = t)) as [E|E], (decide (t `suffix_of` bs)) as [S|S];
    try done; exfalso.
  - apply S. exists (take k bs). by rewrite <- E, take_drop.
  - apply E. destruct S as [l ->]. unfold k. rewrite length_app.
    replace (length l + length t - length t)%nat with (length l) by lia. apply drop_app_length.
Qed.

(** CR LF CR LF, and the reply "Reply" CR LF. *)
Definition http_terminator : list Z := [13; 10; 13; 10].
Definition terminator_length : Z := 4.
Definition reply_msg : list Z := [82; 101; 112; 108; 121; 13; 10].

(** [sizeof(reply_msg) - 1] is the size of a pointer less one: 7, by chance the
    length of the message.  One [send], whose count is not looked at. *)
Definition process_request (request : list cell) (reply_socket : Z) : web unit :=
  pure (print_str request);;
  chunk ← pure (load_block (cells (reply_msg ++ [0])) 0 (8 - 1));
  r ← sys (sys_send reply_socket chunk);
  if r <? 0 then exit 1 else mret tt.

(** [close] on both sockets, then [exit(1)]. *)
Definition close_exit {A} (connection_fd listener_fd : Z) : web A :=
  sys (sys_close connection_fd);;
  sys (sys_close listener_fd);;
  exit 1.

Section Loops.
Variables connection_fd listener_fd : Z.

(** The receiving both loops start with: the bytes go to the front of the
    buffer. *)
Definition receive (recv_buf : buf_struct) : web buf_struct :=
  '(received_bytes, data) ←
    sys (sys_recv connection_fd (available_space recv_buf));
  m ← pure (store_block (buffer recv_buf) 0 (cells data));
  let recv_buf := set_used (set_buffer recv_buf m) received_bytes in
  if received_bytes <? 0 then close_exit connection_fd listener_fd
  else if received_bytes =? 0 then close_exit connection_fd listener_fd
  else
    pure (print_str (buffer recv_buf));;
    mret recv_buf.

(** The scan of the receive buffer; [fully] is [recv_buf_fully_processed]. *)
Fixpoint scan_recv (fuel : nat) (recv_buf : buf_struct) (fully : bool)
    : web (buf_struct * bool) :=
  if scanner_index recv_buf <=? used_space recv_buf - terminator_length then
    match fuel with
    | O => fun _ => NoFuel
    | S fuel =>
        terminator_present ←
          pure (strncmp_eq (buffer recv_buf) (scanner_index recv_buf) http_terminator);
        '(recv_buf, fully) ←
          (if terminator_present : bool then
             (if scanner_index recv_buf =? req_begin_index recv_buf
              then close_exit connection_fd listener_fd
              else process_request (buffer recv_buf) connection_fd);;
             if scanner_index recv_buf =? used_space recv_buf - terminator_length
             then mret (recv_buf, true)
             else mret (set_begin recv_buf (scanner_index recv_buf + terminator_length), fully)
           else mret (recv_buf, fully));
        scan_recv fuel (set_scanner recv_buf (scanner_index recv_buf + 1)) fully
    end
  else mret (recv_buf, fully).

(** The scan of the secondary buffer: [None] when it ends without a terminator;
    otherwise the receive buffer with what is left over, and its length.  The
    scanner index is not advanced. *)
Fixpoint scan_req (fuel : nat) (recv_buf req_buf : buf_struct)
    : web (option (buf_struct * Z)) :=
  if scanner_index req_buf <=? used_space req_buf - terminator_length then
    match fuel with
    | O => fun _ => NoFuel
    | S fuel =>
        terminator_present2 ←
          pure (strncmp_eq (buffer req_buf) (scanner_index req_buf) http_terminator);
        if terminator_present2 : bool then
          (if scanner_index req_buf =? 0
           then close_exit connection_fd listener_fd
           else process_request (buffer req_buf) connection_fd);;
          let remaining :=
            used_space req_buf - (scanner_index req_buf + terminator_length) in
          if remaining =? 0 then mret (Some (recv_buf, remaining))
          else
            m ← pure (strncpy_to (buffer recv_buf) 0
                        (drop (Z.to_nat (used_space req_buf - remaining)) (buffer req_buf))
                        remaining);
            mret (Some (set_used (set_buffer recv_buf m) remaining, remaining))
        else scan_req fuel recv_buf req_buf
    end
  else mret None.

(** The inner receive loop. *)
Fixpoint req_loop `{!allocator} (fuel : nat) (recv_buf req_buf : buf_struct) : web (buf_struct * Z) :=
  match fuel with
  | O => fun _ => NoFuel
  | S fuel =>
      recv_buf ← receive recv_buf;
      req_buf ← (if available_space req_buf - used_space req_buf <? used_space recv_buf
                 then buf_struct_expand req_buf else mret req_buf);
      m ← pure (strncpy_to (buffer req_buf) (used_space req_buf) (buffer recv_buf)
                  (used_space recv_buf));
      used ← pure (int_ok (used_space req_buf + used_space recv_buf));
      let req_buf := set_used (set_buffer req_buf m) used in
      o ← scan_req fuel recv_buf req_buf;
      match o with
      | Some r => mret r
      | None => req_loop fuel recv_buf req_buf
      end
  end.

(** The outer loop enters at the top or, by [goto], at the scan. *)
Inductive phase : Type := RECV | RECV_SCAN.

Fixpoint recv_loop `{!allocator} (fuel : nat) (ph : phase) (recv_buf : buf_struct) (fully : bool)
    : web Empty_set :=
  match fuel with
  | O => fun _ => NoFuel
  | S fuel =>
      recv_buf ← (match ph with
                  | RECV => receive recv_buf
                  | RECV_SCAN => mret recv_buf
                  end);
      '(recv_buf, fully) ← scan_recv (S (Z.to_nat (used_space recv_buf))) recv_buf fully;
      if fully : bool then recv_loop fuel RECV recv_buf fully
      else
        size ← pure (int_ok (available_space recv_buf * 2));
        req_buf ← buf_struct_init size;
        m ← pure (strncpy_to (buffer req_buf) 0 (buffer recv_buf) (used_space recv_buf));
        let req_buf := set_used (set_buffer req_buf m) (used_space recv_buf) in
        '(recv_buf, remaining) ← req_loop fuel recv_buf req_buf;
        if negb (remaining =? 0) then recv_loop fuel RECV_SCAN recv_buf fully
        else recv_loop fuel RECV (set_scanner recv_buf 0) fully
  end.
End Loops.

(** The listening socket and the one connection.  [getaddrinfo] gives at least
    one address when it succeeds, and fails without a service name. *)
Definition web_setup (argv : list string) : web (Z * Z) :=
  match argv with
  | _ :: port :: _ =>
      r ← sys (sys_getaddrinfo_passive port);
      match r with
      | None => exit 1
      | Some [] => pure Ub
      | Some (a :: _) =>
          listener_fd ← sys sys_socket;
          if listener_fd <? 0 then exit 1 else
          status ← sys (sys_bind listener_fd a);
          if status <? 0 then exit 1 else
          status ← sys (sys_listen listener_fd);
          if status <? 0 then exit 1 else
          connection_fd ← sys (sys_accept listener_fd);
          if connection_fd <? 0 then exit 1 else mret (connection_fd, listener_fd)
      end
  | _ => exit 1
  end.

Definition web_main `{!allocator} (fuel : nat) (argv : list string) : web Empty_set :=
  '(connection_fd, listener_fd) ← web_setup argv;
  recv_buf ← buf_struct_init BUFFER_SIZE;
  recv_loop connection_fd listener_fd fuel RECV recv_buf false.

(** ** Stepping *)

Lemma web_bind_Ok {A B} (m : web A) (f : A -> web B) w a w' :
  m w = Ok (inr a, w') -> (m ≫= f) w = f a w'.
Proof. intros E. unfold mbind, web_bind. by rewrite E. Qed.

Lemma web_bind_exit {A B} (m : web A) (f : A -> web B) w st w' :
  m w = Ok (inl st, w') -> (m ≫= f) w = Ok (inl st, w').
Proof. intros E. unfold mbind, web_bind. by rewrite E. Qed.

Lemma pure_Ok {A} (m : res A) a w : m = Ok a -> pure m w = Ok (inr a, w).
Proof. by intros ->. Qed.

Lemma sys_Ok {A} (m : ST io A) a w w' : m w = Ok (a, w') -> sys m w = Ok (inr a, w').
Proof. intros E. unfold sys. by rewrite E. Qed.

Lemma print_str_ok bs m : print_str (cells bs ++ Some 0 :: m) = Ok tt.
Proof. induction bs as [|b bs IH]; [done|]. cbn. by destruct (b =? 0). Qed.

Lemma strncpy_nonzero bs m :
  Forall (fun b => b <> 0) bs -> strncpy (cells bs ++ m) (length bs) = Ok (cells bs).
Proof.
  induction 1 as [|b bs Hb Hbs IH]; [by destruct m|]. cbn.
  rewrite (proj2 (Z.eqb_neq _ _)) by done. unfold cells in *. by rewrite IH.
Qed.

Lemma strncmp_eq_ok bs tl i s :
  0 <= i -> i + zlen s <= zlen bs ->
  strncmp_eq (cells bs ++ tl) i s
  = Ok (bool_decide (take (length s) (drop (Z.to_nat i) bs) = s)).
Proof.
  revert i. induction s as [|x s IH]; intros i Hi Hl; [done|]. cbn [strncmp_eq length take].
  assert (zlen (x :: s) = 1 + zlen s) as Hs by (unfold zlen; cbn; lia).
  pose proof (zlen_nonneg s).
  destruct (drop (Z.to_nat i) bs) as [|b l] eqn:E.
  { apply (f_equal length) in E. rewrite length_drop in E. unfold zlen in *. cbn in *. lia. }
  assert (bs !! Z.to_nat i = Some b) as Hb.
  { pose proof (lookup_drop bs (Z.to_nat i) 0) as Hd. rewrite E, Nat.add_0_r in Hd. by rewrite <- Hd. }
  erewrite load_ok; [|rewrite lookup_app_l; [unfold cells; by rewrite list_lookup_fmap, Hb|]|done].
  2: { rewrite length_cells. unfold zlen in *. cbn in *. lia. }
  rewrite res_bind_Ok. destruct (Z.eqb_spec b x) as [->|Hne].
  - rewrite IH by lia. replace (Z.to_nat (i + 1)) with (S (Z.to_nat i)) by lia.
    replace (S (Z.to_nat i)) with (Z.to_nat i + 1)%nat by lia.
    rewrite <- drop_drop, E. cbn [drop take]. rewrite drop_0. f_equal. apply bool_decide_ext.
    split; [intros Et; by rewrite Et|by intros [=]].
  - rewrite bool_decide_false; [done|]. by intros [=].
Qed.

(** ** The receive buffer *)

(** The block of the receive buffer: the bytes [d], what older receives left
    behind them, and at least one NUL. *)
Definition stored (m : list cell) (d : list Z) : Prop :=
  exists junk k, m = cells d ++ cells junk ++ replicate (S k) (Some 0) /\ zlen m = BUFFER_SIZE.

Lemma stored_print m d : stored m d -> print_str m = Ok tt.
Proof. intros (junk & k & -> & _). rewrite app_assoc, <- cells_app. apply print_str_ok. Qed.

Lemma stored_zero : stored (replicate (Z.to_nat BUFFER_SIZE) (Some 0)) [].
Proof. by exists [], 99%nat. Qed.

Lemma stored_next m old d :
  stored m old -> zlen d < BUFFER_SIZE ->
  exists m', store_block m 0 (cells d) = Ok m' /\ stored m' d.
Proof.
  intros (junk & k & -> & Hl) Hd. unfold stored.
  rewrite app_assoc, <- cells_app in Hl |- *. set (o := old ++ junk) in *.
  unfold store_block. rewrite Hl, zlen_cells, !(proj2 (Z.leb_le _ _)) by lia.
  eexists. split; [reflexivity|]. rewrite length_cells. change (Z.to_nat 0) with 0%nat.
  rewrite take_0, Nat.add_0_l. cbn [app].
  rewrite zlen_app, zlen_cells in Hl. unfold BUFFER_SIZE, zlen in *.
  rewrite length_replicate in Hl.
  assert (length (drop (length d) (cells o ++ replicate (S k) (Some 0)))
          = (100 - length d)%nat) as Hlen.
  { rewrite length_drop, length_app, length_cells, length_replicate. lia. }
  destruct (Nat.le_gt_cases (length d) (length o)) as [Hle|Hgt].
  - exists (drop (length d) o), k. split.
    + rewrite drop_app_le by (by rewrite length_cells). unfold cells. by rewrite fmap_drop.
    + rewrite length_app, length_cells, Hlen. lia.
  - exists [], (S k - (length d - length o) - 1)%nat. split.
    + rewrite drop_app_ge by (rewrite length_cells; lia).
      rewrite length_cells, drop_replicate. cbn [cells fmap list_fmap app].
      do 2 f_equal. lia.
    + rewrite length_app, length_cells, Hlen. lia.
Qed.

Lemma receive_ok conn lfd b old d w rest :
  stored (buffer b) old -> available_space b = BUFFER_SIZE ->
  d <> [] -> zlen d < BUFFER_SIZE -> script w = ARecv (Some d) :: rest ->
  exists m, stored m d /\
    receive conn lfd b w = Ok (inr (set_used (set_buffer b m) (zlen d)), mkIo rest (trace w)).
Proof.
  intros Hm Ha Hne Hd Hw. destruct w as [sc tr]. cbn in Hw. subst sc.
  destruct (stored_next _ _ _ Hm Hd) as (m & E & Hs). exists m. split; [done|].
  assert (0 < zlen d) by (destruct d; [done|unfold zlen; cbn; lia]).
  unfold receive. rewrite Ha.
  erewrite web_bind_Ok.
  2: { apply sys_Ok. unfold sys_recv. change (BUFFER_SIZE <=? 0) with false. cbv iota.
       cbn [script]. rewrite (proj2 (Z.leb_le (zlen d) _))
         by (unfold BUFFER_SIZE, MAX_RW_COUNT in *; lia). reflexivity. }
  cbn beta iota. erewrite web_bind_Ok by (by apply pure_Ok).
  rewrite (proj2 (Z.ltb_ge (zlen d) 0)), (proj2 (Z.eqb_neq (zlen d) 0)) by lia.
  cbn [buffer set_used set_buffer].
  by erewrite web_bind_Ok by (by apply pure_Ok, (stored_print m d)).
Qed.

(** The client is gone. *)
Lemma receive_eof conn lfd b w rest :
  available_space b = BUFFER_SIZE -> script w = ARecv (Some []) :: rest ->
  zlen (buffer b) = BUFFER_SIZE ->
  receive conn lfd b w = Ok (inl 1, mkIo rest (trace w ++ [EClose conn; EClose lfd])).
Proof.
  intros Ha Hw Hl. destruct w as [sc tr]. cbn in Hw. subst sc. unfold receive. rewrite Ha.
  erewrite web_bind_Ok by reflexivity. cbn beta iota.
  erewrite web_bind_Ok by (apply pure_Ok; unfold store_block; by rewrite Hl). cbn.
  change (zlen [] <? 0) with false. change (zlen [] =? 0) with true. cbv iota.
  unfold close_exit, mbind, web_bind, exit, emit, consume. cbn. unfold emit. cbn.
  by rewrite <- app_assoc.
Qed.

(** ** Scanning *)

Definition reply_event (conn : Z) : event := ESend conn (cells reply_msg).

Lemma process_request_ok m d conn n w rest :
  stored m d -> 7 <= n -> script w = ASend n :: rest ->
  process_request m conn w = Ok (inr tt, mkIo rest (trace w ++ [reply_event conn])).
Proof.
  intros Hm Hn Hw. destruct w as [sc tr]. cbn in Hw. subst sc. unfold process_request.
  erewrite web_bind_Ok by (by apply pure_Ok, (stored_print m d)).
  erewrite web_bind_Ok by reflexivity.
  erewrite web_bind_Ok.
  2: { apply sys_Ok. unfold sys_send. cbn [script].
       rewrite (proj2 (Z.ltb_ge n 0)) by lia.
       replace (Z.min n _) with 7 by (change (Z.min (zlen _) MAX_RW_COUNT) with 7; lia).
       reflexivity. }
  by cbn.
Qed.

Section Scan.
Variables connection_fd listener_fd : Z.
Notation scan := (scan_recv connection_fd listener_fd).

(** A run of positions where no terminator starts. *)
Lemma scan_skip n fuel b bs tl fully w :
  buffer b = cells bs ++ tl -> used_space b = zlen bs -> 0 <= scanner_index b ->
  (forall j, scanner_index b <= j < scanner_index b + Z.of_nat n ->
     j + 4 <= zlen bs /\ take 4 (drop (Z.to_nat j) bs) <> http_terminator) ->
  scan (n + fuel) b fully w = scan fuel (set_scanner b (scanner_index b + Z.of_nat n)) fully w.
Proof.
  revert b. induction n as [|n IH]; intros b Hb Hu Hs Hj.
  { rewrite Z.add_0_r. by destruct b. }
  destruct (Hj (scanner_index b) ltac:(lia)) as [Hr Hno].
  cbn [Nat.add scan_recv]. rewrite (proj2 (Z.leb_le _ _)) by (unfold terminator_length; lia).
  erewrite web_bind_Ok.
  2: { apply pure_Ok. rewrite Hb. apply strncmp_eq_ok; [done|].
       change (zlen http_terminator) with 4. lia. }
  change (length http_terminator) with 4%nat. rewrite bool_decide_false by done.
  erewrite web_bind_Ok by reflexivity. cbn beta iota.
  rewrite IH; cbn [buffer used_space scanner_index set_scanner]; try done; try lia.
  - unfold set_scanner. cbn. do 2 f_equal. lia.
  - intros j Hj'. apply Hj. lia.
Qed.

(** A request: not empty, not beginning with an empty line, and no terminator
    before its own. *)
Definition request_ok (body : list Z) : Prop :=
  body <> [] /\ take 2 body <> [13; 10] /\
  forall j, (j < length body)%nat -> take 4 (drop j (body ++ http_terminator)) <> http_terminator.

Definition requests (bodies : list (list Z)) : list Z :=
  concat ((fun body => body ++ http_terminator) <$> bodies).

Lemma requests_cons b bodies : requests (b :: bodies) = b ++ http_terminator ++ requests bodies.
Proof. unfold requests. cbn. by rewrite <- app_assoc. Qed.

(** The windows that straddle a terminator and the request after it. *)
Lemma straddle pre body tl j :
  request_ok body -> (length pre + 1 <= j < length pre + 4)%nat ->
  take 4 (drop j (pre ++ http_terminator ++ body ++ http_terminator ++ tl)) <> http_terminator.
Proof.
  intros (Hne & H2 & _) Hj. rewrite drop_app_ge by lia.
  assert (j - length pre = 1 \/ j - length pre = 2 \/ j - length pre = 3)%nat as
    [-> | [-> | ->]] by lia; cbn; try done.
  destruct body as [|x [|y body]]; [done|..]; cbn in *; intros [=]; subst; by rewrite ?take_0 in *.
Qed.

Lemma window_in pre body tl j :
  (j < length body)%nat ->
  take 4 (drop (length pre + j) (pre ++ body ++ http_terminator ++ tl))
  = take 4 (drop j (body ++ http_terminator)).
Proof.
  intros Hj. rewrite <- drop_drop, drop_app_length, (app_assoc body).
  rewrite drop_app_le by (rewrite length_app; lia).
  rewrite take_app_le; [done|]. rewrite length_drop, length_app. cbn. lia.
Qed.

(** At its terminator a request is answered. *)
Lemma scan_hit fuel b d tl fully n w rest :
  buffer b = cells d ++ tl -> stored (buffer b) d -> used_space b = zlen d ->
  0 <= scanner_index b -> scanner_index b + 4 <= zlen d ->
  take 4 (drop (Z.to_nat (scanner_index b)) d) = http_terminator ->
  scanner_index b <> req_begin_index b -> 7 <= n -> script w = ASend n :: rest ->
  let last := scanner_index b =? zlen d - 4 in
  let b' := if last then b else set_begin b (scanner_index b + 4) in
  scan (S fuel) b fully w
  = scan fuel (set_scanner b' (scanner_index b + 1)) (if last then true else fully)
      (mkIo rest (trace w ++ [reply_event connection_fd])).
Proof.
  intros Hb Hst Hu Hs Hr Hw Hne Hn Hsc last b'. cbn [scan_recv].
  rewrite (proj2 (Z.leb_le _ _)) by (unfold terminator_length; lia).
  erewrite web_bind_Ok.
  2: { apply pure_Ok. rewrite Hb. apply strncmp_eq_ok; [done|].
       change (zlen http_terminator) with 4. lia. }
  change (length http_terminator) with 4%nat. rewrite bool_decide_true by done.
  rewrite (proj2 (Z.eqb_neq (scanner_index b) (req_begin_index b))) by done.
  subst last b'. destruct (Z.eqb_spec (scanner_index b) (zlen d - 4)) as [El|El];
    erewrite web_bind_Ok by (erewrite web_bind_Ok by (by eapply process_request_ok);
      rewrite Hu; unfold terminator_length;
      first [rewrite (proj2 (Z.eqb_eq _ _)) by done | rewrite (proj2 (Z.eqb_neq _ _)) by done];
      reflexivity);
    reflexivity.
Qed.

(** From the end of the request before it ([pre]) past its own terminator. *)
Lemma scan_one pre body more b fully n w rest fuel d :
  d = pre ++ body ++ http_terminator ++ more -> request_ok body ->
  stored (buffer b) d -> used_space b = zlen d -> req_begin_index b = zlen pre ->
  0 <= scanner_index b <= zlen pre ->
  (forall j, scanner_index b <= j < zlen pre ->
     take 4 (drop (Z.to_nat j) d) <> http_terminator) ->
  7 <= n -> script w = ASend n :: rest -> zlen d - scanner_index b < Z.of_nat fuel ->
  let e := zlen pre + zlen body in
  let last := e =? zlen d - 4 in
  exists f, zlen d - (e + 1) < Z.of_nat f /\
    scan fuel b fully w
    = scan f (set_scanner (if last then b else set_begin b (e + 4)) (e + 1))
        (if last then true else fully) (mkIo rest (trace w ++ [reply_event connection_fd])).
Proof.
  intros Hd Hbody Hst Hu Hbeg Hscan Hno Hn Hw Hfuel e last.
  assert (zlen d = e + 4 + zlen more) as Hz.
  { rewrite Hd, !zlen_app. change (zlen http_terminator) with 4. lia. }
  pose proof (zlen_nonneg body). pose proof (zlen_nonneg more).
  pose proof Hst as (junk & k & Hb & _).
  remember (Z.to_nat (e - scanner_index b)) as m eqn:Em.
  assert (exists f, fuel = (m + S f)%nat) as [f ->] by (exists (fuel - m - 1)%nat; lia).
  exists f. split; [lia|].
  rewrite (scan_skip m (S f) b d _ fully w Hb Hu ltac:(lia)).
  2: { intros j Hj. split; [lia|]. destruct (Z.lt_ge_cases j (zlen pre)); [apply Hno; lia|].
       rewrite Hd. replace (Z.to_nat j) with (length pre + Z.to_nat (j - zlen pre))%nat
         by (unfold zlen in *; lia).
       rewrite window_in by (unfold zlen in *; lia). apply Hbody. unfold zlen in *. lia. }
  replace (scanner_index b + Z.of_nat m) with e by lia.
  rewrite (scan_hit f _ d (cells junk ++ replicate (S k) (Some 0)) fully n w rest);
    cbn [buffer used_space scanner_index req_begin_index set_scanner]; try done; try lia.
  - subst last. by destruct (e =? zlen d - 4).
  - rewrite Hd, app_assoc. replace (Z.to_nat e) with (length (pre ++ body))
      by (rewrite length_app; unfold e, zlen; lia).
    by rewrite drop_app_length.
  - destruct Hbody as [Hbody _]. destruct body; [done|]. unfold e, zlen in *. cbn in *. lia.
Qed.

(** The scan answers the requests of the buffer one by one, and stops with the
    scanner past the last terminator's first byte. *)
Lemma scan_requests bodies : forall pre b fully w ns rest fuel,
  bodies <> [] -> Forall request_ok bodies ->
  let d := pre ++ requests bodies in
  stored (buffer b) d -> used_space b = zlen d -> req_begin_index b = zlen pre ->
  0 <= scanner_index b <= zlen pre ->
  (forall j, scanner_index b <= j < zlen pre ->
     take 4 (drop (Z.to_nat j) d) <> http_terminator) ->
  length ns = length bodies -> Forall (fun n => 7 <= n) ns ->
  script w = (ASend <$> ns) ++ rest ->
  zlen d - scanner_index b < Z.of_nat fuel ->
  exists b', scan fuel b fully w
    = Ok (inr (b', true),
          mkIo rest (trace w ++ replicate (length bodies) (reply_event connection_fd))) /\
    buffer b' = buffer b /\ available_space b' = available_space b /\
    scanner_index b' = zlen d - 3.
Proof.
  induction bodies as [|body bodies IH];
    intros pre b fully w ns rest fuel Hne Hok d Hst Hu Hbeg Hscan Hno Hlen Hns Hw Hfuel; [done|].
  apply List.Forall_cons_iff in Hok as [Hbody Hok].
  destruct ns as [|n ns]; [done|]. apply List.Forall_cons_iff in Hns as [Hn Hns].
  assert (d = pre ++ body ++ http_terminator ++ requests bodies) as Hd
    by (subst d; by rewrite requests_cons).
  assert (zlen d = zlen pre + zlen body + 4 + zlen (requests bodies)) as Hz.
  { rewrite Hd, !zlen_app. change (zlen http_terminator) with 4. lia. }
  pose proof (zlen_nonneg pre). pose proof (zlen_nonneg body).
  destruct (scan_one pre body (requests bodies) b fully n w _ fuel d Hd Hbody Hst Hu Hbeg
    Hscan Hno Hn Hw Hfuel) as (f & Hf & E). rewrite E. clear E.
  destruct bodies as [|body2 bodies].
  - change (zlen (requests [])) with 0 in Hz. rewrite (proj2 (Z.eqb_eq _ _)) by lia.
    eexists. split.
    + destruct f as [|f]; cbn [scan_recv]; cbn [scanner_index used_space set_scanner];
        rewrite (proj2 (Z.leb_gt _ _)) by (unfold terminator_length; lia);
        (destruct ns; [|done]); reflexivity.
    + cbn. split_and!; try done. lia.
  - pose proof (zlen_nonneg body2). pose proof (zlen_nonneg (requests bodies)).
    rewrite requests_cons, !zlen_app in Hz. change (zlen http_terminator) with 4 in Hz.
    rewrite (proj2 (Z.eqb_neq _ _)) by lia.
    set (pre2 := pre ++ body ++ http_terminator).
    assert (d = pre2 ++ requests (body2 :: bodies)) as Hd2
      by (unfold pre2; by rewrite <- !app_assoc).
    assert (zlen pre2 = zlen pre + zlen body + 4) as Hz2.
    { unfold pre2. rewrite !zlen_app. change (zlen http_terminator) with 4. lia. }
    match goal with |- context [scan f ?b1 fully ?w1] =>
      destruct (IH pre2 b1 fully w1 ns rest f) as (b' & E & E1 & E2 & E3) end;
      cbn [buffer used_space scanner_index req_begin_index available_space set_scanner set_begin];
      rewrite <- ?Hd2; try done; try lia.
    + intros j Hj. rewrite Hd, app_assoc, requests_cons.
      apply List.Forall_cons_iff in Hok as [Hbody2 _].
      apply straddle; [done|]. rewrite length_app. unfold zlen in *. lia.
    + by injection Hlen.
    + exists b'. rewrite E, <- Hd2 in *. split_and!; try done. cbn [trace].
      rewrite <- app_assoc. by cbn.
Qed.
End Scan.

(** ** Whole runs *)

Lemma stored_length m d : stored m d -> zlen m = BUFFER_SIZE.
Proof. by intros (? & ? & _ & ?). Qed.

(** What arrives after a processed buffer is not scanned when it is not longer
    than that buffer: the scanner stands behind it. *)
Lemma later_ignored `{!allocator} conn lfd later : forall b old fuel w rest,
  stored (buffer b) old -> available_space b = BUFFER_SIZE ->
  Forall (fun r => r <> [] /\ zlen r <= scanner_index b + 3 /\ zlen r < BUFFER_SIZE) later ->
  script w = ((fun r => ARecv (Some r)) <$> later) ++ ARecv (Some []) :: rest ->
  (length later < fuel)%nat ->
  recv_loop conn lfd fuel RECV b true w
  = Ok (inl 1, mkIo rest (trace w ++ [EClose conn; EClose lfd])).
Proof.
  induction later as [|r later IH]; intros b old fuel w rest Hst Ha Hl Hw Hf;
    (destruct fuel as [|fuel]; [cbn in Hf; lia|]); cbn [recv_loop].
  - apply web_bind_exit. apply receive_eof; [done|done|]. by eapply stored_length.
  - apply List.Forall_cons_iff in Hl as [(Hr & Hle & Hlt) Hl].
    destruct (receive_ok conn lfd b old r w _ Hst Ha Hr Hlt Hw) as (m & Hm & E).
    erewrite web_bind_Ok by exact E. cbn beta iota. cbn [used_space set_used set_buffer].
    erewrite web_bind_Ok.
    2: { cbn [scan_recv]. cbn [scanner_index used_space set_used set_buffer].
         rewrite (proj2 (Z.leb_gt _ _)) by (unfold terminator_length; lia). reflexivity. }
    cbn beta iota. etrans; [eapply (IH _ r); try done; cbn in Hf; lia|done].
Qed.

(** A successful set-up. *)
Definition web_setup_answers (a : sockaddr) (more : list sockaddr) (lfd conn : Z) : list answer :=
  [AAddrinfo (Some (a :: more)); ASocket lfd; ABind 0; AListen 0; AAccept conn].
Definition web_setup_events (port : string) (a : sockaddr) (lfd : Z) : list event :=
  [EResolvePassive port; ESocket lfd; EBind lfd a; EListen lfd].

(** Where the block has room for the whole structure. *)
Lemma buf_struct_init_ok `{!allocator} n w :
  24 <= block_size SIZEOF_POINTER -> 0 < n ->
  buf_struct_init n w = Ok (inr (mkBuf (replicate (Z.to_nat n) (Some 0)) n 0 0 0), w).
Proof.
  intros Hb Hn. unfold buf_struct_init. rewrite (proj2 (Z.leb_gt n 0)) by done. cbv zeta.
  do 5 (erewrite web_bind_Ok
    by (apply pure_Ok; unfold field_store; rewrite (proj2 (Z.leb_le _ _)) by lia; done)).
  done.
Qed.

(** Where it has not: one of the assignments is outside the block. *)
Lemma buf_struct_init_ub `{!allocator} n w :
  block_size SIZEOF_POINTER < 24 -> 0 < n -> buf_struct_init n w = Ub.
Proof.
  intros Hb Hn. unfold buf_struct_init. rewrite (proj2 (Z.leb_gt n 0)) by done. cbv zeta.
  unfold pure, sys, st_lift, field_store, mbind, web_bind. cbn [res_bind].
  set (size := block_size SIZEOF_POINTER) in *.
  destruct (0 + 8 <=? size), (8 + 4 <=? size), (12 + 4 <=? size), (16 + 4 <=? size); try done.
  by rewrite (proj2 (Z.leb_gt _ _)) by lia.
Qed.

(** The program once a client is connected. *)
Lemma web_setup_connected prog port args a more lfd conn w rest :
  0 <= lfd -> 0 <= conn -> script w = web_setup_answers a more lfd conn ++ rest ->
  web_setup (prog :: port :: args) w
  = Ok (inr (conn, lfd), mkIo rest (trace w ++ web_setup_events port a lfd)).
Proof.
  intros Hl Hc Hw. destruct w as [sc tr]. cbn in Hw. subst sc.
  unfold web_setup. erewrite web_bind_Ok by reflexivity. cbn iota.
  erewrite web_bind_Ok by reflexivity. cbn [consume script]. rewrite !(proj2 (Z.ltb_ge lfd 0)) by done.
  erewrite web_bind_Ok by reflexivity. change (0 <? 0) with false. cbv iota.
  erewrite web_bind_Ok by reflexivity. change (0 <? 0) with false. cbv iota.
  erewrite web_bind_Ok by reflexivity. rewrite (proj2 (Z.ltb_ge conn 0)) by done.
  unfold emit, consume. cbn. unfold emit, consume. cbn. by rewrite <- !app_assoc.
Qed.

Lemma web_main_connected `{!allocator} prog port args a more lfd conn fuel w rest :
  24 <= block_size SIZEOF_POINTER ->
  0 <= lfd -> 0 <= conn -> script w = web_setup_answers a more lfd conn ++ rest ->
  web_main fuel (prog :: port :: args) w
  = recv_loop conn lfd fuel RECV
      (mkBuf (replicate (Z.to_nat BUFFER_SIZE) (Some 0)) BUFFER_SIZE 0 0 0) false
      (mkIo rest (trace w ++ web_setup_events port a lfd)).
Proof.
  intros Hb Hl Hc Hw. unfold web_main.
  erewrite web_bind_Ok by (by apply (web_setup_connected _ _ _ a more lfd conn _ rest)). cbn beta iota.
  by erewrite web_bind_Ok by (by apply buf_struct_init_ok).
Qed.

(** C38. The block for the receive buffer's record is that of a pointer, 8 bytes,
    and the record has 24: where the allocator gives no more than was asked
    for, every run that gets a connection has undefined behaviour before
    anything is received, whatever follows.  Where the block happens to have 24
    bytes, the same run goes on to receive: when the client closes at once,
    both sockets are closed and the program ends with status 1. *)
Theorem buf_struct_overflow `{!allocator} prog port args a more lfd conn w rest :
  0 <= lfd -> 0 <= conn -> script w = web_setup_answers a more lfd conn ++ rest ->
  (block_size SIZEOF_POINTER < 24 -> forall fuel, web_main fuel (prog :: port :: args) w = Ub) /\
  (24 <= block_size SIZEOF_POINTER -> forall fuel rest', rest = ARecv (Some []) :: rest' ->
     web_main (S fuel) (prog :: port :: args) w
     = Ok (inl 1, mkIo rest' (trace w ++ web_setup_events port a lfd ++ [EClose conn; EClose lfd]))).
Proof.
  intros Hl Hc Hw. split.
  - intros Hb fuel. unfold web_main.
    erewrite web_bind_Ok by (by apply (web_setup_connected _ _ _ a more lfd conn _ rest)). cbn beta iota.
    unfold mbind at 1, web_bind at 1. by rewrite buf_struct_init_ub.
  - intros Hb fuel rest' ->.
    rewrite (web_main_connected _ _ _ a more lfd conn _ _ _ Hb Hl Hc Hw). cbn [recv_loop].
    erewrite web_bind_exit by (by eapply receive_eof). cbn [trace]. by rewrite <- app_assoc.
Qed.

(** Allocators: one that gives what it is asked for, and one with the smallest
    block of glibc. *)
Definition exact_allocator : allocator := {| block_size n := n; block_size_ge n := Z.le_refl n |}.
Lemma round_up_ge n : n <= Z.max n 24.
Proof. lia. Qed.
Definition rounding_allocator : allocator :=
  {| block_size n := Z.max n 24; block_size_ge := round_up_ge |}.

Lemma buf_struct_overflow_witness :
  (forall rest, @web_main exact_allocator 5 ["webserver"; "80"]%string
     (mkIo (web_setup_answers (mkAddr 0 80) [] 3 4 ++ rest) []) = Ub) /\
  let w := mkIo (web_setup_answers (mkAddr 0 80) [] 3 4 ++ [ARecv (Some [])]) [] in
  @web_main rounding_allocator 1 ["webserver"; "80"]%string w
  = Ok (inl 1, mkIo [] (trace w ++ web_setup_events "80" (mkAddr 0 80) 3 ++ [EClose 4; EClose 3])).
Proof.
  split.
  - intros rest. apply (@buf_struct_overflow exact_allocator "webserver" "80" [] (mkAddr 0 80) [] 3 4
      _ rest); (lia || reflexivity).
  - intros w. apply (@buf_struct_overflow rounding_allocator "webserver" "80" [] (mkAddr 0 80) [] 3 4
      w [ARecv (Some [])]); try reflexivity; try lia; discriminate.
Defined.

(** With room for the record, requests that arrive together in one receive of fewer than 100 bytes are
    each answered, in one reply per request.  Whatever arrives in later
    receives that are not longer is never answered, requests included: the
    scanner is not set back.  When the client closes, both sockets are closed
    and the program ends with status 1. *)
Theorem only_first_receive_answered `{!allocator} prog port args a more lfd conn bodies ns later fuel w rest :
  24 <= block_size SIZEOF_POINTER ->
  0 <= lfd -> 0 <= conn ->
  bodies <> [] -> Forall request_ok bodies -> zlen (requests bodies) < BUFFER_SIZE ->
  length ns = length bodies -> Forall (fun n => 7 <= n) ns ->
  Forall (fun r => r <> [] /\ zlen r <= zlen (requests bodies)) later ->
  script w = web_setup_answers a more lfd conn ++ ARecv (Some (requests bodies)) ::
    (ASend <$> ns) ++ ((fun r => ARecv (Some r)) <$> later) ++ ARecv (Some []) :: rest ->
  (S (length later) < fuel)%nat ->
  web_main fuel (prog :: port :: args) w
  = Ok (inl 1, mkIo rest (trace w ++ web_setup_events port a lfd ++
                 replicate (length bodies) (reply_event conn) ++ [EClose conn; EClose lfd])).
Proof.
  intros Hb Hl Hc Hne Hok Hz Hlen Hns Hlater Hw Hf.
  rewrite (web_main_connected _ _ _ a more lfd conn _ _ _ Hb Hl Hc Hw).
  destruct fuel as [|fuel]; [lia|]. cbn [recv_loop]. set (b0 := mkBuf _ _ 0 0 0).
  assert (requests bodies <> []) as Hr.
  { destruct bodies as [|[|x body] bodies]; [done| |by rewrite requests_cons].
    by apply List.Forall_cons_iff in Hok as [[? _] _]. }
  match goal with |- context [(receive _ _ b0 ≫= _) ?w1] =>
    destruct (receive_ok conn lfd b0 [] (requests bodies) w1 _ stored_zero eq_refl Hr Hz eq_refl)
      as (m & Hm & E) end.
  erewrite web_bind_Ok by exact E. cbn beta iota. cbn [used_space set_used set_buffer].
  match goal with |- context [(scan_recv _ _ _ ?b1 _ ≫= _) ?w1] =>
    edestruct (scan_requests conn lfd bodies [] b1 false w1 ns) as (b' & E2 & Hbuf & Ha & Hs);
    [done|done|exact Hm|done|done|done|intros j Hj; change (0 <= j < 0) in Hj; lia|exact Hlen|exact Hns|reflexivity
    | |] end.
  2: { erewrite web_bind_Ok by exact E2. cbn beta iota. cbn [trace].
       rewrite (later_ignored conn lfd later b' (requests bodies) fuel _ rest);
         [cbn [trace]; by rewrite <- !app_assoc|by rewrite Hbuf|by rewrite Ha| |done|lia].
       eapply List.Forall_impl; [|exact Hlater]. cbn beta. intros r [Hr1 Hr2].
       rewrite Hs. cbn [app]. split_and!; [done|lia|lia]. }
  cbn [app scanner_index set_used set_buffer b0]. unfold zlen. lia.
Qed.

Lemma only_first_receive_answered_witness :
  let req := [71; 69; 84] in
  let w := mkIo (web_setup_answers (mkAddr 0 80) [] 3 4 ++ ARecv (Some (requests [req; req])) ::
    (ASend <$> [7; 9]) ++ [ARecv (Some (requests [req])); ARecv (Some [])]) [] in
  @web_main rounding_allocator 3 ["webserver"; "80"]%string w
  = Ok (inl 1, mkIo [] (trace w ++ web_setup_events "80" (mkAddr 0 80) 3 ++
                 [reply_event 4; reply_event 4] ++ [EClose 4; EClose 3])).
Proof.
  intros req w.
  apply (@only_first_receive_answered rounding_allocator "webserver" "80" [] (mkAddr 0 80) [] 3 4 [req; req] [7; 9]
           [requests [req]] 3 w []); try (cbn; lia); try reflexivity; try discriminate.
  - assert (request_ok req) as Hreq.
    { split; [discriminate|]. split; [discriminate|]. intros j Hj.
      destruct j as [|[|[|j]]]; [discriminate|discriminate|discriminate|cbn in Hj; lia]. }
    repeat (apply List.Forall_cons; [exact Hreq|]). apply List.Forall_nil.
  - repeat (apply List.Forall_cons; [discriminate|]). apply List.Forall_nil.
  - apply List.Forall_cons; [|apply List.Forall_nil]. split; discriminate.
Defined.

(** ** The secondary buffer *)

Section Req.
Variables connection_fd listener_fd : Z.

(** Without a terminator at its start the scan of the secondary buffer stays
    where it is. *)
Lemma scan_req_stuck fuel recv_buf req_buf d tl w :
  buffer req_buf = cells d ++ tl -> used_space req_buf = zlen d -> scanner_index req_buf = 0 ->
  4 <= zlen d -> take 4 d <> http_terminator ->
  scan_req connection_fd listener_fd fuel recv_buf req_buf w = NoFuel.
Proof.
  intros Hb Hu Hs Hd Hno.
  induction fuel as [|fuel IH]; cbn [scan_req]; rewrite Hs, Hu, (proj2 (Z.leb_le _ _))
    by (unfold terminator_length; lia); [done|].
  erewrite web_bind_Ok.
  2: { apply pure_Ok. rewrite Hb. apply strncmp_eq_ok; [done|].
       change (zlen http_terminator) with 4. lia. }
  rewrite bool_decide_false by done. exact IH.
Qed.
End Req.

(** [strncpy] of NUL-free bytes into the zeroed rest of a buffer. *)
Lemma strncpy_to_zeros pre d tl n k :
  Forall (fun b => b <> 0) d -> zlen pre = n -> (length d <= k)%nat ->
  strncpy_to (cells pre ++ replicate k (Some 0)) n (cells d ++ tl) (zlen d)
  = Ok (cells (pre ++ d) ++ replicate (k - length d) (Some 0)).
Proof.
  intros Hd Hn Hk. unfold strncpy_to. unfold zlen at 1. rewrite Nat2Z.id, strncpy_nonzero by done.
  rewrite res_bind_Ok. replace k with (length d + (k - length d))%nat at 1 by lia.
  rewrite replicate_add, store_block_app; [by rewrite cells_app, <- app_assoc| |].
  - by rewrite zlen_cells.
  - by rewrite length_replicate.
Qed.

Lemma web_bind_NoFuel {A B} (m : web A) (f : A -> web B) w : m w = NoFuel -> (m ≫= f) w = NoFuel.
Proof. intros E. unfold mbind, web_bind. by rewrite E. Qed.

Lemma req_loop_hangs `{!allocator} conn lfd fuel b old k d1 d2 tl w rest :
  stored (buffer b) old -> available_space b = BUFFER_SIZE ->
  zlen d1 <= 100 -> d2 <> [] -> zlen d2 < BUFFER_SIZE -> Forall (fun x => x <> 0) d2 ->
  4 <= zlen (d1 ++ d2) -> take 4 (d1 ++ d2) <> http_terminator ->
  tl = replicate k (Some 0) -> zlen d1 + Z.of_nat k = 200 ->
  script w = ARecv (Some d2) :: rest ->
  req_loop conn lfd fuel b (mkBuf (cells d1 ++ tl) 200 (zlen d1) 0 0) w = NoFuel.
Proof.
  intros Hst Ha Hd1 Hne Hd2 Hnz H4 Hno -> Hk Hw. destruct fuel as [|fuel]; [done|].
  cbn [req_loop].
  destruct (receive_ok conn lfd b old d2 w rest Hst Ha Hne Hd2 Hw) as (m & Hm & E).
  unfold BUFFER_SIZE in *. pose proof Hm as (junk & j & Em & _).
  erewrite web_bind_Ok by exact E. cbn [used_space available_space set_used set_buffer buffer].
  rewrite (proj2 (Z.ltb_ge _ _)) by lia. erewrite web_bind_Ok by reflexivity.
  cbn [used_space available_space set_used set_buffer buffer].
  erewrite web_bind_Ok
    by (apply pure_Ok; rewrite Em; apply strncpy_to_zeros; [done|done|unfold zlen in *; lia]).
  erewrite web_bind_Ok.
  2: { apply pure_Ok. unfold int_ok. pose proof (zlen_nonneg d1). pose proof (zlen_nonneg d2).
       rewrite (proj2 (Z.leb_le _ _)), (proj2 (Z.ltb_lt _ _)) by lia. reflexivity. }
  apply web_bind_NoFuel. eapply (scan_req_stuck _ _ _ _ _ (d1 ++ d2)); try done.
  cbn. by rewrite zlen_app.
Qed.

(** No terminator anywhere in [d]. *)
Definition no_terminator (d : list Z) : Prop :=
  forall j, (j + 4 <= length d)%nat -> take 4 (drop j d) <> http_terminator.

Lemma scan_nothing conn lfd b d fuel fully w :
  stored (buffer b) d -> used_space b = zlen d -> scanner_index b = 0 -> no_terminator d ->
  (length d <= fuel)%nat ->
  exists s, scan_recv conn lfd fuel b fully w = Ok (inr (set_scanner b s, fully), w).
Proof.
  intros (junk & k & Hb & _) Hu Hs Hno Hf. set (n := (length d - 3)%nat).
  exists (Z.of_nat n). replace fuel with (n + (fuel - n))%nat by lia.
  rewrite (scan_skip conn lfd n _ b d _ fully w Hb Hu) by
    first [lia | intros j Hj; rewrite Hs in Hj; split; [unfold zlen; lia|apply Hno; lia]].
  rewrite Hs. cbn [Z.add]. destruct (fuel - n)%nat; cbn [scan_recv];
    cbn [scanner_index used_space set_scanner]; rewrite (proj2 (Z.leb_gt _ _));
    try reflexivity; unfold terminator_length, zlen in *; lia.
Qed.

(** C39. Where the block of the buffers' records has room for them, a request that arrives in two pieces, the first without a terminator,
    hangs the server: once four bytes are there the scan of the secondary
    buffer never advances, so that the program neither answers nor ends,
    whatever follows. *)
Theorem split_request_hangs `{!allocator} prog port args a more lfd conn d1 d2 fuel w rest :
  24 <= block_size SIZEOF_POINTER ->
  0 <= lfd -> 0 <= conn ->
  d1 <> [] -> zlen d1 < BUFFER_SIZE -> no_terminator d1 ->
  d2 <> [] -> zlen d2 < BUFFER_SIZE -> Forall (fun x => x <> 0) (d1 ++ d2) ->
  4 <= zlen (d1 ++ d2) -> take 4 (d1 ++ d2) <> http_terminator ->
  script w = web_setup_answers a more lfd conn ++ ARecv (Some d1) :: ARecv (Some d2) :: rest ->
  web_main fuel (prog :: port :: args) w = NoFuel.
Proof.
  intros Hb Hl Hc Hne1 Hd1 Hno Hne2 Hd2 Hnz H4 Hstart Hw.
  apply List.Forall_app in Hnz as [Hnz1 Hnz2].
  rewrite (web_main_connected _ _ _ a more lfd conn _ _ _ Hb Hl Hc Hw).
  destruct fuel as [|fuel]; [done|]. cbn [recv_loop]. set (b0 := mkBuf _ _ 0 0 0).
  match goal with |- context [(receive _ _ b0 ≫= _) ?w1] =>
    destruct (receive_ok conn lfd b0 [] d1 w1 _ stored_zero eq_refl Hne1 Hd1 eq_refl)
      as (m & Hm & E) end.
  erewrite web_bind_Ok by exact E. cbn beta iota. cbn [used_space set_used set_buffer].
  match goal with |- context [(scan_recv _ _ ?f ?b1 _ ≫= _) ?w1] =>
    destruct (scan_nothing conn lfd b1 d1 f false w1 Hm eq_refl eq_refl Hno) as [s E2];
      [unfold zlen; lia|] end.
  erewrite web_bind_Ok by exact E2. cbn beta iota.
  erewrite web_bind_Ok by reflexivity. cbn beta iota.
  erewrite web_bind_Ok by (by apply buf_struct_init_ok).
  pose proof Hm as (junk & k & Em & _).
  cbn [used_space available_space set_used set_buffer set_scanner buffer].
  unfold BUFFER_SIZE in *.
  erewrite web_bind_Ok.
  2: { apply pure_Ok. rewrite Em.
       apply (strncpy_to_zeros [] d1 _ 0 200); [done|done|unfold zlen in *; lia]. }
  apply web_bind_NoFuel.
  eapply (req_loop_hangs _ _ _ _ d1 (200 - length d1) d1 d2); try done; try (unfold zlen in *; lia).
Qed.

Lemma split_request_hangs_witness :
  @web_main rounding_allocator 1000 ["webserver"; "80"]%string
    (mkIo (web_setup_answers (mkAddr 0 80) [] 3 4 ++
      [ARecv (Some [71; 69; 84; 13; 10]); ARecv (Some [13; 10]); ARecv (Some [])]) []) = NoFuel.
Proof.
  apply (@split_request_hangs rounding_allocator "webserver" "80" [] (mkAddr 0 80) [] 3 4 [71; 69; 84; 13; 10] [13; 10]
           _ _ [ARecv (Some [])]); try reflexivity; try discriminate.
  - intros j Hj. destruct j as [|[|j]]; [discriminate|discriminate|cbn in Hj; lia].
  - repeat (apply List.Forall_cons; [discriminate|]). apply List.Forall_nil.
Defined.

Lemma print_str_full bs : Forall (fun b => b <> 0) bs -> print_str (cells bs) = Ub.
Proof.
  induction 1 as [|b bs Hb Hbs IH]; [done|]. cbn. by rewrite (proj2 (Z.eqb_neq _ _)).
Qed.

(** A receive that fills the buffer leaves no NUL in it, and printing it as a
    string reads past its end. *)
Theorem full_receive_ub `{!allocator} prog port args a more lfd conn d fuel w rest :
  24 <= block_size SIZEOF_POINTER ->
  0 <= lfd -> 0 <= conn -> BUFFER_SIZE <= zlen d ->
  Forall (fun x => x <> 0) (take (Z.to_nat BUFFER_SIZE) d) ->
  script w = web_setup_answers a more lfd conn ++ ARecv (Some d) :: rest -> (0 < fuel)%nat ->
  web_main fuel (prog :: port :: args) w = Ub.
Proof.
  intros Hb Hl Hc Hd Hnz Hw Hf.
  rewrite (web_main_connected _ _ _ a more lfd conn _ _ _ Hb Hl Hc Hw).
  destruct fuel as [|fuel]; [lia|]. cbn [recv_loop].
  set (t := take (Z.to_nat BUFFER_SIZE) d) in *.
  assert (length t = 100%nat) as Ht
    by (unfold t, BUFFER_SIZE, zlen in *; rewrite length_take; lia).
  assert (exists sc, sys_recv conn BUFFER_SIZE (mkIo (ARecv (Some d) :: rest)
      (trace w ++ web_setup_events port a lfd))
    = Ok ((BUFFER_SIZE, t), mkIo sc (trace w ++ web_setup_events port a lfd))) as [sc E].
  { unfold sys_recv. change (BUFFER_SIZE <=? 0) with false. cbv iota. cbn [script].
    change (Z.min BUFFER_SIZE MAX_RW_COUNT) with BUFFER_SIZE.
    destruct (Z.leb_spec (zlen d) BUFFER_SIZE) as [Hle|Hgt]; [|by eexists].
    assert (zlen d = BUFFER_SIZE) as Hz by lia. exists rest. rewrite Hz. unfold t.
    rewrite take_ge; [done|]. unfold zlen, BUFFER_SIZE in *. lia. }
  unfold receive. cbn [available_space].
  unfold mbind at 1, web_bind at 1, mbind at 1, web_bind at 1, sys. rewrite E. cbn beta iota.
  assert (store_block (replicate (Z.to_nat BUFFER_SIZE) (Some 0)) 0 (cells t) = Ok (cells t)) as Es.
  { pose proof (store_block_app [] (replicate 100 (Some 0)) [] t 0 eq_refl) as Es.
    rewrite length_replicate, !app_nil_r in Es. by apply Es. }
  cbn [buffer]. erewrite web_bind_Ok by (by apply pure_Ok).
  change (BUFFER_SIZE <? 0) with false. change (BUFFER_SIZE =? 0) with false. cbv iota.
  cbn [buffer set_used set_buffer]. unfold mbind at 1, web_bind at 1, pure, sys, st_lift.
  by rewrite print_str_full.
Qed.

Lemma full_receive_ub_witness :
  @web_main rounding_allocator 9 ["webserver"; "80"]%string
    (mkIo (web_setup_answers (mkAddr 0 80) [] 3 4 ++ [ARecv (Some (replicate 120 65))]) []) = Ub.
Proof.
  apply (@full_receive_ub rounding_allocator "webserver" "80" [] (mkAddr 0 80) [] 3 4 (replicate 120 65) _ _ []);
    try lia; try reflexivity; try discriminate.
  repeat (apply List.Forall_cons; [discriminate|]). apply List.Forall_nil.
Defined.
