(* ===== verification/Scratch.v ===== *)
(** * Scratch: the hand-written checks ([praxis2/include/scratch1.c])

    Code that was linked into the programs to try things out: a check of the
    responsibility test on four inputs, and helpers that build and print
    entries.  Printing is modelled for the memory it reads. *)

From stdpp Require Import base tactics list numbers option gmap.
From S2P Require Import Prelude Packet Neighbour UtHash HashTable.

Definition create_entry (b : heap) (key : option (list cell)) (key_len : Z)
    (value : option (list cell)) (value_len : Z) : res (htable * heap) :=
  let '(ekey, b) := malloc_block b key_len in
  b ← memcpy_block b ekey key key_len;
  let '(evalue, b) := malloc_block b value_len in
  b ← memcpy_block b evalue value value_len;
  Ok (mkHtable ekey key_len evalue value_len, b).

(** Both strings are printed with [%s]; the result is the hash value printed. *)
Definition print_table_entry (b : heap) (entry : htable) : res Z :=
  ekey ← deref (b !! e_key entry);
  print_str ekey;;
  evalue ← deref (b !! e_value entry);
  print_str evalue;;
  k ← load_bytes (Some ekey) (e_key_len entry);
  Ok (i32 (HASH_JEN k)).

Definition print_packet (p : packet) : res unit :=
  (if key_len p <=? 0 then Ok tt else m ← deref (key p); print_str m);;
  (if value_len p <=? 0 then Ok tt else m ← deref (value p); print_str m).

Definition test_peer_is_responsible (pred_id peer_id hash_id desired_output : Z) : Z :=
  if peer_is_responsible pred_id peer_id hash_id =? desired_output then 1 else 0.

Definition all_tests_peer_is_responsible : Z :=
  let all_ok := 1 in
  let all_ok := if test_peer_is_responsible 138 202 111 0 =? 0 then 0 else all_ok in
  let all_ok := if test_peer_is_responsible 202 10 111 0 =? 0 then 0 else all_ok in
  let all_ok := if test_peer_is_responsible 10 74 111 0 =? 0 then 0 else all_ok in
  let all_ok := if test_peer_is_responsible 74 138 111 1 =? 0 then 0 else all_ok in
  all_ok.

(** The four checks pass. *)
Example all_tests_pass : all_tests_peer_is_responsible = 1.
Proof. reflexivity. Qed.

Lemma print_str_cells bs : print_str (cells bs) = if decide (0 ∈ bs) then Ok tt else Ub.
Proof.
  induction bs as [|b bs IH]; [done|].
  change (cells (b :: bs)) with (Some b :: cells bs). cbn [print_str]. rewrite IH.
  destruct (Z.eqb_spec b 0) as [->|Hb]; [rewrite decide_True by set_solver; done|].
  destruct (decide (0 ∈ bs)); [rewrite decide_True by set_solver|rewrite decide_False by set_solver];
    done.
Qed.

(** Keys are not NUL-terminated, yet printed as strings: an entry can be printed
    only when its key and its value happen to contain a NUL; otherwise the
    printing reads past the copy. *)
Theorem print_created_entry b key key_len value value_len k v :
  load_bytes key key_len = Ok k -> load_bytes value value_len = Ok v ->
  exists e b', create_entry b key key_len value value_len = Ok (e, b') /\
    print_table_entry b' e = if decide (0 ∈ k /\ 0 ∈ v) then Ok (i32 (HASH_JEN k)) else Ub.
Proof.
  intros Hk Hv. destruct (load_bytes_copy _ _ _ Hk) as [Ek ->].
  destruct (load_bytes_copy _ _ _ Hv) as [Ev ->]. unfold create_entry.
  destruct (malloc_block b (zlen k)) as [ek b1] eqn:E1. apply malloc_block_fresh in E1 as [Hek ->].
  rewrite (memcpy_block_ok _ ek key (zlen k) (cells k)), res_bind_Ok, insert_insert_eq;
    [|done|apply zlen_cells|by rewrite lookup_insert_eq].
  destruct (malloc_block _ (zlen v)) as [ev b2] eqn:E2. apply malloc_block_fresh in E2 as [Hev ->].
  apply lookup_insert_None in Hev as [Hev Hne].
  rewrite (memcpy_block_ok _ ev value (zlen v) (cells v)), res_bind_Ok, insert_insert_eq;
    [|done|apply zlen_cells|by rewrite lookup_insert_eq].
  do 2 eexists. split; [done|]. unfold print_table_entry. cbn [e_key e_value e_key_len].
  rewrite (lookup_insert_ne _ ev ek), !lookup_insert_eq by done. cbn [deref mbind res_bind].
  rewrite !print_str_cells.
  destruct (decide (0 ∈ k)); [|rewrite (decide_False (P := 0 ∈ k /\ 0 ∈ v)) by tauto; done].
  destruct (decide (0 ∈ v)); [|rewrite (decide_False (P := 0 ∈ k /\ 0 ∈ v)) by tauto; done].
  rewrite (decide_True (P := 0 ∈ k /\ 0 ∈ v)) by done. cbn [mbind res_bind]. by rewrite load_bytes_exact.
Qed.
